(** * securefs: the full-format directory engine (btree_dir.cpp)

    A shallow embedding of the paged B-tree directory of securefs: the
    free-page allocator, the node codec, the node cache and the B-tree
    engine, followed by the properties of the specification that were
    checked against it.

    Conventions.
    - [uint32_t] values are [Z] in [0, 2^32); wrap-around is written [wrap32].
    - bytes are [Byte.byte]; a buffer and the stream are [list byte].
    - a [BtreeNode*] is the page number under which the node sits in
      [m_node_cache] (the cache owns its nodes through [unique_ptr], so the
      address of a node is stable for as long as its key is in the map).
    - a C++ exception is the [Throw] outcome of the state-and-error monad
      [op]; behaviour the C++ standard leaves undefined ([back()] of an empty
      vector, [operator[]] out of range) is the exception [Undefined]. *)

From Stdlib Require Import ZArith Lia List Bool.
From Stdlib Require Import Strings.Byte Strings.String.
From stdpp Require Import functions base tactics option list gmap fin_maps.

Local Open Scope Z_scope.

(** ** Machine integers and bytes *)

Definition wrap32 (z : Z) : Z := z mod 2 ^ 32.
Definition wrap16 (z : Z) : Z := z mod 2 ^ 16.

Definition INVALID_PAGE : Z := 0xFFFFFFFF.

#[global] Instance byte_eq_decision : EqDecision byte := Byte.byte_eq_dec.

Definition byte_to_Z (b : byte) : Z := Z.of_N (Byte.to_N b).

Definition byte_of_Z (z : Z) : byte :=
  match Byte.of_N (Z.to_N (z mod 256)) with
  | Some b => b
  | None => x00
  end.

(** [to_little_endian]: the [w] low bytes of [v], least significant first. *)
Fixpoint to_little_endian (w : nat) (v : Z) : list byte :=
  match w with
  | O => []
  | S w' => byte_of_Z (Z.land v 255) :: to_little_endian w' (Z.shiftr v 8)
  end.

(** [from_little_endian]: the value of a little-endian byte sequence. *)
Fixpoint from_little_endian (bs : list byte) : Z :=
  match bs with
  | [] => 0
  | b :: bs' => Z.lor (byte_to_Z b) (Z.shiftl (from_little_endian bs') 8)
  end.

(** ** Exceptions and the state-and-error monad *)

Inductive exception : Type :=
| CorruptedDirectoryException
| ENAMETOOLONG
| out_of_range
| Undefined
| Nontermination.

Inductive outcome (A : Type) : Type :=
| Ok (a : A)
| Throw (e : exception).
Arguments Ok {A} a.
Arguments Throw {A} e.

Definition dir_check (condition : bool) : outcome unit :=
  if condition then Ok tt else Throw CorruptedDirectoryException.

(** ** Data model *)

Record DirEntry : Type := mkEntry {
  filename : list byte;
  id : list byte;
  type : Z
}.

Record BtreeNode : Type := mkNode {
  m_parent_num : Z;
  m_num : Z;
  m_child_indices : list Z;
  m_entries : list DirEntry;
  m_dirty : bool
}.

Record FreePage : Type := mkFreePage { next : Z; prev : Z }.

Record BtreeDirectory : Type := mkDir {
  m_stream : list byte;
  m_root_page : Z;
  m_start_free_page : Z;
  m_num_free_page : Z;
  m_node_cache : gmap Z BtreeNode
}.

Definition op (A : Type) : Type := BtreeDirectory → outcome (A * BtreeDirectory).

Definition ret {A} (a : A) : op A := fun d => Ok (a, d).
Definition throw {A} (e : exception) : op A := fun _ => Throw e.
Definition bind {A B} (m : op A) (k : A → op B) : op B :=
  fun d => match m d with
           | Ok (a, d') => k a d'
           | Throw e => Throw e
           end.
Definition lift {A} (o : outcome A) : op A :=
  fun d => match o with Ok a => Ok (a, d) | Throw e => Throw e end.
Definition gets {A} (f : BtreeDirectory → A) : op A := fun d => Ok (f d, d).
Definition modify (f : BtreeDirectory → BtreeDirectory) : op unit :=
  fun d => Ok (tt, f d).

Declare Scope op_scope.
Delimit Scope op_scope with op.
Bind Scope op_scope with op.
Notation "'do' x <- m ; k" := (bind m (fun x => k))
  (at level 10, x name, m at level 100, k at level 200,
   format "'[v' 'do'  x  <-  m ; '/' k ']'") : op_scope.
Notation "m ;; k" := (bind m (fun _ => k))
  (at level 100, k at level 200, right associativity) : op_scope.
Local Open Scope op_scope.

(** ** The missing header: constants and the name order

    [btree_dir.h] is not part of the sources at hand, so the constants it
    declares, the order on file names behind [DirEntry::operator<] and the
    content of uninitialised stack storage are parameters of the model. *)

Class Params : Type := mkParams {
  BLOCK_SIZE : nat;
  MAX_FILENAME_LENGTH : nat;
  ID_LENGTH : nat;
  MAX_NUM_ENTRIES : nat;
  BTREE_MAX_DEPTH : nat;
  (** [a < b] on file names, as used by [std::lower_bound] and
      [std::is_sorted] on entries *)
  name_less : list byte → list byte → bool;
  (** the byte found at index [i] of an uninitialised [std::array<char, _>] *)
  indeterminate : nat → byte
}.

(** ** The paged stream

    Modelled from the spec: the stream behind [m_stream] (section 4.1 and 6:
    [read(dst, off, len) -> bytes_read], [write], [size], [resize]); the
    stream is sparse, so the bytes a [resize] or a write past the end adds
    read as zero. *)

Definition stream_size (s : list byte) : Z := Z.of_nat (length s).

Definition stream_read (s : list byte) (off : Z) (len : nat) : list byte :=
  take len (drop (Z.to_nat off) s).

Definition stream_resize (s : list byte) (len : Z) : list byte :=
  resize (Z.to_nat len) x00 s.

Definition stream_write (s : list byte) (off : Z) (data : list byte) : list byte :=
  let o := Z.to_nat off in
  let s' := if decide (length s < o + length data)%nat
            then resize (o + length data) x00 s else s in
  take o s' ++ data ++ drop (o + length data) s'.

Definition set_stream (s : list byte) (d : BtreeDirectory) : BtreeDirectory :=
  mkDir s (m_root_page d) (m_start_free_page d) (m_num_free_page d) (m_node_cache d).
Definition set_cache (c : gmap Z BtreeNode) (d : BtreeDirectory) : BtreeDirectory :=
  mkDir (m_stream d) (m_root_page d) (m_start_free_page d) (m_num_free_page d) c.

(** ** Header accessors

    Modelled from the spec: the accessors of the three header scalars
    (section 4.6), declared in the missing header. *)

Definition get_root_page : op Z := gets m_root_page.
Definition get_start_free_page : op Z := gets m_start_free_page.
Definition get_num_free_page : op Z := gets m_num_free_page.
Definition set_root_page (v : Z) : op unit :=
  modify (fun d => mkDir (m_stream d) v (m_start_free_page d) (m_num_free_page d)
                         (m_node_cache d)).
Definition set_start_free_page (v : Z) : op unit :=
  modify (fun d => mkDir (m_stream d) (m_root_page d) v (m_num_free_page d)
                         (m_node_cache d)).
Definition set_num_free_page (v : Z) : op unit :=
  modify (fun d => mkDir (m_stream d) (m_root_page d) (m_start_free_page d) v
                         (m_node_cache d)).

Section Engine.
Context {P : Params}.

(** ** Free-page allocator *)

Definition page_offset (num : Z) : Z := num * Z.of_nat BLOCK_SIZE.

Definition read_block (num : Z) : op (list byte) :=
  do s <- gets m_stream;
  let buffer := stream_read s (page_offset num) BLOCK_SIZE in
  lift (dir_check (bool_decide (length buffer = BLOCK_SIZE)));;
  ret buffer.

Definition read_free_page (num : Z) : op FreePage :=
  do buffer <- read_block num;
  if decide (from_little_endian (take 4 buffer) ≠ 0)
  then throw CorruptedDirectoryException
  else ret {| next := from_little_endian (take 4 (drop 4 buffer));
              prev := from_little_endian (take 4 (drop 8 buffer)) |}.

(** [byte buffer[BLOCK_SIZE] = {}] with [next] and [prev] stored at offsets 4
    and 8 (which assumes [BLOCK_SIZE >= 12]). *)
Definition free_page_image (fp : FreePage) : list byte :=
  replicate 4 x00 ++ to_little_endian 4 (next fp) ++ to_little_endian 4 (prev fp)
    ++ replicate (BLOCK_SIZE - 12) x00.

Definition write_free_page (num : Z) (fp : FreePage) : op unit :=
  modify (fun d => set_stream (stream_write (m_stream d) (page_offset num)
                                 (free_page_image fp)) d).

Definition allocate_page : op Z :=
  do pg <- get_start_free_page;
  if decide (pg = INVALID_PAGE) then
    do s <- gets m_stream;
    let result := wrap32 (stream_size s / Z.of_nat BLOCK_SIZE) in
    modify (set_stream (stream_resize s (stream_size s + Z.of_nat BLOCK_SIZE)));;
    ret result
  else
    do fp <- read_free_page pg;
    do n <- get_num_free_page;
    set_num_free_page (wrap32 (n - 1));;
    set_start_free_page (next fp);;
    (if decide (next fp ≠ INVALID_PAGE) then
       do fp' <- read_free_page (next fp);
       do start <- get_start_free_page;
       write_free_page start {| next := next fp'; prev := INVALID_PAGE |}
     else ret tt);;
    ret pg.

Definition deallocate_page (num : Z) : op unit :=
  do s <- gets m_stream;
  if decide (page_offset num = stream_size s) then
    (* Special case where the stream can be shrinked *)
    modify (set_stream (stream_resize s (page_offset (wrap32 (num - 1)))))
  else
    (* Otherwise add the page to free list *)
    do start0 <- get_start_free_page;
    write_free_page num {| next := start0; prev := INVALID_PAGE |};;
    do start <- get_start_free_page;
    (if decide (start ≠ INVALID_PAGE) then
       do fp <- read_free_page start;
       write_free_page start {| next := next fp; prev := num |}
     else ret tt);;
    set_start_free_page num;;
    do n <- get_num_free_page;
    set_num_free_page (wrap32 (n + 1)).

(** ** Node codec *)

Definition read_little_endian_and_forward (w : nat) (buffer : list byte)
  : outcome (Z * list byte) :=
  if decide (w ≤ length buffer)%nat
  then Ok (from_little_endian (take w buffer), drop w buffer)
  else Throw CorruptedDirectoryException.

Definition read_and_forward (w : nat) (buffer : list byte)
  : outcome (list byte * list byte) :=
  if decide (w ≤ length buffer)%nat
  then Ok (take w buffer, drop w buffer)
  else Throw CorruptedDirectoryException.

(** A [std::string] built from a C string: the bytes before the first NUL. *)
Fixpoint c_str (bs : list byte) : list byte :=
  match bs with
  | [] => []
  | b :: bs' => if decide (b = x00) then [] else b :: c_str bs'
  end.

Fixpoint read_children (k : nat) (buffer : list byte) (acc : list Z)
  : outcome (list Z * list byte) :=
  match k with
  | O => Ok (acc, buffer)
  | S k' =>
      match read_little_endian_and_forward 4 buffer with
      | Ok (c, buffer') => read_children k' buffer' (acc ++ [c])
      | Throw e => Throw e
      end
  end.

Definition read_entry (buffer : list byte) : outcome (DirEntry * list byte) :=
  match read_and_forward (MAX_FILENAME_LENGTH + 1) buffer with
  | Throw e => Throw e
  | Ok (fname, b1) =>
      match read_and_forward ID_LENGTH b1 with
      | Throw e => Throw e
      | Ok (eid, b2) =>
          match read_and_forward 4 b2 with
          | Throw e => Throw e
          | Ok (ty, b3) =>
              (* filename.back() = 0; e.filename = filename.data() *)
              Ok (mkEntry (c_str (take MAX_FILENAME_LENGTH fname)) eid
                    (from_little_endian ty), b3)
          end
      end
  end.

Fixpoint read_entries (k : nat) (buffer : list byte) (acc : list DirEntry)
  : outcome (list DirEntry * list byte) :=
  match k with
  | O => Ok (acc, buffer)
  | S k' =>
      match read_entry buffer with
      | Ok (e, buffer') => read_entries k' buffer' (acc ++ [e])
      | Throw e => Throw e
      end
  end.

Definition set_children (cs : list Z) (n : BtreeNode) : BtreeNode :=
  mkNode (m_parent_num n) (m_num n) cs (m_entries n) (m_dirty n).
Definition set_entries (es : list DirEntry) (n : BtreeNode) : BtreeNode :=
  mkNode (m_parent_num n) (m_num n) (m_child_indices n) es (m_dirty n).

(** [BtreeNode::from_buffer]: appends what it decodes to the node's vectors
    and does not touch the dirty flag. *)
Definition from_buffer (n : BtreeNode) (buffer : list byte) : outcome BtreeNode :=
  match read_little_endian_and_forward 4 buffer with
  | Throw e => Throw e
  | Ok (flag, b1) =>
      if decide (flag = 0) then Ok n else
      match read_little_endian_and_forward 2 b1 with
      | Throw e => Throw e
      | Ok (child_num, b2) =>
          match read_little_endian_and_forward 2 b2 with
          | Throw e => Throw e
          | Ok (entry_num, b3) =>
              match read_children (Z.to_nat child_num) b3 (m_child_indices n) with
              | Throw e => Throw e
              | Ok (cs, b4) =>
                  match read_entries (Z.to_nat entry_num) b4 (m_entries n) with
                  | Throw e => Throw e
                  | Ok (es, _) => Ok (set_entries es (set_children cs n))
                  end
              end
          end
      end
  end.

(** The write cursor of [to_buffer]: the bytes written so far; the end of the
    buffer is [size] bytes from its start. *)
Definition write_and_forward (value : list byte) (size : nat) (written : list byte)
  : outcome (list byte) :=
  if decide (length written + length value ≤ size)%nat
  then Ok (written ++ value)
  else Throw CorruptedDirectoryException.

Definition write_little_endian_and_forward (w : nat) (value : Z) (size : nat)
    (written : list byte) : outcome (list byte) :=
  if decide (length written + w ≤ size)%nat
  then Ok (written ++ to_little_endian w value)
  else Throw CorruptedDirectoryException.

Fixpoint write_children (cs : list Z) (size : nat) (written : list byte)
  : outcome (list byte) :=
  match cs with
  | [] => Ok written
  | c :: cs' =>
      match write_little_endian_and_forward 4 c size written with
      | Ok written' => write_children cs' size written'
      | Throw e => Throw e
      end
  end.

(** The local [std::array<char, MAX_FILENAME_LENGTH + 1> filename] of
    [to_buffer]: not initialised, then the name and one NUL copied in. *)
Definition filename_array (name : list byte) : list byte :=
  name ++ [x00]
    ++ map indeterminate (seq (length name + 1) (MAX_FILENAME_LENGTH - length name)).

Definition write_entry (e : DirEntry) (size : nat) (written : list byte)
  : outcome (list byte) :=
  if decide (MAX_FILENAME_LENGTH < length (filename e))%nat
  then Throw ENAMETOOLONG
  else
    match write_and_forward (filename_array (filename e)) size written with
    | Throw x => Throw x
    | Ok w1 =>
        match write_and_forward (resize ID_LENGTH x00 (id e)) size w1 with
        | Throw x => Throw x
        | Ok w2 => write_and_forward (to_little_endian 4 (type e)) size w2
        end
    end.

Fixpoint write_entries (es : list DirEntry) (size : nat) (written : list byte)
  : outcome (list byte) :=
  match es with
  | [] => Ok written
  | e :: es' =>
      match write_entry e size written with
      | Ok written' => write_entries es' size written'
      | Throw x => Throw x
      end
  end.

(** [BtreeNode::to_buffer] over a buffer that holds [buffer] on entry: the
    encoded node, followed by what the buffer held before. *)
Definition to_buffer (n : BtreeNode) (buffer : list byte) : outcome (list byte) :=
  let size := length buffer in
  match write_little_endian_and_forward 4 1 size [] with
  | Throw x => Throw x
  | Ok w1 =>
      match write_little_endian_and_forward 2
              (wrap16 (Z.of_nat (length (m_child_indices n)))) size w1 with
      | Throw x => Throw x
      | Ok w2 =>
          match write_little_endian_and_forward 2
                  (wrap16 (Z.of_nat (length (m_entries n)))) size w2 with
          | Throw x => Throw x
          | Ok w3 =>
              match write_children (m_child_indices n) size w3 with
              | Throw x => Throw x
              | Ok w4 =>
                  match write_entries (m_entries n) size w4 with
                  | Throw x => Throw x
                  | Ok w5 => Ok (w5 ++ drop (length w5) buffer)
                  end
              end
          end
      end
  end.

(** ** The node class

    Modelled from the spec: the accessors of [BtreeNode] (section 3, "Node"),
    declared in the missing header. A node is a leaf when it has no child;
    the [mutable_] accessors set the dirty flag; a new node is empty and
    clean. *)

Definition is_leaf (n : BtreeNode) : bool := bool_decide (m_child_indices n = []).

Definition new_node (parent_num num : Z) : BtreeNode :=
  mkNode parent_num num [] [] false.

Definition clear_dirty (n : BtreeNode) : BtreeNode :=
  mkNode (m_parent_num n) (m_num n) (m_child_indices n) (m_entries n) false.

(** Reading through a node pointer; a pointer to a node that is no longer in
    the cache dangles. *)
Definition deref (p : Z) : op BtreeNode :=
  fun d => match m_node_cache d !! p with
           | Some n => Ok (n, d)
           | None => Throw Undefined
           end.

Definition store (p : Z) (n : BtreeNode) : op unit :=
  modify (fun d => set_cache (<[p := n]> (m_node_cache d)) d).

Definition mutable_entries (p : Z) (f : list DirEntry → list DirEntry) : op unit :=
  do n <- deref p;
  store p (mkNode (m_parent_num n) (m_num n) (m_child_indices n) (f (m_entries n)) true).

Definition mutable_children (p : Z) (f : list Z → list Z) : op unit :=
  do n <- deref p;
  store p (mkNode (m_parent_num n) (m_num n) (f (m_child_indices n)) (m_entries n) true).

Definition mutable_parent_page_number (p : Z) (parent : Z) : op unit :=
  do n <- deref p;
  store p (mkNode parent (m_num n) (m_child_indices n) (m_entries n) true).

(** ** Node cache *)

Definition read_node (num : Z) (n : BtreeNode) : op BtreeNode :=
  if decide (num = INVALID_PAGE) then throw CorruptedDirectoryException else
  do buffer <- read_block num;
  lift (from_buffer n buffer).

(** The local [byte buffer[BLOCK_SIZE]] of [write_node] is not initialised. *)
Definition write_node (num : Z) (n : BtreeNode) : op unit :=
  if decide (num = INVALID_PAGE) then throw CorruptedDirectoryException else
  do buffer <- lift (to_buffer n (map indeterminate (seq 0 BLOCK_SIZE)));
  modify (fun d => set_stream (stream_write (m_stream d) (page_offset num) buffer) d).

Fixpoint flush_nodes (l : list (Z * BtreeNode)) : op unit :=
  match l with
  | [] => ret tt
  | (k, n) :: l' =>
      (if m_dirty n then
         write_node (m_num n) n;;
         store k (clear_dirty n)
       else ret tt);;
      flush_nodes l'
  end.

Definition flush_cache : op unit :=
  do c <- gets m_node_cache;
  flush_nodes (map_to_list c).

Definition clear_cache : op unit := modify (set_cache ∅).

Definition retrieve_existing_node (num : Z) : op (option Z) :=
  do c <- gets m_node_cache;
  match c !! num with
  | Some _ => ret (Some num)
  | None => ret None
  end.

Definition retrieve_node (parent_num num : Z) : op Z :=
  do c <- gets m_node_cache;
  match c !! num with
  | Some n =>
      lift (dir_check (bool_decide (parent_num = INVALID_PAGE)
                       || bool_decide (parent_num = m_parent_num n)));;
      ret num
  | None =>
      do n <- read_node num (new_node parent_num num);
      store num n;;
      ret num
  end.

(** ** Searching *)

(** [std::lower_bound] as the standard libraries implement it: bisection. *)
Fixpoint lower_bound_loop {A} (lt : A → bool) (l : list A) (fuel first len : nat)
  : nat :=
  match fuel with
  | O => first
  | S fuel' =>
      if decide (len = 0)%nat then first else
      let half := (len / 2)%nat in
      match l !! (first + half)%nat with
      | Some x =>
          if lt x
          then lower_bound_loop lt l fuel' (first + half + 1)%nat (len - half - 1)%nat
          else lower_bound_loop lt l fuel' first half
      | None => first
      end
  end.

Definition lower_bound {A} (lt : A → bool) (l : list A) : nat :=
  lower_bound_loop lt l (length l) 0%nat (length l).

(** [DirEntry::operator<], against a name and against an entry. *)
Definition entry_less_name (name : list byte) (e : DirEntry) : bool :=
  name_less (filename e) name.
Definition entry_less (a b : DirEntry) : bool :=
  name_less (filename a) (filename b).

Definition get_root_node : op (option Z) :=
  do pg <- get_root_page;
  if decide (pg = INVALID_PAGE) then ret None else
  do n <- retrieve_node INVALID_PAGE pg;
  ret (Some n).

(** The loop of [find_node]; [fuel] is the number of iterations left. *)
Fixpoint find_node_loop (fuel : nat) (name : list byte) (n : Z)
  : op (option Z * nat * bool) :=
  match fuel with
  | O => throw CorruptedDirectoryException
  | S fuel' =>
      do nd <- deref n;
      let i := lower_bound (entry_less_name name) (m_entries nd) in
      if match m_entries nd !! i with
         | Some e => bool_decide (name = filename e)
         | None => false
         end
      then ret (Some n, i, true)
      else if is_leaf nd then ret (Some n, i, false)
      else
        match m_child_indices nd !! i with
        | None => throw out_of_range
        | Some c =>
            do n' <- retrieve_node (m_num nd) c;
            find_node_loop fuel' name n'
        end
  end.

Definition find_node (name : list byte) : op (option Z * nat * bool) :=
  do r <- get_root_node;
  match r with
  | None => ret (None, 0%nat, false)
  | Some n => find_node_loop BTREE_MAX_DEPTH name n
  end.

(** Conversion of a [uint32_t] to [int]. *)
Definition to_int (z : Z) : Z := if decide (z < 2 ^ 31) then z else z - 2 ^ 32.

Definition get_entry (name : list byte) : op (option (list byte * Z)) :=
  if decide (MAX_FILENAME_LENGTH < length name)%nat then throw ENAMETOOLONG else
  do r <- find_node name;
  match r with
  | (Some node, entry_index, true) =>
      do nd <- deref node;
      match m_entries nd !! entry_index with
      | None => throw out_of_range
      | Some e =>
          if decide (name = filename e)
          then ret (Some (id e, to_int (type e)))
          else ret None
      end
  | _ => ret None
  end.

(** ** Insertion *)

Definition insert_at {A} (i : nat) (x : A) (l : list A) : list A :=
  take i l ++ x :: drop i l.

Fixpoint adjust_children (parent : Z) (cs : list Z) : op unit :=
  match cs with
  | [] => ret tt
  | c :: cs' =>
      do child <- retrieve_existing_node c;
      match child with
      | Some p => mutable_parent_page_number p parent
      | None => ret tt
      end;;
      adjust_children parent cs'
  end.

Definition adjust_children_in_cache (n : Z) (parent : Z) : op unit :=
  do nd <- deref n;
  adjust_children parent (m_child_indices nd).

(** Modelled from the spec: the one-argument [adjust_children_in_cache] of the
    missing header ("re-parent those children"): the new parent is the node
    itself. *)
Definition adjust_children_in_cache_self (n : Z) : op unit :=
  do nd <- deref n;
  adjust_children_in_cache n (m_num nd).

(** [slice(c1, c2, index)] on the children and on the entries of [n] and
    [sibling]. *)
Definition slice_children (n sibling : Z) (index : nat) : op unit :=
  do nd <- deref n;
  if decide (length (m_child_indices nd) < index)%nat then throw Undefined else
  mutable_children sibling (fun _ => drop index (m_child_indices nd));;
  mutable_children n (take index).

Definition slice_entries (n sibling : Z) (index : nat) : op unit :=
  do nd <- deref n;
  if decide (length (m_entries nd) < index)%nat then throw Undefined else
  mutable_entries sibling (fun _ => drop index (m_entries nd));;
  mutable_entries n (take index).

Definition pop_back {A} (l : list A) : list A := take (length l - 1) l.

(** [insert_and_balance(n, e, additional_child, depth)], by recursion on
    [BTREE_MAX_DEPTH - depth]. *)
Fixpoint insert_and_balance_rec (budget : nat) (n : Z) (e : DirEntry)
    (additional_child : Z) : op unit :=
  match budget with
  | O => throw CorruptedDirectoryException
  | S budget' =>
      do nd <- deref n;
      let i := lower_bound (fun x => entry_less x e) (m_entries nd) in
      (if bool_decide (additional_child ≠ INVALID_PAGE) && negb (is_leaf nd) then
         if decide (length (m_child_indices nd) < i + 1)%nat then throw Undefined
         else mutable_children n (insert_at (i + 1) additional_child)
       else ret tt);;
      mutable_entries n (insert_at i e);;
      do nd <- deref n;
      if decide (MAX_NUM_ENTRIES < length (m_entries nd))%nat then
        do pg <- allocate_page;
        do sibling <- retrieve_node (m_parent_num nd) pg;
        do nd <- deref n;
        if decide (length (m_entries nd) / 2 = 0)%nat then throw Undefined else
        let middle_index := (length (m_entries nd) / 2 - 1)%nat in
        match m_entries nd !! middle_index with
        | None => throw Undefined
        | Some e' =>
            (if negb (is_leaf nd) then
               slice_children n sibling (middle_index + 1);;
               adjust_children_in_cache_self sibling
             else ret tt);;
            slice_entries n sibling (middle_index + 1);;
            mutable_entries n pop_back;;
            do nd <- deref n;
            if decide (m_parent_num nd = INVALID_PAGE) then
              do new_root_page <- allocate_page;
              do root <- retrieve_node INVALID_PAGE new_root_page;
              do nd <- deref n;
              mutable_children root (fun cs => cs ++ [m_num nd]);;
              do sd <- deref sibling;
              mutable_children root (fun cs => cs ++ [m_num sd]);;
              mutable_entries root (fun es => es ++ [e']);;
              set_root_page new_root_page;;
              mutable_parent_page_number n new_root_page;;
              mutable_parent_page_number sibling new_root_page
            else
              do parent <- retrieve_existing_node (m_parent_num nd);
              do sd <- deref sibling;
              match parent with
              | Some p => insert_and_balance_rec budget' p e' (m_num sd)
              | None =>
                  match budget' with
                  | O => throw CorruptedDirectoryException
                  | S _ => throw Undefined
                  end
              end
        end
      else ret tt
  end.

Definition insert_and_balance (n : Z) (e : DirEntry) (additional_child : Z)
    (depth : nat) : op unit :=
  insert_and_balance_rec (BTREE_MAX_DEPTH - depth) n e additional_child.

Definition add_entry (name : list byte) (eid : list byte) (ty : Z) : op bool :=
  if decide (MAX_FILENAME_LENGTH < length name)%nat then throw ENAMETOOLONG else
  do r <- find_node name;
  match r with
  | (_, _, true) => ret false
  | (None, _, false) =>
      do pg <- allocate_page;
      set_root_page pg;;
      do node <- get_root_node;
      match node with
      | None => throw Undefined
      | Some p =>
          mutable_entries p (fun es => es ++ [mkEntry name eid (wrap32 ty)]);;
          ret true
      end
  | (Some node, _, false) =>
      insert_and_balance node (mkEntry name eid (wrap32 ty)) INVALID_PAGE 0;;
      ret true
  end.

(** ** Removal *)

(** The [while] loop of [replace_with_sub_entry]. The source puts no bound on
    it; [fuel] bounds the walk, and a walk that outlasts it is reported as
    [Nontermination]. *)
Fixpoint rightmost_leaf (fuel : nat) (lchild : Z) : op Z :=
  match fuel with
  | O => throw Nontermination
  | S fuel' =>
      do ld <- deref lchild;
      if is_leaf ld then ret lchild else
      match last (m_child_indices ld) with
      | None => throw Undefined
      | Some c =>
          do lchild' <- retrieve_node (m_num ld) c;
          rightmost_leaf fuel' lchild'
      end
  end.

(** A walk that visits more pages than the cache and the stream hold has
    visited one of them twice, and then goes on for ever. *)
Definition walk_fuel (d : BtreeDirectory) : nat :=
  S (size (m_node_cache d) + length (m_stream d)).

Definition replace_with_sub_entry (n : Z) (index : nat) (depth : nat) : op Z :=
  lift (dir_check (bool_decide (depth < BTREE_MAX_DEPTH)%nat));;
  do nd <- deref n;
  if is_leaf nd then
    if decide (length (m_entries nd) ≤ index)%nat then throw Undefined else
    mutable_entries n (delete index);;
    ret n
  else
    match m_child_indices nd !! index with
    | None => throw out_of_range
    | Some c =>
        do lchild0 <- retrieve_node (m_num nd) c;
        do fuel <- gets walk_fuel;
        do lchild <- rightmost_leaf fuel lchild0;
        do nd <- deref n;
        if decide (length (m_entries nd) ≤ index)%nat then throw out_of_range else
        do ld <- deref lchild;
        match last (m_entries ld) with
        | None => throw Undefined
        | Some e =>
            mutable_entries n (<[index := e]>);;
            mutable_entries lchild pop_back;;
            ret lchild
        end
    end.

Definition del_node (n : Z) : op unit :=
  do nd <- deref n;
  deallocate_page (m_num nd);;
  modify (fun d => set_cache (delete (m_num nd) (m_node_cache d)) d).

Definition index_of (pg : Z) (l : list Z) : option nat :=
  fst <$> list_find (λ c, c = pg) l.

Definition find_sibling (parent node : Z) : op (nat * Z) :=
  do pd <- deref parent;
  do nd <- deref node;
  lift (dir_check (bool_decide (m_num pd = m_parent_num nd)));;
  let child_indices := m_child_indices pd in
  match index_of (m_num nd) child_indices with
  | None => throw CorruptedDirectoryException
  | Some index =>
      if decide (index + 1 = length child_indices)%nat then
        match index with
        | O => throw out_of_range
        | S index' =>
            match child_indices !! index' with
            | None => throw out_of_range
            | Some c =>
                do s <- retrieve_node (m_num pd) c;
                ret (index', s)
            end
        end
      else
        match child_indices !! (index + 1)%nat with
        | None => throw out_of_range
        | Some c =>
            do s <- retrieve_node (m_num pd) c;
            ret (index, s)
        end
  end.

(** [rotate(left, right, separator)], the separator being
    [parent->mutable_entries().at(entry_index)]. *)
Definition rotate (left right parent : Z) (entry_index : nat) : op unit :=
  do pd <- deref parent;
  match m_entries pd !! entry_index with
  | None => throw out_of_range
  | Some separator =>
      do ld <- deref left;
      do rd <- deref right;
      let temp_entries := m_entries ld ++ [separator] ++ m_entries rd in
      let middle := (length temp_entries / 2)%nat in
      match temp_entries !! middle with
      | None => throw out_of_range
      | Some separator' =>
          mutable_entries parent (<[entry_index := separator']>);;
          mutable_entries left (fun _ => take middle temp_entries);;
          mutable_entries right (fun _ => drop (middle + 1) temp_entries);;
          do ld <- deref left;
          do rd <- deref right;
          if negb (is_leaf ld) && negb (is_leaf rd) then
            let temp_children := m_child_indices ld ++ m_child_indices rd in
            if decide (length temp_children < middle + 1)%nat then throw Undefined else
            mutable_children left (fun _ => take (middle + 1) temp_children);;
            mutable_children right (fun _ => drop (middle + 1) temp_children);;
            adjust_children_in_cache_self left;;
            adjust_children_in_cache_self right
          else ret tt
      end
  end.

Definition merge (left right parent : Z) (entry_index : nat) : op unit :=
  do pd <- deref parent;
  match m_entries pd !! entry_index with
  | None => throw out_of_range
  | Some separator =>
      mutable_entries left (fun es => es ++ [separator]);;
      mutable_entries parent (delete entry_index);;
      do pd <- deref parent;
      do rd <- deref right;
      match index_of (m_num rd) (m_child_indices pd) with
      | None => throw Undefined
      | Some j =>
          mutable_children parent (delete j);;
          do rd <- deref right;
          mutable_entries left (fun es => es ++ m_entries rd);;
          do ld <- deref left;
          adjust_children_in_cache right (m_num ld);;
          do rd <- deref right;
          mutable_children left (fun cs => cs ++ m_child_indices rd);;
          del_node right
      end
  end.

(** [balance_up(n, depth)], by recursion on [BTREE_MAX_DEPTH - depth]. *)
Fixpoint balance_up_rec (budget : nat) (n : Z) : op unit :=
  match budget with
  | O => throw CorruptedDirectoryException
  | S budget' =>
      do nd <- deref n;
      if bool_decide (m_parent_num nd = INVALID_PAGE)
         && bool_decide (m_entries nd = [])
         && negb (bool_decide (m_child_indices nd = []))
      then
        lift (dir_check (bool_decide (length (m_child_indices nd) = 1%nat)));;
        adjust_children_in_cache n INVALID_PAGE;;
        do nd <- deref n;
        match head (m_child_indices nd) with
        | None => throw Undefined
        | Some c =>
            set_root_page c;;
            del_node n
        end
      else if bool_decide (m_parent_num nd = INVALID_PAGE)
              || bool_decide (MAX_NUM_ENTRIES / 2 ≤ length (m_entries nd))%nat
      then ret tt
      else
        do parent <- retrieve_existing_node (m_parent_num nd);
        match parent with
        | None => throw CorruptedDirectoryException
        | Some p =>
            do r <- find_sibling p n;
            let entry_index := fst r in
            let sibling := snd r in
            do nd <- deref n;
            do sd <- deref sibling;
            match last (m_entries nd), head (m_entries sd) with
            | Some a, Some b =>
                if decide (length (m_entries nd) + length (m_entries sd)
                           < MAX_NUM_ENTRIES)%nat
                then
                  if entry_less a b
                  then merge n sibling p entry_index
                  else merge sibling n p entry_index
                else
                  if entry_less a b
                  then rotate n sibling p entry_index
                  else rotate sibling n p entry_index
            | _, _ => throw Undefined
            end;;
            balance_up_rec budget' p
        end
  end.

Definition balance_up (n : Z) (depth : nat) : op unit :=
  balance_up_rec (BTREE_MAX_DEPTH - depth) n.

Definition remove_entry (name : list byte) : op (option (list byte * Z)) :=
  if decide (MAX_FILENAME_LENGTH < length name)%nat then throw ENAMETOOLONG else
  do r <- find_node name;
  match r with
  | (Some node, entry_index, true) =>
      do nd <- deref node;
      match m_entries nd !! entry_index with
      | None => throw out_of_range
      | Some e =>
          do leaf_node <- replace_with_sub_entry node entry_index 0;
          balance_up leaf_node 0;;
          ret (Some (id e, to_int (type e)))
      end
  | _ => ret None
  end.

(** ** Validation and iteration *)

(** [std::is_sorted]: no element is less than the one before it. *)
Fixpoint is_sorted (l : list DirEntry) : bool :=
  match l with
  | [] => true
  | a :: l' =>
      match l' with
      | [] => true
      | b :: _ => negb (entry_less b a) && is_sorted l'
      end
  end.

(** The [for] loop of [validate_node] over the entries [i, i + count) of
    [n]; [rec] is [validate_node] one level down. *)
Fixpoint validate_entries (rec : Z → op bool) (n : Z) (i count : nat) : op bool :=
  match count with
  | O => ret true
  | S count' =>
      do nd <- deref n;
      match m_entries nd !! i, m_child_indices nd !! i,
            m_child_indices nd !! (i + 1)%nat with
      | Some e, Some lc, Some rc =>
          do lchild <- retrieve_node (m_num nd) lc;
          do rchild <- retrieve_node (m_num nd) rc;
          do _ <- rec lchild;
          do _ <- rec rchild;
          do ld <- deref lchild;
          do rd <- deref rchild;
          match last (m_entries ld), head (m_entries rd) with
          | Some lb, Some rf =>
              if entry_less e lb || entry_less rf e then ret false
              else validate_entries rec n (i + 1)%nat count'
          | _, _ => throw Undefined
          end
      | _, _, _ => throw Undefined
      end
  end.

(** [validate_node(n, depth)], by recursion on [BTREE_MAX_DEPTH + 1 - depth]. *)
Fixpoint validate_node_rec (budget : nat) (n : Z) : op bool :=
  match budget with
  | O => ret false
  | S budget' =>
      do nd <- deref n;
      if negb (is_sorted (m_entries nd)) then ret false
      else if bool_decide (m_parent_num nd ≠ INVALID_PAGE)
              && (bool_decide (length (m_entries nd) < MAX_NUM_ENTRIES / 2)%nat
                  || bool_decide (MAX_NUM_ENTRIES < length (m_entries nd))%nat)
      then ret false
      else if negb (is_leaf nd)
      then validate_entries (validate_node_rec budget') n 0 (length (m_entries nd))
      else ret true
  end.

Definition validate_node (n : Z) (depth : nat) : op bool :=
  validate_node_rec (BTREE_MAX_DEPTH + 1 - depth) n.

Definition validate_btree_structure : op bool :=
  do root <- get_root_node;
  match root with
  | Some r => validate_node r 0
  | None => ret true
  end.

Fixpoint validate_free_list_loop (count : nat) (pg prev_pg : Z) : op bool :=
  match count with
  | O => ret (bool_decide (pg = INVALID_PAGE))
  | S count' =>
      do fp <- read_free_page pg;
      if decide (prev fp ≠ prev_pg) then ret false
      else validate_free_list_loop count' (next fp) pg
  end.

Definition validate_free_list : op bool :=
  do pg <- get_start_free_page;
  do n <- get_num_free_page;
  validate_free_list_loop (Z.to_nat n) pg INVALID_PAGE.

(** The second loop of [recursive_iterate]; [rec] is [recursive_iterate] one
    level down. The callback is modelled by the list of the entries it is
    handed, in call order. *)
Fixpoint iterate_children (rec : Z → op (list DirEntry)) (page : Z) (cs : list Z)
  : op (list DirEntry) :=
  match cs with
  | [] => ret []
  | c :: cs' =>
      do child <- retrieve_node page c;
      do out <- rec child;
      do outs <- iterate_children rec page cs';
      ret (out ++ outs)
  end.

Fixpoint recursive_iterate_rec (budget : nat) (n : Z) : op (list DirEntry) :=
  match budget with
  | O => throw CorruptedDirectoryException
  | S budget' =>
      do nd <- deref n;
      do outs <- iterate_children (recursive_iterate_rec budget') (m_num nd)
                   (m_child_indices nd);
      ret (m_entries nd ++ outs)
  end.

Definition recursive_iterate (n : Z) (depth : nat) : op (list DirEntry) :=
  recursive_iterate_rec (BTREE_MAX_DEPTH - depth) n.

Definition iterate_over_entries : op (list DirEntry) :=
  do root <- get_root_node;
  match root with
  | Some r => recursive_iterate r 0
  | None => ret []
  end.

End Engine.

(** ** A fresh directory and the reference parameters *)

Definition empty_directory : BtreeDirectory :=
  mkDir [] INVALID_PAGE INVALID_PAGE 0 ∅.

(** [std::string::operator<]: lexicographic on unsigned bytes. *)
Fixpoint bytes_less (a b : list byte) : bool :=
  match a, b with
  | _, [] => false
  | [], _ :: _ => true
  | x :: a', y :: b' =>
      if decide (byte_to_Z x < byte_to_Z y) then true
      else if decide (byte_to_Z y < byte_to_Z x) then false
      else bytes_less a' b'
  end.

(** The constants of the reference implementation, with the binary order on
    names and zeroed stack storage. *)
Definition reference_params : Params :=
  {| BLOCK_SIZE := 4096;
     MAX_FILENAME_LENGTH := 255;
     ID_LENGTH := 32;
     MAX_NUM_ENTRIES := 13;
     BTREE_MAX_DEPTH := 32;
     name_less := bytes_less;
     indeterminate := fun _ => x00 |}.

(** The constants of [p] with [less] for [DirEntry::operator<] on names, and
    with [m] for [MAX_NUM_ENTRIES]. *)
Definition with_order (less : list byte → list byte → bool) (p : Params) : Params :=
  {| BLOCK_SIZE := @BLOCK_SIZE p;
     MAX_FILENAME_LENGTH := @MAX_FILENAME_LENGTH p;
     ID_LENGTH := @ID_LENGTH p;
     MAX_NUM_ENTRIES := @MAX_NUM_ENTRIES p;
     BTREE_MAX_DEPTH := @BTREE_MAX_DEPTH p;
     name_less := less;
     indeterminate := @indeterminate p |}.

Definition with_max_entries (m : nat) (p : Params) : Params :=
  {| BLOCK_SIZE := @BLOCK_SIZE p;
     MAX_FILENAME_LENGTH := @MAX_FILENAME_LENGTH p;
     ID_LENGTH := @ID_LENGTH p;
     MAX_NUM_ENTRIES := m;
     BTREE_MAX_DEPTH := @BTREE_MAX_DEPTH p;
     name_less := @name_less p;
     indeterminate := @indeterminate p |}.

(** Running a sequence of operations, for the scenarios. *)
Definition name_of (s : string) : list byte := list_byte_of_string s.


(** * Notions used in the statements *)

Definition set_free_list (start num_free : Z) (d : BtreeDirectory) : BtreeDirectory :=
  mkDir (m_stream d) (m_root_page d) start num_free (m_node_cache d).

Section Images.
Context {P : Params}.

(** The bytes [to_buffer] produces for the children and for one entry. *)
Definition children_image (cs : list Z) : list byte :=
  concat (map (to_little_endian 4) cs).

Definition entry_image (e : DirEntry) : list byte :=
  filename_array (filename e) ++ resize ID_LENGTH x00 (id e)
    ++ to_little_endian 4 (type e).

Definition entries_image (es : list DirEntry) : list byte :=
  concat (map entry_image es).

Definition entry_size : nat := (MAX_FILENAME_LENGTH + 1 + ID_LENGTH + 4)%nat.

(** What the codec can represent: page numbers and types are [uint32_t], an
    id has [ID_LENGTH] bytes, a name is a C string of bounded length. *)
Definition encodable_entry (e : DirEntry) : Prop :=
  (x00 ∉ filename e)
  ∧ (length (filename e) ≤ MAX_FILENAME_LENGTH)%nat
  ∧ length (id e) = ID_LENGTH
  ∧ 0 ≤ type e < 2 ^ 32.

End Images.

(** A two-block stream whose page 1 is a free page, the only one of the free
    list; and the same with page 0 ahead of it in the list. *)
Definition one_free_page : BtreeDirectory :=
  mkDir (replicate 4096 x00
           ++ @free_page_image reference_params
                {| next := INVALID_PAGE; prev := INVALID_PAGE |})
        INVALID_PAGE 1 1 ∅.

Definition two_free_pages : BtreeDirectory :=
  mkDir (@free_page_image reference_params {| next := 1; prev := INVALID_PAGE |}
           ++ @free_page_image reference_params {| next := INVALID_PAGE; prev := 0 |})
        INVALID_PAGE 0 2 ∅.

(** A leaf with two entries and an internal node, for the reference layout. *)
Definition sample_entry (name : string) (b : byte) (ty : Z) : DirEntry :=
  mkEntry (name_of name) (replicate 32 b) ty.

Definition sample_node : BtreeNode :=
  mkNode 7 3 [4; 5; 6]
    [sample_entry "alpha" x01 0; sample_entry "beta" xff 4294967295] true.

Definition sample_image : list byte :=
  match @to_buffer reference_params sample_node (replicate 4096 xaa) with
  | Ok out => out
  | Throw _ => []
  end.


(** ** Scenarios *)

(** The state an operation leaves, and what it returns. *)
Definition state_after {A} (m : op A) (d : BtreeDirectory) : BtreeDirectory :=
  match m d with
  | Ok (_, d') => d'
  | Throw _ => d
  end.

Definition result_of {A} (m : op A) (d : BtreeDirectory) : outcome A :=
  match m d with
  | Ok (a, _) => Ok a
  | Throw e => Throw e
  end.

(** The id stored with a name in the scenarios: the first byte of the name,
    repeated. *)
Definition id_for {P : Params} (name : list byte) : list byte :=
  replicate ID_LENGTH (default x00 (head name)).

Fixpoint add_all {P : Params} (names : list string) : op (list bool) :=
  match names with
  | [] => ret []
  | s :: names' =>
      do b <- add_entry (name_of s) (id_for (name_of s)) 0;
      do bs <- add_all names';
      ret (b :: bs)
  end.

(** Closing the directory flushes the cache (the destructor); the directory
    opened next over the same stream and header starts with an empty cache. *)
Definition reopen {P : Params} : op unit := flush_cache;; clear_cache.

Definition overwrite_byte (offset : nat) (b : byte) : op unit :=
  modify (fun d => set_stream (<[offset := b]> (m_stream d)) d).

Section ReferenceScenarios.
#[local] Existing Instance reference_params.

(** Scenario 1, closed and reopened; and the same with byte 0 of block 0
    overwritten with 2 in between. *)
Definition built_five : BtreeDirectory :=
  state_after
    (add_all ["a"; "b"; "c"; "d"; "e"]%string;; reopen) empty_directory.

Definition built_five_bad_flag : BtreeDirectory :=
  state_after
    (add_all ["a"; "b"; "c"; "d"; "e"]%string;; flush_cache;;
     overwrite_byte 0 x02;; clear_cache) empty_directory.

(** Fourteen names under the reference constants: the root splits into the
    leaves of pages 0 and 1 under a new root on page 2. Then byte 8 of block
    0, the first byte of the first name of the left leaf, is overwritten with
    'z', which puts that leaf out of order. *)
Definition fourteen_names : list string :=
  ["01"; "02"; "03"; "04"; "05"; "06"; "07"; "08"; "09"; "10"; "11"; "12";
   "13"; "14"]%string.

Definition built_fourteen_unsorted_leaf : BtreeDirectory :=
  state_after
    (add_all fourteen_names;; flush_cache;;
     overwrite_byte 8 x7a;; clear_cache) empty_directory.

(** A root leaf that is full, and a tree of two levels whose right leaf (page
    1) is full; in both the free list is empty. *)
Definition full_root_leaf : BtreeDirectory :=
  state_after (add_all (take 13 fourteen_names)) empty_directory.

Definition full_right_leaf : BtreeDirectory :=
  state_after
    (add_all (fourteen_names ++ ["15"; "16"; "17"; "18"; "19"; "20"]%string))
    empty_directory.

Definition node_at (d : BtreeDirectory) (pg : Z) : BtreeNode :=
  default (new_node INVALID_PAGE pg) (m_node_cache d !! pg).

Definition entry_for (name : string) : DirEntry :=
  mkEntry (name_of name) (id_for (name_of name)) 0.

End ReferenceScenarios.

(** ** The tree as it can be observed *)

Section Observation.
Context {P : Params}.

(** What a page holds as a node: the cached node when the page is resident,
    otherwise what its block decodes to. *)
Definition node_content (d : BtreeDirectory) (pg : Z)
  : outcome (list Z * list DirEntry) :=
  match m_node_cache d !! pg with
  | Some n => Ok (m_child_indices n, m_entries n)
  | None =>
      match read_node pg (new_node INVALID_PAGE pg) d with
      | Ok (n, _) => Ok (m_child_indices n, m_entries n)
      | Throw e => Throw e
      end
  end.

(** [d'] holds the same tree as [d]: same stream, same header, every resident
    node still resident and untouched, and every page with the same content. *)
Definition same_tree (d d' : BtreeDirectory) : Prop :=
  m_stream d' = m_stream d
  ∧ m_root_page d' = m_root_page d
  ∧ m_start_free_page d' = m_start_free_page d
  ∧ m_num_free_page d' = m_num_free_page d
  ∧ m_node_cache d ⊆ m_node_cache d'
  ∧ ∀ pg, node_content d' pg = node_content d pg.

End Observation.


(** ** Cache updates of the engine, as functions on the cache *)

(** What the [mutable_] accessors leave in a node. *)
Definition with_entries (es : list DirEntry) (n : BtreeNode) : BtreeNode :=
  mkNode (m_parent_num n) (m_num n) (m_child_indices n) es true.
Definition with_children (cs : list Z) (n : BtreeNode) : BtreeNode :=
  mkNode (m_parent_num n) (m_num n) cs (m_entries n) true.
Definition with_parent (parent : Z) (n : BtreeNode) : BtreeNode :=
  mkNode parent (m_num n) (m_child_indices n) (m_entries n) true.

(** The cache after [adjust_children_in_cache]: the resident pages among [cs]
    get [parent] as their parent. *)
Definition reparent (parent : Z) (cs : list Z) (c : gmap Z BtreeNode)
  : gmap Z BtreeNode :=
  foldl (λ c ch, alter (with_parent parent) ch c) c cs.

Section Split.
Context {P : Params}.

(** A page that decodes to a node without a child or an entry: a free page
    or a page of zeros. *)
Definition blank_page (d : BtreeDirectory) (pg : Z) : Prop :=
  ∀ n0, read_node pg n0 d = Ok (n0, d).

(** The entries and the children of [nd] once [e] and [additional_child] are
    inserted, as [insert_and_balance] does before it looks at the size. *)
Definition entries_after_insert (nd : BtreeNode) (e : DirEntry) : list DirEntry :=
  insert_at (lower_bound (λ x, entry_less x e) (m_entries nd)) e (m_entries nd).

Definition children_after_insert (nd : BtreeNode) (e : DirEntry)
    (additional_child : Z) : list Z :=
  if bool_decide (additional_child ≠ INVALID_PAGE) && negb (is_leaf nd)
  then insert_at (lower_bound (λ x, entry_less x e) (m_entries nd) + 1)
         additional_child (m_child_indices nd)
  else m_child_indices nd.

Definition well_shaped (nd : BtreeNode) : Prop :=
  m_child_indices nd = [] ∨ length (m_child_indices nd) = S (length (m_entries nd)).

(** The node after the insertion, before the size is looked at. *)
Definition inserted (nd : BtreeNode) (e : DirEntry) (ac : Z) : BtreeNode :=
  mkNode (m_parent_num nd) (m_num nd) (children_after_insert nd e ac)
    (entries_after_insert nd e) true.

(** The middle index of the split of [len] entries. *)
Definition split_index (len : nat) : nat := (len / 2 - 1)%nat.

(** The two halves of the split of [nd], once [e] and [additional_child] are
    in: the node keeps the entries before the middle and the children up to
    it, the sibling on page [sp] gets what follows the middle. *)
Definition split_left (nd : BtreeNode) (e : DirEntry) (ac : Z) : BtreeNode :=
  let es := entries_after_insert nd e in
  let cs := children_after_insert nd e ac in
  let mid := split_index (length es) in
  mkNode (m_parent_num nd) (m_num nd) (take (mid + 1) cs) (take mid es) true.

Definition split_right (sp : Z) (nd : BtreeNode) (e : DirEntry) (ac : Z) : BtreeNode :=
  let es := entries_after_insert nd e in
  let cs := children_after_insert nd e ac in
  let mid := split_index (length es) in
  mkNode (m_parent_num nd) sp (drop (mid + 1) cs) (drop (mid + 1) es) true.

(** The children that move to the sibling. *)
Definition moved_children (nd : BtreeNode) (e : DirEntry) (ac : Z) : list Z :=
  drop (split_index (length (entries_after_insert nd e)) + 1)
    (children_after_insert nd e ac).

(** The cache after the split of the node on page [n] into itself and the
    sibling on page [sp]. *)
Definition split_cache (n sp : Z) (nd : BtreeNode) (e : DirEntry) (ac : Z)
    (c : gmap Z BtreeNode) : gmap Z BtreeNode :=
  <[n := split_left nd e ac]>
    (<[sp := split_right sp nd e ac]>
       (reparent sp (moved_children nd e ac) c)).

(** The cache after the split of the root: both halves under the new root on
    page [rp], which holds the promoted entry. *)
Definition new_root_cache (n sp rp : Z) (nd : BtreeNode) (e promoted : DirEntry)
    (ac : Z) (c : gmap Z BtreeNode) : gmap Z BtreeNode :=
  <[sp := with_parent rp (split_right sp nd e ac)]>
    (<[n := with_parent rp (split_left nd e ac)]>
       (<[rp := mkNode INVALID_PAGE rp [m_num nd; sp] [promoted] true]>
          (split_cache n sp nd e ac c))).

End Split.


(** ** The invariant of a resident tree *)

Section Invariant.
Context {P : Params}.

(** The number of entries under which [balance_up] and [validate_node] take
    a node that is not the root to be too empty. *)
Definition min_entries : nat := (MAX_NUM_ENTRIES / 2)%nat.

(** The least number of entries that the engine leaves in a node that is not
    the root: what the split of a node of [MAX_NUM_ENTRIES + 1] entries
    leaves in the left half. *)
Definition low_entries : nat := ((MAX_NUM_ENTRIES + 1) / 2 - 1)%nat.

(** What the engine asks of its constants: a block holds the header of a
    free page, and a node holds three entries at least. *)
Class ParamsOk : Prop := {
  block_size_min : (12 ≤ BLOCK_SIZE)%nat;
  max_entries_min : (3 ≤ MAX_NUM_ENTRIES)%nat
}.

Definition num_pages (d : BtreeDirectory) : nat :=
  (length (m_stream d) / BLOCK_SIZE)%nat.

Definition in_stream (d : BtreeDirectory) (pg : Z) : Prop :=
  0 ≤ pg < Z.of_nat (num_pages d).

(** The free list as it lies on the stream: the pages of [l], in order, each
    a free page whose [next] is the page after it, the last with
    [next = INVALID_PAGE]. *)
Fixpoint free_chain (d : BtreeDirectory) (start : Z) (l : list Z) : Prop :=
  match l with
  | [] => start = INVALID_PAGE
  | p :: l' =>
      start = p ∧ p ≠ INVALID_PAGE
      ∧ ∃ fp, read_free_page p d = Ok (fp, d) ∧ free_chain d (next fp) l'
  end.

(** The stream is a whole number of blocks, fewer than [INVALID_PAGE], and
    [fl] is its free list. *)
Record stream_ok (d : BtreeDirectory) (fl : list Z) : Prop := {
  so_aligned : length (m_stream d) = (num_pages d * BLOCK_SIZE)%nat;
  so_pages : Z.of_nat (num_pages d) ≤ INVALID_PAGE;
  so_chain : free_chain d (m_start_free_page d) fl;
  so_nodup : NoDup fl;
  so_range : ∀ p, p ∈ fl → in_stream d p
}.

(** While [insert_and_balance] climbs, the sibling it carries is in no
    children list yet; while [balance_up] climbs, the node it looks at may
    be one entry short. *)
Inductive focus : Type :=
| NoFocus
| Orphan (pg : Z)
| Deficient (pg : Z).

#[global] Instance focus_eq_dec : EqDecision focus.
Proof. solve_decision. Defined.

(** What holds of the node [nd] resident on page [pg]; [h] gives the height
    of every page of the tree. *)
Record node_ok (d : BtreeDirectory) (h : Z → nat) (f : focus) (pg : Z)
    (nd : BtreeNode) : Prop := {
  ok_num : m_num nd = pg;
  ok_range : in_stream d pg;
  ok_shape : well_shaped nd;
  ok_nodup : NoDup (m_child_indices nd);
  ok_children :
    ∀ c, c ∈ m_child_indices nd →
         ∃ cd, m_node_cache d !! c = Some cd ∧ m_parent_num cd = pg;
  ok_leaf : m_child_indices nd = [] → h pg = 0%nat;
  ok_root : m_parent_num nd = INVALID_PAGE → pg = m_root_page d;
  ok_parent :
    m_parent_num nd ≠ INVALID_PAGE →
    S (h pg) = h (m_parent_num nd)
    ∧ ∃ pd, m_node_cache d !! m_parent_num nd = Some pd
            ∧ (pg ∈ m_child_indices pd ∨ f = Orphan pg);
  ok_max : (length (m_entries nd) ≤ MAX_NUM_ENTRIES)%nat;
  ok_min :
    m_parent_num nd ≠ INVALID_PAGE →
    (low_entries ≤ length (m_entries nd) + (if decide (f = Deficient pg) then 1 else 0))%nat;
  ok_root_entries :
    m_parent_num nd = INVALID_PAGE → m_child_indices nd ≠ [] →
    f ≠ Deficient pg → (1 ≤ length (m_entries nd))%nat
}.

(** The whole tree is resident and well formed: [fl] is the free list, [h]
    the heights, [H] the height of the root. *)
Record tree_ok (d : BtreeDirectory) (fl : list Z) (h : Z → nat) (H : nat)
    (f : focus) : Prop := {
  to_stream : stream_ok d fl;
  to_nodes : ∀ pg nd, m_node_cache d !! pg = Some nd → node_ok d h f pg nd;
  to_free : ∀ p, p ∈ fl → m_node_cache d !! p = None;
  to_empty : m_root_page d = INVALID_PAGE → m_node_cache d = ∅;
  to_root :
    m_root_page d ≠ INVALID_PAGE →
    ∃ rd, m_node_cache d !! m_root_page d = Some rd
          ∧ m_parent_num rd = INVALID_PAGE ∧ h (m_root_page d) = H
}.

(** What [insert_and_balance] is handed: a leaf and no child, or an internal
    node together with the sibling that the split one level down has made,
    resident and pointing at the node, but in no children list yet. *)
Definition insert_pre (d : BtreeDirectory) (f : focus) (p : Z) (pd : BtreeNode)
    (ac : Z) : Prop :=
  (ac = INVALID_PAGE ∧ f = NoFocus ∧ m_child_indices pd = [])
  ∨ (ac ≠ INVALID_PAGE ∧ f = Orphan ac ∧ m_child_indices pd ≠ []
     ∧ (ac ∉ m_child_indices pd)
     ∧ ∃ ad, m_node_cache d !! ac = Some ad ∧ m_parent_num ad = p).

End Invariant.

Arguments so_aligned {P d fl} _.
Arguments so_pages {P d fl} _.
Arguments so_chain {P d fl} _.
Arguments so_nodup {P d fl} _.
Arguments so_range {P d fl} _ p _.
Arguments ok_num {P d h f pg nd} _.
Arguments ok_range {P d h f pg nd} _.
Arguments ok_shape {P d h f pg nd} _.
Arguments ok_nodup {P d h f pg nd} _.
Arguments ok_children {P d h f pg nd} _ c _.
Arguments ok_leaf {P d h f pg nd} _ _.
Arguments ok_root {P d h f pg nd} _ _.
Arguments ok_parent {P d h f pg nd} _ _.
Arguments ok_max {P d h f pg nd} _.
Arguments ok_min {P d h f pg nd} _ _.
Arguments ok_root_entries {P d h f pg nd} _ _ _ _.
Arguments to_stream {P d fl h H f} _.
Arguments to_nodes {P d fl h H f} _ pg nd _.
Arguments to_free {P d fl h H f} _ p _.
Arguments to_empty {P d fl h H f} _ _.
Arguments to_root {P d fl h H f} _ _.


(** ** The caches that a removal leaves *)

Section Rebalance.
Context {P : Params}.

(** [merge(left, right, parent, entry_index)]: the left node takes the
    separator, the entries and the children of the right one; the parent
    loses the separator and the right node, at index [j] of its children. *)
Definition merged (ld rd : BtreeNode) (separator : DirEntry) : BtreeNode :=
  mkNode (m_parent_num ld) (m_num ld)
    (m_child_indices ld ++ m_child_indices rd)
    ((m_entries ld ++ [separator]) ++ m_entries rd) true.

Definition merge_parent (qd : BtreeNode) (entry_index j : nat) : BtreeNode :=
  mkNode (m_parent_num qd) (m_num qd) (delete j (m_child_indices qd))
    (delete entry_index (m_entries qd)) true.

Definition merge_cache (l r q : Z) (ld rd qd : BtreeNode) (entry_index j : nat)
    (separator : DirEntry) (c : gmap Z BtreeNode) : gmap Z BtreeNode :=
  delete r
    (<[l := merged ld rd separator]>
       (reparent l (m_child_indices rd)
          (<[q := merge_parent qd entry_index j]> c))).

(** [rotate(left, right, separator)]: the entries of both nodes and the
    separator between them are dealt out again around the middle one, which
    becomes the separator; the children follow. *)
Definition rotate_entries (ld rd : BtreeNode) (separator : DirEntry)
  : list DirEntry :=
  m_entries ld ++ [separator] ++ m_entries rd.

Definition rotate_middle (ld rd : BtreeNode) : nat :=
  (S (length (m_entries ld) + length (m_entries rd)) / 2)%nat.

Definition rotate_children (ld rd : BtreeNode) : list Z :=
  m_child_indices ld ++ m_child_indices rd.

Definition rotated_left (ld rd : BtreeNode) (separator : DirEntry) : BtreeNode :=
  mkNode (m_parent_num ld) (m_num ld)
    (take (rotate_middle ld rd + 1) (rotate_children ld rd))
    (take (rotate_middle ld rd) (rotate_entries ld rd separator)) true.

Definition rotated_right (ld rd : BtreeNode) (separator : DirEntry) : BtreeNode :=
  mkNode (m_parent_num rd) (m_num rd)
    (drop (rotate_middle ld rd + 1) (rotate_children ld rd))
    (drop (rotate_middle ld rd + 1) (rotate_entries ld rd separator)) true.

Definition rotate_cache (l r q : Z) (ld rd qd : BtreeNode) (entry_index : nat)
    (separator separator' : DirEntry) (c : gmap Z BtreeNode)
  : gmap Z BtreeNode :=
  <[r := rotated_right ld rd separator]>
    (<[l := rotated_left ld rd separator]>
       (reparent r (drop (rotate_middle ld rd + 1) (rotate_children ld rd))
          (reparent l (take (rotate_middle ld rd + 1) (rotate_children ld rd))
             (<[q := with_entries (<[entry_index := separator']> (m_entries qd)) qd]>
                c)))).

(** The root without an entry goes, and its only child [c] is the root. *)
Definition collapse_cache (n c : Z) (cache : gmap Z BtreeNode)
  : gmap Z BtreeNode :=
  delete n (reparent INVALID_PAGE [c] cache).

(** ** Directories made by the public operations *)

(** The stream has room for the pages that one insertion may allocate. *)
Definition room (d : BtreeDirectory) : Prop :=
  Z.of_nat (num_pages d) + Z.of_nat BTREE_MAX_DEPTH + 1 < INVALID_PAGE.

(** The pages of the tree: the root and the children of the nodes of the
    tree, as the cache has them. *)
Inductive in_tree (d : BtreeDirectory) : Z → Prop :=
| in_tree_root :
    m_root_page d ≠ INVALID_PAGE → in_tree d (m_root_page d)
| in_tree_child pg nd c :
    in_tree d pg → m_node_cache d !! pg = Some nd →
    c ∈ m_child_indices nd → in_tree d c.

(** The directories that [add_entry] and [remove_entry] make of the empty
    one, as long as the stream has room for the pages of an insertion. *)
Inductive reachable : BtreeDirectory → Prop :=
| reach_empty : reachable empty_directory
| reach_add d name eid ty b d' :
    reachable d → room d →
    add_entry name eid ty d = Ok (b, d') → reachable d'
| reach_remove d name r d' :
    reachable d →
    remove_entry name d = Ok (r, d') → reachable d'.

#[global] Instance room_dec d : Decision (room d).
Proof. unfold room. apply _. Defined.

(** Every node of the tree other than the root holds between [lo] and
    [MAX_NUM_ENTRIES] entries. *)
Definition fill_between (lo : nat) (d : BtreeDirectory) : Prop :=
  ∀ pg, in_tree d pg → pg ≠ m_root_page d →
    ∃ nd, m_node_cache d !! pg = Some nd
          ∧ (lo ≤ length (m_entries nd) ≤ MAX_NUM_ENTRIES)%nat.

(** A sequence of public operations, and the directory it makes of [d]: the
    names are added with the ids of the scenarios and type 0. *)
Inductive action : Type :=
| Add (name : string)
| Remove (name : string).

Fixpoint run (script : list action) (d : BtreeDirectory)
  : option BtreeDirectory :=
  match script with
  | [] => Some d
  | Add name :: script' =>
      if decide (room d) then
        match add_entry (name_of name) (id_for (name_of name)) 0 d with
        | Ok (_, d') => run script' d'
        | Throw _ => None
        end
      else None
  | Remove name :: script' =>
      match remove_entry (name_of name) d with
      | Ok (_, d') => run script' d'
      | Throw _ => None
      end
  end.

Definition after (script : list action) : BtreeDirectory :=
  default empty_directory (run script empty_directory).

End Rebalance.

(** Scripts of the scenarios: fourteen names split the root leaf of the
    reference constants; the fifteenth goes to the right leaf, and the
    removal of the first leaves the left leaf one short, which a [rotate]
    mends. Five names split the root leaf when [MAX_NUM_ENTRIES] is 4. *)
Definition fourteen_adds : list action := map Add fourteen_names.

Definition fifteen_then_remove : list action :=
  map Add (fourteen_names ++ ["15"]%string) ++ [Remove "01"%string].

Definition five_adds : list action :=
  map Add ["01"; "02"; "03"; "04"; "05"]%string.



(** ** An entry added and removed again: what the statements need *)

Section AddRemoveDefs.
Context {P : Params}.

(** [k] is where the elements for which [lt] holds end in [l]: the range
    is partitioned as [std::lower_bound] asks. *)
Definition partition_point {A} (lt : A → bool) (l : list A) (k : nat) : Prop :=
  (k ≤ length l)%nat
  ∧ (∀ j x, l !! j = Some x → (j < k)%nat → lt x = true)
  ∧ (∀ j x, l !! j = Some x → (k ≤ j)%nat → lt x = false).

Definition entry_lt (a b : DirEntry) : Prop := entry_less a b = true.

(** The entries are in ascending order of their names. *)
Definition sorted_entries (es : list DirEntry) : Prop :=
  ∀ j k a b, es !! j = Some a → es !! k = Some b → (j < k)%nat → entry_lt a b.


End AddRemoveDefs.


(** ** Notions for the properties of the tree as a whole *)

Section TreeNotions.
Context {P : Params}.

(** The page [pg] lies [k] levels below the root. *)
Inductive at_depth (d : BtreeDirectory) : Z → nat → Prop :=
| depth_root :
    m_root_page d ≠ INVALID_PAGE → at_depth d (m_root_page d) 0
| depth_child pg nd c k :
    at_depth d pg k → m_node_cache d !! pg = Some nd →
    c ∈ m_child_indices nd → at_depth d c (S k).

(** The page [pg] is a leaf of the resident tree. *)
Definition leaf_page (d : BtreeDirectory) (pg : Z) : Prop :=
  ∃ nd, m_node_cache d !! pg = Some nd ∧ m_child_indices nd = [].

(** The page [x] is [a] or lies under it. *)
Inductive below (d : BtreeDirectory) (a : Z) : Z → Prop :=
| below_refl : below d a a
| below_child pg nd c :
    below d a pg → m_node_cache d !! pg = Some nd →
    c ∈ m_child_indices nd → below d a c.

(** The entry [e] is stored in some node of the cache. *)
Definition stored (d : BtreeDirectory) (e : DirEntry) : Prop :=
  ∃ pg nd, m_node_cache d !! pg = Some nd ∧ e ∈ m_entries nd.

End TreeNotions.

(** ** The free list with its back links *)

Section FreeList.
Context {P : Params}.

(** The pages of [l], in order, are free pages linked both ways: [next] of
    each is the page after it, [INVALID_PAGE] for the last, and [prev] of
    each is the page before it, [before] for the first. *)
Fixpoint free_links (d : BtreeDirectory) (before start : Z) (l : list Z) : Prop :=
  match l with
  | [] => start = INVALID_PAGE
  | p :: l' =>
      start = p
      ∧ ∃ fp, read_free_page p d = Ok (fp, d) ∧ prev fp = before
              ∧ free_links d p (next fp) l'
  end.

(** The header and the stream describe the free list [fl]: its pages are
    distinct pages of the stream, linked both ways from [start_free_page],
    and [num_free_page] counts them. *)
Record free_list_ok (d : BtreeDirectory) (fl : list Z) : Prop := {
  flo_stream : stream_ok d fl;
  flo_links : free_links d INVALID_PAGE (m_start_free_page d) fl;
  flo_count : m_num_free_page d = Z.of_nat (length fl)
}.

End FreeList.

Arguments flo_stream {P d fl} _.
Arguments flo_links {P d fl} _.
Arguments flo_count {P d fl} _.


(** ** The order of the names in the tree *)

Section KeyOrder.
Context {P : Params}.

(** What the engine asks of [DirEntry::operator<]: a strict total order on
    names, as [std::string::operator<] is. *)
Class NameOrder : Prop := {
  name_less_irrefl : ∀ a, name_less a a = false;
  name_less_trans :
    ∀ a b c, name_less a b = true → name_less b c = true → name_less a c = true;
  name_less_total : ∀ a b, name_less a b = false → name_less b a = false → a = b
}.

(** The names that may occur in a subtree lie between two bounds, either of
    which may be missing. *)
Definition bound : Type := option (list byte).

Definition above (lo : bound) (x : list byte) : Prop :=
  match lo with Some a => name_less a x = true | None => True end.

Definition beneath (x : list byte) (hi : bound) : Prop :=
  match hi with Some b => name_less x b = true | None => True end.

(** The bounds of the [i]-th child of a node with the entries [es] and the
    bounds [lo] and [hi]: the entries on either side of the child. *)
Definition child_lo (es : list DirEntry) (lo : bound) (i : nat) : bound :=
  match i with
  | O => lo
  | S j => filename <$> es !! j
  end.

Definition child_hi (es : list DirEntry) (hi : bound) (i : nat) : bound :=
  match es !! i with
  | Some e => Some (filename e)
  | None => hi
  end.

(** The entries [es] and the children [cs] are in order between [blo] and
    [bhi]: the entries ascend strictly between the bounds, and every child
    has the entries around it as its bounds; [lo] and [hi] give the bounds of
    every page. The upper bound of the child [ex] is left open. *)
Record keys_at (lo hi : Z → bound) (ex : option Z) (blo bhi : bound)
    (es : list DirEntry) (cs : list Z) : Prop := {
  ka_sorted : sorted_entries es;
  ka_above : ∀ e, e ∈ es → above blo (filename e);
  ka_beneath : ∀ e, e ∈ es → beneath (filename e) bhi;
  ka_lo : ∀ i c, cs !! i = Some c → lo c = child_lo es blo i;
  ka_hi : ∀ i c, cs !! i = Some c → ex ≠ Some c → hi c = child_hi es bhi i
}.

(** The resident tree is a search tree: every node is in order between its
    bounds, and the root has none. While [insert_and_balance] climbs with
    the sibling [sp] that the split of [c] has made, [g] is [(c, sp)]: the
    parent does not yet hold the entry that separates the two. *)
Record keys_ok (d : BtreeDirectory) (lo hi : Z → bound) (g : option (Z * Z))
  : Prop := {
  ko_nodes :
    ∀ pg nd, m_node_cache d !! pg = Some nd →
      keys_at lo hi (fst <$> g) (lo pg) (hi pg) (m_entries nd) (m_child_indices nd);
  ko_root :
    m_root_page d ≠ INVALID_PAGE →
    lo (m_root_page d) = None ∧ hi (m_root_page d) = None;
  ko_pending :
    ∀ c sp, g = Some (c, sp) →
      ∃ x, lo sp = Some x ∧ hi c = Some x ∧ above (lo c) x ∧ beneath x (hi sp)
        ∧ ∀ q qd i, m_node_cache d !! q = Some qd →
             m_child_indices qd !! i = Some c →
             hi sp = child_hi (m_entries qd) (hi q) i
}.

(** The entries of all resident nodes, each as often as it is stored. *)
Definition contents (d : BtreeDirectory) : list DirEntry :=
  concat (map_to_list (m_entries <$> m_node_cache d)).*2.

(** The page [s] is reached from [c] by taking the last child of each node,
    as the loop of [replace_with_sub_entry] does. *)
Inductive spine (d : BtreeDirectory) : Z → Z → Prop :=
| spine_refl c : spine d c c
| spine_step c cd t s :
    m_node_cache d !! c = Some cd → last (m_child_indices cd) = Some t →
    spine d t s → spine d c s.

(** A bound after the name [x] has given way to [x']. *)
Definition rebound (x x' : list byte) (b : bound) : bound :=
  if decide (b = Some x) then Some x' else b.

(** The resident tree is a well-formed search tree. *)
Definition sorted_dir (d : BtreeDirectory) : Prop :=
  ∃ fl h H lo hi, tree_ok d fl h H NoFocus ∧ keys_ok d lo hi None.

End KeyOrder.

Arguments ka_sorted {P lo hi ex blo bhi es cs} _.
Arguments ka_above {P lo hi ex blo bhi es cs} _ e _.
Arguments ka_beneath {P lo hi ex blo bhi es cs} _ e _.
Arguments ka_lo {P lo hi ex blo bhi es cs} _ i c _.
Arguments ka_hi {P lo hi ex blo bhi es cs} _ i c _ _.
Arguments ko_nodes {P d lo hi g} _ pg nd _.
Arguments ko_root {P d lo hi g} _ _.
Arguments ko_pending {P d lo hi g} _ c sp _.

Section InsertKeys.
Context {P : Params}.

(** The entries of the node resident on page [k], none when it is not
    resident. *)
Definition entries_at (c : gmap Z BtreeNode) (k : Z) : list DirEntry :=
  default [] (m_entries <$> c !! k).

(** What [insert_and_balance] is handed, as to the order: at a leaf, an
    entry whose name lies within the bounds of the leaf and is none of its
    names; further up, the entry that separates the node [c0] that has been
    split from the sibling [ac]. *)
Definition insert_keys (lo hi : Z → bound) (g : option (Z * Z)) (p : Z)
    (pd : BtreeNode) (e : DirEntry) (ac : Z) : Prop :=
  (ac = INVALID_PAGE ∧ g = None
   ∧ above (lo p) (filename e) ∧ beneath (filename e) (hi p)
   ∧ ∀ a, a ∈ m_entries pd → filename a ≠ filename e)
  ∨ (ac ≠ INVALID_PAGE
     ∧ ∃ c0, g = Some (c0, ac) ∧ c0 ∈ m_child_indices pd
             ∧ lo ac = Some (filename e)).

End InsertKeys.


(** ** Nodes on the stream: what [flush_cache] leaves and [retrieve_node]
    finds *)

Section Persistence.
Context {P : Params}.

(** The block of page [pg] holds the node [nd]: [read_node] fills a new node
    with the children and the entries of [nd]. *)
Definition on_disk (d : BtreeDirectory) (pg : Z) (nd : BtreeNode) : Prop :=
  ∀ parent,
    read_node pg (new_node parent pg) d
    = Ok (mkNode parent pg (m_child_indices nd) (m_entries nd) false, d).

(** The node [nd], resident on page [pg], can be written out: it has the
    page as its number, no more entries or children than a node may have,
    and the format can represent them. *)
Definition savable (pg : Z) (nd : BtreeNode) : Prop :=
  m_num nd = pg ∧ 0 ≤ pg < INVALID_PAGE
  ∧ (length (m_entries nd) ≤ MAX_NUM_ENTRIES)%nat
  ∧ (length (m_child_indices nd) ≤ MAX_NUM_ENTRIES + 1)%nat
  ∧ Forall encodable_entry (m_entries nd)
  ∧ Forall (λ c, 0 ≤ c < 2 ^ 32) (m_child_indices nd).

(** A block has room for a full node, and the counts of a full node fit
    their two bytes. *)
Definition node_fits : Prop :=
  (8 + 4 * (MAX_NUM_ENTRIES + 1) + entry_size * MAX_NUM_ENTRIES ≤ BLOCK_SIZE)%nat
  ∧ Z.of_nat BLOCK_SIZE ≤ 262144.

(** The same node, but for the dirty flag. *)
Definition same_node (a b : BtreeNode) : Prop :=
  m_parent_num a = m_parent_num b ∧ m_num a = m_num b
  ∧ m_child_indices a = m_child_indices b ∧ m_entries a = m_entries b.

(** [d0] is the directory [di] with its whole tree resident: what is
    resident in [di] is resident in [d0] and the same but for the dirty
    flag, and every node of [d0] that is not resident in [di] is on the
    stream of [di], where [retrieve_node] finds it. A directory whose nodes
    are all resident is its own, and so is a directory that has been
    written out and opened again, with the directory before as [d0]. *)
Record loaded (d0 di : BtreeDirectory) : Prop := {
  loaded_root : m_root_page di = m_root_page d0;
  loaded_cache :
    ∀ pg nd, m_node_cache di !! pg = Some nd →
      ∃ nd0, m_node_cache d0 !! pg = Some nd0 ∧ same_node nd nd0;
  loaded_disk :
    ∀ pg nd0, m_node_cache d0 !! pg = Some nd0 → m_node_cache di !! pg = None →
      on_disk di pg nd0
}.

(** Every resident node has been through a [mutable_] accessor since it
    became resident, and is dirty. *)
Definition dirty_cache (c : gmap Z BtreeNode) : Prop :=
  ∀ pg nd, c !! pg = Some nd → m_dirty nd = true.

Definition all_dirty (d : BtreeDirectory) : Prop := dirty_cache (m_node_cache d).

(** The cache after the loop of [flush_cache] over [l]. *)
Definition flushed (l : list (Z * BtreeNode)) (c : gmap Z BtreeNode)
  : gmap Z BtreeNode :=
  foldl (λ c kn, if m_dirty kn.2 then <[kn.1 := clear_dirty kn.2]> c else c) c l.

End Persistence.

Arguments loaded_root {P d0 di} _.
Arguments loaded_cache {P d0 di} _ pg nd _.
Arguments loaded_disk {P d0 di} _ pg nd0 _ _.



(** * Properties *)

(** ** Bytes and little-endian integers *)

Lemma byte_to_Z_range b : 0 ≤ byte_to_Z b < 256.
Proof.
  unfold byte_to_Z. pose proof (Byte.to_N_bounded b). lia.
Qed.

Lemma byte_to_of_Z z : byte_to_Z (byte_of_Z z) = z mod 256.
Proof.
  unfold byte_to_Z, byte_of_Z.
  assert (Hr : 0 ≤ z mod 256 < 256) by (apply Z.mod_pos_bound; lia).
  destruct (Byte.of_N (Z.to_N (z mod 256))) as [b|] eqn:E.
  - apply Byte.to_of_N in E. rewrite E. lia.
  - apply Byte.of_N_None_iff in E. lia.
Qed.

Lemma byte_of_to_Z b : byte_of_Z (byte_to_Z b) = b.
Proof.
  unfold byte_to_Z, byte_of_Z.
  pose proof (Byte.to_N_bounded b) as Hb.
  rewrite Z.mod_small by lia. rewrite N2Z.id, Byte.of_to_N. reflexivity.
Qed.

Lemma lor_shiftl_8 a b : 0 ≤ a < 256 → 0 ≤ b → Z.lor a (Z.shiftl b 8) = a + 256 * b.
Proof.
  intros Ha Hb.
  assert (Hland : Z.land a (Z.shiftl b 8) = 0).
  { apply Z.bits_inj'. intros n Hn. rewrite Z.land_spec, Z.bits_0.
    destruct (Z.ltb_spec n 8).
    - rewrite (Z.shiftl_spec_low b 8 n) by lia. apply andb_false_r.
    - rewrite (Z.bits_above_log2 a n); [reflexivity | lia |].
      destruct (Z.eq_dec a 0) as [->|]; [simpl; lia|].
      apply Z.log2_lt_pow2; [lia|].
      assert (2 ^ 8 ≤ 2 ^ n) by (apply Z.pow_le_mono_r; lia). lia. }
  rewrite <- Z.lxor_lor by exact Hland.
  rewrite <- Z.add_nocarry_lxor by exact Hland.
  rewrite Z.shiftl_mul_pow2 by lia. lia.
Qed.

Lemma from_little_endian_range bs :
  0 ≤ from_little_endian bs < 2 ^ (8 * Z.of_nat (length bs)).
Proof.
  induction bs as [|b bs IH]; simpl from_little_endian.
  - simpl. lia.
  - pose proof (byte_to_Z_range b).
    rewrite lor_shiftl_8 by lia.
    replace (8 * Z.of_nat (length (b :: bs))) with (8 + 8 * Z.of_nat (length bs))
      by (simpl length; lia).
    rewrite Z.pow_add_r by lia. lia.
Qed.

Lemma from_to_little_endian w v :
  0 ≤ v < 2 ^ (8 * Z.of_nat w) → from_little_endian (to_little_endian w v) = v.
Proof.
  revert v. induction w as [|w IH]; intros v Hv.
  - simpl in *. lia.
  - simpl to_little_endian. simpl from_little_endian.
    replace (8 * Z.of_nat (S w)) with (8 + 8 * Z.of_nat w) in Hv by lia.
    rewrite Z.pow_add_r in Hv by lia.
    rewrite Z.shiftr_div_pow2 by lia.
    change 255 with (Z.ones 8). rewrite Z.land_ones by lia.
    rewrite byte_to_of_Z.
    change (2 ^ 8) with 256 in *.
    rewrite Z.mod_mod by lia.
    rewrite IH.
    + pose proof (Z.mod_pos_bound v 256).
      rewrite lor_shiftl_8; [| lia | apply Z.div_pos; lia ].
      pose proof (Z.div_mod v 256). lia.
    + split; [apply Z.div_pos; lia|]. apply Z.div_lt_upper_bound; lia.
Qed.

Lemma length_to_little_endian w v : length (to_little_endian w v) = w.
Proof. revert v; induction w; intros; simpl; auto. Qed.

Lemma from_little_endian_zeros k : from_little_endian (replicate k x00) = 0.
Proof. induction k; simpl; [reflexivity|]. rewrite IHk. reflexivity. Qed.

(** ** The monad *)

Lemma bind_Ok {A B} (m : op A) (k : A → op B) d a d' :
  m d = Ok (a, d') → bind m k d = k a d'.
Proof. unfold bind. intros ->. reflexivity. Qed.


Lemma bind_inv {A B} (m : op A) (k : A → op B) d r :
  bind m k d = Ok r → ∃ a d', m d = Ok (a, d') ∧ k a d' = Ok r.
Proof.
  unfold bind. destruct (m d) as [[a d']|e]; [eauto | discriminate].
Qed.

(** ** The paged stream *)

Section Stream.
Context {P : Params}.

Lemma page_offset_nat num :
  0 ≤ num → Z.to_nat (page_offset num) = (Z.to_nat num * BLOCK_SIZE)%nat.
Proof. intros. unfold page_offset. lia. Qed.

Lemma stream_write_length s off data :
  length (stream_write s off data)
  = (length s `max` (Z.to_nat off + length data))%nat.
Proof.
  unfold stream_write. cbv zeta.
  destruct (decide _) as [Hlt|Hge].
  - rewrite !length_app, length_take, length_drop, length_resize. lia.
  - rewrite !length_app, length_take, length_drop. lia.
Qed.

Lemma stream_write_read_same s off data :
  stream_read (stream_write s off data) off (length data) = data.
Proof.
  unfold stream_read, stream_write. cbv zeta.
  set (o := Z.to_nat off).
  set (s' := if decide (length s < o + length data)%nat
             then resize (o + length data) x00 s else s).
  assert (Hs' : (o + length data ≤ length s')%nat).
  { subst s'. destruct (decide _); [rewrite length_resize|]; lia. }
  rewrite drop_app_length'; [| rewrite length_take; lia].
  rewrite take_app_length. reflexivity.
Qed.

Lemma stream_write_read_other s off data off' len :
  0 ≤ off → 0 ≤ off' →
  (Z.to_nat off' + len ≤ length s)%nat →
  (Z.to_nat off' + len ≤ Z.to_nat off ∨ Z.to_nat off + length data ≤ Z.to_nat off')%nat →
  stream_read (stream_write s off data) off' len = stream_read s off' len.
Proof.
  intros Hoff Hoff' Hin Hdisj.
  unfold stream_read, stream_write. cbv zeta.
  set (o := Z.to_nat off) in *. set (o' := Z.to_nat off') in *.
  set (s' := if decide (length s < o + length data)%nat
             then resize (o + length data) x00 s else s).
  assert (Hs' : (o + length data ≤ length s')%nat).
  { subst s'. destruct (decide _); [rewrite length_resize|]; lia. }
  assert (Hpre : take (o' + len) s' = take (o' + len) s).
  { subst s'. destruct (decide _); [|reflexivity].
    rewrite resize_ge by lia. rewrite take_app_le by lia. reflexivity. }
  assert (Hrd : ∀ l : list byte, take len (drop o' l) = drop o' (take (o' + len) l)).
  { intros l. rewrite take_drop_commute. reflexivity. }
  destruct Hdisj as [Hd|Hd].
  - rewrite (Hrd (take o s' ++ _)).
    rewrite take_app_le by (rewrite length_take; lia).
    rewrite take_take. rewrite Nat.min_l by lia.
    rewrite Hpre, <- Hrd. reflexivity.
  - rewrite app_assoc.
    rewrite drop_app_ge by (rewrite length_app, length_take; lia).
    rewrite length_app, length_take, drop_drop.
    replace (o + length data + (o' - (o `min` length s' + length data)))%nat with o' by lia.
    rewrite (Hrd s'), Hpre, <- Hrd. reflexivity.
Qed.

Lemma stream_resize_grow s (k : nat) :
  stream_resize s (stream_size s + Z.of_nat k) = s ++ replicate k x00.
Proof.
  unfold stream_resize, stream_size.
  rewrite resize_ge by lia. f_equal. f_equal. lia.
Qed.

End Stream.


(** ** The free-page allocator *)

Section Allocator.
Context {P : Params}.

Lemma free_page_image_length fp :
  (12 ≤ BLOCK_SIZE)%nat → length (free_page_image fp) = BLOCK_SIZE.
Proof.
  intros H. unfold free_page_image.
  rewrite !length_app, !length_replicate, !length_to_little_endian. lia.
Qed.

Lemma read_block_Ok num d buffer d' :
  read_block num d = Ok (buffer, d') →
  d' = d ∧ buffer = stream_read (m_stream d) (page_offset num) BLOCK_SIZE
  ∧ length buffer = BLOCK_SIZE.
Proof.
  unfold read_block, bind, gets, lift, dir_check, ret.
  case_bool_decide as Hl; simpl; [|discriminate].
  intros [= <- <-]. auto.
Qed.

Lemma read_block_intro num d :
  length (stream_read (m_stream d) (page_offset num) BLOCK_SIZE) = BLOCK_SIZE →
  read_block num d = Ok (stream_read (m_stream d) (page_offset num) BLOCK_SIZE, d).
Proof.
  intros H. unfold read_block, bind, gets, lift, dir_check, ret.
  rewrite bool_decide_eq_true_2 by exact H. reflexivity.
Qed.

Lemma read_free_page_Ok num d fp d' :
  read_free_page num d = Ok (fp, d') →
  d' = d ∧ 0 ≤ next fp < 2 ^ 32 ∧ 0 ≤ prev fp < 2 ^ 32.
Proof.
  unfold read_free_page. intros H.
  apply bind_inv in H as (buffer & d1 & Hb & H).
  apply read_block_Ok in Hb as (-> & _ & _).
  destruct (decide _); [discriminate|].
  unfold ret in H. injection H as <- <-.
  split; [reflexivity|]. simpl.
  pose proof (from_little_endian_range (take 4 (drop 4 buffer))) as H1.
  pose proof (from_little_endian_range (take 4 (drop 8 buffer))) as H2.
  rewrite length_take in H1, H2.
  assert (Hp : ∀ k : nat, (k ≤ 4)%nat → 2 ^ (8 * Z.of_nat k) ≤ 2 ^ 32).
  { intros k Hk. apply Z.pow_le_mono_r; lia. }
  pose proof (Hp _ (Nat.le_min_l 4 (length (drop 4 buffer)))).
  pose proof (Hp _ (Nat.le_min_l 4 (length (drop 8 buffer)))).
  lia.
Qed.

(** Reading back the free page that was just written. *)
Lemma read_written_free_page num fp d :
  (12 ≤ BLOCK_SIZE)%nat →
  0 ≤ next fp < 2 ^ 32 → 0 ≤ prev fp < 2 ^ 32 →
  let d' := set_stream (stream_write (m_stream d) (page_offset num)
                          (free_page_image fp)) d in
  read_free_page num d' = Ok (fp, d').
Proof.
  intros HB Hn Hp d'. unfold read_free_page.
  assert (Hrd : stream_read (m_stream d') (page_offset num) BLOCK_SIZE
                = free_page_image fp).
  { subst d'. simpl. rewrite <- (free_page_image_length fp HB) at 1.
    apply stream_write_read_same. }
  rewrite (bind_Ok _ _ _ (free_page_image fp) d').
  2:{ rewrite <- Hrd. apply read_block_intro. rewrite Hrd.
      apply free_page_image_length, HB. }
  unfold free_page_image.
  assert (H4 : ∀ v, length (to_little_endian 4 v) = 4%nat)
    by apply length_to_little_endian.
  assert (Hlen : ∀ a b : Z, length (replicate 4 x00 ++ to_little_endian 4 a) = 8%nat
                         ∧ length ((replicate 4 x00 ++ to_little_endian 4 a)
                                     ++ to_little_endian 4 b) = 12%nat).
  { intros. rewrite !length_app, length_replicate, !H4. auto. }
  rewrite take_app_length' by (rewrite length_replicate; reflexivity).
  rewrite from_little_endian_zeros.
  destruct (decide (0 ≠ 0)) as [?|_]; [congruence|].
  rewrite drop_app_length' by (rewrite length_replicate; reflexivity).
  rewrite take_app_length' by (rewrite H4; reflexivity).
  rewrite (app_assoc (replicate 4 x00)).
  rewrite drop_app_length' by (symmetry; apply Hlen; exact 0).
  rewrite take_app_length' by (rewrite H4; reflexivity).
  rewrite !from_to_little_endian by (simpl; lia).
  destruct fp; reflexivity.
Qed.

Lemma read_free_page_in_range num d fp :
  0 ≤ num → (0 < BLOCK_SIZE)%nat →
  read_free_page num d = Ok (fp, d) →
  (Z.to_nat (page_offset num) + BLOCK_SIZE ≤ length (m_stream d))%nat.
Proof.
  intros Hnum HB H. unfold read_free_page in H.
  apply bind_inv in H as (buffer & d1 & Hb & _).
  apply read_block_Ok in Hb as (_ & -> & Hl).
  unfold stream_read in Hl. rewrite length_take, length_drop in Hl. lia.
Qed.

Lemma read_free_page_stream num d d1 fp :
  m_stream d1 = m_stream d →
  read_free_page num d = Ok (fp, d) → read_free_page num d1 = Ok (fp, d1).
Proof.
  intros Hs. unfold read_free_page, read_block, bind, gets, lift, ret, throw.
  rewrite Hs.
  destruct (dir_check _) as [[]|]; [|discriminate].
  destruct (decide (_ ≠ 0)); [discriminate|].
  intros [= <-]. reflexivity.
Qed.

(** C9. [allocate_page]: with an empty free list the stream grows by exactly
    one block and the page returned is the old block count; otherwise the
    head of the free list is returned, [start_free_page] becomes the head's
    [next], [num_free_page] drops by one, the stream keeps its size, and the
    new head, when there is one, gets [prev = INVALID_PAGE]. *)
Theorem allocate_page_behaviour (d : BtreeDirectory) :
  (12 ≤ BLOCK_SIZE)%nat →
  (m_start_free_page d = INVALID_PAGE →
   stream_size (m_stream d) / Z.of_nat BLOCK_SIZE < 2 ^ 32 →
   allocate_page d
   = Ok (stream_size (m_stream d) / Z.of_nat BLOCK_SIZE,
         set_stream (m_stream d ++ replicate BLOCK_SIZE x00) d))
  ∧ (m_start_free_page d ≠ INVALID_PAGE →
     0 ≤ m_start_free_page d →
     0 < m_num_free_page d < 2 ^ 32 →
     ∀ fp, read_free_page (m_start_free_page d) d = Ok (fp, d) →
       (next fp = INVALID_PAGE →
        allocate_page d
        = Ok (m_start_free_page d,
              set_free_list INVALID_PAGE (m_num_free_page d - 1) d))
       ∧ (next fp ≠ INVALID_PAGE →
          ∀ fp', read_free_page (next fp) d = Ok (fp', d) →
          ∃ d', allocate_page d = Ok (m_start_free_page d, d')
                ∧ m_start_free_page d' = next fp
                ∧ m_num_free_page d' = m_num_free_page d - 1
                ∧ stream_size (m_stream d') = stream_size (m_stream d)
                ∧ m_root_page d' = m_root_page d
                ∧ m_node_cache d' = m_node_cache d
                ∧ read_free_page (next fp) d'
                  = Ok ({| next := next fp'; prev := INVALID_PAGE |}, d'))).
Proof.
  intros HB. split.
  - intros Hstart Hsize.
    unfold allocate_page, bind, get_start_free_page, gets, modify, ret.
    rewrite Hstart. destruct (decide (INVALID_PAGE = INVALID_PAGE)); [|congruence].
    rewrite stream_resize_grow. unfold wrap32.
    rewrite Z.mod_small; [reflexivity|].
    split; [|exact Hsize]. apply Z.div_pos; unfold stream_size; lia.
  - intros Hstart Hnonneg Hnum fp Hfp.
    assert (Hwrap : wrap32 (m_num_free_page d - 1) = m_num_free_page d - 1)
      by (unfold wrap32; apply Z.mod_small; lia).
    split.
    + intros Hnext.
      unfold allocate_page, bind, get_start_free_page, gets.
      destruct (decide (m_start_free_page d = INVALID_PAGE)); [congruence|].
      rewrite Hfp. unfold get_num_free_page, gets, set_num_free_page,
        set_start_free_page, modify, ret. simpl.
      destruct (decide (next fp ≠ INVALID_PAGE)); [congruence|].
      rewrite Hwrap, Hnext. reflexivity.
    + intros Hnext fp' Hfp'.
      pose proof (read_free_page_Ok _ _ _ _ Hfp) as (_ & Hr1 & _).
      pose proof (read_free_page_Ok _ _ _ _ Hfp') as (_ & Hr2 & _).
      pose proof (read_free_page_in_range _ _ _ (proj1 Hr1) ltac:(lia) Hfp') as Hin.
      set (d1 := set_free_list (next fp) (m_num_free_page d - 1) d).
      set (d' := set_stream (stream_write (m_stream d1) (page_offset (next fp))
                    (free_page_image {| next := next fp'; prev := INVALID_PAGE |})) d1).
      assert (Hfp1 : read_free_page (next fp) d1 = Ok (fp', d1)).
      { apply (read_free_page_stream _ d); [reflexivity | exact Hfp']. }
      exists d'. split; [|split; [|split; [|split; [|split; [|split]]]]];
        try reflexivity.
      * unfold allocate_page, bind, get_start_free_page, gets.
        destruct (decide (m_start_free_page d = INVALID_PAGE)); [congruence|].
        rewrite Hfp. unfold get_num_free_page, gets, set_num_free_page,
          set_start_free_page, modify, ret. simpl.
        destruct (decide (next fp ≠ INVALID_PAGE)) as [?|Hn]; [|exfalso; exact (Hn Hnext)].
        rewrite Hwrap.
        change (mkDir (m_stream d) (m_root_page d) (next fp) (m_num_free_page d - 1)
                  (m_node_cache d)) with d1.
        rewrite Hfp1. reflexivity.
      * unfold d', d1, stream_size. simpl.
        rewrite stream_write_length, free_page_image_length by exact HB. lia.
      * apply (read_written_free_page (next fp)
                 {| next := next fp'; prev := INVALID_PAGE |} d1 HB).
        -- exact Hr2.
        -- unfold INVALID_PAGE. simpl. lia.
Qed.

End Allocator.

Lemma allocate_page_behaviour_witness :
  @allocate_page reference_params empty_directory
  = Ok (0, set_stream (replicate 4096 x00) empty_directory)
  ∧ @allocate_page reference_params one_free_page
    = Ok (1, set_free_list INVALID_PAGE 0 one_free_page)
  ∧ ∃ d', @allocate_page reference_params two_free_pages = Ok (0, d')
          ∧ m_start_free_page d' = 1 ∧ m_num_free_page d' = 1
          ∧ @read_free_page reference_params 1 d'
            = Ok ({| next := INVALID_PAGE; prev := INVALID_PAGE |}, d').
Proof.
  assert (HB : (12 ≤ @BLOCK_SIZE reference_params)%nat) by (simpl; lia).
  split; [|split].
  - apply (proj1 (@allocate_page_behaviour reference_params empty_directory HB));
      [reflexivity | vm_compute; reflexivity].
  - refine (proj1 (proj2 (@allocate_page_behaviour reference_params one_free_page HB)
              _ _ _ {| next := INVALID_PAGE; prev := INVALID_PAGE |} _) _);
      [vm_compute; discriminate | vm_compute; discriminate
      | vm_compute; split; reflexivity | vm_compute; reflexivity | reflexivity].
  - destruct (proj2 (proj2 (@allocate_page_behaviour reference_params two_free_pages HB)
              ltac:(vm_compute; discriminate) ltac:(vm_compute; discriminate)
              ltac:(vm_compute; split; reflexivity)
              {| next := 1; prev := INVALID_PAGE |} ltac:(vm_compute; reflexivity))
              ltac:(vm_compute; discriminate)
              {| next := INVALID_PAGE; prev := 0 |} ltac:(vm_compute; reflexivity))
      as (d' & H1 & H2 & H3 & _ & _ & _ & H4).
    exists d'. auto.
Defined.

(** C1. The last page of a two-block stream is deallocated: the stream keeps
    both blocks and the page is pushed on the free list, where the claim has
    the stream shrink to one block and the free list untouched. *)
Theorem deallocate_last_page_pushes_on_free_list :
  let d := mkDir (replicate 4096 x00 ++ replicate 4096 x00) 0 INVALID_PAGE 0 ∅ in
  page_offset (P := reference_params) 1
  = stream_size (m_stream d) - Z.of_nat (@BLOCK_SIZE reference_params)
  ∧ ∃ d', @deallocate_page reference_params 1 d = Ok (tt, d')
          ∧ stream_size (m_stream d') = stream_size (m_stream d)
          ∧ m_start_free_page d' = 1
          ∧ m_num_free_page d' = 1.
Proof.
  split; [vm_compute; reflexivity|].
  eexists. split; [vm_compute; reflexivity|].
  split; [|split]; vm_compute; reflexivity.
Qed.


(** ** The node codec *)

Section Codec.
Context {P : Params}.

Lemma filename_array_length name :
  (length name ≤ MAX_FILENAME_LENGTH)%nat →
  length (filename_array name) = (MAX_FILENAME_LENGTH + 1)%nat.
Proof.
  intros H. unfold filename_array.
  rewrite !length_app, length_map, length_seq. simpl. lia.
Qed.

Lemma entry_image_length e :
  (length (filename e) ≤ MAX_FILENAME_LENGTH)%nat →
  length (entry_image e) = entry_size.
Proof.
  intros H. unfold entry_image, entry_size.
  rewrite !length_app, filename_array_length, length_resize,
    length_to_little_endian by exact H. lia.
Qed.

Lemma children_image_cons c cs :
  children_image (c :: cs) = to_little_endian 4 c ++ children_image cs.
Proof. reflexivity. Qed.

Lemma entries_image_cons e es :
  entries_image (e :: es) = entry_image e ++ entries_image es.
Proof. reflexivity. Qed.

Lemma children_image_length cs : length (children_image cs) = (4 * length cs)%nat.
Proof.
  induction cs as [|c cs IH]; [reflexivity|].
  rewrite children_image_cons, length_app, length_to_little_endian, IH.
  simpl length. lia.
Qed.

Lemma write_children_Ok cs size w w' :
  write_children cs size w = Ok w' →
  w' = w ++ children_image cs ∧ ((length w ≤ size)%nat → (length w' ≤ size)%nat).
Proof.
  revert w. induction cs as [|c cs IH]; intros w; simpl.
  - intros [= <-]. unfold children_image. simpl. by rewrite app_nil_r.
  - unfold write_little_endian_and_forward.
    destruct (decide _) as [Hle|]; [|discriminate].
    intros H. apply IH in H as [-> Hb]. rewrite children_image_cons.
    split; [by rewrite <- app_assoc|].
    intros _. apply Hb. rewrite length_app, length_to_little_endian. exact Hle.
Qed.

Lemma write_entries_Ok es size w w' :
  write_entries es size w = Ok w' →
  w' = w ++ entries_image es
  ∧ Forall (λ e, length (filename e) ≤ MAX_FILENAME_LENGTH)%nat es
  ∧ ((length w ≤ size)%nat → (length w' ≤ size)%nat).
Proof.
  revert w. induction es as [|e es IH]; intros w; simpl.
  - intros [= <-]. unfold entries_image. simpl. by rewrite app_nil_r.
  - unfold write_entry, write_and_forward.
    destruct (decide (MAX_FILENAME_LENGTH < _)%nat) as [|Hlen]; [discriminate|].
    destruct (decide (_ ≤ size)%nat) as [H1|]; [|discriminate].
    destruct (decide (_ ≤ size)%nat) as [H2|]; [|discriminate].
    destruct (decide (_ ≤ size)%nat) as [H3|]; [|discriminate].
    intros H. apply IH in H as (-> & HF & Hb). split; [|split].
    + rewrite entries_image_cons. unfold entry_image. by rewrite <- !app_assoc.
    + constructor; [lia | exact HF].
    + intros _. apply Hb. rewrite length_app. exact H3.
Qed.

Lemma read_children_image cs rest acc :
  Forall (λ c, 0 ≤ c < 2 ^ 32) cs →
  read_children (length cs) (children_image cs ++ rest) acc = Ok (acc ++ cs, rest).
Proof.
  revert acc. induction cs as [|c cs IH]; intros acc HF.
  - simpl. by rewrite app_nil_r.
  - inversion HF as [|? ? Hc HF']; subst.
    rewrite children_image_cons. cbn [length read_children].
    unfold read_little_endian_and_forward.
    rewrite <- app_assoc.
    destruct (decide _) as [_|Hn].
    2:{ exfalso. apply Hn. rewrite length_app, length_to_little_endian. lia. }
    rewrite take_app_length' by (by rewrite length_to_little_endian).
    rewrite drop_app_length' by (by rewrite length_to_little_endian).
    rewrite from_to_little_endian by (simpl; lia).
    rewrite IH by exact HF'.
    by rewrite <- app_assoc.
Qed.

Lemma c_str_app name l : x00 ∉ name → c_str (name ++ l) = name ++ c_str l.
Proof.
  induction name as [|b name IH]; intros Hn; simpl; [reflexivity|].
  destruct (decide (b = x00)) as [->|_].
  - exfalso. apply Hn. left.
  - rewrite IH; [reflexivity|]. intros Hin. apply Hn. by right.
Qed.

Lemma c_str_filename_array name :
  x00 ∉ name → (length name ≤ MAX_FILENAME_LENGTH)%nat →
  c_str (take MAX_FILENAME_LENGTH (filename_array name)) = name.
Proof.
  intros Hn Hl. unfold filename_array.
  rewrite take_app_ge by exact Hl.
  rewrite c_str_app by exact Hn.
  destruct (MAX_FILENAME_LENGTH - length name)%nat; simpl.
  - by rewrite app_nil_r.
  - by rewrite app_nil_r.
Qed.

Lemma read_entry_image e rest :
  encodable_entry e →
  read_entry (entry_image e ++ rest) = Ok (e, rest).
Proof.
  intros (Hnul & Hlen & Hid & Hty).
  pose proof (filename_array_length _ Hlen) as Hfa.
  unfold read_entry, read_and_forward, entry_image.
  rewrite <- !app_assoc.
  destruct (decide _) as [_|Hn].
  2:{ exfalso. apply Hn. rewrite length_app, Hfa. lia. }
  rewrite take_app_length', drop_app_length' by (by rewrite Hfa).
  destruct (decide _) as [_|Hn].
  2:{ exfalso. apply Hn. rewrite length_app, length_resize. lia. }
  rewrite take_app_length', drop_app_length' by (by rewrite length_resize).
  destruct (decide _) as [_|Hn].
  2:{ exfalso. apply Hn. rewrite length_app, length_to_little_endian. lia. }
  rewrite take_app_length', drop_app_length' by (by rewrite length_to_little_endian).
  rewrite c_str_filename_array by assumption.
  rewrite from_to_little_endian by (simpl; lia).
  rewrite resize_all_alt by (symmetry; exact Hid).
  by destruct e.
Qed.

Lemma read_entries_image es rest acc :
  Forall encodable_entry es →
  read_entries (length es) (entries_image es ++ rest) acc = Ok (acc ++ es, rest).
Proof.
  revert acc. induction es as [|e es IH]; intros acc HF.
  - simpl. by rewrite app_nil_r.
  - inversion HF as [|? ? He HF']; subst.
    cbn [length read_entries].
    rewrite entries_image_cons, <- app_assoc.
    rewrite read_entry_image by exact He.
    rewrite IH by exact HF'.
    by rewrite <- app_assoc.
Qed.

Lemma entries_image_length es :
  Forall (λ e, length (filename e) ≤ MAX_FILENAME_LENGTH)%nat es →
  length (entries_image es) = (entry_size * length es)%nat.
Proof.
  induction 1 as [|e es He HF IH]; [simpl; lia|].
  rewrite entries_image_cons, length_app, entry_image_length, IH by exact He.
  simpl length. lia.
Qed.

(** What [to_buffer] writes when it succeeds. *)
Lemma to_buffer_Ok n buffer out :
  to_buffer n buffer = Ok out →
  let image := to_little_endian 4 1
                 ++ to_little_endian 2 (wrap16 (Z.of_nat (length (m_child_indices n))))
                 ++ to_little_endian 2 (wrap16 (Z.of_nat (length (m_entries n))))
                 ++ children_image (m_child_indices n)
                 ++ entries_image (m_entries n) in
  out = image ++ drop (length image) buffer
  ∧ (length image ≤ length buffer)%nat
  ∧ Forall (λ e, length (filename e) ≤ MAX_FILENAME_LENGTH)%nat (m_entries n).
Proof.
  unfold to_buffer, write_little_endian_and_forward. simpl length at 1.
  destruct (decide (_ ≤ length buffer)%nat) as [H1|?]; [|discriminate].
  destruct (decide (_ ≤ length buffer)%nat) as [H2|?]; [|discriminate].
  destruct (decide (_ ≤ length buffer)%nat) as [H3|?]; [|discriminate].
  destruct (write_children _ _ _) as [w4|] eqn:E4; [|discriminate].
  destruct (write_entries _ _ _) as [w5|] eqn:E5; [|discriminate].
  intros [= <-].
  apply write_children_Ok in E4 as [-> Hb4].
  apply write_entries_Ok in E5 as (-> & HF & Hb5).
  cbv zeta. rewrite <- !app_assoc. rewrite app_nil_l.
  split; [reflexivity|]. split; [|exact HF].
  rewrite !app_assoc. apply Hb5. rewrite <- !app_assoc. apply Hb4.
  rewrite app_nil_l, length_app. exact H3.
Qed.

Lemma from_buffer_image n cs es rest :
  Forall (λ c, 0 ≤ c < 2 ^ 32) cs →
  Forall encodable_entry es →
  Z.of_nat (length cs) < 65536 → Z.of_nat (length es) < 65536 →
  from_buffer n
    (to_little_endian 4 1
       ++ to_little_endian 2 (wrap16 (Z.of_nat (length cs)))
       ++ to_little_endian 2 (wrap16 (Z.of_nat (length es)))
       ++ children_image cs ++ entries_image es ++ rest)
  = Ok (set_entries (m_entries n ++ es) (set_children (m_child_indices n ++ cs) n)).
Proof.
  intros Hcs Hes Hlc Hle.
  assert (Hw : ∀ k : nat, Z.of_nat k < 65536 → wrap16 (Z.of_nat k) = Z.of_nat k).
  { intros k Hk. unfold wrap16. apply Z.mod_small. lia. }
  rewrite !Hw by assumption.
  unfold from_buffer, read_little_endian_and_forward.
  destruct (decide _) as [_|Hn].
  2:{ exfalso. apply Hn. rewrite length_app, length_to_little_endian. lia. }
  rewrite take_app_length', drop_app_length' by (by rewrite length_to_little_endian).
  rewrite from_to_little_endian by (simpl; lia).
  destruct (decide (1 = 0)) as [?|_]; [lia|].
  destruct (decide _) as [_|Hn].
  2:{ exfalso. apply Hn. rewrite length_app, length_to_little_endian. lia. }
  rewrite take_app_length', drop_app_length' by (by rewrite length_to_little_endian).
  rewrite from_to_little_endian by (simpl; lia).
  destruct (decide _) as [_|Hn].
  2:{ exfalso. apply Hn. rewrite length_app, length_to_little_endian. lia. }
  rewrite take_app_length', drop_app_length' by (by rewrite length_to_little_endian).
  rewrite from_to_little_endian by (simpl; lia).
  rewrite !Nat2Z.id.
  rewrite read_children_image by exact Hcs.
  rewrite read_entries_image by exact Hes.
  reflexivity.
Qed.

(** C10. Codec round trip: a node whose entries the format can represent and
    whose encoding fits the block is decoded, from the buffer [to_buffer]
    filled, with the same entries and the same child page numbers, in the
    same order. *)
Theorem codec_round_trip (n : BtreeNode) (buffer out : list byte) (parent num : Z) :
  Forall encodable_entry (m_entries n) →
  Forall (λ c, 0 ≤ c < 2 ^ 32) (m_child_indices n) →
  length buffer = BLOCK_SIZE → Z.of_nat BLOCK_SIZE ≤ 262144 →
  to_buffer n buffer = Ok out →
  ∃ n', from_buffer (new_node parent num) out = Ok n'
        ∧ m_entries n' = m_entries n
        ∧ m_child_indices n' = m_child_indices n.
Proof.
  intros Hes Hcs Hlen HB Hto.
  apply to_buffer_Ok in Hto as (-> & Hfit & HF).
  rewrite !length_app, !length_to_little_endian, children_image_length,
    entries_image_length in Hfit by exact HF.
  assert (Hsz : (5 * length (m_entries n) ≤ entry_size * length (m_entries n))%nat).
  { apply Nat.mul_le_mono_r. unfold entry_size. lia. }
  rewrite <- !app_assoc.
  rewrite from_buffer_image by (try assumption; lia).
  eexists. split; [reflexivity|]. simpl. auto.
Qed.

End Codec.

Lemma codec_round_trip_witness :
  ∃ n', @from_buffer reference_params (new_node 7 3) sample_image = Ok n'
        ∧ m_entries n' = m_entries sample_node
        ∧ m_child_indices n' = m_child_indices sample_node.
Proof.
  apply (@codec_round_trip reference_params sample_node (replicate 4096 xaa)).
  - repeat constructor; vm_compute; try discriminate.
    + intros H. apply list_elem_of_In in H. simpl in H. intuition discriminate.
    + intros H. apply list_elem_of_In in H. simpl in H. intuition discriminate.
  - repeat constructor; vm_compute; discriminate.
  - vm_compute. reflexivity.
  - vm_compute. intros H; discriminate.
  - vm_compute. reflexivity.
Defined.


(** ** Scenarios of the specification *)

(** [from_buffer] looks at the flag only to tell zero from non-zero. *)
Lemma from_buffer_any_nonzero_flag {P : Params} n (flag flag' body : list byte) :
  length flag = 4%nat → length flag' = 4%nat →
  from_little_endian flag ≠ 0 → from_little_endian flag' ≠ 0 →
  from_buffer n (flag ++ body) = from_buffer n (flag' ++ body).
Proof.
  intros Hl Hl' Hf Hf'. unfold from_buffer, read_little_endian_and_forward.
  rewrite !length_app, Hl, Hl'.
  destruct (decide _) as [_|Hn]; [|exfalso; apply Hn; lia].
  rewrite !take_app_length', !drop_app_length' by (symmetry; assumption).
  destruct (decide (from_little_endian flag = 0)); [contradiction|].
  destruct (decide (from_little_endian flag' = 0)); [contradiction|].
  reflexivity.
Qed.

(** C2, as the code has it: with byte 0 of block 0 set to 2 the flag of the
    root block decodes to 2, and after reopening [get_entry] still answers as
    it did before the overwrite: each of the five names is found with its id
    and type, and a name that was never added is reported absent. *)
Theorem get_entry_accepts_flag_2 :
  from_little_endian (take 4 (m_stream built_five_bad_flag)) = 2
  ∧ Forall (λ s, result_of (@get_entry reference_params (name_of s)) built_five_bad_flag
                 = Ok (Some (@id_for reference_params (name_of s), 0))
               ∧ result_of (@get_entry reference_params (name_of s)) built_five
                 = Ok (Some (@id_for reference_params (name_of s), 0)))
      ["a"; "b"; "c"; "d"; "e"]%string
  ∧ result_of (@get_entry reference_params (name_of "f")) built_five_bad_flag = Ok None.
Proof.
  split; [vm_compute; reflexivity|].
  split; [|vm_compute; reflexivity].
  repeat constructor; vm_compute; reflexivity.
Qed.

(** C2, the claim as stated fails: the call does not raise Corrupted. *)
Lemma get_entry_bad_flag_not_corrupted :
  result_of (@get_entry reference_params (name_of "a")) built_five_bad_flag
  ≠ Throw CorruptedDirectoryException.
Proof. vm_compute. discriminate. Qed.

(** C3. A tree read back from a stream in which the left leaf (page 0) is out
    of order: [validate_node] on that leaf answers false, and
    [validate_btree_structure], which calls it and drops the answer, answers
    true. The same with [MAX_NUM_ENTRIES = 4] after the names 01 to 05: the
    left leaf holds one entry, fewer than [MAX_NUM_ENTRIES / 2]. *)
Theorem validate_btree_structure_drops_child_results :
  result_of (@validate_btree_structure reference_params) built_fourteen_unsorted_leaf
  = Ok true
  ∧ result_of (@validate_btree_structure reference_params;;
               @validate_node reference_params 0 1) built_fourteen_unsorted_leaf
    = Ok false
  ∧ (let P := with_max_entries 4 reference_params in
     let d := state_after (@add_all P ["01"; "02"; "03"; "04"; "05"]%string)
                empty_directory in
     result_of (@validate_btree_structure P) d = Ok true
     ∧ result_of (@validate_node P 0 1) d = Ok false).
Proof.
  split; [vm_compute; reflexivity|].
  split; [vm_compute; reflexivity|].
  split; vm_compute; reflexivity.
Qed.



(** ** Searching leaves the tree as it is *)

Ltac bind_step H :=
  let a := fresh "a" in
  let d := fresh "d" in
  let Hm := fresh "Hm" in
  apply bind_inv in H as (a & d & Hm & H).

Tactic Notation "bind_in" hyp(H) "as" ident(a) ident(d) ident(Hm) :=
  apply bind_inv in H as (a & d & Hm & H).

Section Search.
Context {P : Params}.

Lemma same_tree_refl d : same_tree d d.
Proof. unfold same_tree. do 4 (split; [reflexivity|]). split; [reflexivity | auto]. Qed.

Lemma same_tree_trans d1 d2 d3 :
  same_tree d1 d2 → same_tree d2 d3 → same_tree d1 d3.
Proof.
  intros (H1 & H2 & H3 & H4 & H5 & H6) (G1 & G2 & G3 & G4 & G5 & G6).
  unfold same_tree.
  split; [congruence|]. split; [congruence|]. split; [congruence|].
  split; [congruence|]. split.
  - by transitivity (m_node_cache d2).
  - intros pg. by rewrite G6, H6.
Qed.

Lemma from_buffer_new_node p k p' k' b n :
  from_buffer (new_node p k) b = Ok n →
  from_buffer (new_node p' k') b
  = Ok (mkNode p' k' (m_child_indices n) (m_entries n) false).
Proof.
  unfold from_buffer.
  destruct (read_little_endian_and_forward 4 b) as [[flag b1]|]; [|discriminate].
  destruct (decide (flag = 0)); [intros [= <-]; reflexivity|].
  destruct (read_little_endian_and_forward 2 b1) as [[cn b2]|]; [|discriminate].
  destruct (read_little_endian_and_forward 2 b2) as [[en b3]|]; [|discriminate].
  simpl m_child_indices. 
  destruct (read_children _ b3 []) as [[cs b4]|]; [|discriminate].
  simpl m_entries.
  destruct (read_entries _ b4 []) as [[es b5]|]; [|discriminate].
  intros [= <-]. reflexivity.
Qed.

Lemma read_node_Ok num n0 d n d' :
  read_node num n0 d = Ok (n, d') →
  d' = d ∧ num ≠ INVALID_PAGE
  ∧ from_buffer n0 (stream_read (m_stream d) (page_offset num) BLOCK_SIZE) = Ok n.
Proof.
  unfold read_node. destruct (decide (num = INVALID_PAGE)); [discriminate|].
  intros H. bind_step H. apply read_block_Ok in Hm as (-> & -> & _).
  unfold lift in H. destruct (from_buffer _ _); [|discriminate].
  injection H as <- <-. auto.
Qed.

Lemma read_node_new_node num p k p' k' d n :
  read_node num (new_node p k) d = Ok (n, d) →
  read_node num (new_node p' k') d
  = Ok (mkNode p' k' (m_child_indices n) (m_entries n) false, d).
Proof.
  intros H. pose proof H as H'. apply read_node_Ok in H' as (_ & Hnum & Hfb).
  revert H. unfold read_node. destruct (decide _); [contradiction|].
  unfold bind. destruct (read_block num d) as [[b d1]|] eqn:Hb; [|discriminate].
  apply read_block_Ok in Hb as (-> & -> & _). unfold lift.
  rewrite (from_buffer_new_node _ _ p' k' _ _ Hfb). reflexivity.
Qed.

Lemma read_node_stream num n0 d d1 :
  m_stream d1 = m_stream d →
  read_node num n0 d1
  = match read_node num n0 d with
    | Ok (n, _) => Ok (n, d1)
    | Throw e => Throw e
    end.
Proof.
  intros Hs. unfold read_node. destruct (decide _); [reflexivity|].
  unfold read_block, bind, gets, lift, ret. rewrite Hs.
  destruct (dir_check _) as [[]|]; [|reflexivity].
  destruct (from_buffer _ _); reflexivity.
Qed.

Lemma retrieve_node_Ok parent_num num d r d' :
  retrieve_node parent_num num d = Ok (r, d') →
  r = num
  ∧ ((∃ n, m_node_cache d !! num = Some n ∧ d' = d
           ∧ (parent_num = INVALID_PAGE ∨ parent_num = m_parent_num n))
     ∨ (∃ n, m_node_cache d !! num = None
             ∧ read_node num (new_node parent_num num) d = Ok (n, d)
             ∧ d' = set_cache (<[num := n]> (m_node_cache d)) d)).
Proof.
  unfold retrieve_node. intros H. bind_step H. unfold gets in Hm.
  injection Hm as <- <-.
  destruct (m_node_cache d !! num) as [n|] eqn:Hc.
  - bind_step H. unfold ret in H. injection H as <- <-.
    unfold lift, dir_check in Hm.
    destruct (_ || _) eqn:Hor; [|discriminate]. simplify_eq.
    split; [reflexivity|]. left. exists n.
    split; [reflexivity|]. split; [reflexivity|].
    apply orb_true_iff in Hor as [Hor|Hor]; apply bool_decide_eq_true in Hor; auto.
  - bind_step H. bind_step H. unfold ret in H. injection H as <- <-.
    pose proof (read_node_Ok _ _ _ _ _ Hm) as (-> & _ & _).
    unfold store, modify in Hm0. injection Hm0 as <-.
    split; [reflexivity|]. right. exists a. auto.
Qed.

Lemma retrieve_node_same_tree parent_num num d r d' :
  retrieve_node parent_num num d = Ok (r, d') →
  r = num ∧ same_tree d d' ∧ is_Some (m_node_cache d' !! num).
Proof.
  intros H. apply retrieve_node_Ok in H as [-> [(n & Hc & -> & _)|(n & Hc & Hrd & ->)]].
  - split; [reflexivity|]. split; [apply same_tree_refl | eauto].
  - split; [reflexivity|]. split.
    + unfold same_tree. simpl. repeat split.
      * by apply insert_subseteq.
      * intros pg. unfold node_content. simpl.
        destruct (decide (pg = num)) as [->|Hne].
        -- rewrite lookup_insert_eq, Hc.
           rewrite (read_node_new_node _ _ _ INVALID_PAGE num _ _ Hrd). reflexivity.
        -- rewrite lookup_insert_ne by congruence.
           destruct (m_node_cache d !! pg); [reflexivity|].
           rewrite (read_node_stream _ _ d) by reflexivity.
           destruct (read_node pg _ d) as [[? ?]|]; reflexivity.
    + simpl. rewrite lookup_insert_eq. eauto.
Qed.

Lemma deref_Ok p d n d' :
  deref p d = Ok (n, d') → d' = d ∧ m_node_cache d !! p = Some n.
Proof.
  unfold deref. destruct (m_node_cache d !! p); [|discriminate].
  intros [= <- <-]. auto.
Qed.

Lemma deref_intro p d n : m_node_cache d !! p = Some n → deref p d = Ok (n, d).
Proof. unfold deref. intros ->. reflexivity. Qed.

Lemma same_tree_lookup d d' p n :
  same_tree d d' → m_node_cache d !! p = Some n → m_node_cache d' !! p = Some n.
Proof.
  intros (_ & _ & _ & _ & Hsub & _) Hp.
  eapply lookup_weaken; eauto.
Qed.

(** [find_node] changes nothing but what is resident; a hit is a hit on the
    name itself. *)
Lemma find_node_loop_Ok fuel name n d r d' :
  find_node_loop fuel name n d = Ok (r, d') →
  same_tree d d'
  ∧ ∃ node i b nd, r = (Some node, i, b)
      ∧ m_node_cache d' !! node = Some nd
      ∧ (b = true → ∃ e, m_entries nd !! i = Some e ∧ filename e = name).
Proof.
  revert n d. induction fuel as [|fuel IH]; intros n d; simpl; [discriminate|].
  intros H. bind_step H. apply deref_Ok in Hm as (-> & Hc).
  destruct (match m_entries a !! _ with Some e => _ | None => false end) eqn:Hhit.
  - unfold ret in H. injection H as <- <-.
    split; [apply same_tree_refl|].
    eexists _, _, _, a. split; [reflexivity|]. split; [exact Hc|]. intros _.
    destruct (m_entries a !! _) as [e|]; [|discriminate].
    apply bool_decide_eq_true in Hhit. eauto.
  - destruct (is_leaf a).
    + unfold ret in H. injection H as <- <-.
      split; [apply same_tree_refl|].
      eexists _, _, _, a. split; [reflexivity|]. split; [exact Hc|]. discriminate.
    + destruct (m_child_indices a !! _) as [c|]; [|discriminate].
      bind_step H. apply retrieve_node_same_tree in Hm as (-> & Hst & _).
      apply IH in H as (Hst' & Hres).
      split; [eapply same_tree_trans; eauto | exact Hres].
Qed.

Lemma find_node_Ok name d r d' :
  find_node name d = Ok (r, d') →
  same_tree d d'
  ∧ ((∃ i, r = (None, i, false))
     ∨ ∃ node i b nd, r = (Some node, i, b)
         ∧ m_node_cache d' !! node = Some nd
         ∧ (b = true → ∃ e, m_entries nd !! i = Some e ∧ filename e = name)).
Proof.
  unfold find_node, get_root_node. intros H.
  bind_in H as root d1 Hroot. bind_in Hroot as pg d0 Hpg.
  unfold get_root_page, gets in Hpg. simplify_eq.
  destruct (decide (m_root_page d0 = INVALID_PAGE)).
  - unfold ret in Hroot, H. simplify_eq.
    split; [apply same_tree_refl|]. left. eauto.
  - bind_in Hroot as rn d2 Hrn. unfold ret in Hroot. simplify_eq.
    apply retrieve_node_same_tree in Hrn as (-> & Hst & _).
    apply find_node_loop_Ok in H as (Hst' & Hres).
    split; [eapply same_tree_trans; eauto | right; exact Hres].
Qed.

End Search.


(** ** The cache primitives, run forward *)

Section Primitives.
Context {P : Params}.

Lemma mutable_entries_intro p f d n :
  m_node_cache d !! p = Some n →
  mutable_entries p f d
  = Ok (tt, set_cache (<[p := with_entries (f (m_entries n)) n]> (m_node_cache d)) d).
Proof.
  intros H. unfold mutable_entries, bind. rewrite (deref_intro _ _ _ H). reflexivity.
Qed.

Lemma mutable_children_intro p f d n :
  m_node_cache d !! p = Some n →
  mutable_children p f d
  = Ok (tt, set_cache (<[p := with_children (f (m_child_indices n)) n]>
                         (m_node_cache d)) d).
Proof.
  intros H. unfold mutable_children, bind. rewrite (deref_intro _ _ _ H). reflexivity.
Qed.

Lemma mutable_parent_intro p parent d n :
  m_node_cache d !! p = Some n →
  mutable_parent_page_number p parent d
  = Ok (tt, set_cache (<[p := with_parent parent n]> (m_node_cache d)) d).
Proof.
  intros H. unfold mutable_parent_page_number, bind.
  rewrite (deref_intro _ _ _ H). reflexivity.
Qed.

Lemma retrieve_existing_node_eq num d :
  retrieve_existing_node num d
  = Ok (if m_node_cache d !! num is Some _ then Some num else None, d).
Proof.
  unfold retrieve_existing_node, bind, gets, ret.
  destruct (m_node_cache d !! num); reflexivity.
Qed.

Lemma retrieve_node_resident parent_num num d n :
  m_node_cache d !! num = Some n →
  parent_num = INVALID_PAGE ∨ parent_num = m_parent_num n →
  retrieve_node parent_num num d = Ok (num, d).
Proof.
  intros Hc Hp. unfold retrieve_node, bind, gets. rewrite Hc.
  unfold lift, dir_check.
  replace (_ || _) with true; [reflexivity|].
  symmetry. apply orb_true_iff.
  destruct Hp as [Hp|Hp]; [left|right]; by apply bool_decide_eq_true.
Qed.

Lemma retrieve_node_blank parent_num num d :
  m_node_cache d !! num = None → blank_page d num →
  retrieve_node parent_num num d
  = Ok (num, set_cache (<[num := new_node parent_num num]> (m_node_cache d)) d).
Proof.
  intros Hc Hb. unfold retrieve_node, bind, gets. rewrite Hc, Hb. reflexivity.
Qed.

Lemma blank_page_set_cache c d pg : blank_page d pg → blank_page (set_cache c d) pg.
Proof.
  intros Hb n0. rewrite (read_node_stream _ _ d) by reflexivity. by rewrite Hb.
Qed.

Lemma alter_Some (f : BtreeNode → BtreeNode) (k : Z) (c : gmap Z BtreeNode) n :
  c !! k = Some n → alter f k c = <[k := f n]> c.
Proof.
  intros H. apply map_eq. intros j. destruct (decide (k = j)) as [->|Hne].
  - rewrite lookup_alter_eq, lookup_insert_eq, H. reflexivity.
  - rewrite lookup_alter_ne, lookup_insert_ne by done. reflexivity.
Qed.

Lemma alter_None (f : BtreeNode → BtreeNode) (k : Z) (c : gmap Z BtreeNode) :
  c !! k = None → alter f k c = c.
Proof.
  intros H. apply map_eq. intros j. destruct (decide (k = j)) as [->|Hne].
  - rewrite lookup_alter_eq, H. reflexivity.
  - rewrite lookup_alter_ne by done. reflexivity.
Qed.

Lemma adjust_children_eq parent cs d :
  adjust_children parent cs d
  = Ok (tt, set_cache (reparent parent cs (m_node_cache d)) d).
Proof.
  revert d. induction cs as [|c cs IH]; intros d.
  - destruct d. reflexivity.
  - cbn [adjust_children]. unfold bind at 1. rewrite retrieve_existing_node_eq.
    destruct (m_node_cache d !! c) as [n|] eqn:Hc.
    + unfold bind at 1. rewrite (mutable_parent_intro _ _ _ _ Hc).
      rewrite IH. cbn [reparent foldl]. simpl m_node_cache.
      rewrite (alter_Some _ _ _ _ Hc). destruct d; reflexivity.
    + unfold bind at 1. unfold ret at 1. rewrite IH. cbn [reparent foldl].
      rewrite (alter_None _ _ _ Hc). reflexivity.
Qed.

Lemma with_parent_idem parent n :
  with_parent parent (with_parent parent n) = with_parent parent n.
Proof. reflexivity. Qed.

Lemma lookup_reparent parent cs (c : gmap Z BtreeNode) pg :
  reparent parent cs c !! pg
  = if decide (pg ∈ cs) then with_parent parent <$> c !! pg else c !! pg.
Proof.
  revert c. induction cs as [|ch cs IH]; intros c.
  - cbn. destruct (decide (pg ∈ [])) as [Hin|_]; [|reflexivity].
    by apply elem_of_nil in Hin.
  - cbn [reparent foldl]. fold (reparent parent cs (alter (with_parent parent) ch c)).
    rewrite IH. destruct (decide (ch = pg)) as [->|Hne].
    + rewrite lookup_alter_eq.
      destruct (decide (pg ∈ pg :: cs)) as [_|Hn]; [|exfalso; apply Hn; left].
      destruct (decide (pg ∈ cs)); destruct (c !! pg); reflexivity.
    + rewrite lookup_alter_ne by done.
      destruct (decide (pg ∈ cs)) as [Hin|Hnin].
      * destruct (decide (pg ∈ ch :: cs)) as [_|Hn]; [reflexivity|].
        exfalso. apply Hn. by right.
      * destruct (decide (pg ∈ ch :: cs)) as [Hin|_]; [|reflexivity].
        apply elem_of_cons in Hin as [->|Hin]; [congruence | contradiction].
Qed.

Lemma adjust_children_in_cache_eq n parent d nd :
  m_node_cache d !! n = Some nd →
  adjust_children_in_cache n parent d
  = Ok (tt, set_cache (reparent parent (m_child_indices nd) (m_node_cache d)) d).
Proof.
  intros H. unfold adjust_children_in_cache, bind.
  rewrite (deref_intro _ _ _ H). apply adjust_children_eq.
Qed.

Lemma adjust_children_in_cache_self_eq n d nd :
  m_node_cache d !! n = Some nd →
  adjust_children_in_cache_self n d
  = Ok (tt, set_cache (reparent (m_num nd) (m_child_indices nd) (m_node_cache d)) d).
Proof.
  intros H. unfold adjust_children_in_cache_self, bind.
  rewrite (deref_intro _ _ _ H). by apply adjust_children_in_cache_eq.
Qed.

(** The allocator does not look at the cache or at the root page. *)
Lemma allocate_page_frame d pg d' :
  allocate_page d = Ok (pg, d') →
  m_node_cache d' = m_node_cache d ∧ m_root_page d' = m_root_page d
  ∧ ∀ c r, allocate_page (mkDir (m_stream d) r (m_start_free_page d)
                            (m_num_free_page d) c)
           = Ok (pg, mkDir (m_stream d') r (m_start_free_page d')
                       (m_num_free_page d') c).
Proof.
  destruct d as [s r st nf c]. simpl.
  unfold allocate_page, read_free_page, read_block, write_free_page, bind, gets,
    modify, ret, lift, throw, get_start_free_page, get_num_free_page,
    set_num_free_page, set_start_free_page. simpl.
  repeat (simpl;
          match goal with
          | |- context [decide ?p] => destruct (decide p)
          | |- context [dir_check ?b] => destruct (dir_check b) as [[]|]
          end);
    simpl; intros; simplify_eq; simpl; auto.
Qed.

End Primitives.


(** ** One level of [insert_and_balance] *)

Section InsertStep.
Context {P : Params}.

Lemma lower_bound_loop_le {A} (lt : A → bool) l fuel first len :
  (first + len ≤ length l)%nat →
  (first ≤ lower_bound_loop lt l fuel first len ≤ first + len)%nat.
Proof.
  revert first len.
  induction fuel as [|fuel IH]; intros first len Hle; cbn [lower_bound_loop].
  - lia.
  - destruct (decide (len = 0)%nat); [lia|].
    assert (Hhalf : (len / 2 < len)%nat) by (apply Nat.div_lt; lia).
    destruct (l !! (first + len / 2)%nat) as [x|]; [|lia].
    destruct (lt x).
    + specialize (IH (first + len / 2 + 1)%nat (len - len / 2 - 1)%nat). lia.
    + specialize (IH first (len / 2)%nat). lia.
Qed.

Lemma lower_bound_le {A} (lt : A → bool) l : (lower_bound lt l ≤ length l)%nat.
Proof.
  unfold lower_bound.
  pose proof (lower_bound_loop_le lt l (length l) 0 (length l)). lia.
Qed.

Lemma insert_at_length {A} i (x : A) l :
  (i ≤ length l)%nat → length (insert_at i x l) = S (length l).
Proof.
  intros H. unfold insert_at. rewrite length_app, length_take. simpl.
  rewrite length_drop. lia.
Qed.

Lemma entries_after_insert_length nd e :
  length (entries_after_insert nd e) = S (length (m_entries nd)).
Proof. apply insert_at_length, lower_bound_le. Qed.

Lemma children_after_insert_nil nd e ac :
  m_child_indices nd = [] → children_after_insert nd e ac = [].
Proof.
  intros H. unfold children_after_insert, is_leaf. rewrite H.
  destruct (bool_decide (ac ≠ INVALID_PAGE)); reflexivity.
Qed.

Lemma insert_prefix n nd e ac d (k : op unit) :
  m_node_cache d !! n = Some nd → well_shaped nd →
  ((do nd <- deref n;
    let i := lower_bound (fun x => entry_less x e) (m_entries nd) in
    (if bool_decide (ac ≠ INVALID_PAGE) && negb (is_leaf nd) then
       if decide (length (m_child_indices nd) < i + 1)%nat then throw Undefined
       else mutable_children n (insert_at (i + 1) ac)
     else ret tt);;
    mutable_entries n (insert_at i e);;
    k) d)
  = k (set_cache (<[n := inserted nd e ac]> (m_node_cache d)) d).
Proof.
  intros Hn Hshape.
  rewrite (bind_Ok _ _ _ _ _ (deref_intro _ _ _ Hn)). cbv zeta.
  pose proof (lower_bound_le (λ x, entry_less x e) (m_entries nd)) as Hi.
  unfold inserted, children_after_insert, entries_after_insert.
  destruct (bool_decide (ac ≠ INVALID_PAGE) && negb (is_leaf nd)) eqn:Hc.
  - destruct (decide _) as [Hlt|_].
    { exfalso. apply andb_true_iff in Hc as [_ Hl]. apply negb_true_iff in Hl.
      unfold is_leaf in Hl. apply bool_decide_eq_false in Hl.
      destruct Hshape as [?|Hs]; [contradiction|]. lia. }
    rewrite (bind_Ok _ _ _ _ _ (mutable_children_intro _ _ _ _ Hn)).
    erewrite bind_Ok
      by (apply mutable_entries_intro; simpl; apply lookup_insert_eq).
    simpl. rewrite insert_insert_eq. reflexivity.
  - unfold ret at 1. unfold bind at 1.
    rewrite (bind_Ok _ _ _ _ _ (mutable_entries_intro _ _ _ _ Hn)).
    reflexivity.
Qed.

(** Without overflow the insertion is all that happens. *)
Lemma insert_and_balance_fits budget n nd e ac d :
  m_node_cache d !! n = Some nd → well_shaped nd →
  (length (m_entries nd) < MAX_NUM_ENTRIES)%nat →
  insert_and_balance_rec (S budget) n e ac d
  = Ok (tt, set_cache (<[n := inserted nd e ac]> (m_node_cache d)) d).
Proof.
  intros Hn Hshape Hlen. cbn [insert_and_balance_rec].
  rewrite (insert_prefix _ _ _ _ _ _ Hn Hshape).
  erewrite bind_Ok by (apply deref_intro; simpl; apply lookup_insert_eq).
  change (m_entries (inserted nd e ac)) with (entries_after_insert nd e).
  rewrite entries_after_insert_length.
  destruct (decide _); [lia | reflexivity].
Qed.

Lemma slice_children_eq n sp index d a b :
  m_node_cache d !! n = Some a → m_node_cache d !! sp = Some b → n ≠ sp →
  (index ≤ length (m_child_indices a))%nat →
  slice_children n sp index d
  = Ok (tt, set_cache (<[n := with_children (take index (m_child_indices a)) a]>
                         (<[sp := with_children (drop index (m_child_indices a)) b]>
                            (m_node_cache d))) d).
Proof.
  intros Hn Hsp Hne Hle. unfold slice_children.
  rewrite (bind_Ok _ _ _ _ _ (deref_intro _ _ _ Hn)).
  destruct (decide _); [lia|].
  rewrite (bind_Ok _ _ _ _ _ (mutable_children_intro _ _ _ _ Hsp)).
  erewrite mutable_children_intro
    by (simpl; rewrite lookup_insert_ne by congruence; exact Hn).
  reflexivity.
Qed.

Lemma slice_entries_eq n sp index d a b :
  m_node_cache d !! n = Some a → m_node_cache d !! sp = Some b → n ≠ sp →
  (index ≤ length (m_entries a))%nat →
  slice_entries n sp index d
  = Ok (tt, set_cache (<[n := with_entries (take index (m_entries a)) a]>
                         (<[sp := with_entries (drop index (m_entries a)) b]>
                            (m_node_cache d))) d).
Proof.
  intros Hn Hsp Hne Hle. unfold slice_entries.
  rewrite (bind_Ok _ _ _ _ _ (deref_intro _ _ _ Hn)).
  destruct (decide _); [lia|].
  rewrite (bind_Ok _ _ _ _ _ (mutable_entries_intro _ _ _ _ Hsp)).
  erewrite mutable_entries_intro
    by (simpl; rewrite lookup_insert_ne by congruence; exact Hn).
  reflexivity.
Qed.

Lemma pop_back_take {A} (l : list A) k :
  (k < length l)%nat → pop_back (take (k + 1) l) = take k l.
Proof.
  intros H. unfold pop_back. rewrite length_take, take_take. f_equal. lia.
Qed.

Lemma lookup_reparent_notin parent cs (c : gmap Z BtreeNode) pg :
  pg ∉ cs → reparent parent cs c !! pg = c !! pg.
Proof.
  intros H. rewrite lookup_reparent. destruct (decide (pg ∈ cs)); [contradiction|done].
Qed.

Lemma blank_page_stream d d' pg :
  m_stream d' = m_stream d → blank_page d pg → blank_page d' pg.
Proof.
  intros Hs Hb n0. rewrite (read_node_stream _ _ d) by exact Hs. by rewrite Hb.
Qed.

Ltac lookup_cache :=
  simpl m_node_cache;
  repeat first [ rewrite lookup_insert_eq
               | rewrite lookup_insert_ne by congruence
               | rewrite lookup_reparent_notin by assumption ];
  try reflexivity; try eassumption.

(** The part of [insert_and_balance] that splits an overflowing node, up to
    the point where it looks at the parent. *)
Lemma split_prefix budget n nd e ac d sp d1 :
  let es := entries_after_insert nd e in
  let cs := children_after_insert nd e ac in
  m_node_cache d !! n = Some nd → m_num nd = n → well_shaped nd →
  length es = S MAX_NUM_ENTRIES → (1 ≤ MAX_NUM_ENTRIES)%nat →
  n ∉ cs → sp ∉ cs →
  allocate_page d = Ok (sp, d1) →
  m_node_cache d !! sp = None → blank_page d1 sp →
  ∃ promoted,
    es !! split_index (length es) = Some promoted
    ∧ insert_and_balance_rec (S budget) n e ac d
      = (let d' := mkDir (m_stream d1) (m_root_page d) (m_start_free_page d1)
                     (m_num_free_page d1) (split_cache n sp nd e ac (m_node_cache d)) in
         (do nd <- deref n;
          if decide (m_parent_num nd = INVALID_PAGE) then
            do new_root_page <- allocate_page;
            do root <- retrieve_node INVALID_PAGE new_root_page;
            do nd <- deref n;
            mutable_children root (fun cs => cs ++ [m_num nd]);;
            do sd <- deref sp;
            mutable_children root (fun cs => cs ++ [m_num sd]);;
            mutable_entries root (fun es => es ++ [promoted]);;
            set_root_page new_root_page;;
            mutable_parent_page_number n new_root_page;;
            mutable_parent_page_number sp new_root_page
          else
            do parent <- retrieve_existing_node (m_parent_num nd);
            do sd <- deref sp;
            match parent with
            | Some p => insert_and_balance_rec budget p promoted (m_num sd)
            | None =>
                match budget with
                | O => throw CorruptedDirectoryException
                | S _ => throw Undefined
                end
            end) d').
Proof.
  intros es cs Hn Hnum Hshape Hlen HMAX Hncs Hspcs Halloc Hfresh Hblank.
  assert (Hne : n ≠ sp) by congruence.
  assert (Hmid : (split_index (length es) < length es)%nat).
  { unfold split_index. rewrite Hlen.
    pose proof (Nat.div_lt (S MAX_NUM_ENTRIES) 2). lia. }
  destruct (lookup_lt_is_Some_2 es _ Hmid) as [promoted Hprom].
  exists promoted. split; [exact Hprom|].
  cbn [insert_and_balance_rec].
  rewrite (insert_prefix _ _ _ _ _ _ Hn Hshape).
  erewrite bind_Ok by (apply deref_intro; lookup_cache).
  change (m_entries (inserted nd e ac)) with es.
  destruct (decide (MAX_NUM_ENTRIES < length es)%nat); [|lia].
  destruct (allocate_page_frame _ _ _ Halloc) as (_ & _ & Hframe).
  unfold set_cache at 1.
  rewrite (bind_Ok _ _ _ _ _ (Hframe _ _)).
  change (m_parent_num (inserted nd e ac)) with (m_parent_num nd).
  erewrite bind_Ok.
  2:{ apply retrieve_node_blank; [lookup_cache|].
      eapply blank_page_stream; [|exact Hblank]. reflexivity. }
  erewrite bind_Ok by (apply deref_intro; lookup_cache).
  change (m_entries (inserted nd e ac)) with es.
  destruct (decide (length es / 2 = 0)%nat) as [Hz|_].
  { exfalso. rewrite Hlen in Hz.
    pose proof (Nat.div_str_pos (S MAX_NUM_ENTRIES) 2). lia. }
  fold (split_index (length es)). rewrite Hprom.
  set (mid := split_index (length es)) in *.
  change (is_leaf (inserted nd e ac)) with (bool_decide (cs = [])).
  assert (Hfin : ∀ (c0 : gmap Z BtreeNode) a b,
    c0 !! n = Some a → c0 !! sp = Some b →
    m_parent_num a = m_parent_num nd → m_num a = n →
    m_child_indices a = take (mid + 1) cs → m_entries a = es →
    m_parent_num b = m_parent_num nd → m_num b = sp →
    m_child_indices b = drop (mid + 1) cs →
    (∀ pg, pg ≠ n → pg ≠ sp →
           c0 !! pg = reparent sp (drop (mid + 1) cs) (m_node_cache d) !! pg) →
    ∀ (k : op unit) (rt fr nf : Z) (s : list byte),
    (slice_entries n sp (mid + 1);; mutable_entries n pop_back;; k)
      (mkDir s rt fr nf c0)
    = k (mkDir s rt fr nf (split_cache n sp nd e ac (m_node_cache d)))).
  { intros c0 a b H0n H0sp Ha1 Ha2 Ha3 Ha4 Hb1 Hb2 Hb3 H0o k rt fr nf s.
    erewrite bind_Ok.
    2:{ eapply slice_entries_eq; simpl m_node_cache; eauto. rewrite Ha4. lia. }
    erewrite bind_Ok by (apply mutable_entries_intro; lookup_cache).
    f_equal. unfold set_cache. simpl. f_equal.
    apply map_eq. intros pg. unfold split_cache.
    destruct (decide (pg = n)) as [->|Hpn].
    - rewrite !lookup_insert_eq. unfold split_left, with_entries. simpl.
      fold es cs mid. rewrite Ha4, pop_back_take by lia.
      by rewrite Ha1, Ha2, Ha3, Hnum.
    - rewrite !(lookup_insert_ne _ n) by congruence.
      destruct (decide (pg = sp)) as [->|Hps].
      + rewrite !lookup_insert_eq. unfold split_right, with_entries. simpl.
        fold es cs mid. by rewrite Ha4, Hb1, Hb2, Hb3.
      + rewrite !lookup_insert_ne by congruence. by apply H0o. }
  destruct (decide (cs = [])) as [Hcs|Hcs].
  - rewrite bool_decide_eq_true_2 by exact Hcs. cbn [negb].
    unfold ret at 1. unfold bind at 1.
    unfold set_cache. simpl m_stream. simpl m_root_page.
    simpl m_start_free_page. simpl m_num_free_page. simpl m_node_cache.
    eapply Hfin; [lookup_cache | lookup_cache | ..]; try reflexivity;
      try (simpl; fold cs; rewrite Hcs, ?take_nil, ?drop_nil; reflexivity);
      try exact Hnum.
    intros pg Hpn Hps. lookup_cache. rewrite Hcs, drop_nil. reflexivity.
  - rewrite bool_decide_eq_false_2 by exact Hcs. cbn [negb].
    assert (Hcslen : (length es ≤ length cs)%nat).
    { subst es cs. rewrite entries_after_insert_length.
      destruct Hshape as [Hs|Hs].
      - exfalso. apply Hcs. by apply children_after_insert_nil.
      - unfold children_after_insert.
        destruct (_ && _); [|lia].
        rewrite insert_at_length; [lia|].
        pose proof (lower_bound_le (λ x, entry_less x e) (m_entries nd)). lia. }
    erewrite bind_Ok.
    2:{ erewrite bind_Ok.
        2:{ eapply slice_children_eq; [lookup_cache | lookup_cache | exact Hne |].
            simpl. fold cs. lia. }
        eapply adjust_children_in_cache_self_eq. lookup_cache. }
    unfold set_cache. simpl m_stream. simpl m_root_page.
    simpl m_start_free_page. simpl m_num_free_page. simpl m_node_cache.
    simpl m_num. simpl m_child_indices. fold cs.
    assert (Hn_moved : n ∉ drop (mid + 1) cs).
    { intros Hin. apply Hncs. eapply subseteq_drop; eauto. }
    assert (Hsp_moved : sp ∉ drop (mid + 1) cs).
    { intros Hin. apply Hspcs. eapply subseteq_drop; eauto. }
    eapply Hfin; [lookup_cache | lookup_cache | ..]; try reflexivity;
      try exact Hnum.
    intros pg Hpn Hps. rewrite !lookup_reparent.
    destruct (decide _); lookup_cache.
Qed.

(** The split of a node that has a parent goes on in the parent, with the
    promoted entry and the sibling. *)
Lemma split_step_parent budget n nd e ac d sp d1 promoted :
  let es := entries_after_insert nd e in
  let cs := children_after_insert nd e ac in
  m_node_cache d !! n = Some nd → m_num nd = n → well_shaped nd →
  length es = S MAX_NUM_ENTRIES → (1 ≤ MAX_NUM_ENTRIES)%nat →
  n ∉ cs → sp ∉ cs →
  allocate_page d = Ok (sp, d1) →
  m_node_cache d !! sp = None → blank_page d1 sp →
  es !! split_index (length es) = Some promoted →
  m_parent_num nd ≠ INVALID_PAGE →
  is_Some (m_node_cache d !! m_parent_num nd) →
  insert_and_balance_rec (S budget) n e ac d
  = insert_and_balance_rec budget (m_parent_num nd) promoted sp
      (mkDir (m_stream d1) (m_root_page d) (m_start_free_page d1)
         (m_num_free_page d1) (split_cache n sp nd e ac (m_node_cache d))).
Proof.
  intros es cs Hn Hnum Hshape Hlen HMAX Hncs Hspcs Halloc Hfresh Hblank Hprom Hpar [pd Hpd].
  destruct (split_prefix budget n nd e ac d sp d1 Hn Hnum Hshape Hlen HMAX Hncs
              Hspcs Halloc Hfresh Hblank) as (promoted' & Hprom' & Heq).
  assert (promoted' = promoted) as Hsame.
  { fold es in Hprom'. rewrite Hprom in Hprom'. by injection Hprom'. }
  rewrite Hsame in Heq. clear Hsame Hprom' promoted'.
  assert (Hne : n ≠ sp) by congruence.
  assert (Hn_moved : n ∉ moved_children nd e ac).
  { intros Hin. apply Hncs. eapply subseteq_drop; eauto. }
  assert (Hsp_moved : sp ∉ moved_children nd e ac).
  { intros Hin. apply Hspcs. eapply subseteq_drop; eauto. }
  rewrite Heq. cbv zeta.
  erewrite bind_Ok by (apply deref_intro; unfold split_cache; lookup_cache).
  change (m_parent_num (split_left nd e ac)) with (m_parent_num nd).
  destruct (decide (m_parent_num nd = INVALID_PAGE)); [contradiction|].
  rewrite (bind_Ok _ _ _ _ _ (retrieve_existing_node_eq _ _)).
  erewrite bind_Ok by (apply deref_intro; unfold split_cache; lookup_cache).
  simpl m_node_cache.
  assert (Hres : is_Some (split_cache n sp nd e ac (m_node_cache d)
                            !! m_parent_num nd)).
  { unfold split_cache.
    destruct (decide (m_parent_num nd = n)) as [->|?]; [lookup_cache; eauto|].
    assert (m_parent_num nd ≠ sp) by congruence.
    rewrite !lookup_insert_ne by congruence. rewrite lookup_reparent.
    destruct (decide _); rewrite Hpd; simpl; eauto. }
  cbn [m_node_cache]. destruct Hres as [x ->]. reflexivity.
Qed.

(** The split of the root ends in a new root over the two halves. *)
Lemma split_step_root budget n nd e ac d sp d1 promoted rp d2 :
  let es := entries_after_insert nd e in
  let cs := children_after_insert nd e ac in
  m_node_cache d !! n = Some nd → m_num nd = n → well_shaped nd →
  length es = S MAX_NUM_ENTRIES → (1 ≤ MAX_NUM_ENTRIES)%nat →
  n ∉ cs → sp ∉ cs →
  allocate_page d = Ok (sp, d1) →
  m_node_cache d !! sp = None → blank_page d1 sp →
  es !! split_index (length es) = Some promoted →
  m_parent_num nd = INVALID_PAGE →
  allocate_page d1 = Ok (rp, d2) →
  m_node_cache d !! rp = None → rp ≠ sp → blank_page d2 rp →
  insert_and_balance_rec (S budget) n e ac d
  = Ok (tt, mkDir (m_stream d2) rp (m_start_free_page d2) (m_num_free_page d2)
              (new_root_cache n sp rp nd e promoted ac (m_node_cache d))).
Proof.
  intros es cs Hn Hnum Hshape Hlen HMAX Hncs Hspcs Halloc Hfresh Hblank Hprom Hpar Halloc2 Hrp Hrpsp Hblank2.
  destruct (split_prefix budget n nd e ac d sp d1 Hn Hnum Hshape Hlen HMAX Hncs
              Hspcs Halloc Hfresh Hblank) as (promoted' & Hprom' & Heq).
  assert (promoted' = promoted) as Hsame.
  { fold es in Hprom'. rewrite Hprom in Hprom'. by injection Hprom'. }
  rewrite Hsame in Heq. clear Hsame Hprom' promoted'.
  assert (Hne : n ≠ sp) by congruence.
  assert (Hn_moved : n ∉ moved_children nd e ac).
  { intros Hin. apply Hncs. eapply subseteq_drop; eauto. }
  assert (Hsp_moved : sp ∉ moved_children nd e ac).
  { intros Hin. apply Hspcs. eapply subseteq_drop; eauto. }
  rewrite Heq. cbv zeta.
  assert (Hrpn : rp ≠ n) by congruence.
  erewrite bind_Ok by (apply deref_intro; unfold split_cache; lookup_cache).
  change (m_parent_num (split_left nd e ac)) with (m_parent_num nd).
  destruct (decide (m_parent_num nd = INVALID_PAGE)); [|contradiction].
  destruct (allocate_page_frame _ _ _ Halloc2) as (_ & _ & Hframe).
  destruct (allocate_page_frame _ _ _ Halloc) as (_ & Hroot1 & _).
  rewrite (bind_Ok _ _ _ _ _ (Hframe _ _)).
  assert (Hrp' : split_cache n sp nd e ac (m_node_cache d) !! rp = None).
  { unfold split_cache. rewrite !lookup_insert_ne by congruence.
    rewrite lookup_reparent. destruct (decide _); rewrite Hrp; reflexivity. }
  erewrite bind_Ok.
  2:{ apply retrieve_node_blank; [exact Hrp'|].
      eapply blank_page_stream; [|exact Hblank2]. reflexivity. }
  erewrite bind_Ok
    by (apply deref_intro; unfold split_cache; lookup_cache).
  erewrite bind_Ok by (apply mutable_children_intro; lookup_cache).
  erewrite bind_Ok
    by (apply deref_intro; unfold split_cache; lookup_cache).
  erewrite bind_Ok by (apply mutable_children_intro; lookup_cache).
  erewrite bind_Ok by (apply mutable_entries_intro; lookup_cache).
  unfold set_root_page at 1, modify at 1. unfold bind at 1.
  erewrite bind_Ok
    by (apply mutable_parent_intro; unfold split_cache; lookup_cache).
  erewrite mutable_parent_intro by (unfold split_cache; lookup_cache).
  f_equal. f_equal. unfold set_cache. simpl. f_equal.
  unfold new_root_cache.
  apply map_eq. intros pg.
  destruct (decide (pg = sp)) as [->|Hps]; [lookup_cache|].
  rewrite !(lookup_insert_ne _ sp) by congruence.
  destruct (decide (pg = n)) as [->|Hpn]; [lookup_cache|].
  rewrite !(lookup_insert_ne _ n) by congruence.
  destruct (decide (pg = rp)) as [->|Hpr]; lookup_cache.
Qed.

(** C8. The split of an overflowing node. With the entry (and the additional
    child) inserted the node has [MAX_NUM_ENTRIES + 1] entries; the entry at
    [mid = len / 2 - 1] is promoted, the node keeps the entries before [mid]
    and the children up to [mid], the sibling on the newly allocated page gets
    the entries and the children after [mid], and the resident children that
    moved get the sibling as parent ([split_cache]). A node with a parent
    hands the promoted entry and the sibling to [insert_and_balance] on the
    parent; the root gets a new root on a second new page, which holds the
    promoted entry and the children [n, sibling], becomes [root_page], and is
    the parent of both halves ([new_root_cache]). *)
Theorem insert_and_balance_split budget n nd e ac d sp d1 :
  let es := entries_after_insert nd e in
  let cs := children_after_insert nd e ac in
  m_node_cache d !! n = Some nd → m_num nd = n → well_shaped nd →
  length es = S MAX_NUM_ENTRIES → (1 ≤ MAX_NUM_ENTRIES)%nat →
  n ∉ cs → sp ∉ cs →
  allocate_page d = Ok (sp, d1) →
  m_node_cache d !! sp = None → blank_page d1 sp →
  ∃ promoted,
    es !! split_index (length es) = Some promoted
    ∧ (m_parent_num nd ≠ INVALID_PAGE →
       is_Some (m_node_cache d !! m_parent_num nd) →
       insert_and_balance_rec (S budget) n e ac d
       = insert_and_balance_rec budget (m_parent_num nd) promoted sp
           (mkDir (m_stream d1) (m_root_page d) (m_start_free_page d1)
              (m_num_free_page d1) (split_cache n sp nd e ac (m_node_cache d))))
    ∧ (m_parent_num nd = INVALID_PAGE →
       ∀ rp d2, allocate_page d1 = Ok (rp, d2) →
                m_node_cache d !! rp = None → rp ≠ sp → blank_page d2 rp →
       insert_and_balance_rec (S budget) n e ac d
       = Ok (tt, mkDir (m_stream d2) rp (m_start_free_page d2) (m_num_free_page d2)
                   (new_root_cache n sp rp nd e promoted ac (m_node_cache d)))).
Proof.
  intros es cs Hn Hnum Hshape Hlen HMAX Hncs Hspcs Halloc Hfresh Hblank.
  destruct (lookup_lt_is_Some_2 es (split_index (length es))) as [promoted Hprom].
  { unfold split_index. rewrite Hlen. pose proof (Nat.div_lt (S MAX_NUM_ENTRIES) 2). lia. }
  exists promoted. split; [exact Hprom|]. split.
  - intros Hpar Hpd. by apply split_step_parent.
  - intros Hpar rp d2 Halloc2 Hrp Hrpsp Hblank2.
    by apply (split_step_root budget n nd e ac d sp d1 promoted rp d2).
Qed.

Lemma blank_page_intro d pg :
  pg ≠ INVALID_PAGE →
  length (stream_read (m_stream d) (page_offset pg) BLOCK_SIZE) = BLOCK_SIZE →
  (4 ≤ BLOCK_SIZE)%nat →
  from_little_endian (take 4 (stream_read (m_stream d) (page_offset pg) BLOCK_SIZE))
  = 0 →
  blank_page d pg.
Proof.
  intros Hpg Hlen HB Hflag n0. unfold read_node.
  destruct (decide _); [contradiction|].
  rewrite (bind_Ok _ _ _ _ _ (read_block_intro _ _ Hlen)).
  unfold lift, from_buffer, read_little_endian_and_forward.
  destruct (decide _) as [_|Hn]; [|rewrite Hlen in Hn; lia].
  rewrite Hflag. destruct (decide (0 = 0)); [reflexivity|congruence].
Qed.

End InsertStep.

Lemma insert_and_balance_split_witness :
  (∃ promoted,
     @insert_and_balance_rec reference_params 32 0 (entry_for "14") INVALID_PAGE
       full_root_leaf
     = Ok (tt, mkDir (m_stream (state_after (@allocate_page reference_params;;
                                             @allocate_page reference_params)
                                  full_root_leaf))
                 2 INVALID_PAGE 0
                 (@new_root_cache reference_params 0 1 2 (node_at full_root_leaf 0)
                    (entry_for "14") promoted INVALID_PAGE
                    (m_node_cache full_root_leaf))))
  ∧ (∃ promoted,
       @insert_and_balance_rec reference_params 32 1 (entry_for "21") INVALID_PAGE
         full_right_leaf
       = @insert_and_balance_rec reference_params 31 2 promoted 3
           (mkDir (m_stream (state_after (@allocate_page reference_params)
                               full_right_leaf))
              2 INVALID_PAGE 0
              (@split_cache reference_params 1 3 (node_at full_right_leaf 1)
                 (entry_for "21") INVALID_PAGE (m_node_cache full_right_leaf)))).
Proof.
  assert (Hblank : ∀ d pg,
    pg ≠ INVALID_PAGE →
    length (stream_read (m_stream d) (@page_offset reference_params pg) 4096) = 4096%nat →
    from_little_endian (take 4 (stream_read (m_stream d)
                                  (@page_offset reference_params pg) 4096)) = 0 →
    @blank_page reference_params d pg).
  { intros d pg H1 H2 H3. apply (@blank_page_intro reference_params); try assumption.
    simpl. lia. }
  split.
  - destruct (@insert_and_balance_split reference_params 31 0
                (node_at full_root_leaf 0) (entry_for "14") INVALID_PAGE
                full_root_leaf 1
                (state_after (@allocate_page reference_params) full_root_leaf))
      as (promoted & _ & _ & Hroot).
    + vm_compute. reflexivity.
    + reflexivity.
    + left. reflexivity.
    + vm_compute. reflexivity.
    + simpl. lia.
    + rewrite (@children_after_insert_nil reference_params) by reflexivity.
      apply not_elem_of_nil.
    + rewrite (@children_after_insert_nil reference_params) by reflexivity.
      apply not_elem_of_nil.
    + vm_compute. reflexivity.
    + vm_compute. reflexivity.
    + apply Hblank; [vm_compute; discriminate | vm_compute; reflexivity
                    | vm_compute; reflexivity].
    + exists promoted.
      apply (Hroot eq_refl 2
               (state_after (@allocate_page reference_params;;
                             @allocate_page reference_params) full_root_leaf)).
      * vm_compute. reflexivity.
      * vm_compute. reflexivity.
      * discriminate.
      * apply Hblank; [vm_compute; discriminate | vm_compute; reflexivity
                      | vm_compute; reflexivity].
  - destruct (@insert_and_balance_split reference_params 31 1
                (node_at full_right_leaf 1) (entry_for "21") INVALID_PAGE
                full_right_leaf 3
                (state_after (@allocate_page reference_params) full_right_leaf))
      as (promoted & _ & Hinner & _).
    + vm_compute. reflexivity.
    + reflexivity.
    + left. reflexivity.
    + vm_compute. reflexivity.
    + simpl. lia.
    + rewrite (@children_after_insert_nil reference_params) by reflexivity.
      apply not_elem_of_nil.
    + rewrite (@children_after_insert_nil reference_params) by reflexivity.
      apply not_elem_of_nil.
    + vm_compute. reflexivity.
    + vm_compute. reflexivity.
    + apply Hblank; [vm_compute; discriminate | vm_compute; reflexivity
                    | vm_compute; reflexivity].
    + exists promoted. apply Hinner.
      * vm_compute. discriminate.
      * vm_compute. eauto.
Defined.


(** ** The allocator keeps the stream well formed *)

Section AllocatorInvariant.
Context {P : Params}.
Context {HP : ParamsOk}.

Lemma num_pages_aligned (s : list byte) (k : nat) :
  length s = (k * BLOCK_SIZE)%nat → (length s / BLOCK_SIZE)%nat = k.
Proof. pose proof block_size_min. intros ->. apply Nat.div_mul. lia. Qed.

Lemma page_in_stream_read d pg :
  length (m_stream d) = (num_pages d * BLOCK_SIZE)%nat → in_stream d pg →
  (Z.to_nat (page_offset pg) + BLOCK_SIZE ≤ length (m_stream d))%nat.
Proof.
  pose proof block_size_min as HBS.
  intros Hal [H0 H1]. rewrite page_offset_nat by lia. rewrite Hal.
  assert (Z.to_nat pg + 1 ≤ num_pages d)%nat by lia.
  nia.
Qed.

Lemma stream_read_length d pg :
  length (m_stream d) = (num_pages d * BLOCK_SIZE)%nat → in_stream d pg →
  length (stream_read (m_stream d) (page_offset pg) BLOCK_SIZE) = BLOCK_SIZE.
Proof.
  pose proof block_size_min as HBS.
  intros Hal Hin. pose proof (page_in_stream_read d pg Hal Hin).
  unfold stream_read. rewrite length_take, length_drop. lia.
Qed.

(** A free-page read depends on the block it reads only. *)
Lemma read_free_page_block d d' pg :
  stream_read (m_stream d') (page_offset pg) BLOCK_SIZE
  = stream_read (m_stream d) (page_offset pg) BLOCK_SIZE →
  ∀ fp, read_free_page pg d = Ok (fp, d) → read_free_page pg d' = Ok (fp, d').
Proof.
  pose proof block_size_min as HBS.
  intros Hrd fp. unfold read_free_page, read_block, bind, gets, lift, ret, throw.
  rewrite Hrd.
  destruct (dir_check _) as [[]|]; [|discriminate].
  destruct (decide (_ ≠ 0)); [discriminate|].
  intros [= <-]. reflexivity.
Qed.

Lemma free_chain_frame d d' start l :
  (∀ p, p ∈ l →
        stream_read (m_stream d') (page_offset p) BLOCK_SIZE
        = stream_read (m_stream d) (page_offset p) BLOCK_SIZE) →
  free_chain d start l → free_chain d' start l.
Proof.
  pose proof block_size_min as HBS.
  revert start. induction l as [|p l IH]; intros start Hsame; simpl; [done|].
  intros (-> & Hp & fp & Hfp & Hrest).
  split; [reflexivity|]. split; [exact Hp|]. exists fp. split.
  - eapply read_free_page_block; [|exact Hfp]. apply Hsame. left.
  - apply IH; [|exact Hrest]. intros q Hq. apply Hsame. by right.
Qed.

Lemma free_chain_head d start l :
  free_chain d start l → start = INVALID_PAGE ∧ l = [] ∨ ∃ l', l = start :: l'.
Proof.
  pose proof block_size_min as HBS.
  destruct l as [|p l]; simpl.
  - intros ->. left. done.
  - intros (-> & _). right. eauto.
Qed.

(** Writing the block of a page inside the stream. *)
Lemma write_page_length s pg (data : list byte) (k : nat) :
  length s = (k * BLOCK_SIZE)%nat → 0 ≤ pg < Z.of_nat k →
  length data = BLOCK_SIZE →
  length (stream_write s (page_offset pg) data) = length s.
Proof.
  pose proof block_size_min as HBS.
  intros Hal Hpg Hd. rewrite stream_write_length, Hd.
  rewrite page_offset_nat by lia. rewrite Hal.
  assert (Z.to_nat pg + 1 ≤ k)%nat by lia. nia.
Qed.

Lemma write_page_read_other s pg q (data : list byte) (k : nat) :
  length s = (k * BLOCK_SIZE)%nat → 0 ≤ pg → 0 ≤ q < Z.of_nat k → pg ≠ q →
  length data = BLOCK_SIZE →
  stream_read (stream_write s (page_offset pg) data) (page_offset q) BLOCK_SIZE
  = stream_read s (page_offset q) BLOCK_SIZE.
Proof.
  pose proof block_size_min as HBS.
  intros Hal Hpg Hq Hne Hd. apply stream_write_read_other.
  - unfold page_offset. lia.
  - unfold page_offset. lia.
  - rewrite page_offset_nat by lia. rewrite Hal.
    assert (Z.to_nat q + 1 ≤ k)%nat by lia. nia.
  - rewrite !page_offset_nat, Hd by lia.
    destruct (decide (q < pg)).
    + left. assert (Z.to_nat q + 1 ≤ Z.to_nat pg)%nat by lia. nia.
    + right. assert (Z.to_nat pg + 1 ≤ Z.to_nat q)%nat by lia. nia.
Qed.

Lemma write_page_read_same s pg (data : list byte) :
  length data = BLOCK_SIZE →
  stream_read (stream_write s (page_offset pg) data) (page_offset pg) BLOCK_SIZE
  = data.
Proof. intros <-. apply stream_write_read_same. Qed.

Lemma read_free_page_inv d pg fp :
  read_free_page pg d = Ok (fp, d) →
  length (stream_read (m_stream d) (page_offset pg) BLOCK_SIZE) = BLOCK_SIZE
  ∧ from_little_endian
      (take 4 (stream_read (m_stream d) (page_offset pg) BLOCK_SIZE)) = 0.
Proof.
  pose proof block_size_min as HBS.
  unfold read_free_page. intros H.
  apply bind_inv in H as (buffer & d1 & Hb & H).
  apply read_block_Ok in Hb as (-> & -> & Hl).
  split; [exact Hl|].
  destruct (decide (_ ≠ 0)) as [|Hz]; [discriminate|].
  apply dec_stable in Hz. exact Hz.
Qed.

Lemma in_stream_not_invalid d pg :
  Z.of_nat (num_pages d) ≤ INVALID_PAGE → in_stream d pg → pg ≠ INVALID_PAGE.
Proof. unfold in_stream. lia. Qed.

Lemma blank_free_page d d' pg fp :
  read_free_page pg d = Ok (fp, d) → pg ≠ INVALID_PAGE →
  stream_read (m_stream d') (page_offset pg) BLOCK_SIZE
  = stream_read (m_stream d) (page_offset pg) BLOCK_SIZE →
  blank_page d' pg.
Proof.
  pose proof block_size_min as HBS.
  intros Hfp Hpg Hsame. apply read_free_page_inv in Hfp as [Hl Hz].
  apply blank_page_intro.
  - exact Hpg.
  - by rewrite Hsame.
  - lia.
  - by rewrite Hsame.
Qed.

(** [allocate_page] on a well-formed stream with room for one more page. *)
Lemma allocate_page_ok d fl :
  stream_ok d fl → Z.of_nat (num_pages d) < INVALID_PAGE →
  ∃ sp d1 fl1,
    allocate_page d = Ok (sp, d1)
    ∧ stream_ok d1 fl1
    ∧ in_stream d1 sp ∧ (sp ∉ fl1) ∧ blank_page d1 sp
    ∧ (∀ p, p ∈ fl1 → p ∈ fl)
    ∧ (sp ∈ fl ∨ sp = Z.of_nat (num_pages d))
    ∧ (num_pages d ≤ num_pages d1 ≤ S (num_pages d))%nat
    ∧ m_node_cache d1 = m_node_cache d
    ∧ m_root_page d1 = m_root_page d.
Proof.
  pose proof block_size_min as HBS.
  intros [Hal Hpages Hchain Hnd Hrange] Hroom.
  destruct fl as [|p l'].
  - (* the free list is empty: the stream grows *)
    simpl in Hchain.
    exists (Z.of_nat (num_pages d)), (set_stream (m_stream d ++ replicate BLOCK_SIZE x00) d), [].
    assert (Hnp : num_pages (set_stream (m_stream d ++ replicate BLOCK_SIZE x00) d)
                  = S (num_pages d)).
    { unfold num_pages at 1. simpl. rewrite length_app, length_replicate, Hal.
      replace (num_pages d * BLOCK_SIZE + BLOCK_SIZE)%nat
        with (S (num_pages d) * BLOCK_SIZE)%nat by lia.
      apply Nat.div_mul. lia. }
    split.
    { unfold allocate_page, bind, get_start_free_page, gets, modify, ret.
      rewrite Hchain. destruct (decide (INVALID_PAGE = INVALID_PAGE)); [|congruence].
      rewrite stream_resize_grow. unfold wrap32, stream_size.
      rewrite <- Nat2Z.inj_div. fold (num_pages d).
      rewrite Z.mod_small; [reflexivity|]. unfold INVALID_PAGE in Hroom. lia. }
    split.
    { constructor; rewrite ?Hnp.
      - simpl. rewrite length_app, length_replicate, Hal. lia.
      - lia.
      - simpl. exact Hchain.
      - constructor.
      - intros p Hp. by apply elem_of_nil in Hp. }
    split; [unfold in_stream; rewrite Hnp; lia|].
    split; [apply not_elem_of_nil|].
    split.
    { assert (Hrd : stream_read (m_stream d ++ replicate BLOCK_SIZE x00)
                      (page_offset (Z.of_nat (num_pages d))) BLOCK_SIZE
                    = replicate BLOCK_SIZE x00).
      { unfold stream_read. rewrite page_offset_nat by lia.
        rewrite Nat2Z.id, <- Hal. rewrite drop_app_length.
        apply take_ge. by rewrite length_replicate. }
      apply blank_page_intro; simpl m_stream; rewrite ?Hrd.
      - unfold INVALID_PAGE in *. lia.
      - apply length_replicate.
      - lia.
      - rewrite take_replicate. apply from_little_endian_zeros. }
    split; [auto|]. split; [by right|]. rewrite Hnp.
    split; [lia|]. split; reflexivity.
  - (* the head of the free list is handed out *)
    simpl in Hchain. destruct Hchain as (Hstart & Hp & fp & Hfp & Hrest).
    assert (Hpin : in_stream d p) by (apply Hrange; left).
    apply NoDup_cons in Hnd as [Hpl' Hnd'].
    pose proof (read_free_page_Ok _ _ _ _ Hfp) as (_ & Hnext & _).
    destruct l' as [|q l''].
    + simpl in Hrest.
      exists p, (set_free_list INVALID_PAGE (wrap32 (m_num_free_page d - 1)) d), [].
      split.
      { unfold allocate_page, bind, get_start_free_page, gets. rewrite Hstart.
        destruct (decide (p = INVALID_PAGE)); [contradiction|].
        rewrite Hfp. unfold get_num_free_page, gets, set_num_free_page,
          set_start_free_page, modify, ret. simpl.
        destruct (decide (next fp ≠ INVALID_PAGE)); [contradiction|].
        rewrite Hrest. reflexivity. }
      split.
      { constructor; try done; intros r Hr; by apply elem_of_nil in Hr. }
      split; [exact Hpin|]. split; [apply not_elem_of_nil|].
      split; [eapply blank_free_page; eauto|].
      split; [intros r Hr; by apply elem_of_nil in Hr|].
      split; [left; left|]. split; [unfold num_pages; simpl; lia|].
      split; reflexivity.
    + simpl in Hrest. destruct Hrest as (Hq & Hqne & fp' & Hfp' & Hrest').
      assert (Hqin : in_stream d q) by (apply Hrange; right; left).
      assert (Hpq : p ≠ q).
      { intros ->. apply Hpl'. left. }
      apply NoDup_cons in Hnd' as [Hql'' Hnd''].
      pose proof (read_free_page_Ok _ _ _ _ Hfp') as (_ & Hnext' & _).
      set (img := free_page_image {| next := next fp'; prev := INVALID_PAGE |}).
      set (d0 := set_free_list q (wrap32 (m_num_free_page d - 1)) d).
      set (d1 := set_stream (stream_write (m_stream d0) (page_offset q) img) d0).
      assert (Himg : length img = BLOCK_SIZE)
        by (apply free_page_image_length; exact block_size_min).
      assert (Hlen1 : length (m_stream d1) = length (m_stream d)).
      { unfold d1, d0. simpl.
        apply (write_page_length _ _ _ (num_pages d)); auto. }
      assert (Hnp1 : num_pages d1 = num_pages d).
      { unfold num_pages. by rewrite Hlen1. }
      assert (Hother : ∀ r, in_stream d r → r ≠ q →
                stream_read (m_stream d1) (page_offset r) BLOCK_SIZE
                = stream_read (m_stream d) (page_offset r) BLOCK_SIZE).
      { intros r Hr Hrq. unfold d1, d0. simpl.
        apply (write_page_read_other _ _ _ _ (num_pages d)); auto.
        apply Hqin. }
      exists p, d1, (q :: l'').
      split.
      { unfold allocate_page, bind, get_start_free_page, gets. rewrite Hstart.
        destruct (decide (p = INVALID_PAGE)); [contradiction|].
        rewrite Hfp. unfold get_num_free_page, gets, set_num_free_page,
          set_start_free_page, modify, ret. simpl.
        rewrite Hq.
        destruct (decide (q ≠ INVALID_PAGE)) as [_|Hn]; [|exfalso; exact (Hn Hqne)].
        change (mkDir (m_stream d) (m_root_page d) q (wrap32 (m_num_free_page d - 1))
                  (m_node_cache d)) with d0.
        rewrite (read_free_page_stream q d d0 fp' eq_refl Hfp').
        reflexivity. }
      split.
      { constructor.
        - rewrite Hnp1, Hlen1. exact Hal.
        - rewrite Hnp1. exact Hpages.
        - simpl. split; [reflexivity|]. split; [exact Hqne|].
          exists {| next := next fp'; prev := INVALID_PAGE |}. split.
          + apply (read_written_free_page q _ d0 block_size_min); simpl; [lia|].
            unfold INVALID_PAGE. lia.
          + simpl. eapply free_chain_frame; [|exact Hrest'].
            intros r Hr. apply Hother.
            * apply Hrange. right. by right.
            * intros ->. contradiction.
        - by constructor.
        - intros r Hr. unfold in_stream. rewrite Hnp1. apply Hrange. by right. }
      split; [unfold in_stream; rewrite Hnp1; exact Hpin|].
      split; [exact Hpl'|].
      split.
      { eapply blank_free_page; [exact Hfp | exact Hp |]. by apply Hother. }
      split; [intros r Hr; by right|].
      split; [left; left|]. rewrite Hnp1. split; [lia|]. split; reflexivity.
Qed.

(** [deallocate_page] of a page inside the stream that is not free yet. *)
Lemma deallocate_page_ok d fl pg :
  stream_ok d fl → in_stream d pg → pg ∉ fl →
  ∃ d1,
    deallocate_page pg d = Ok (tt, d1)
    ∧ stream_ok d1 (pg :: fl)
    ∧ num_pages d1 = num_pages d
    ∧ m_node_cache d1 = m_node_cache d
    ∧ m_root_page d1 = m_root_page d.
Proof.
  pose proof block_size_min as HBS.
  intros [Hal Hpages Hchain Hnd Hrange] Hpg Hfresh.
  assert (Hoff : page_offset pg ≠ stream_size (m_stream d)).
  { unfold page_offset, stream_size. rewrite Hal. destruct Hpg. nia. }
  assert (Hpgne : pg ≠ INVALID_PAGE) by (eapply in_stream_not_invalid; eauto).
  set (img1 := free_page_image {| next := m_start_free_page d; prev := INVALID_PAGE |}).
  set (d0 := set_stream (stream_write (m_stream d) (page_offset pg) img1) d).
  assert (Himg1 : length img1 = BLOCK_SIZE)
    by (apply free_page_image_length; exact block_size_min).
  assert (Hlen0 : length (m_stream d0) = length (m_stream d)).
  { unfold d0. simpl. apply (write_page_length _ _ _ (num_pages d)); auto. }
  assert (Hnp0 : num_pages d0 = num_pages d).
  { unfold num_pages. by rewrite Hlen0. }
  assert (Hother0 : ∀ r, in_stream d r → r ≠ pg →
            stream_read (m_stream d0) (page_offset r) BLOCK_SIZE
            = stream_read (m_stream d) (page_offset r) BLOCK_SIZE).
  { intros r Hr Hrq. unfold d0. simpl.
    apply (write_page_read_other _ _ _ _ (num_pages d)); auto.
    apply Hpg. }
  assert (Hstart_range : 0 ≤ m_start_free_page d < 2 ^ 32).
  { destruct fl as [|q l]; simpl in Hchain.
    - rewrite Hchain. unfold INVALID_PAGE. lia.
    - destruct Hchain as (-> & _). 
      assert (Hq : in_stream d q) by (apply Hrange; left).
      destruct Hq. unfold INVALID_PAGE in Hpages. lia. }
  assert (Hpg0 : read_free_page pg d0
                 = Ok ({| next := m_start_free_page d; prev := INVALID_PAGE |}, d0)).
  { apply (read_written_free_page pg _ d block_size_min); simpl; [exact Hstart_range|].
    unfold INVALID_PAGE. lia. }
  destruct fl as [|q l].
  - simpl in Hchain.
    exists (set_free_list pg (wrap32 (m_num_free_page d + 1)) d0).
    split.
    { unfold deallocate_page, bind, gets.
      destruct (decide _); [contradiction|].
      unfold get_start_free_page, gets, write_free_page, modify. simpl.
      rewrite Hchain.
      destruct (decide (INVALID_PAGE ≠ INVALID_PAGE)); [congruence|].
      unfold ret, set_start_free_page, get_num_free_page, set_num_free_page,
        modify, gets. simpl. unfold d0, img1. rewrite Hchain. reflexivity. }
    split.
    { constructor.
      - change (length (m_stream d0) = (num_pages d0 * BLOCK_SIZE)%nat).
        rewrite Hnp0, Hlen0. exact Hal.
      - change (Z.of_nat (num_pages d0) ≤ INVALID_PAGE). by rewrite Hnp0.
      - simpl. split; [reflexivity|]. split; [exact Hpgne|].
        eexists. split.
        + apply (read_free_page_stream pg d0); [reflexivity | exact Hpg0].
        + simpl. exact Hchain.
      - constructor; [exact Hfresh | constructor].
      - intros r Hr. apply list_elem_of_singleton in Hr as ->.
        unfold in_stream. change (0 ≤ pg < Z.of_nat (num_pages d0)).
        by rewrite Hnp0. }
    split; [exact Hnp0|]. split; reflexivity.
  - simpl in Hchain. destruct Hchain as (Hstart & Hq & fp & Hfp & Hrest).
    assert (Hqin : in_stream d q) by (apply Hrange; left).
    assert (Hqpg : q ≠ pg).
    { intros ->. apply Hfresh. left. }
    apply NoDup_cons in Hnd as [Hql Hnd'].
    pose proof (read_free_page_Ok _ _ _ _ Hfp) as (_ & Hnext & _).
    assert (Hfp0 : read_free_page q d0 = Ok (fp, d0)).
    { eapply read_free_page_block; [|exact Hfp]. by apply Hother0. }
    set (img2 := free_page_image {| next := next fp; prev := pg |}).
    set (d1 := set_stream (stream_write (m_stream d0) (page_offset q) img2) d0).
    assert (Himg2 : length img2 = BLOCK_SIZE)
      by (apply free_page_image_length; exact block_size_min).
    assert (Hal0 : length (m_stream d0) = (num_pages d * BLOCK_SIZE)%nat)
      by (rewrite Hlen0; exact Hal).
    assert (Hlen1 : length (m_stream d1) = length (m_stream d)).
    { unfold d1. simpl. rewrite <- Hlen0.
      apply (write_page_length _ _ _ (num_pages d)); auto. }
    assert (Hnp1 : num_pages d1 = num_pages d).
    { unfold num_pages. by rewrite Hlen1. }
    assert (Hother1 : ∀ r, in_stream d r → r ≠ q →
              stream_read (m_stream d1) (page_offset r) BLOCK_SIZE
              = stream_read (m_stream d0) (page_offset r) BLOCK_SIZE).
    { intros r Hr Hrq. unfold d1. simpl.
      apply (write_page_read_other _ _ _ _ (num_pages d)); auto.
      apply Hqin. }
    exists (set_free_list pg (wrap32 (m_num_free_page d + 1)) d1).
    split.
    { unfold deallocate_page, bind, gets.
      destruct (decide _); [contradiction|].
      unfold get_start_free_page, gets, write_free_page, modify. simpl.
      rewrite Hstart.
      destruct (decide (q ≠ INVALID_PAGE)) as [_|Hn]; [|exfalso; exact (Hn Hq)].
      rewrite <- Hstart. fold img1. fold d0. rewrite Hstart. rewrite Hfp0.
      unfold ret, set_start_free_page, get_num_free_page, set_num_free_page,
        modify, gets. simpl. reflexivity. }
    split.
    { constructor.
      - change (length (m_stream d1) = (num_pages d1 * BLOCK_SIZE)%nat).
        rewrite Hnp1, Hlen1. exact Hal.
      - change (Z.of_nat (num_pages d1) ≤ INVALID_PAGE). by rewrite Hnp1.
      - simpl. split; [reflexivity|]. split; [exact Hpgne|].
        exists {| next := m_start_free_page d; prev := INVALID_PAGE |}. split.
        + apply (read_free_page_block d0); [|exact Hpg0].
          apply Hother1; [exact Hpg | congruence].
        + simpl. split; [exact Hstart|]. split; [exact Hq|].
          exists {| next := next fp; prev := pg |}. split.
          * apply (read_free_page_stream q d1); [reflexivity|].
            apply (read_written_free_page q _ d0 block_size_min); simpl; [lia|].
            destruct Hpg. unfold INVALID_PAGE in Hpages. lia.
          * simpl. eapply free_chain_frame; [|exact Hrest].
            intros r Hr. simpl.
            change (stream_read (m_stream d1) (page_offset r) BLOCK_SIZE
                    = stream_read (m_stream d) (page_offset r) BLOCK_SIZE).
            assert (Hrin : in_stream d r) by (apply Hrange; by right).
            assert (r ≠ q) by (intros ->; contradiction).
            assert (r ≠ pg).
            { intros ->. apply Hfresh. by right. }
            rewrite Hother1, Hother0; auto.
      - constructor; [exact Hfresh | by constructor].
      - intros r Hr. unfold in_stream.
        change (0 ≤ r < Z.of_nat (num_pages d1)). rewrite Hnp1.
        apply elem_of_cons in Hr as [->|Hr]; [exact Hpg | by apply Hrange]. }
    split; [exact Hnp1|]. split; reflexivity.
Qed.

End AllocatorInvariant.


(** ** Facts that follow from the invariant *)

Section TreeFacts.
Context {P : Params} {HP : ParamsOk}.

Lemma low_entries_bounds :
  (2 * low_entries + 1 ≤ MAX_NUM_ENTRIES ≤ 2 * low_entries + 2)%nat.
Proof.
  pose proof max_entries_min as Hmax. unfold low_entries.
  pose proof (Nat.div_mod_eq (MAX_NUM_ENTRIES + 1) 2) as Hdm.
  pose proof (Nat.mod_upper_bound (MAX_NUM_ENTRIES + 1) 2) as Hmod.
  generalize dependent ((MAX_NUM_ENTRIES + 1) / 2)%nat.
  generalize dependent ((MAX_NUM_ENTRIES + 1) mod 2)%nat. intros. lia.
Qed.

Lemma low_entries_min : (1 ≤ low_entries)%nat.
Proof. pose proof max_entries_min. pose proof low_entries_bounds. lia. Qed.

Lemma low_entries_le_min : (low_entries ≤ min_entries)%nat.
Proof.
  pose proof low_entries_bounds as Hb. unfold min_entries.
  pose proof (Nat.div_mod_eq MAX_NUM_ENTRIES 2) as Hdm.
  pose proof (Nat.mod_upper_bound MAX_NUM_ENTRIES 2) as Hmod.
  generalize dependent (MAX_NUM_ENTRIES / 2)%nat.
  generalize dependent (MAX_NUM_ENTRIES mod 2)%nat. intros. lia.
Qed.

Lemma free_chain_stream d d' start l :
  m_stream d' = m_stream d → free_chain d start l → free_chain d' start l.
Proof.
  intros Hs. apply free_chain_frame. intros p _. by rewrite Hs.
Qed.

Lemma stream_ok_frame d d' fl :
  m_stream d' = m_stream d → m_start_free_page d' = m_start_free_page d →
  stream_ok d fl → stream_ok d' fl.
Proof.
  intros Hs Hst [H1 H2 H3 H4 H5].
  assert (Hnp : num_pages d' = num_pages d) by (unfold num_pages; by rewrite Hs).
  constructor; rewrite ?Hnp, ?Hs, ?Hst; auto.
  - by apply (free_chain_stream d).
  - intros p Hp. unfold in_stream. rewrite Hnp. by apply H5.
Qed.

Lemma in_stream_mono d d' pg :
  (num_pages d ≤ num_pages d')%nat → in_stream d pg → in_stream d' pg.
Proof. unfold in_stream. lia. Qed.

Section WithTree.
Variables (d : BtreeDirectory) (fl : list Z) (h : Z → nat) (H : nat) (f : focus).
Hypothesis Hok : tree_ok d fl h H f.
Set Default Proof Using "All".

Lemma cached_not_invalid pg nd :
  m_node_cache d !! pg = Some nd → pg ≠ INVALID_PAGE.
Proof.
  intros Hc. eapply in_stream_not_invalid.
  - apply (so_pages (to_stream Hok)).
  - apply (ok_range (to_nodes Hok _ _ Hc)).
Qed.

(** A child is resident, points back at its parent, and is one level lower. *)
Lemma child_facts pg nd c :
  m_node_cache d !! pg = Some nd → c ∈ m_child_indices nd →
  ∃ cd, m_node_cache d !! c = Some cd ∧ m_parent_num cd = pg
        ∧ S (h c) = h pg ∧ c ≠ pg ∧ m_parent_num cd ≠ INVALID_PAGE.
Proof.
  intros Hc Hin.
  destruct (ok_children (to_nodes Hok _ _ Hc) c Hin) as (cd & Hcd & Hpar).
  pose proof (cached_not_invalid _ _ Hc) as Hne.
  assert (Hparne : m_parent_num cd ≠ INVALID_PAGE) by congruence.
  destruct (ok_parent (to_nodes Hok _ _ Hcd) Hparne) as [Hh _].
  rewrite Hpar in Hh.
  exists cd. repeat split; auto. intros ->. lia.
Qed.

Lemma parent_facts pg nd :
  m_node_cache d !! pg = Some nd → m_parent_num nd ≠ INVALID_PAGE →
  S (h pg) = h (m_parent_num nd) ∧ m_parent_num nd ≠ pg
  ∧ ∃ pd, m_node_cache d !! m_parent_num nd = Some pd
          ∧ (pg ∈ m_child_indices pd ∨ f = Orphan pg).
Proof.
  intros Hc Hne.
  destruct (ok_parent (to_nodes Hok _ _ Hc) Hne) as [Hh Hp].
  split; [exact Hh|]. split; [|exact Hp]. intros Heq. rewrite Heq in Hh. lia.
Qed.

Lemma root_is_root pg nd :
  m_node_cache d !! pg = Some nd →
  m_parent_num nd = INVALID_PAGE ↔ pg = m_root_page d.
Proof.
  intros Hc. split.
  - apply (ok_root (to_nodes Hok _ _ Hc)).
  - intros ->.
    destruct (to_root Hok) as (rd & Hrd & Hpar & _).
    + intros Heq. rewrite (to_empty Hok Heq) in Hc. by rewrite lookup_empty in Hc.
    + congruence.
Qed.

Lemma free_not_cached p nd :
  m_node_cache d !! p = Some nd → p ∉ fl.
Proof.
  intros Hc Hin. rewrite (to_free Hok p Hin) in Hc. discriminate.
Qed.

Unset Default Proof Using.
End WithTree.

(** *** Lists *)

Lemma insert_at_perm {A} i (x : A) l : insert_at i x l ≡ₚ x :: l.
Proof.
  unfold insert_at. rewrite <- Permutation_middle.
  by rewrite take_drop.
Qed.

Lemma elem_of_insert_at {A} i (x y : A) l : y ∈ insert_at i x l ↔ y = x ∨ y ∈ l.
Proof. rewrite insert_at_perm. apply elem_of_cons. Qed.

Lemma NoDup_insert_at {A} i (x : A) l : NoDup l → x ∉ l → NoDup (insert_at i x l).
Proof. intros Hnd Hx. rewrite insert_at_perm. by constructor. Qed.

Lemma NoDup_take_drop_disjoint {A} (l : list A) k x :
  NoDup l → x ∈ take k l → x ∈ drop k l → False.
Proof.
  intros Hnd H1 H2. rewrite <- (take_drop k l) in Hnd.
  apply NoDup_app in Hnd as (_ & Hd & _). by apply (Hd x).
Qed.

Lemma elem_of_take_drop {A} (l : list A) k x :
  x ∈ l → x ∈ take k l ∨ x ∈ drop k l.
Proof.
  intros Hin. rewrite <- (take_drop k l) in Hin. by apply elem_of_app in Hin.
Qed.

Lemma NoDup_take {A} (l : list A) k : NoDup l → NoDup (take k l).
Proof.
  intros Hnd. rewrite <- (take_drop k l) in Hnd. by apply NoDup_app in Hnd as (? & _).
Qed.

Lemma NoDup_drop {A} (l : list A) k : NoDup l → NoDup (drop k l).
Proof.
  intros Hnd. rewrite <- (take_drop k l) in Hnd. by apply NoDup_app in Hnd as (_ & _ & ?).
Qed.

(** *** The node about to receive an entry *)

Section Inserting.
Variables (d : BtreeDirectory) (fl : list Z) (h : Z → nat) (H : nat) (f : focus).
Variables (p : Z) (pd : BtreeNode) (e : DirEntry) (ac : Z).
Hypothesis Hok : tree_ok d fl h H f.
Hypothesis Hp : m_node_cache d !! p = Some pd.
Hypothesis Hpre : insert_pre d f p pd ac.
Set Default Proof Using "All".

Let es := entries_after_insert pd e.
Let cs := children_after_insert pd e ac.

Lemma cs_leaf : m_child_indices pd = [] → cs = [].
Proof. apply children_after_insert_nil. Qed.

Lemma cs_internal :
  m_child_indices pd ≠ [] →
  ac ≠ INVALID_PAGE
  ∧ cs = insert_at (lower_bound (λ x, entry_less x e) (m_entries pd) + 1) ac
           (m_child_indices pd).
Proof.
  intros Hne. pose proof Hpre as Hpre'; destruct Hpre' as [(_ & _ & Hl)|(Hac & _ & _ & _)]; [contradiction|].
  split; [exact Hac|]. unfold cs, children_after_insert, is_leaf.
  rewrite bool_decide_eq_true_2 by exact Hac.
  rewrite bool_decide_eq_false_2 by exact Hne. reflexivity.
Qed.

Lemma cs_elem c : c ∈ cs ↔ m_child_indices pd ≠ [] ∧ (c = ac ∨ c ∈ m_child_indices pd).
Proof.
  destruct (decide (m_child_indices pd = [])) as [Hl|Hl].
  - rewrite (cs_leaf Hl). split; [intros Hin; by apply elem_of_nil in Hin|].
    intros [? _]. contradiction.
  - destruct (cs_internal Hl) as [_ ->]. rewrite elem_of_insert_at. tauto.
Qed.

Lemma cs_nil : cs = [] ↔ m_child_indices pd = [].
Proof.
  split; [|apply cs_leaf]. intros Hcs.
  destruct (decide (m_child_indices pd = [])) as [Hl|Hl]; [done|].
  exfalso. assert (Hin : ac ∈ cs) by (apply cs_elem; auto).
  rewrite Hcs in Hin. by apply elem_of_nil in Hin.
Qed.

Lemma cs_length :
  m_child_indices pd ≠ [] → length cs = S (length es).
Proof.
  intros Hl. destruct (cs_internal Hl) as [_ ->].
  pose proof (lower_bound_le (λ x, entry_less x e) (m_entries pd)) as Hi.
  destruct (ok_shape (to_nodes Hok _ _ Hp)) as [?|Hs]; [contradiction|].
  rewrite insert_at_length by lia. unfold es.
  rewrite entries_after_insert_length. lia.
Qed.

Lemma cs_shape : cs = [] ∨ length cs = S (length es).
Proof.
  destruct (decide (m_child_indices pd = [])) as [Hl|Hl].
  - left. by apply cs_leaf.
  - right. by apply cs_length.
Qed.

Lemma cs_nodup : NoDup cs.
Proof.
  destruct (decide (m_child_indices pd = [])) as [Hl|Hl].
  - rewrite (cs_leaf Hl). constructor.
  - destruct (cs_internal Hl) as [_ ->].
    pose proof Hpre as Hpre'; destruct Hpre' as [(_ & _ & ?)|(_ & _ & _ & Hnin & _)]; [contradiction|].
    apply NoDup_insert_at; [|exact Hnin].
    apply (ok_nodup (to_nodes Hok _ _ Hp)).
Qed.

(** Every child after the insertion is resident, points at [p] and is one
    level below it. *)
Lemma cs_child c :
  c ∈ cs →
  ∃ cd, m_node_cache d !! c = Some cd ∧ m_parent_num cd = p
        ∧ S (h c) = h p ∧ c ≠ p.
Proof.
  intros Hin. apply cs_elem in Hin as [Hl [->|Hin]].
  - pose proof Hpre as Hpre'; destruct Hpre' as [(_ & _ & ?)|(Hac & Hf & _ & _ & ad & Had & Hpar)];
      [contradiction|].
    pose proof (cached_not_invalid _ _ _ _ _ Hok _ _ Hp) as Hpne.
    assert (Hparne : m_parent_num ad ≠ INVALID_PAGE) by congruence.
    destruct (parent_facts _ _ _ _ _ Hok _ _ Had Hparne) as (Hh & Hne & _).
    rewrite Hpar in Hh, Hne. exists ad. auto.
  - destruct (child_facts _ _ _ _ _ Hok _ _ _ Hp Hin) as (cd & ? & ? & ? & ? & _).
    exists cd. auto.
Qed.

Lemma p_not_in_cs : p ∉ cs.
Proof. intros Hin. by destruct (cs_child _ Hin) as (? & _ & _ & _ & ?). Qed.

Lemma insert_focus : ∀ x, f ≠ Deficient x.
Proof.
  intros x. pose proof Hpre as Hpre'; destruct Hpre' as [(_ & -> & _)|(_ & -> & _)]; discriminate.
Qed.

Lemma insert_orphan x : f = Orphan x → x = ac ∧ m_child_indices pd ≠ [].
Proof.
  pose proof Hpre as Hpre'; destruct Hpre' as [(_ & -> & _)|(_ & -> & Hl & _)]; [discriminate|].
  intros [= ->]. auto.
Qed.

(** The insertion fits: the tree is well formed again, with no sibling left
    to place. *)
Lemma tree_ok_inserted :
  (length (m_entries pd) < MAX_NUM_ENTRIES)%nat →
  tree_ok (set_cache (<[p := inserted pd e ac]> (m_node_cache d)) d) fl h H NoFocus.
Proof.
  intros Hfits.
  set (d' := set_cache (<[p := inserted pd e ac]> (m_node_cache d)) d).
  pose proof (to_nodes Hok _ _ Hp) as Hpok.
  assert (Hin : ∀ pg, in_stream d pg → in_stream d' pg) by (intros pg Hpg; exact Hpg).
  constructor.
  - apply (stream_ok_frame d); [reflexivity | reflexivity | apply (to_stream Hok)].
  - intros pg nd Hlk. simpl in Hlk.
    destruct (decide (pg = p)) as [->|Hne].
    + rewrite lookup_insert_eq in Hlk. injection Hlk as <-.
      constructor; simpl.
      * apply (ok_num Hpok).
      * apply Hin, (ok_range Hpok).
      * apply cs_shape.
      * apply cs_nodup.
      * intros c Hc. destruct (cs_child c Hc) as (cd & Hcd & Hpar & _ & Hcp).
        exists cd. by rewrite lookup_insert_ne.
      * intros Hnil. apply (ok_leaf Hpok). by apply cs_nil.
      * apply (ok_root Hpok).
      * intros Hpar.
        destruct (parent_facts _ _ _ _ _ Hok _ _ Hp Hpar) as (Hh & Hq & qd & Hqd & Hor).
        split; [exact Hh|]. exists qd. rewrite lookup_insert_ne by done.
        split; [exact Hqd|]. left. destruct Hor as [?|Hor]; [done|].
        apply insert_orphan in Hor as [Hx Hl].
        pose proof Hpre as Hpre'; destruct Hpre' as [(_ & _ & ?)|(_ & _ & _ & _ & ad & Had & Hadp)];
          [contradiction|].
        exfalso. rewrite <- Hx, Hp in Had. injection Had as <-. congruence.
      * unfold entries_after_insert.
        rewrite insert_at_length by apply lower_bound_le. lia.
      * intros Hpar. pose proof (ok_min Hpok Hpar) as Hmin.
        destruct (decide (f = Deficient p)) as [Hf|_]; [by apply insert_focus in Hf|].
        unfold entries_after_insert.
        rewrite insert_at_length by apply lower_bound_le.
        destruct (decide (NoFocus = Deficient p)); [discriminate|]. lia.
      * intros _ _ _. unfold entries_after_insert.
        rewrite insert_at_length by apply lower_bound_le. lia.
    + rewrite lookup_insert_ne in Hlk by done.
      pose proof (to_nodes Hok _ _ Hlk) as Hnok.
      constructor.
      * apply (ok_num Hnok).
      * apply Hin, (ok_range Hnok).
      * apply (ok_shape Hnok).
      * apply (ok_nodup Hnok).
      * intros c Hc. destruct (ok_children Hnok c Hc) as (cd & Hcd & Hpar).
        simpl. destruct (decide (c = p)) as [->|Hcp].
        -- rewrite lookup_insert_eq. eexists. split; [reflexivity|]. simpl.
           rewrite Hp in Hcd. by injection Hcd as <-.
        -- rewrite lookup_insert_ne by done. eauto.
      * apply (ok_leaf Hnok).
      * apply (ok_root Hnok).
      * intros Hpar.
        destruct (parent_facts _ _ _ _ _ Hok _ _ Hlk Hpar) as (Hh & Hq & qd & Hqd & Hor).
        split; [exact Hh|]. simpl.
        destruct (decide (m_parent_num nd = p)) as [Heq|Hqp].
        -- rewrite Heq, lookup_insert_eq. eexists. split; [reflexivity|]. left.
           simpl. apply cs_elem.
           rewrite Heq, Hp in Hqd. injection Hqd as <-.
           destruct Hor as [Hc|Hor].
           ++ split; [|by right]. intros Hnil. rewrite Hnil in Hc.
              by apply elem_of_nil in Hc.
           ++ apply insert_orphan in Hor as [Hx ?]. auto.
        -- rewrite lookup_insert_ne by done. exists qd. split; [exact Hqd|].
           left. destruct Hor as [?|Hor]; [done|].
           apply insert_orphan in Hor as [Hx Hl].
           pose proof Hpre as Hpre'; destruct Hpre' as [(_ & _ & ?)|(_ & _ & _ & _ & ad & Had & Hadp)];
             [contradiction|].
           exfalso. rewrite <- Hx, Hlk in Had. injection Had as <-. congruence.
      * apply (ok_max Hnok).
      * intros Hpar. pose proof (ok_min Hnok Hpar) as Hmin.
        destruct (decide (f = Deficient pg)) as [Hf|_]; [by apply insert_focus in Hf|].
        destruct (decide (NoFocus = Deficient pg)); [discriminate|]. lia.
      * intros Hpar Hl _. apply (ok_root_entries Hnok Hpar Hl), insert_focus.
  - intros q Hq. simpl. rewrite lookup_insert_ne.
    + apply (to_free Hok q Hq).
    + intros ->. by apply (free_not_cached _ _ _ _ _ Hok _ _ Hp).
  - intros Hroot. exfalso. simpl in Hroot.
    rewrite (to_empty Hok Hroot) in Hp. by rewrite lookup_empty in Hp.
  - intros Hroot. simpl in Hroot.
    destruct (to_root Hok Hroot) as (rd & Hrd & Hpar & Hh).
    simpl. destruct (decide (m_root_page d = p)) as [Heq|Hne].
    + rewrite Heq, lookup_insert_eq. eexists. split; [reflexivity|]. simpl.
      rewrite Heq, Hp in Hrd. injection Hrd as <-. by rewrite <- Heq.
    + rewrite lookup_insert_ne by done. eauto.
Qed.

Unset Default Proof Using.
End Inserting.

End TreeFacts.


(** ** The split keeps the tree well formed *)

Section SplitInvariant.
Context {P : Params} {HP : ParamsOk}.

Lemma lookup_split_cache n sp nd e ac (c : gmap Z BtreeNode) pg :
  split_cache n sp nd e ac c !! pg
  = if decide (pg = n) then Some (split_left nd e ac)
    else if decide (pg = sp) then Some (split_right sp nd e ac)
    else if decide (pg ∈ moved_children nd e ac)
         then with_parent sp <$> c !! pg
         else c !! pg.
Proof.
  unfold split_cache.
  destruct (decide (pg = n)) as [->|?]; [apply lookup_insert_eq|].
  rewrite lookup_insert_ne by done.
  destruct (decide (pg = sp)) as [->|?]; [apply lookup_insert_eq|].
  rewrite lookup_insert_ne by done. apply lookup_reparent.
Qed.

Lemma split_index_full : split_index (S MAX_NUM_ENTRIES) = low_entries.
Proof.
  unfold split_index, low_entries. by rewrite Nat.add_1_r.
Qed.

Section Splitting.
Variables (d : BtreeDirectory) (fl : list Z) (h : Z → nat) (H : nat) (f : focus).
Variables (p : Z) (pd : BtreeNode) (e : DirEntry) (ac : Z).
Variables (sp : Z) (d1 : BtreeDirectory) (fl1 : list Z).
Hypothesis Hok : tree_ok d fl h H f.
Hypothesis Hp : m_node_cache d !! p = Some pd.
Hypothesis Hpre : insert_pre d f p pd ac.
Hypothesis Hfull : length (m_entries pd) = MAX_NUM_ENTRIES.
Hypothesis Hso1 : stream_ok d1 fl1.
Hypothesis Hsp_in : in_stream d1 sp.
Hypothesis Hsp_fl1 : sp ∉ fl1.
Hypothesis Hfl1 : ∀ q, q ∈ fl1 → q ∈ fl.
Hypothesis Hsp_new : sp ∈ fl ∨ sp = Z.of_nat (num_pages d).
Hypothesis Hpages : (num_pages d ≤ num_pages d1)%nat.
Set Default Proof Using "All".

Let es := entries_after_insert pd e.
Let cs := children_after_insert pd e ac.
Let mid := split_index (length es).
Let moved := moved_children pd e ac.

Lemma sp_not_cached : m_node_cache d !! sp = None.
Proof.
  destruct Hsp_new as [Hin| ->]; [by apply (to_free Hok)|].
  destruct (m_node_cache d !! Z.of_nat (num_pages d)) as [nd|] eqn:Hc; [|done].
  destruct (ok_range (to_nodes Hok _ _ Hc)). lia.
Qed.

Lemma es_length : length es = S MAX_NUM_ENTRIES.
Proof. unfold es. by rewrite entries_after_insert_length, Hfull. Qed.

Lemma mid_eq : mid = low_entries.
Proof. unfold mid. rewrite es_length. apply split_index_full. Qed.

Lemma moved_eq : moved = drop (mid + 1) cs.
Proof. reflexivity. Qed.

Lemma moved_sub c : c ∈ moved → c ∈ cs.
Proof. rewrite moved_eq. apply subseteq_drop. Qed.

Lemma split_sizes :
  length (take mid es) = low_entries
  ∧ length (drop (mid + 1) es) = (MAX_NUM_ENTRIES - low_entries)%nat.
Proof.
  pose proof low_entries_bounds. pose proof es_length.
  rewrite length_take, length_drop, mid_eq. lia.
Qed.

Lemma split_children_sizes :
  cs ≠ [] →
  length (take (mid + 1) cs) = S low_entries
  ∧ length (drop (mid + 1) cs) = S (MAX_NUM_ENTRIES - low_entries).
Proof.
  intros Hcs. pose proof low_entries_bounds. pose proof es_length as Hes.
  assert (Hl : m_child_indices pd ≠ []).
  { intros Hnil. apply Hcs. by apply children_after_insert_nil. }
  pose proof (cs_length d fl h H f p pd e ac Hok Hp Hpre Hl) as Hcl.
  fold cs es in Hcl.
  rewrite length_take, length_drop, mid_eq. lia.
Qed.

(** The children that stay and the children that move. *)
Lemma stay_or_move c : c ∈ cs → c ∈ take (mid + 1) cs ∨ c ∈ moved.
Proof. apply elem_of_take_drop. Qed.

Lemma stay_not_moved c : c ∈ take (mid + 1) cs → c ∉ moved.
Proof.
  intros H1 H2. eapply NoDup_take_drop_disjoint; eauto.
  apply (cs_nodup d fl h H f p pd e ac Hok Hp Hpre).
Qed.

Lemma take_sub c : c ∈ take (mid + 1) cs → c ∈ cs.
Proof. apply subseteq_take. Qed.

Let c' := split_cache p sp pd e ac (m_node_cache d).

(** What the new cache holds for a page that was resident. *)
Lemma split_lookup_old pg nd :
  m_node_cache d !! pg = Some nd → pg ≠ p →
  c' !! pg = Some (if decide (pg ∈ moved) then with_parent sp nd else nd).
Proof.
  intros Hc Hne. unfold c'. rewrite lookup_split_cache.
  destruct (decide (pg = p)); [done|].
  destruct (decide (pg = sp)) as [->|_].
  { rewrite sp_not_cached in Hc. discriminate. }
  fold moved. destruct (decide (pg ∈ moved)); by rewrite Hc.
Qed.

Lemma split_lookup_inv pg nd' :
  c' !! pg = Some nd' →
  (pg = p ∧ nd' = split_left pd e ac)
  ∨ (pg = sp ∧ nd' = split_right sp pd e ac)
  ∨ (pg ≠ p ∧ pg ≠ sp ∧
     ∃ nd, m_node_cache d !! pg = Some nd
           ∧ nd' = if decide (pg ∈ moved) then with_parent sp nd else nd).
Proof.
  unfold c'. rewrite lookup_split_cache. fold moved.
  destruct (decide (pg = p)) as [->|?]; [intros [= <-]; auto|].
  destruct (decide (pg = sp)) as [->|?]; [intros [= <-]; auto|].
  intros Hlk. right. right. split; [done|]. split; [done|].
  destruct (decide (pg ∈ moved)).
  - destruct (m_node_cache d !! pg) as [nd|]; [|discriminate].
    injection Hlk as <-. eauto.
  - eauto.
Qed.

Lemma moved_child c :
  c ∈ moved →
  ∃ cd, m_node_cache d !! c = Some cd ∧ m_parent_num cd = p ∧ S (h c) = h p
        ∧ c ≠ p ∧ c ≠ sp.
Proof.
  intros Hc. apply moved_sub in Hc.
  destruct (cs_child d fl h H f p pd e ac Hok Hp Hpre c Hc) as (cd & ? & ? & ? & ?).
  exists cd. repeat split; auto. intros Heq.
  pose proof sp_not_cached as Hn. rewrite <- Heq in Hn. congruence.
Qed.

Lemma p_not_sp : p ≠ sp.
Proof.
  intros Heq. pose proof sp_not_cached as Hn. rewrite <- Heq in Hn. congruence.
Qed.

Lemma p_not_moved : p ∉ moved.
Proof. intros Hc. by destruct (moved_child p Hc) as (? & _ & _ & _ & ? & _). Qed.

Lemma take_S_nil {A} (l : list A) k : take (S k) l = [] → l = [].
Proof. by destruct l. Qed.

Lemma focus_not_deficient x : f ≠ Deficient x.
Proof. apply (insert_focus d fl h H f p pd e ac Hok Hp Hpre). Qed.

Lemma p_not_orphan : f ≠ Orphan p.
Proof.
  intros Hf. apply (insert_orphan d fl h H f p pd e ac Hok Hp Hpre) in Hf as [Hx Hl].
  pose proof Hpre as Hpre'; destruct Hpre' as [(_ & _ & ?)|(Hac & _ & _ & _ & ad & Had & Hadp)];
    [contradiction|].
  rewrite <- Hx, Hp in Had. injection Had as <-.
  assert (Hne : m_parent_num pd ≠ INVALID_PAGE).
  { rewrite Hadp. eapply cached_not_invalid; eauto. }
  destruct (parent_facts _ _ _ _ _ Hok _ _ Hp Hne) as (_ & ? & _). congruence.
Qed.

(** A resident page other than [p] that has [p] as parent is one of the
    children after the insertion. *)
Lemma child_of_p_in_cs pg nd :
  m_node_cache d !! pg = Some nd → m_parent_num nd = p → pg ∈ cs.
Proof.
  intros Hc Hpar.
  assert (Hne : m_parent_num nd ≠ INVALID_PAGE).
  { rewrite Hpar. eapply cached_not_invalid; eauto. }
  destruct (parent_facts _ _ _ _ _ Hok _ _ Hc Hne) as (_ & _ & qd & Hqd & Hor).
  rewrite Hpar, Hp in Hqd. injection Hqd as <-.
  apply (cs_elem d fl h H f p pd e ac Hok Hp Hpre).
  destruct Hor as [Hin|Hor].
  - split; [|by right]. intros Hnil. rewrite Hnil in Hin. by apply elem_of_nil in Hin.
  - apply (insert_orphan d fl h H f p pd e ac Hok Hp Hpre) in Hor as [-> ?]. auto.
Qed.

Lemma moved_parent pg nd :
  m_node_cache d !! pg = Some nd → pg ∈ moved → m_parent_num nd = p.
Proof.
  intros Hc Hm. destruct (moved_child pg Hm) as (cd & Hcd & Hpar & _).
  rewrite Hc in Hcd. by injection Hcd as <-.
Qed.

Lemma sp_not_invalid : sp ≠ INVALID_PAGE.
Proof.
  eapply in_stream_not_invalid; [|exact Hsp_in]. apply (so_pages Hso1).
Qed.

(** The split of a node that has a parent: the tree is well formed but for
    the sibling, which no children list holds yet. *)
Lemma tree_ok_split :
  m_parent_num pd ≠ INVALID_PAGE →
  tree_ok (mkDir (m_stream d1) (m_root_page d) (m_start_free_page d1)
             (m_num_free_page d1) c')
    fl1 (<[sp := h p]> h) H (Orphan sp).
Proof.
  intros Hpar.
  set (d2 := mkDir (m_stream d1) (m_root_page d) (m_start_free_page d1)
               (m_num_free_page d1) c').
  set (h2 := <[sp := h p]> h).
  pose proof (to_nodes Hok _ _ Hp) as Hpok.
  pose proof p_not_sp as Hpsp.
  pose proof sp_not_invalid as Hspne.
  pose proof split_sizes as [Hl1 Hl2].
  pose proof low_entries_bounds as Hodd.
  assert (Hin : ∀ pg, in_stream d pg → in_stream d2 pg).
  { intros pg Hpg. unfold in_stream in Hpg |- *.
    change (num_pages d2) with (num_pages d1). lia. }
  assert (Hh2 : ∀ pg nd, m_node_cache d !! pg = Some nd → h2 pg = h pg).
  { intros pg nd Hc. unfold h2. apply fn_lookup_insert_ne. intros Heq.
    pose proof sp_not_cached as Hn. rewrite Heq in Hn. congruence. }
  destruct (parent_facts _ _ _ _ _ Hok _ _ Hp Hpar) as (Hhq & Hqp & qd & Hqd & Hqor).
  assert (Hq' : ∃ qd', c' !! m_parent_num pd = Some qd'
                       ∧ m_child_indices qd' = m_child_indices qd).
  { rewrite (split_lookup_old _ _ Hqd) by done.
    eexists. split; [reflexivity|]. by destruct (decide _). }
  (* a resident child of a resident node other than [p] stays where it is *)
  assert (Hchild : ∀ pg nd c, m_node_cache d !! pg = Some nd → pg ≠ p →
            c ∈ m_child_indices nd →
            ∃ cd, c' !! c = Some cd ∧ m_parent_num cd = pg).
  { intros pg nd c Hc Hne Hcin.
    destruct (child_facts _ _ _ _ _ Hok _ _ _ Hc Hcin) as (cd & Hcd & Hcpar & _).
    destruct (decide (c = p)) as [->|Hcp].
    - exists (split_left pd e ac). unfold c'. rewrite lookup_split_cache.
      destruct (decide (p = p)); [|done]. split; [reflexivity|]. simpl.
      rewrite Hp in Hcd. by injection Hcd as <-.
    - rewrite (split_lookup_old _ _ Hcd Hcp).
      destruct (decide (c ∈ moved)) as [Hm|_]; [|eauto].
      exfalso. apply Hne. rewrite <- Hcpar. by apply (moved_parent c cd). }
  constructor.
  - apply (stream_ok_frame d1); [reflexivity | reflexivity | exact Hso1].
  - intros pg nd' Hlk.
    apply split_lookup_inv in Hlk
      as [[-> ->]|[[-> ->]|(Hne & Hnesp & nd & Hc & ->)]].
    + (* the node that was split *)
      constructor; simpl; fold es cs mid.
      * apply (ok_num Hpok).
      * apply Hin, (ok_range Hpok).
      * unfold well_shaped; simpl; fold es cs mid.
        destruct (decide (cs = [])) as [Hcs|Hcs].
        -- left. by rewrite Hcs, take_nil.
        -- right. destruct (split_children_sizes Hcs) as [-> _]. by rewrite Hl1.
      * apply NoDup_take, (cs_nodup d fl h H f p pd e ac Hok Hp Hpre).
      * intros c Hc.
        destruct (cs_child d fl h H f p pd e ac Hok Hp Hpre c (take_sub c Hc))
          as (cd & Hcd & Hcpar & _ & Hcp).
        exists cd. split; [|exact Hcpar].
        change (c' !! c = Some cd). rewrite (split_lookup_old _ _ Hcd Hcp).
        destruct (decide (c ∈ moved)) as [Hm|_]; [|done].
        exfalso. by apply (stay_not_moved c).
      * intros Hnil. rewrite (Hh2 _ _ Hp). apply (ok_leaf Hpok).
        apply (cs_nil d fl h H f p pd e ac Hok Hp Hpre).
        replace (mid + 1)%nat with (S mid) in Hnil by lia.
        by apply take_S_nil in Hnil.
      * intros Hinv. contradiction.
      * intros _. rewrite (Hh2 _ _ Hp), (Hh2 _ _ Hqd). split; [exact Hhq|].
        destruct Hq' as (qd' & Hqd' & Hch). exists qd'. split; [exact Hqd'|].
        left. rewrite Hch. destruct Hqor as [?|Hor]; [done|].
        by apply p_not_orphan in Hor.
      * rewrite Hl1. lia.
      * intros _. rewrite Hl1. repeat case_decide; lia.
      * intros Hinv. contradiction.
    + (* the sibling *)
      constructor; simpl; fold es cs mid.
      * reflexivity.
      * exact Hsp_in.
      * unfold well_shaped; simpl; fold es cs mid.
        destruct (decide (cs = [])) as [Hcs|Hcs].
        -- left. by rewrite Hcs, drop_nil.
        -- right. destruct (split_children_sizes Hcs) as [_ ->]. by rewrite Hl2.
      * apply NoDup_drop, (cs_nodup d fl h H f p pd e ac Hok Hp Hpre).
      * intros c Hc.
        destruct (moved_child c Hc) as (cd & Hcd & Hcpar & _ & Hcp & _).
        exists (with_parent sp cd). split; [|reflexivity].
        change (c' !! c = Some (with_parent sp cd)).
        rewrite (split_lookup_old _ _ Hcd Hcp).
        destruct (decide (c ∈ moved)) as [_|Hn]; [done|]. by exfalso.
      * intros Hnil. unfold h2. rewrite fn_lookup_insert.
        apply (ok_leaf Hpok).
        apply (cs_nil d fl h H f p pd e ac Hok Hp Hpre).
        destruct (decide (cs = [])) as [Hcs|Hcs]; [done|].
        destruct (split_children_sizes Hcs) as [_ Hlen].
        rewrite Hnil in Hlen. discriminate.
      * intros Hinv. contradiction.
      * intros _. unfold h2 at 1. rewrite fn_lookup_insert, (Hh2 _ _ Hqd).
        split; [exact Hhq|].
        destruct Hq' as (qd' & Hqd' & Hch). exists qd'. split; [exact Hqd'|].
        by right.
      * rewrite Hl2. lia.
      * intros _. rewrite Hl2. repeat case_decide; lia.
      * intros Hinv. contradiction.
    + (* a node that was resident before *)
      pose proof (to_nodes Hok _ _ Hc) as Hnok.
      destruct (decide (pg ∈ moved)) as [Hm|Hm].
      * (* a child that moved to the sibling *)
        pose proof (moved_parent _ _ Hc Hm) as Hmp.
        destruct (moved_child pg Hm) as (_ & _ & _ & Hhp & _).
        constructor; simpl.
        -- apply (ok_num Hnok).
        -- apply Hin, (ok_range Hnok).
        -- apply (ok_shape Hnok).
        -- apply (ok_nodup Hnok).
        -- intros c Hcin. by apply (Hchild pg nd).
        -- intros Hnil. rewrite (Hh2 _ _ Hc). by apply (ok_leaf Hnok).
        -- intros Hinv. contradiction.
        -- intros _. rewrite (Hh2 _ _ Hc). unfold h2. rewrite fn_lookup_insert.
           split; [exact Hhp|]. exists (split_right sp pd e ac).
           split; [|by left].
           unfold c'. rewrite lookup_split_cache.
           destruct (decide (sp = p)); [congruence|].
           by destruct (decide (sp = sp)).
        -- apply (ok_max Hnok).
        -- intros _.
           assert (Hne' : m_parent_num nd ≠ INVALID_PAGE).
           { rewrite Hmp. eapply cached_not_invalid; eauto. }
           pose proof (ok_min Hnok Hne') as Hmin.
           destruct (decide (f = Deficient pg)) as [Hf|_];
             [by apply focus_not_deficient in Hf|].
           destruct (decide (Orphan sp = Deficient pg)); [discriminate|]. lia.
        -- intros Hinv. contradiction.
      * (* any other node *)
        constructor.
        -- apply (ok_num Hnok).
        -- apply Hin, (ok_range Hnok).
        -- apply (ok_shape Hnok).
        -- apply (ok_nodup Hnok).
        -- intros c Hcin. by apply (Hchild pg nd).
        -- intros Hnil. rewrite (Hh2 _ _ Hc). by apply (ok_leaf Hnok).
        -- apply (ok_root Hnok).
        -- intros Hne'.
           destruct (parent_facts _ _ _ _ _ Hok _ _ Hc Hne')
             as (Hh & Hq & rd & Hrd & Hor).
           rewrite (Hh2 _ _ Hc), (Hh2 _ _ Hrd). split; [exact Hh|].
           destruct (decide (m_parent_num nd = p)) as [Heq|Hrp].
           ++ exists (split_left pd e ac). split.
              ** simpl. rewrite Heq. unfold c'. rewrite lookup_split_cache.
                 by destruct (decide (p = p)).
              ** left. simpl. fold es cs mid.
                 destruct (stay_or_move pg (child_of_p_in_cs _ _ Hc Heq)); [done|].
                 contradiction.
           ++ simpl. rewrite (split_lookup_old _ _ Hrd Hrp).
              eexists. split; [reflexivity|]. left.
              assert (Hch : pg ∈ m_child_indices rd).
              { destruct Hor as [?|Hor]; [done|]. exfalso.
                apply (insert_orphan d fl h H f p pd e ac Hok Hp Hpre) in Hor as [Hx Hl].
                pose proof Hpre as Hpre'; destruct Hpre' as [(_ & _ & ?)|(_ & _ & _ & _ & ad & Had & Hadp)];
                  [contradiction|].
                rewrite <- Hx, Hc in Had. injection Had as <-. congruence. }
              by destruct (decide _).
        -- apply (ok_max Hnok).
        -- intros Hne'. pose proof (ok_min Hnok Hne') as Hmin.
           destruct (decide (f = Deficient pg)) as [Hf|_];
             [by apply focus_not_deficient in Hf|].
           destruct (decide (Orphan sp = Deficient pg)); [discriminate|]. lia.
        -- intros Hinv Hl _. apply (ok_root_entries Hnok Hinv Hl), focus_not_deficient.
  - intros q Hq. simpl. unfold c'. rewrite lookup_split_cache.
    pose proof (to_free Hok q (Hfl1 q Hq)) as Hnone.
    destruct (decide (q = p)) as [->|_]; [rewrite Hp in Hnone; discriminate|].
    destruct (decide (q = sp)) as [->|_]; [contradiction|].
    destruct (decide _); by rewrite Hnone.
  - intros Hroot. exfalso. simpl in Hroot.
    rewrite (to_empty Hok Hroot) in Hp. by rewrite lookup_empty in Hp.
  - intros Hroot. simpl in Hroot.
    destruct (to_root Hok Hroot) as (rd & Hrd & Hrpar & Hh).
    assert (Hrp : m_root_page d ≠ p).
    { intros Heq. rewrite Heq, Hp in Hrd. injection Hrd as <-. contradiction. }
    simpl. rewrite (split_lookup_old _ _ Hrd Hrp).
    destruct (decide (m_root_page d ∈ moved)) as [Hm|_].
    { exfalso. pose proof (moved_parent _ _ Hrd Hm) as Hmp.
      rewrite Hrpar in Hmp. symmetry in Hmp. revert Hmp.
      eapply cached_not_invalid; eauto. }
    exists rd. split; [reflexivity|]. split; [exact Hrpar|].
    by rewrite (Hh2 _ _ Hrd).
Qed.

(** The split of the root: a new root over the two halves, and the tree is
    one level higher. *)
Lemma tree_ok_split_root rp d2 fl2 promoted :
  m_parent_num pd = INVALID_PAGE →
  stream_ok d2 fl2 → in_stream d2 rp → rp ∉ fl2 →
  (∀ q, q ∈ fl2 → q ∈ fl1) →
  rp ∈ fl1 ∨ rp = Z.of_nat (num_pages d1) →
  (num_pages d1 ≤ num_pages d2)%nat →
  tree_ok (mkDir (m_stream d2) rp (m_start_free_page d2) (m_num_free_page d2)
             (new_root_cache p sp rp pd e promoted ac (m_node_cache d)))
    fl2 (<[rp := S (h p)]> (<[sp := h p]> h)) (S H) NoFocus.
Proof.
  intros Hpar Hso2 Hrp_in Hrp_fl2 Hfl2 Hrp_new Hpages2.
  set (c3 := new_root_cache p sp rp pd e promoted ac (m_node_cache d)).
  set (d3 := mkDir (m_stream d2) rp (m_start_free_page d2) (m_num_free_page d2) c3).
  set (h3 := <[rp := S (h p)]> (<[sp := h p]> h)).
  pose proof (to_nodes Hok _ _ Hp) as Hpok.
  pose proof p_not_sp as Hpsp.
  pose proof sp_not_invalid as Hspne.
  pose proof split_sizes as [Hl1 Hl2].
  pose proof low_entries_bounds as Hodd.
  pose proof low_entries_min as Hmin2.
  pose proof sp_not_cached as Hspc.
  assert (Hrpsp : rp ≠ sp).
  { intros Heq. destruct Hrp_new as [Hr|Hr].
    - apply Hsp_fl1. by rewrite <- Heq.
    - unfold in_stream in Hsp_in. lia. }
  assert (Hrpc : m_node_cache d !! rp = None).
  { destruct Hrp_new as [Hr|Hr]; [by apply (to_free Hok), Hfl1|].
    destruct (m_node_cache d !! rp) as [nd|] eqn:Hc; [|done].
    destruct (ok_range (to_nodes Hok _ _ Hc)). lia. }
  assert (Hrpp : rp ≠ p) by congruence.
  assert (Hrpne : rp ≠ INVALID_PAGE).
  { eapply in_stream_not_invalid; [|exact Hrp_in]. apply (so_pages Hso2). }
  assert (Hproot : p = m_root_page d) by apply (ok_root Hpok Hpar).
  assert (HhH : h p = H).
  { assert (Hr : m_root_page d ≠ INVALID_PAGE).
    { rewrite <- Hproot. eapply cached_not_invalid; eauto. }
    destruct (to_root Hok Hr) as (rd & _ & _ & Hh). by rewrite Hproot. }
  assert (Hin : ∀ pg, in_stream d pg → in_stream d3 pg).
  { intros pg Hpg. unfold in_stream in Hpg |- *.
    change (num_pages d3) with (num_pages d2). lia. }
  assert (Hh3 : ∀ pg nd, m_node_cache d !! pg = Some nd → h3 pg = h pg).
  { intros pg nd Hc. unfold h3.
    rewrite fn_lookup_insert_ne by congruence.
    apply fn_lookup_insert_ne. congruence. }
  assert (Hh3sp : h3 sp = h p).
  { unfold h3. rewrite fn_lookup_insert_ne by congruence. apply fn_lookup_insert. }
  assert (Hh3rp : h3 rp = S (h p)) by apply fn_lookup_insert.
  assert (Hlk3 : ∀ pg, c3 !! pg
            = if decide (pg = sp) then Some (with_parent rp (split_right sp pd e ac))
              else if decide (pg = p) then Some (with_parent rp (split_left pd e ac))
              else if decide (pg = rp)
                   then Some (mkNode INVALID_PAGE rp [m_num pd; sp] [promoted] true)
              else c' !! pg).
  { intros pg. unfold c3, new_root_cache.
    destruct (decide (pg = sp)) as [Heq|?]; [rewrite Heq; apply lookup_insert_eq|].
    rewrite lookup_insert_ne by done.
    destruct (decide (pg = p)) as [Heq|?]; [rewrite Heq; apply lookup_insert_eq|].
    rewrite lookup_insert_ne by done.
    destruct (decide (pg = rp)) as [Heq|?]; [rewrite Heq; apply lookup_insert_eq|].
    by rewrite lookup_insert_ne by done. }
  assert (Hrplk : c3 !! rp
            = Some (mkNode INVALID_PAGE rp [m_num pd; sp] [promoted] true)).
  { rewrite Hlk3. destruct (decide (rp = sp)); [done|].
    destruct (decide (rp = p)); [done|]. by destruct (decide (rp = rp)). }
  assert (Hsplk : c3 !! sp = Some (with_parent rp (split_right sp pd e ac))).
  { rewrite Hlk3. by destruct (decide (sp = sp)). }
  assert (Hplk : c3 !! p = Some (with_parent rp (split_left pd e ac))).
  { rewrite Hlk3. destruct (decide (p = sp)); [done|].
    by destruct (decide (p = p)). }
  assert (Hold : ∀ pg nd, m_node_cache d !! pg = Some nd → pg ≠ p →
            c3 !! pg = Some (if decide (pg ∈ moved) then with_parent sp nd else nd)).
  { intros pg nd Hc Hne. rewrite Hlk3.
    destruct (decide (pg = sp)); [congruence|].
    destruct (decide (pg = p)); [done|].
    destruct (decide (pg = rp)); [congruence|].
    by apply split_lookup_old. }
  (* a resident child of a resident node other than [p] stays where it is *)
  assert (Hchild : ∀ pg nd c, m_node_cache d !! pg = Some nd → pg ≠ p →
            c ∈ m_child_indices nd →
            ∃ cd, c3 !! c = Some cd ∧ m_parent_num cd = pg).
  { intros pg nd c Hc Hne Hcin.
    destruct (child_facts _ _ _ _ _ Hok _ _ _ Hc Hcin) as (cd & Hcd & Hcpar & _).
    destruct (decide (c = p)) as [Hcp|Hcp].
    - exfalso. rewrite Hcp, Hp in Hcd. injection Hcd as <-.
      rewrite Hpar in Hcpar. revert Hcpar. apply not_eq_sym.
      eapply cached_not_invalid; eauto.
    - rewrite (Hold _ _ Hcd Hcp).
      destruct (decide (c ∈ moved)) as [Hm|_]; [|eauto].
      exfalso. apply Hne. rewrite <- Hcpar. by apply (moved_parent c cd). }
  constructor.
  - apply (stream_ok_frame d2); [reflexivity | reflexivity | exact Hso2].
  - intros pg nd' Hlk. rewrite Hlk3 in Hlk.
    destruct (decide (pg = sp)) as [Hpg|Hpgsp].
    { (* the sibling *)
      injection Hlk as <-. rewrite Hpg.
      constructor; simpl; fold es cs mid.
      * reflexivity.
      * unfold in_stream in Hsp_in |- *.
        change (num_pages d3) with (num_pages d2). lia.
      * unfold well_shaped; simpl; fold es cs mid.
        destruct (decide (cs = [])) as [Hcs|Hcs].
        -- left. by rewrite Hcs, drop_nil.
        -- right. destruct (split_children_sizes Hcs) as [_ ->]. by rewrite Hl2.
      * apply NoDup_drop, (cs_nodup d fl h H f p pd e ac Hok Hp Hpre).
      * intros c Hc.
        destruct (moved_child c Hc) as (cd & Hcd & Hcpar & _ & Hcp & _).
        exists (with_parent sp cd). split; [|reflexivity].
        change (c3 !! c = Some (with_parent sp cd)).
        rewrite (Hold _ _ Hcd Hcp).
        destruct (decide (c ∈ moved)) as [_|Hn]; [done|]. by exfalso.
      * intros Hnil. rewrite Hh3sp.
        apply (ok_leaf Hpok).
        apply (cs_nil d fl h H f p pd e ac Hok Hp Hpre).
        destruct (decide (cs = [])) as [Hcs|Hcs]; [done|].
        destruct (split_children_sizes Hcs) as [_ Hlen].
        rewrite Hnil in Hlen. discriminate.
      * intros Hinv. contradiction.
      * intros _. rewrite Hh3sp, Hh3rp. split; [reflexivity|].
        eexists. split; [exact Hrplk|].
        left. simpl. right. left.
      * rewrite Hl2. lia.
      * intros _. rewrite Hl2. repeat case_decide; lia.
      * intros Hinv. contradiction. }
    destruct (decide (pg = p)) as [Hpg|Hpgp].
    { (* the node that was split *)
      injection Hlk as <-. rewrite Hpg.
      constructor; simpl; fold es cs mid.
      * apply (ok_num Hpok).
      * apply Hin, (ok_range Hpok).
      * unfold well_shaped; simpl; fold es cs mid.
        destruct (decide (cs = [])) as [Hcs|Hcs].
        -- left. by rewrite Hcs, take_nil.
        -- right. destruct (split_children_sizes Hcs) as [-> _]. by rewrite Hl1.
      * apply NoDup_take, (cs_nodup d fl h H f p pd e ac Hok Hp Hpre).
      * intros c Hc.
        destruct (cs_child d fl h H f p pd e ac Hok Hp Hpre c (take_sub c Hc))
          as (cd & Hcd & Hcpar & _ & Hcp).
        exists cd. split; [|exact Hcpar].
        change (c3 !! c = Some cd). rewrite (Hold _ _ Hcd Hcp).
        destruct (decide (c ∈ moved)) as [Hm|_]; [|done].
        exfalso. by apply (stay_not_moved c).
      * intros Hnil. rewrite (Hh3 _ _ Hp). apply (ok_leaf Hpok).
        apply (cs_nil d fl h H f p pd e ac Hok Hp Hpre).
        replace (mid + 1)%nat with (S mid) in Hnil by lia.
        by apply take_S_nil in Hnil.
      * intros Hinv. contradiction.
      * intros _. rewrite (Hh3 _ _ Hp), Hh3rp. split; [reflexivity|].
        eexists. split; [exact Hrplk|].
        left. simpl. rewrite (ok_num Hpok). left.
      * rewrite Hl1. lia.
      * intros _. rewrite Hl1. repeat case_decide; lia.
      * intros Hinv. contradiction. }
    destruct (decide (pg = rp)) as [Hpg|Hpgrp].
    { (* the new root *)
      injection Hlk as <-. rewrite Hpg.
      constructor; simpl.
      * reflexivity.
      * exact Hrp_in.
      * right. reflexivity.
      * rewrite (ok_num Hpok). apply NoDup_cons.
        split; [intros Hx; by apply list_elem_of_singleton in Hx|].
        apply NoDup_singleton.
      * intros c Hc. rewrite (ok_num Hpok) in Hc.
        change (∃ cd, c3 !! c = Some cd ∧ m_parent_num cd = rp).
        rewrite Hlk3.
        destruct (decide (c = sp)); [eexists; split; [reflexivity|reflexivity]|].
        destruct (decide (c = p)); [eexists; split; [reflexivity|reflexivity]|].
        apply elem_of_cons in Hc as [?|Hc]; [done|].
        by apply list_elem_of_singleton in Hc.
      * discriminate.
      * reflexivity.
      * intros Hinv. contradiction.
      * lia.
      * intros Hinv. contradiction.
      * intros _ _ _. lia. }
    (* a node that was resident before *)
    apply split_lookup_inv in Hlk
      as [[Hx _]|[[Hx _]|(_ & _ & nd & Hc & Hnd')]]; [done|done|].
    pose proof (to_nodes Hok _ _ Hc) as Hnok.
    assert (Hne' : m_parent_num nd ≠ INVALID_PAGE).
    { intros Hinv. apply Hpgp. rewrite Hproot. apply (ok_root Hnok Hinv). }
    destruct (decide (pg ∈ moved)) as [Hm|Hm]; rewrite Hnd'.
    + (* a child that moved to the sibling *)
      pose proof (moved_parent _ _ Hc Hm) as Hmp.
      destruct (moved_child pg Hm) as (_ & _ & _ & Hhp & _).
      constructor; simpl.
      * apply (ok_num Hnok).
      * apply Hin, (ok_range Hnok).
      * apply (ok_shape Hnok).
      * apply (ok_nodup Hnok).
      * intros c Hcin. by apply (Hchild pg nd).
      * intros Hnil. rewrite (Hh3 _ _ Hc). by apply (ok_leaf Hnok).
      * intros Hinv. contradiction.
      * intros _. rewrite (Hh3 _ _ Hc), Hh3sp.
        split; [exact Hhp|]. eexists. split; [exact Hsplk|].
        by left.
      * apply (ok_max Hnok).
      * intros _. pose proof (ok_min Hnok Hne') as Hmin.
        destruct (decide (f = Deficient pg)) as [Hf|_];
          [by apply focus_not_deficient in Hf|].
        repeat case_decide; lia.
      * intros Hinv. contradiction.
    + (* any other node *)
      constructor.
      * apply (ok_num Hnok).
      * apply Hin, (ok_range Hnok).
      * apply (ok_shape Hnok).
      * apply (ok_nodup Hnok).
      * intros c Hcin. by apply (Hchild pg nd).
      * intros Hnil. rewrite (Hh3 _ _ Hc). by apply (ok_leaf Hnok).
      * intros Hinv. contradiction.
      * intros _.
        destruct (parent_facts _ _ _ _ _ Hok _ _ Hc Hne')
          as (Hh & Hq & rd & Hrd & Hor).
        rewrite (Hh3 _ _ Hc), (Hh3 _ _ Hrd). split; [exact Hh|].
        destruct (decide (m_parent_num nd = p)) as [Heq|Hrp].
        -- eexists. split; [simpl; rewrite Heq; exact Hplk|].
           left. simpl. fold es cs mid.
           destruct (stay_or_move pg (child_of_p_in_cs _ _ Hc Heq)); [done|].
           contradiction.
        -- simpl. change (m_node_cache d3) with c3.
           rewrite (Hold _ _ Hrd Hrp).
           eexists. split; [reflexivity|]. left.
           assert (Hch : pg ∈ m_child_indices rd).
           { destruct Hor as [?|Hor]; [done|]. exfalso.
             apply (insert_orphan d fl h H f p pd e ac Hok Hp Hpre) in Hor as [Hx Hl].
             pose proof Hpre as Hpre'.
             destruct Hpre' as [(_ & _ & ?)|(_ & _ & _ & _ & ad & Had & Hadp)];
               [contradiction|].
             rewrite <- Hx, Hc in Had. injection Had as <-. congruence. }
           by destruct (decide _).
      * apply (ok_max Hnok).
      * intros _. pose proof (ok_min Hnok Hne') as Hmin.
        destruct (decide (f = Deficient pg)) as [Hf|_];
          [by apply focus_not_deficient in Hf|].
        repeat case_decide; lia.
      * intros Hinv. contradiction.
  - intros q Hq. simpl. change (c3 !! q = None). rewrite Hlk3.
    pose proof (to_free Hok q (Hfl1 q (Hfl2 q Hq))) as Hnone.
    destruct (decide (q = sp)) as [Heq|Hqsp].
    { exfalso. apply Hsp_fl1. rewrite <- Heq. by apply Hfl2. }
    destruct (decide (q = p)) as [Heq|Hqp]; [rewrite Heq, Hp in Hnone; discriminate|].
    destruct (decide (q = rp)) as [Heq|_]; [exfalso; apply Hrp_fl2; by rewrite <- Heq|].
    unfold c'. rewrite lookup_split_cache.
    destruct (decide (q = p)); [done|]. destruct (decide (q = sp)); [done|].
    destruct (decide _); by rewrite Hnone.
  - intros Hroot. simpl in Hroot. contradiction.
  - intros _. simpl. change (m_node_cache d3) with c3.
    eexists. split; [exact Hrplk|].
    split; [reflexivity|]. rewrite <- HhH. exact Hh3rp.
Qed.

Unset Default Proof Using.
End Splitting.

End SplitInvariant.


(** ** Insertion keeps the tree well formed *)

Section InsertInvariant.
Context {P : Params} {HP : ParamsOk}.

(** [insert_and_balance], when it returns, leaves a well-formed tree: by
    induction on the levels it may still climb. Every level allocates at
    most one page, the root one more, and the stream must have room for
    them below [INVALID_PAGE]. *)
Lemma insert_and_balance_rec_ok budget :
  ∀ d fl h H f p pd e ac d',
    tree_ok d fl h H f → m_node_cache d !! p = Some pd →
    insert_pre d f p pd ac →
    Z.of_nat (num_pages d) + Z.of_nat budget < INVALID_PAGE →
    insert_and_balance_rec budget p e ac d = Ok (tt, d') →
    ∃ fl' h' H', tree_ok d' fl' h' H' NoFocus.
Proof.
  induction budget as [|budget IH];
    intros d fl h H f p pd e ac d' Hok Hp Hpre Hroom Hrun; [discriminate|].
  pose proof (to_nodes Hok _ _ Hp) as Hpok.
  pose proof low_entries_bounds as Hodd.
  destruct (decide (length (m_entries pd) < MAX_NUM_ENTRIES)%nat) as [Hfit|Hfull].
  { rewrite (insert_and_balance_fits _ _ _ _ _ _ Hp (ok_shape Hpok) Hfit) in Hrun.
    injection Hrun as <-. exists fl, h, H.
    apply (tree_ok_inserted d fl h H f p pd e ac Hok Hp Hpre Hfit). }
  assert (Hlen : length (m_entries pd) = MAX_NUM_ENTRIES).
  { pose proof (ok_max Hpok). lia. }
  destruct (allocate_page_ok d fl (to_stream Hok)) as
    (sp & d1 & fl1 & Ha & Hso1 & Hsp_in & Hsp_fl1 & Hblank & Hfl1 & Hsp_new
       & Hpages & Hcache1 & Hroot1); [lia|].
  assert (Hpg : (num_pages d ≤ num_pages d1)%nat) by lia.
  pose proof (sp_not_cached d fl h H f p pd e ac sp d1 fl1 Hok Hp Hpre Hlen
                Hso1 Hsp_in Hsp_fl1 Hfl1 Hsp_new Hpg) as Hspc.
  pose proof (es_length d fl h H f p pd e ac sp d1 fl1 Hok Hp Hpre Hlen
                Hso1 Hsp_in Hsp_fl1 Hfl1 Hsp_new Hpg) as Hes.
  assert (Hspcs : sp ∉ children_after_insert pd e ac).
  { intros Hin.
    destruct (cs_child d fl h H f p pd e ac Hok Hp Hpre sp Hin) as (cd & Hcd & _).
    congruence. }
  destruct (lookup_lt_is_Some_2 (entries_after_insert pd e)
              (split_index (length (entries_after_insert pd e))))
    as [promoted Hprom].
  { rewrite Hes, split_index_full. unfold low_entries in *. lia. }
  destruct (decide (m_parent_num pd = INVALID_PAGE)) as [Hpar|Hpar].
  - (* the root splits *)
    destruct (allocate_page_ok d1 fl1 Hso1) as
      (rp & d2 & fl2 & Ha2 & Hso2 & Hrp_in & Hrp_fl2 & Hblank2 & Hfl2 & Hrp_new
         & Hpages2 & _ & _); [lia|].
    assert (Hrpsp : rp ≠ sp).
    { intros Heq. destruct Hrp_new as [Hr|Hr].
      - apply Hsp_fl1. by rewrite <- Heq.
      - unfold in_stream in Hsp_in. lia. }
    assert (Hrpc : m_node_cache d !! rp = None).
    { destruct Hrp_new as [Hr|Hr]; [by apply (to_free Hok), Hfl1|].
      destruct (m_node_cache d !! rp) as [nd|] eqn:Hc; [|done].
      destruct (ok_range (to_nodes Hok _ _ Hc)). lia. }
    rewrite (split_step_root budget p pd e ac d sp d1 promoted rp d2) in Hrun;
      try done.
    + injection Hrun as <-. do 3 eexists.
      apply (tree_ok_split_root d fl h H f p pd e ac sp d1 fl1 Hok Hp Hpre Hlen
               Hso1 Hsp_in Hsp_fl1 Hfl1 Hsp_new Hpg rp d2 fl2 promoted);
        try done. lia.
    + apply (ok_num Hpok).
    + apply (ok_shape Hpok).
    + lia.
    + apply (p_not_in_cs d fl h H f p pd e ac Hok Hp Hpre).
  - (* the node has a parent, which takes the promoted entry *)
    destruct (parent_facts _ _ _ _ _ Hok _ _ Hp Hpar) as (Hhq & Hqp & qd & Hqd & Hqor).
    rewrite (split_step_parent budget p pd e ac d sp d1 promoted) in Hrun;
      try done.
    2: apply (ok_num Hpok).
    2: apply (ok_shape Hpok).
    2: lia.
    2: apply (p_not_in_cs d fl h H f p pd e ac Hok Hp Hpre).
    pose proof (tree_ok_split d fl h H f p pd e ac sp d1 fl1 Hok Hp Hpre Hlen
                  Hso1 Hsp_in Hsp_fl1 Hfl1 Hsp_new Hpg Hpar) as Hok2.
    pose proof (split_lookup_old d fl h H f p pd e ac sp d1 fl1 Hok Hp Hpre Hlen
                  Hso1 Hsp_in Hsp_fl1 Hfl1 Hsp_new Hpg _ _ Hqd Hqp) as Hq2.
    eapply (IH _ _ _ _ _ _ _ _ _ _ Hok2); [exact Hq2| |simpl|exact Hrun].
    + right.
      assert (Hpin : p ∈ m_child_indices qd).
      { destruct Hqor as [?|Hor]; [done|].
        by apply (p_not_orphan d fl h H f p pd e ac sp d1 fl1 Hok Hp Hpre Hlen
                    Hso1 Hsp_in Hsp_fl1 Hfl1 Hsp_new Hpg) in Hor. }
      assert (Hch : m_child_indices (if decide (m_parent_num pd ∈ moved_children pd e ac)
                                     then with_parent sp qd else qd)
                    = m_child_indices qd).
      { by destruct (decide _). }
      rewrite Hch.
      split; [eapply in_stream_not_invalid; [apply (so_pages Hso1)|exact Hsp_in]|].
      split; [reflexivity|].
      split; [intros Hnil; rewrite Hnil in Hpin; by apply not_elem_of_nil in Hpin|].
      split.
      { intros Hin.
        destruct (child_facts _ _ _ _ _ Hok _ _ _ Hqd Hin) as (cd & Hcd & _).
        congruence. }
      exists (split_right sp pd e ac). split; [|reflexivity].
      simpl. rewrite lookup_split_cache.
      destruct (decide (sp = p)) as [Heq|_]; [rewrite Heq in Hspc; congruence|].
      by destruct (decide (sp = sp)).
    + change (Z.of_nat (num_pages d1) + Z.of_nat budget < INVALID_PAGE). lia.
Qed.


(** With the whole tree resident the search changes nothing, and where it
    stops without the name it stops at a leaf. *)
Lemma find_node_loop_tree fuel name :
  ∀ d fl h H f n nd r d',
    tree_ok d fl h H f → m_node_cache d !! n = Some nd →
    find_node_loop fuel name n d = Ok (r, d') →
    d' = d
    ∧ ∃ node i b xd, r = (Some node, i, b)
        ∧ m_node_cache d !! node = Some xd
        ∧ (b = false → m_child_indices xd = [])
        ∧ (b = true → is_Some (m_entries xd !! i)).
Proof.
  induction fuel as [|fuel IH]; intros d fl h H f n nd r d' Hok Hn Hrun;
    [discriminate|].
  cbn [find_node_loop] in Hrun.
  rewrite (bind_Ok _ _ _ _ _ (deref_intro _ _ _ Hn)) in Hrun.
  set (i := lower_bound (entry_less_name name) (m_entries nd)) in Hrun.
  destruct (match m_entries nd !! i with
            | Some e => bool_decide (name = filename e)
            | None => false
            end) eqn:Hm.
  { injection Hrun as <- <-. split; [reflexivity|].
    exists n, i, true, nd. repeat split; [exact Hn|discriminate|].
    intros _. destruct (m_entries nd !! i); [eauto|discriminate]. }
  unfold is_leaf in Hrun.
  destruct (bool_decide (m_child_indices nd = [])) eqn:Hleaf.
  { injection Hrun as <- <-. split; [reflexivity|].
    exists n, i, false, nd. repeat split; [exact Hn| |discriminate].
    intros _. by apply bool_decide_eq_true in Hleaf. }
  destruct (m_child_indices nd !! i) as [c|] eqn:Hc; [|discriminate].
  pose proof (to_nodes Hok _ _ Hn) as Hnok.
  destruct (ok_children Hnok c (list_elem_of_lookup_2 _ _ _ Hc)) as (cd & Hcd & Hcp).
  rewrite (bind_Ok _ _ _ _ _ (retrieve_node_resident (m_num nd) c d cd Hcd
             (or_intror (eq_trans (ok_num Hnok) (eq_sym Hcp))))) in Hrun.
  by apply (IH d fl h H f c cd r d' Hok Hcd).
Qed.

Lemma find_node_tree name d fl h H f r d' :
  tree_ok d fl h H f → find_node name d = Ok (r, d') →
  d' = d
  ∧ ((m_root_page d = INVALID_PAGE ∧ r = (None, 0%nat, false))
     ∨ (m_root_page d ≠ INVALID_PAGE
        ∧ ∃ node i b xd, r = (Some node, i, b)
            ∧ m_node_cache d !! node = Some xd
            ∧ (b = false → m_child_indices xd = [])
            ∧ (b = true → is_Some (m_entries xd !! i)))).
Proof.
  intros Hok Hrun. unfold find_node, get_root_node, get_root_page in Hrun.
  unfold bind at 1 2 in Hrun. unfold gets in Hrun.
  destruct (decide (m_root_page d = INVALID_PAGE)) as [Hr|Hr].
  { unfold ret in Hrun. injection Hrun as <- <-. auto. }
  destruct (to_root Hok Hr) as (rd & Hrd & Hrp & _).
  unfold bind at 1 in Hrun.
  rewrite (retrieve_node_resident INVALID_PAGE _ d rd Hrd (or_introl eq_refl))
    in Hrun.
  unfold ret in Hrun.
  destruct (find_node_loop_tree _ _ _ _ _ _ _ _ _ _ _ Hok Hrd Hrun) as [-> Hres].
  split; [reflexivity|]. right. auto.
Qed.

(** The first entry of an empty directory makes a root leaf of one entry. *)
Lemma tree_ok_first d fl d1 fl1 pg e :
  tree_ok d fl (λ _, 0%nat) 0 NoFocus → m_root_page d = INVALID_PAGE →
  stream_ok d1 fl1 → in_stream d1 pg → pg ∉ fl1 →
  tree_ok (mkDir (m_stream d1) pg (m_start_free_page d1) (m_num_free_page d1)
             {[ pg := mkNode INVALID_PAGE pg [] [e] true ]})
    fl1 (λ _, 0%nat) 0 NoFocus.
Proof.
  intros Hok Hroot Hso1 Hin Hfl1.
  pose proof low_entries_bounds as Hodd. pose proof low_entries_min as Hmin.
  constructor.
  - apply (stream_ok_frame d1); [reflexivity | reflexivity | exact Hso1].
  - intros q nd Hq. simpl in Hq. apply lookup_singleton_Some in Hq as [<- <-].
    constructor; simpl; try done.
    + by left.
    + apply NoDup_nil_2.
    + intros c Hc. by apply not_elem_of_nil in Hc.
    + lia.
  - intros q Hq. simpl. apply lookup_singleton_ne. intros <-. contradiction.
  - simpl. intros Hinv. exfalso. revert Hinv.
    eapply in_stream_not_invalid; [apply (so_pages Hso1)|exact Hin].
  - intros _. simpl. eexists. split; [apply lookup_singleton_eq|]. done.
Qed.

(** [add_entry], when it returns, leaves a well-formed tree. *)
Lemma add_entry_ok name eid ty d fl h H b d' :
  tree_ok d fl h H NoFocus → room d →
  add_entry name eid ty d = Ok (b, d') →
  ∃ fl' h' H', tree_ok d' fl' h' H' NoFocus.
Proof.
  intros Hok Hroom Hrun. unfold add_entry in Hrun.
  destruct (decide _); [discriminate|].
  apply bind_inv in Hrun as (r & d0 & Hfind & Hrun).
  destruct (find_node_tree _ _ _ _ _ _ _ _ Hok Hfind) as [-> Hres].
  unfold room in Hroom.
  destruct Hres as [[Hroot ->]|(Hroot & node & i & b' & xd & -> & Hx & Hleaf & _)].
  - (* the directory is empty *)
    pose proof (to_empty Hok Hroot) as Hempty.
    destruct (allocate_page_ok d fl (to_stream Hok)) as
      (sp & d1 & fl1 & Ha & Hso1 & Hsp_in & Hsp_fl1 & Hblank & Hfl1 & Hsp_new
         & Hpages & Hcache1 & Hroot1); [lia|].
    rewrite (bind_Ok _ _ _ _ _ Ha) in Hrun.
    unfold set_root_page at 1, modify at 1 in Hrun. unfold bind at 1 in Hrun.
    unfold get_root_node, get_root_page in Hrun.
    unfold bind at 1 2 in Hrun. unfold gets in Hrun. simpl in Hrun.
    assert (Hspne : sp ≠ INVALID_PAGE).
    { eapply in_stream_not_invalid; [apply (so_pages Hso1)|exact Hsp_in]. }
    destruct (decide (sp = INVALID_PAGE)); [contradiction|].
    unfold bind at 1 in Hrun.
    rewrite retrieve_node_blank in Hrun.
    2:{ simpl. by rewrite Hcache1, Hempty. }
    2:{ eapply blank_page_stream; [|exact Hblank]. reflexivity. }
    unfold ret in Hrun.
    erewrite bind_Ok in Hrun by (apply mutable_entries_intro; simpl; apply lookup_insert_eq).
    injection Hrun as <- <-.
    exists fl1, (λ _, 0%nat), 0%nat.
    assert (Hc : <[sp := with_entries ([] ++ [mkEntry name eid (wrap32 ty)])
                           (new_node INVALID_PAGE sp)]>
                   (<[sp := new_node INVALID_PAGE sp]> (m_node_cache d1))
                 = {[ sp := mkNode INVALID_PAGE sp [] [mkEntry name eid (wrap32 ty)] true ]}).
    { rewrite insert_insert_eq, Hcache1, Hempty. reflexivity. }
    unfold set_cache. simpl. simpl in Hc. rewrite Hc.
    eapply (tree_ok_first d fl d1 fl1); eauto.
    constructor.
    + apply (to_stream Hok).
    + intros pg nd Hpg. rewrite Hempty in Hpg. by rewrite lookup_empty in Hpg.
    + intros p _. by rewrite Hempty.
    + done.
    + intros Hne. contradiction.
  - destruct b'.
    + injection Hrun as <- <-. eauto.
    + apply bind_inv in Hrun as ([] & d2 & Hins & Hrun).
      injection Hrun as <- <-. unfold insert_and_balance in Hins.
      eapply (insert_and_balance_rec_ok _ d fl h H NoFocus node xd); eauto.
      * left. auto.
      * lia.
Qed.

End InsertInvariant.


(** ** The steps of a removal *)

Ltac lookup_cache :=
  simpl m_node_cache;
  repeat first [ rewrite lookup_insert_eq
               | rewrite lookup_insert_ne by congruence
               | rewrite lookup_reparent_notin by assumption ];
  try reflexivity; try eassumption.

Section RemoveStep.
Context {P : Params}.

Lemma del_node_eq n nd d d1 :
  m_node_cache d !! n = Some nd → m_num nd = n →
  deallocate_page n d = Ok (tt, d1) →
  del_node n d = Ok (tt, set_cache (delete n (m_node_cache d1)) d1).
Proof.
  intros Hn Hnum Hd. unfold del_node.
  rewrite (bind_Ok _ _ _ _ _ (deref_intro _ _ _ Hn)), Hnum.
  rewrite (bind_Ok _ _ _ _ _ Hd). reflexivity.
Qed.

(** [merge] up to the point where it deletes the right node. *)
Lemma merge_eq l r q entry_index d ld rd qd separator j :
  m_node_cache d !! l = Some ld → m_node_cache d !! r = Some rd →
  m_node_cache d !! q = Some qd →
  l ≠ r → l ≠ q → r ≠ q → m_num ld = l → m_num rd = r →
  m_entries qd !! entry_index = Some separator →
  index_of r (m_child_indices qd) = Some j →
  l ∉ m_child_indices rd →
  merge l r q entry_index d
  = del_node r
      (set_cache (<[l := merged ld rd separator]>
                    (reparent l (m_child_indices rd)
                       (<[q := merge_parent qd entry_index j]> (m_node_cache d))))
         d).
Proof.
  intros Hl Hr Hq Hlr Hlq Hrq Hnl Hnr Hsep Hj Hlrcs. unfold merge.
  rewrite (bind_Ok _ _ _ _ _ (deref_intro _ _ _ Hq)), Hsep.
  erewrite bind_Ok by (apply mutable_entries_intro; eassumption).
  erewrite bind_Ok by (apply mutable_entries_intro; lookup_cache).
  erewrite bind_Ok by (apply deref_intro; lookup_cache).
  erewrite bind_Ok by (apply deref_intro; lookup_cache).
  change (m_child_indices (with_entries _ qd)) with (m_child_indices qd).
  rewrite Hnr, Hj.
  erewrite bind_Ok by (apply mutable_children_intro; lookup_cache).
  erewrite bind_Ok by (apply deref_intro; lookup_cache).
  erewrite bind_Ok by (apply mutable_entries_intro; lookup_cache).
  erewrite bind_Ok by (apply deref_intro; lookup_cache).
  erewrite bind_Ok by (apply adjust_children_in_cache_eq; lookup_cache).
  match goal with
  | |- bind (deref r) _ ?st = _ =>
      assert (Hr1 : ∃ rd1, m_node_cache st !! r = Some rd1
                           ∧ m_child_indices rd1 = m_child_indices rd)
  end.
  { simpl m_node_cache. rewrite lookup_reparent.
    destruct (decide _); lookup_cache; rewrite Hr; simpl; eauto. }
  destruct Hr1 as (rd1 & Hr1 & Hrd1).
  rewrite (bind_Ok _ _ _ _ _ (deref_intro _ _ _ Hr1)), Hrd1.
  erewrite bind_Ok.
  2:{ apply mutable_children_intro. simpl m_node_cache.
      rewrite lookup_reparent_notin by exact Hlrcs. lookup_cache. }
  f_equal. unfold set_cache. simpl. f_equal.
  apply map_eq. intros pg. rewrite Hnl.
  destruct (decide (pg = l)) as [->|Hpl].
  { rewrite !lookup_insert_eq. unfold merged, with_children, with_entries. simpl.
    reflexivity. }
  rewrite !(lookup_insert_ne _ l) by congruence.
  rewrite !lookup_reparent.
  rewrite !(lookup_insert_ne _ l) by congruence.
  assert (Hpg : <[q:=with_children (delete j (m_child_indices qd))
                       (with_entries (delete entry_index (m_entries qd)) qd)]>
                  (<[q:=with_entries (delete entry_index (m_entries qd)) qd]>
                     (<[l:=with_entries (m_entries ld ++ [separator]) ld]>
                        (m_node_cache d))) !! pg
                = <[q:=merge_parent qd entry_index j]> (m_node_cache d) !! pg).
  { destruct (decide (pg = q)) as [->|Hpq]; [by rewrite !lookup_insert_eq|].
    by rewrite !lookup_insert_ne by congruence. }
  by rewrite Hpg.
Qed.

Lemma rotate_entries_length ld rd separator :
  (length (rotate_entries ld rd separator) / 2)%nat = rotate_middle ld rd.
Proof.
  unfold rotate_entries, rotate_middle. rewrite !length_app. simpl.
  by rewrite Nat.add_succ_r.
Qed.

Lemma reparent_nil parent (c : gmap Z BtreeNode) : reparent parent [] c = c.
Proof. reflexivity. Qed.

Lemma rotate_eq l r q entry_index d ld rd qd separator separator' :
  m_node_cache d !! l = Some ld → m_node_cache d !! r = Some rd →
  m_node_cache d !! q = Some qd →
  l ≠ r → l ≠ q → r ≠ q → m_num ld = l → m_num rd = r →
  m_entries qd !! entry_index = Some separator →
  rotate_entries ld rd separator !! rotate_middle ld rd = Some separator' →
  (m_child_indices ld = [] ↔ m_child_indices rd = []) →
  (m_child_indices ld ≠ [] →
   (rotate_middle ld rd + 1 ≤ length (rotate_children ld rd))%nat) →
  l ∉ rotate_children ld rd → r ∉ rotate_children ld rd →
  rotate l r q entry_index d
  = Ok (tt, set_cache (rotate_cache l r q ld rd qd entry_index separator
                         separator' (m_node_cache d)) d).
Proof.
  intros Hl Hr Hq Hlr Hlq Hrq Hnl Hnr Hsep Hsep' Hleaf Hlen Hltc Hrtc.
  unfold rotate.
  rewrite (bind_Ok _ _ _ _ _ (deref_intro _ _ _ Hq)), Hsep.
  rewrite (bind_Ok _ _ _ _ _ (deref_intro _ _ _ Hl)).
  rewrite (bind_Ok _ _ _ _ _ (deref_intro _ _ _ Hr)).
  fold (rotate_entries ld rd separator).
  rewrite rotate_entries_length, Hsep'.
  set (m := rotate_middle ld rd) in *.
  set (temp := rotate_entries ld rd separator) in *.
  set (tc := rotate_children ld rd) in *.
  erewrite bind_Ok by (apply mutable_entries_intro; eassumption).
  erewrite bind_Ok by (apply mutable_entries_intro; lookup_cache).
  erewrite bind_Ok by (apply mutable_entries_intro; lookup_cache).
  erewrite bind_Ok by (apply deref_intro; lookup_cache).
  erewrite bind_Ok by (apply deref_intro; lookup_cache).
  change (is_leaf (with_entries _ ld)) with (bool_decide (m_child_indices ld = [])).
  change (is_leaf (with_entries _ rd)) with (bool_decide (m_child_indices rd = [])).
  change (m_child_indices (with_entries _ ld) ++ m_child_indices (with_entries _ rd))
    with tc.
  assert (Hq' : ∀ pg, pg ≠ l → pg ≠ r →
            <[r:=with_entries (drop (m + 1) temp) rd]>
              (<[l:=with_entries (take m temp) ld]>
                 (<[q:=with_entries (<[entry_index:=separator']> (m_entries qd)) qd]>
                    (m_node_cache d))) !! pg
            = <[q:=with_entries (<[entry_index:=separator']> (m_entries qd)) qd]>
                (m_node_cache d) !! pg).
  { intros pg ? ?. by rewrite !lookup_insert_ne by congruence. }
  destruct (decide (m_child_indices ld = [])) as [Hln|Hln].
  - assert (Hrn : m_child_indices rd = []) by by apply Hleaf.
    rewrite bool_decide_eq_true_2 by exact Hln. cbn [negb andb].
    unfold ret. f_equal. f_equal. unfold set_cache. simpl. f_equal.
    unfold rotate_cache. fold m temp tc.
    assert (Htc : tc = []) by (unfold tc, rotate_children; by rewrite Hln, Hrn).
    rewrite Htc, take_nil, drop_nil, !reparent_nil.
    apply map_eq. intros pg.
    destruct (decide (pg = r)) as [->|Hpr].
    { rewrite !lookup_insert_eq. unfold rotated_right, with_entries.
      fold m temp tc. by rewrite Htc, drop_nil, Hrn. }
    rewrite !(lookup_insert_ne _ r) by congruence.
    destruct (decide (pg = l)) as [->|Hpl].
    { rewrite !lookup_insert_eq. unfold rotated_left, with_entries.
      fold m temp tc. by rewrite Htc, take_nil, Hln. }
    by rewrite !(lookup_insert_ne _ l) by congruence.
  - assert (Hrn : m_child_indices rd ≠ []) by (intros Hx; by apply Hln, Hleaf).
    rewrite !bool_decide_eq_false_2 by assumption. cbn [negb andb].
    destruct (decide (length tc < m + 1)%nat) as [Hbad|_];
      [specialize (Hlen Hln); lia|].
    erewrite bind_Ok by (apply mutable_children_intro; lookup_cache).
    erewrite bind_Ok by (apply mutable_children_intro; lookup_cache).
    erewrite bind_Ok by (apply adjust_children_in_cache_self_eq; lookup_cache).
    assert (Hlt : l ∉ take (m + 1) tc).
    { intros Hin. apply Hltc. eapply subseteq_take; eauto. }
    assert (Hrt : r ∉ take (m + 1) tc).
    { intros Hin. apply Hrtc. eapply subseteq_take; eauto. }
    assert (Hld : l ∉ drop (m + 1) tc).
    { intros Hin. apply Hltc. eapply subseteq_drop; eauto. }
    assert (Hrd : r ∉ drop (m + 1) tc).
    { intros Hin. apply Hrtc. eapply subseteq_drop; eauto. }
    erewrite adjust_children_in_cache_self_eq.
    2:{ simpl m_node_cache. simpl m_num. simpl m_child_indices.
        rewrite lookup_reparent_notin by assumption. lookup_cache. }
    f_equal. f_equal. unfold set_cache. simpl. f_equal.
    unfold rotate_cache. fold m temp tc. rewrite Hnl, Hnr.
    apply map_eq. intros pg.
    destruct (decide (pg = r)) as [->|Hpr].
    { rewrite !lookup_reparent_notin by assumption.
      rewrite !lookup_insert_eq. reflexivity. }
    rewrite !lookup_reparent. rewrite !(lookup_insert_ne _ r) by congruence.
    destruct (decide (pg = l)) as [->|Hpl].
    { destruct (decide (l ∈ drop (m + 1) tc)); [contradiction|].
      destruct (decide (l ∈ take (m + 1) tc)); [contradiction|].
      rewrite !lookup_insert_eq. reflexivity. }
    rewrite !(lookup_insert_ne _ l) by congruence.
    rewrite !lookup_reparent, !Hq' by assumption. reflexivity.
Qed.

End RemoveStep.


(** ** Removal keeps the tree well formed *)

(** Lists with one element deleted. *)
Lemma index_of_Some pg (l : list Z) j :
  index_of pg l = Some j → l !! j = Some pg.
Proof.
  unfold index_of. destruct (list_find _ l) as [[i x]|] eqn:Hf; [|discriminate].
  intros [= <-]. apply list_find_Some in Hf as (Hl & -> & _). exact Hl.
Qed.

Lemma index_of_elem pg (l : list Z) : pg ∈ l → is_Some (index_of pg l).
Proof.
  intros Hin. unfold index_of.
  destruct (list_find_elem_of (λ c, c = pg) l pg Hin eq_refl) as [[i x] ->].
  simpl. eauto.
Qed.

Lemma elem_of_delete {A} (l : list A) j x : x ∈ delete j l → x ∈ l.
Proof.
  rewrite delete_take_drop. intros [Hin|Hin]%elem_of_app.
  - eapply subseteq_take; eauto.
  - eapply subseteq_drop; eauto.
Qed.

Lemma elem_of_delete_ne {A} (l : list A) j x y :
  l !! j = Some y → x ∈ l → x ≠ y → x ∈ delete j l.
Proof.
  intros Hj Hin Hne. rewrite delete_take_drop.
  rewrite <- (take_drop_middle l j y Hj) in Hin.
  apply elem_of_app in Hin as [Hin|Hin]; [apply elem_of_app; by left|].
  apply elem_of_cons in Hin as [->|Hin]; [done|]. apply elem_of_app. by right.
Qed.

Lemma not_elem_of_delete {A} (l : list A) j y :
  NoDup l → l !! j = Some y → y ∉ delete j l.
Proof.
  intros Hnd Hj. rewrite delete_take_drop.
  rewrite <- (take_drop_middle l j y Hj) in Hnd.
  apply NoDup_app in Hnd as (_ & Hdis & Hnd2).
  apply NoDup_cons in Hnd2 as [Hny _].
  intros [Hin|Hin]%elem_of_app; [|done].
  apply (Hdis _ Hin). by left.
Qed.

Lemma NoDup_delete {A} (l : list A) j : NoDup l → NoDup (delete j l).
Proof. intros Hnd. eapply sublist_NoDup; [exact Hnd|apply sublist_delete]. Qed.

Section RemoveInvariant.
Context {P : Params} {HP : ParamsOk}.

(** A tree without a focus is well formed for every focus of [balance_up]. *)
Lemma tree_ok_weaken d fl h H x :
  tree_ok d fl h H NoFocus → tree_ok d fl h H (Deficient x).
Proof.
  intros Hok. constructor; try apply Hok.
  intros pg nd Hc. pose proof (to_nodes Hok _ _ Hc) as Hn.
  constructor; try apply Hn.
  - intros Hne. destruct (ok_parent Hn Hne) as (? & pd & ? & [?|?]); [|done].
    eauto.
  - intros Hne. pose proof (ok_min Hn Hne) as Hmin.
    destruct (decide (NoFocus = Deficient pg)); [discriminate|].
    destruct (decide _); lia.
  - intros Hinv Hch _. by apply (ok_root_entries Hn).
Qed.

Lemma rotate_sizes (a b : nat) :
  (MAX_NUM_ENTRIES ≤ a + b)%nat → (a ≤ MAX_NUM_ENTRIES)%nat →
  (b ≤ MAX_NUM_ENTRIES)%nat →
  (low_entries ≤ S (a + b) / 2 ≤ MAX_NUM_ENTRIES)%nat
  ∧ (low_entries ≤ S (a + b) - S (a + b) / 2 - 1 ≤ MAX_NUM_ENTRIES)%nat
  ∧ (S (a + b) / 2 < S (a + b))%nat.
Proof.
  intros Hsum Ha Hb. pose proof low_entries_bounds as Hodd.
  pose proof (Nat.div_mod_eq (S (a + b)) 2) as Hdm.
  pose proof (Nat.mod_upper_bound (S (a + b)) 2) as Hmod.
  generalize dependent (S (a + b) / 2)%nat.
  generalize dependent (S (a + b) mod 2)%nat. intros. lia.
Qed.

(** *** Two children of one node *)

Section Siblings.
Variables (d : BtreeDirectory) (fl : list Z) (h : Z → nat) (H : nat).
Variables (n q l r : Z) (qd ld rd : BtreeNode).
Hypothesis Hok : tree_ok d fl h H (Deficient n).
Hypothesis Hq : m_node_cache d !! q = Some qd.
Hypothesis Hl : m_node_cache d !! l = Some ld.
Hypothesis Hr : m_node_cache d !! r = Some rd.
Hypothesis Hlq : l ∈ m_child_indices qd.
Hypothesis Hrq : r ∈ m_child_indices qd.
Hypothesis Hlr : l ≠ r.
Hypothesis Hn : n = l ∨ n = r.
Set Default Proof Using "All".

Lemma sib_left : m_parent_num ld = q ∧ S (h l) = h q ∧ l ≠ q ∧ m_num ld = l.
Proof.
  destruct (child_facts _ _ _ _ _ Hok _ _ _ Hq Hlq) as (cd & Hcd & ? & ? & ? & _).
  assert (cd = ld) as -> by congruence.
  repeat split; auto. apply (ok_num (to_nodes Hok _ _ Hl)).
Qed.

Lemma sib_right : m_parent_num rd = q ∧ S (h r) = h q ∧ r ≠ q ∧ m_num rd = r.
Proof.
  destruct (child_facts _ _ _ _ _ Hok _ _ _ Hq Hrq) as (cd & Hcd & ? & ? & ? & _).
  assert (cd = rd) as -> by congruence.
  repeat split; auto. apply (ok_num (to_nodes Hok _ _ Hr)).
Qed.

Lemma sib_level : h l = h r.
Proof. destruct sib_left as (_ & ? & _), sib_right as (_ & ? & _). lia. Qed.

(** A node of the cache is a leaf exactly if its height is zero. *)
Lemma leaf_height pg nd :
  m_node_cache d !! pg = Some nd → m_child_indices nd = [] ↔ h pg = 0%nat.
Proof.
  intros Hc. split; [apply (ok_leaf (to_nodes Hok _ _ Hc))|].
  intros Hh. destruct (m_child_indices nd) as [|c cs] eqn:Hcs; [done|].
  destruct (child_facts _ _ _ _ _ Hok _ _ c Hc) as (_ & _ & _ & ? & _);
    [rewrite Hcs; by left|lia].
Qed.

Lemma sib_leaf : m_child_indices ld = [] ↔ m_child_indices rd = [].
Proof. rewrite (leaf_height l ld Hl), (leaf_height r rd Hr), sib_level. done. Qed.

Lemma sib_shape :
  m_child_indices ld ++ m_child_indices rd = []
  ∨ length (m_child_indices ld ++ m_child_indices rd)
    = S (S (length (m_entries ld) + length (m_entries rd))).
Proof.
  destruct (ok_shape (to_nodes Hok _ _ Hl)) as [Hnl|Hsl].
  { left. rewrite Hnl. simpl. by apply sib_leaf. }
  destruct (ok_shape (to_nodes Hok _ _ Hr)) as [Hnr|Hsr].
  { left. rewrite Hnr, app_nil_r. by apply sib_leaf. }
  right. rewrite length_app. lia.
Qed.

(** The children of the two nodes. *)
Lemma sib_kid c :
  c ∈ m_child_indices ld ++ m_child_indices rd →
  ∃ cd, m_node_cache d !! c = Some cd
        ∧ (c ∈ m_child_indices ld ∧ m_parent_num cd = l
           ∨ c ∈ m_child_indices rd ∧ m_parent_num cd = r)
        ∧ S (h c) = h l ∧ c ≠ l ∧ c ≠ r ∧ c ≠ q ∧ c ≠ n
        ∧ c ∉ m_child_indices qd.
Proof.
  destruct sib_left as (_ & Hhl & _), sib_right as (_ & Hhr & _).
  assert (Hfin : ∀ cd, m_node_cache d !! c = Some cd → S (h c) = h l →
            c ≠ l ∧ c ≠ r ∧ c ≠ q ∧ c ≠ n ∧ c ∉ m_child_indices qd).
  { intros cd Hcd Hh.
    assert (c ≠ l) by (intros Heq; rewrite Heq in Hh; lia).
    assert (c ≠ r) by (intros Heq; rewrite Heq in Hh; lia).
    repeat split; auto.
    - intros Heq. rewrite Heq in Hh. lia.
    - destruct Hn; congruence.
    - intros Hin.
      destruct (child_facts _ _ _ _ _ Hok _ _ _ Hq Hin) as (_ & _ & _ & ? & _).
      lia. }
  intros [Hin|Hin]%elem_of_app.
  - destruct (child_facts _ _ _ _ _ Hok _ _ _ Hl Hin) as (cd & Hcd & ? & ? & _).
    exists cd. split; [done|]. split; [by left|]. split; [done|]. by eapply Hfin.
  - destruct (child_facts _ _ _ _ _ Hok _ _ _ Hr Hin) as (cd & Hcd & ? & ? & _).
    exists cd. split; [done|]. split; [by right|].
    assert (S (h c) = h l) by lia. split; [done|]. by eapply Hfin.
Qed.

Lemma sib_nodup : NoDup (m_child_indices ld ++ m_child_indices rd).
Proof.
  apply NoDup_app. split; [apply (ok_nodup (to_nodes Hok _ _ Hl))|].
  split; [|apply (ok_nodup (to_nodes Hok _ _ Hr))].
  intros c Hcl Hcr.
  destruct (child_facts _ _ _ _ _ Hok _ _ _ Hl Hcl) as (cd & Hcd & ? & _).
  destruct (child_facts _ _ _ _ _ Hok _ _ _ Hr Hcr) as (cd' & Hcd' & ? & _).
  congruence.
Qed.

Lemma sib_sizes :
  (low_entries ≤ length (m_entries ld) + 1)%nat
  ∧ (low_entries ≤ length (m_entries rd) + 1)%nat
  ∧ (low_entries ≤ length (m_entries ld) ∨ low_entries ≤ length (m_entries rd))%nat
  ∧ (length (m_entries ld) ≤ MAX_NUM_ENTRIES)%nat
  ∧ (length (m_entries rd) ≤ MAX_NUM_ENTRIES)%nat.
Proof.
  destruct sib_left as (Hpl & _ & Hlq' & _), sib_right as (Hpr & _ & Hrq' & _).
  pose proof (cached_not_invalid _ _ _ _ _ Hok _ _ Hq) as Hqne.
  pose proof (to_nodes Hok _ _ Hl) as Hlok. pose proof (to_nodes Hok _ _ Hr) as Hrok.
  assert (Hl1 : m_parent_num ld ≠ INVALID_PAGE) by congruence.
  assert (Hr1 : m_parent_num rd ≠ INVALID_PAGE) by congruence.
  pose proof (ok_min Hlok Hl1) as Hml. pose proof (ok_min Hrok Hr1) as Hmr.
  pose proof (ok_max Hlok). pose proof (ok_max Hrok).
  destruct (decide (Deficient n = Deficient l)) as [Hnl|Hnl];
    destruct (decide (Deficient n = Deficient r)) as [Hnr|Hnr];
    try (exfalso; congruence); repeat split; lia.
Qed.

(** A resident node other than the two is no worse off for [n]. *)
Lemma sib_other pg nd :
  m_node_cache d !! pg = Some nd → pg ≠ l → pg ≠ r →
  (m_parent_num nd ≠ INVALID_PAGE → (low_entries ≤ length (m_entries nd))%nat)
  ∧ (m_parent_num nd = INVALID_PAGE → m_child_indices nd ≠ [] →
     (1 ≤ length (m_entries nd))%nat).
Proof.
  intros Hc Hpl Hpr. pose proof (to_nodes Hok _ _ Hc) as Hnok.
  assert (Hne : Deficient n ≠ Deficient pg) by (destruct Hn; congruence).
  split.
  - intros Hpar. pose proof (ok_min Hnok Hpar) as Hmin.
    destruct (decide _); [done|lia].
  - intros Hpar Hch. by apply (ok_root_entries Hnok).
Qed.

(** [merge] leaves the parent one entry short, and nothing else amiss. *)
Lemma tree_ok_merge entry_index j separator d1 :
  m_entries qd !! entry_index = Some separator →
  index_of r (m_child_indices qd) = Some j →
  (length (m_entries ld) + length (m_entries rd) < MAX_NUM_ENTRIES)%nat →
  stream_ok d1 (r :: fl) → num_pages d1 = num_pages d →
  m_root_page d1 = m_root_page d →
  m_node_cache d1
  = merge_cache l r q ld rd qd entry_index j separator (m_node_cache d) →
  tree_ok d1 (r :: fl) h H (Deficient q).
Proof.
  intros Hsep Hj Hsum Hso1 Hpages Hroot Hcache.
  destruct sib_left as (Hpl & Hhl & Hlq' & Hnl).
  destruct sib_right as (Hpr & Hhr & Hrq' & Hnr).
  pose proof sib_sizes as (Hsl & Hsr & Hsor & Hxl & Hxr).
  pose proof (to_nodes Hok _ _ Hq) as Hqok.
  pose proof (to_nodes Hok _ _ Hl) as Hlok.
  pose proof (to_nodes Hok _ _ Hr) as Hrok.
  pose proof (cached_not_invalid _ _ _ _ _ Hok _ _ Hq) as Hqne.
  pose proof (cached_not_invalid _ _ _ _ _ Hok _ _ Hl) as Hlne.
  pose proof (index_of_Some _ _ _ Hj) as Hjr.
  assert (Hqn : q ≠ n) by (destruct Hn; congruence).
  assert (Hkid : ∀ c, c ∈ m_child_indices rd →
            c ≠ l ∧ c ≠ r ∧ c ≠ q ∧ c ∉ m_child_indices qd).
  { intros c Hc.
    destruct (sib_kid c) as (_ & _ & _ & _ & ? & ? & ? & _ & ?);
      [apply elem_of_app; by right|auto]. }
  assert (Hlk : ∀ pg, m_node_cache d1 !! pg
            = if decide (pg = r) then None
              else if decide (pg = l) then Some (merged ld rd separator)
              else if decide (pg = q) then Some (merge_parent qd entry_index j)
              else if decide (pg ∈ m_child_indices rd)
                   then with_parent l <$> m_node_cache d !! pg
                   else m_node_cache d !! pg).
  { intros pg. rewrite Hcache. unfold merge_cache.
    destruct (decide (pg = r)) as [Heq|Hpr']; [rewrite Heq; apply lookup_delete_eq|].
    rewrite lookup_delete_ne by congruence.
    destruct (decide (pg = l)) as [Heq|Hpl']; [rewrite Heq; apply lookup_insert_eq|].
    rewrite lookup_insert_ne by congruence. rewrite lookup_reparent.
    destruct (decide (pg = q)) as [Heq|Hpq'].
    - rewrite Heq, lookup_insert_eq.
      destruct (decide (q ∈ m_child_indices rd)) as [Hin|_]; [|done].
      by destruct (Hkid q Hin) as (_ & _ & ? & _).
    - by rewrite lookup_insert_ne by congruence. }
  assert (Hin : ∀ pg, in_stream d pg → in_stream d1 pg).
  { intros pg Hpg. unfold in_stream in Hpg |- *. by rewrite Hpages. }
  (* what has become of a resident node *)
  assert (Hkeep : ∀ pg nd, m_node_cache d !! pg = Some nd → pg ≠ r →
            ∃ nd', m_node_cache d1 !! pg = Some nd'
                   ∧ m_parent_num nd'
                     = (if decide (pg ∈ m_child_indices rd) then l
                        else m_parent_num nd)
                   ∧ ∀ x, x ∈ m_child_indices nd → x ≠ r →
                          x ∈ m_child_indices nd').
  { intros pg nd Hc Hpr'. rewrite Hlk.
    destruct (decide (pg = r)); [done|].
    destruct (decide (pg = l)) as [Heq|Hpl'].
    { eexists. split; [reflexivity|]. simpl.
      assert (nd = ld) as -> by congruence. split.
      - destruct (decide (pg ∈ m_child_indices rd)) as [Hx|_]; [|done].
        destruct (Hkid _ Hx). congruence.
      - intros x Hx _. apply elem_of_app. by left. }
    destruct (decide (pg = q)) as [Heq|Hpq'].
    { eexists. split; [reflexivity|]. simpl.
      assert (nd = qd) as -> by congruence. split.
      - destruct (decide (pg ∈ m_child_indices rd)) as [Hx|_]; [|done].
        destruct (Hkid _ Hx) as (_ & _ & ? & _). congruence.
      - intros x Hx Hxne. by apply (elem_of_delete_ne _ _ _ r). }
    rewrite Hc. destruct (decide (pg ∈ m_child_indices rd)); simpl; eauto. }
  assert (Hchildren : ∀ pg nd, m_node_cache d !! pg = Some nd → pg ≠ r →
            pg ≠ l →
            ∀ c, c ∈ m_child_indices nd → c ≠ r →
                 ∃ cd, m_node_cache d1 !! c = Some cd ∧ m_parent_num cd = pg).
  { intros pg nd Hc Hpr' Hpl' c Hcin Hcr.
    destruct (child_facts _ _ _ _ _ Hok _ _ _ Hc Hcin) as (cd & Hcd & Hcp & _).
    destruct (Hkeep _ _ Hcd Hcr) as (cd' & Hcd' & Hpar' & _).
    exists cd'. split; [done|]. rewrite Hpar'.
    destruct (decide (c ∈ m_child_indices rd)) as [Hx|_]; [|done].
    exfalso. destruct (child_facts _ _ _ _ _ Hok _ _ _ Hr Hx) as (cd2 & Hcd2 & ? & _).
    congruence. }
  assert (Hparent : ∀ pg nd, m_node_cache d !! pg = Some nd → pg ≠ r →
            m_parent_num nd ≠ INVALID_PAGE → m_parent_num nd ≠ r →
            S (h pg) = h (m_parent_num nd)
            ∧ ∃ pd, m_node_cache d1 !! m_parent_num nd = Some pd
                    ∧ (pg ∈ m_child_indices pd ∨ Deficient q = Orphan pg)).
  { intros pg nd Hc Hpr' Hne Hner.
    destruct (parent_facts _ _ _ _ _ Hok _ _ Hc Hne) as (Hh & _ & pd & Hpd & Hor).
    split; [done|]. destruct Hor as [Hor|?]; [|done].
    destruct (Hkeep _ _ Hpd Hner) as (pd' & Hpd' & _ & Hsub).
    exists pd'. split; [done|]. left. by apply Hsub. }
  constructor.
  - exact Hso1.
  - intros pg nd' Hlk'. rewrite Hlk in Hlk'.
    destruct (decide (pg = r)); [discriminate|].
    destruct (decide (pg = l)) as [Hpg|Hpgl].
    { (* the merged node *)
      injection Hlk' as <-. rewrite Hpg.
      constructor; simpl.
      - exact Hnl.
      - apply Hin, (ok_range Hlok).
      - unfold well_shaped. simpl. destruct sib_shape as [?|Hs]; [by left|right].
        rewrite Hs, !length_app. simpl. lia.
      - apply sib_nodup.
      - intros c Hc.
        destruct (sib_kid c Hc) as (cd & Hcd & Hwhere & _ & _ & Hcr & _).
        destruct (Hkeep _ _ Hcd Hcr) as (cd' & Hcd' & Hpar' & _).
        exists cd'. split; [done|]. rewrite Hpar'.
        destruct (decide (c ∈ m_child_indices rd)) as [|Hnr']; [done|].
        by destruct Hwhere as [[_ ?]|[? _]].
      - intros Hnil. apply app_eq_nil in Hnil as [Hnil _].
        by apply (ok_leaf Hlok).
      - intros Hinv. congruence.
      - intros _. rewrite Hpl. split; [done|].
        exists (merge_parent qd entry_index j). split.
        + rewrite Hlk. destruct (decide (q = r)); [congruence|].
          destruct (decide (q = l)); [congruence|]. by destruct (decide (q = q)).
        + left. simpl. by apply (elem_of_delete_ne _ _ _ r).
      - rewrite !length_app. simpl. lia.
      - intros _. rewrite !length_app. simpl.
        destruct (decide _); lia.
      - intros Hinv. congruence. }
    destruct (decide (pg = q)) as [Hpg|Hpgq].
    { (* the parent *)
      injection Hlk' as <-. rewrite Hpg.
      assert (Hqr : m_parent_num qd ≠ r).
      { intros Heq. destruct (decide (m_parent_num qd = INVALID_PAGE)) as [Hi|Hi].
        - rewrite Heq in Hi.
          by apply (cached_not_invalid _ _ _ _ _ Hok _ _ Hr).
        - destruct (parent_facts _ _ _ _ _ Hok _ _ Hq Hi) as (Hh & _).
          rewrite Heq in Hh. lia. }
      constructor; simpl.
      - apply (ok_num Hqok).
      - apply Hin, (ok_range Hqok).
      - unfold well_shaped. simpl. right.
        rewrite !length_delete by eauto.
        destruct (ok_shape Hqok) as [Hnil|Hs].
        + rewrite Hnil in Hlq. by apply not_elem_of_nil in Hlq.
        + apply lookup_lt_Some in Hsep. lia.
      - apply NoDup_delete, (ok_nodup Hqok).
      - intros c Hc.
        assert (Hcr : c ≠ r).
        { intros Heq. rewrite Heq in Hc. revert Hc.
          apply not_elem_of_delete; [apply (ok_nodup Hqok)|done]. }
        destruct (decide (c = l)) as [Heq|Hcl].
        + exists (merged ld rd separator). split; [|done].
          rewrite Hlk, Heq. destruct (decide (l = r)); [done|].
          by destruct (decide (l = l)).
        + assert (Hq1 : q ≠ r) by congruence. assert (Hq2 : q ≠ l) by congruence.
          apply (Hchildren q qd Hq Hq1 Hq2 c); [|done].
          by apply elem_of_delete in Hc.
      - intros Hnil. exfalso.
        assert (Hx : l ∈ delete j (m_child_indices qd))
          by by apply (elem_of_delete_ne _ _ _ r).
        rewrite Hnil in Hx. by apply not_elem_of_nil in Hx.
      - intros Hinv. rewrite Hroot. by apply (ok_root Hqok).
      - intros Hne. apply (Hparent q qd); auto.
      - rewrite length_delete by eauto. pose proof (ok_max Hqok). lia.
      - intros Hne. rewrite length_delete by eauto.
        destruct (decide (Deficient q = Deficient q)); [|done].
        pose proof (ok_min Hqok Hne) as Hmin.
        destruct (decide (Deficient n = Deficient q)); [congruence|].
        apply lookup_lt_Some in Hsep. lia.
      - intros _ _ Hx. done. }
    (* a node that was resident before *)
    destruct (m_node_cache d !! pg) as [nd|] eqn:Hc.
    2:{ by destruct (decide _). }
    pose proof (to_nodes Hok _ _ Hc) as Hnok.
    destruct (sib_other pg nd Hc) as [Hmin Hrootent]; [done|done|].
    assert (Hkids : ∀ c, c ∈ m_child_indices nd →
              ∃ cd, m_node_cache d1 !! c = Some cd ∧ m_parent_num cd = pg).
    { intros c Hcin. apply (Hchildren pg nd); auto.
      intros Heq. rewrite Heq in Hcin.
      destruct (child_facts _ _ _ _ _ Hok _ _ _ Hc Hcin) as (cd & Hcd & ? & _).
      congruence. }
    destruct (decide (pg ∈ m_child_indices rd)) as [Hm|Hm].
    + (* a child of the right node *)
      injection Hlk' as <-.
      destruct (sib_kid pg) as (cd & Hcd & _ & Hh & _);
        [apply elem_of_app; by right|].
      constructor; simpl.
      * apply (ok_num Hnok).
      * apply Hin, (ok_range Hnok).
      * apply (ok_shape Hnok).
      * apply (ok_nodup Hnok).
      * exact Hkids.
      * apply (ok_leaf Hnok).
      * intros Hinv. congruence.
      * intros _. split; [done|].
        exists (merged ld rd separator). split.
        -- rewrite Hlk. destruct (decide (l = r)); [done|].
           by destruct (decide (l = l)).
        -- left. simpl. apply elem_of_app. by right.
      * apply (ok_max Hnok).
      * intros _. destruct (decide _); [congruence|].
        assert (Hne : m_parent_num nd ≠ INVALID_PAGE).
        { destruct (child_facts _ _ _ _ _ Hok _ _ _ Hr Hm) as (cd2 & Hcd2 & _ & _ & _ & ?).
          congruence. }
        specialize (Hmin Hne). lia.
      * intros Hinv. congruence.
    + (* any other node *)
      injection Hlk' as <-.
      constructor.
      * apply (ok_num Hnok).
      * apply Hin, (ok_range Hnok).
      * apply (ok_shape Hnok).
      * apply (ok_nodup Hnok).
      * exact Hkids.
      * apply (ok_leaf Hnok).
      * intros Hinv. rewrite Hroot. by apply (ok_root Hnok).
      * intros Hne. apply (Hparent pg nd); auto.
        intros Heq. apply Hm.
        destruct (parent_facts _ _ _ _ _ Hok _ _ Hc Hne) as (_ & _ & pd & Hpd & Hor).
        destruct Hor as [Hor|?]; [|done]. rewrite Heq, Hr in Hpd. congruence.
      * apply (ok_max Hnok).
      * intros Hne. specialize (Hmin Hne). destruct (decide _); lia.
      * intros Hinv Hch _. by apply Hrootent.
  - intros x Hx. rewrite Hlk.
    destruct (decide (x = r)); [done|].
    apply elem_of_cons in Hx as [?|Hx]; [done|].
    pose proof (to_free Hok x Hx) as Hnone.
    destruct (decide (x = l)); [congruence|].
    destruct (decide (x = q)); [congruence|].
    rewrite Hnone. by destruct (decide _).
  - intros Hinv. rewrite Hroot in Hinv.
    rewrite (to_empty Hok Hinv) in Hq. by rewrite lookup_empty in Hq.
  - intros Hne. rewrite Hroot in Hne |- *.
    destruct (to_root Hok Hne) as (rootd & Hrd & Hrp & Hh).
    assert (Hrr : m_root_page d ≠ r).
    { intros Heq. rewrite Heq, Hr in Hrd. congruence. }
    destruct (Hkeep _ _ Hrd Hrr) as (rd' & Hrd' & Hpar' & _).
    exists rd'. split; [done|]. split; [|done]. rewrite Hpar'.
    destruct (decide _) as [Hx|_]; [|done].
    destruct (child_facts _ _ _ _ _ Hok _ _ _ Hr Hx) as (cd2 & Hcd2 & _ & _ & _ & ?).
    congruence.
Qed.

(** [rotate] leaves every node with entries enough. *)
Lemma tree_ok_rotate entry_index separator separator' :
  m_entries qd !! entry_index = Some separator →
  (MAX_NUM_ENTRIES ≤ length (m_entries ld) + length (m_entries rd))%nat →
  tree_ok (set_cache (rotate_cache l r q ld rd qd entry_index separator
                        separator' (m_node_cache d)) d)
    fl h H (Deficient q).
Proof.
  intros Hsep Hsum.
  set (d1 := set_cache (rotate_cache l r q ld rd qd entry_index separator
                          separator' (m_node_cache d)) d).
  destruct sib_left as (Hpl & Hhl & Hlq' & Hnl).
  destruct sib_right as (Hpr & Hhr & Hrq' & Hnr).
  pose proof sib_sizes as (Hsl & Hsr & Hsor & Hxl & Hxr).
  pose proof (to_nodes Hok _ _ Hq) as Hqok.
  pose proof (to_nodes Hok _ _ Hl) as Hlok.
  pose proof (to_nodes Hok _ _ Hr) as Hrok.
  pose proof (cached_not_invalid _ _ _ _ _ Hok _ _ Hq) as Hqne.
  pose proof (cached_not_invalid _ _ _ _ _ Hok _ _ Hl) as Hlne.
  pose proof (cached_not_invalid _ _ _ _ _ Hok _ _ Hr) as Hrne.
  pose proof sib_nodup as Hnd.
  destruct (rotate_sizes _ _ Hsum Hxl Hxr) as (Hm1 & Hm2 & Hm3).
  fold (rotate_middle ld rd) in Hm1, Hm2, Hm3.
  set (m := rotate_middle ld rd) in *.
  set (temp := rotate_entries ld rd separator).
  set (tc := rotate_children ld rd).
  assert (Htemp : length temp = S (length (m_entries ld) + length (m_entries rd))).
  { unfold temp, rotate_entries. rewrite !length_app. simpl. lia. }
  assert (Hlt : length (take m temp) = m) by (rewrite length_take; lia).
  assert (Hld : length (drop (m + 1) temp)
                = (S (length (m_entries ld) + length (m_entries rd)) - m - 1)%nat).
  { rewrite length_drop. lia. }
  assert (Htc : tc = [] ∨ (length (take (m + 1) tc) = S m
                           ∧ length (drop (m + 1) tc)
                             = S (length (drop (m + 1) temp)))).
  { destruct sib_shape as [?|Hs]; [by left|right].
    fold (rotate_children ld rd) in Hs. fold tc in Hs.
    rewrite length_take, length_drop, Hld. lia. }
  assert (Hqn : q ≠ n) by (destruct Hn; congruence).
  assert (Hkid : ∀ c, c ∈ tc →
            ∃ cd, m_node_cache d !! c = Some cd ∧ S (h c) = h l
                  ∧ c ≠ l ∧ c ≠ r ∧ c ≠ q ∧ c ≠ n ∧ (c ∉ m_child_indices qd)
                  ∧ m_parent_num cd ≠ INVALID_PAGE
                  ∧ (m_parent_num cd = l ∨ m_parent_num cd = r)).
  { intros c Hc.
    destruct (sib_kid c Hc) as (cd & Hcd & Hw & ? & ? & ? & ? & ? & ?).
    exists cd. repeat split; auto.
    - destruct Hw as [[_ ->]|[_ ->]]; done.
    - destruct Hw as [[_ ->]|[_ ->]]; auto. }
  assert (Htake : ∀ c, c ∈ take (m + 1) tc → c ∈ tc)
    by (intros c; apply subseteq_take).
  assert (Hdrop : ∀ c, c ∈ drop (m + 1) tc → c ∈ tc)
    by (intros c; apply subseteq_drop).
  assert (Hdisj : ∀ c, c ∈ take (m + 1) tc → c ∉ drop (m + 1) tc).
  { intros c H1 H2. eapply NoDup_take_drop_disjoint; eauto. }
  assert (Hsplit : ∀ c, c ∈ tc → c ∈ take (m + 1) tc ∨ c ∈ drop (m + 1) tc)
    by (intros c; apply elem_of_take_drop).
  set (Q' := with_entries (<[entry_index := separator']> (m_entries qd)) qd).
  assert (Hlk : ∀ pg, m_node_cache d1 !! pg
            = if decide (pg = r) then Some (rotated_right ld rd separator)
              else if decide (pg = l) then Some (rotated_left ld rd separator)
              else if decide (pg = q) then Some Q'
              else if decide (pg ∈ take (m + 1) tc)
                   then with_parent l <$> m_node_cache d !! pg
              else if decide (pg ∈ drop (m + 1) tc)
                   then with_parent r <$> m_node_cache d !! pg
              else m_node_cache d !! pg).
  { intros pg. unfold d1, rotate_cache. simpl. fold m tc Q'.
    destruct (decide (pg = r)) as [Heq|Hpr']; [rewrite Heq; apply lookup_insert_eq|].
    rewrite lookup_insert_ne by congruence.
    destruct (decide (pg = l)) as [Heq|Hpl']; [rewrite Heq; apply lookup_insert_eq|].
    rewrite lookup_insert_ne by congruence. rewrite !lookup_reparent.
    destruct (decide (pg = q)) as [Heq|Hpq'].
    - rewrite Heq, lookup_insert_eq.
      destruct (decide (q ∈ drop (m + 1) tc)) as [Hx|_].
      { destruct (Hkid q (Hdrop _ Hx)) as (_ & _ & _ & _ & _ & ? & _). done. }
      destruct (decide (q ∈ take (m + 1) tc)) as [Hx|_]; [|done].
      destruct (Hkid q (Htake _ Hx)) as (_ & _ & _ & _ & _ & ? & _). done.
    - rewrite lookup_insert_ne by congruence.
      destruct (decide (pg ∈ take (m + 1) tc)) as [Hx|Hx].
      + destruct (decide (pg ∈ drop (m + 1) tc)); [|done].
        exfalso. by apply (Hdisj pg).
      + done. }
  (* what has become of a resident node *)
  assert (Hkeep : ∀ pg nd, m_node_cache d !! pg = Some nd →
            ∃ nd', m_node_cache d1 !! pg = Some nd'
                   ∧ m_parent_num nd'
                     = (if decide (pg ∈ take (m + 1) tc) then l
                        else if decide (pg ∈ drop (m + 1) tc) then r
                        else m_parent_num nd)
                   ∧ (pg ≠ l → pg ≠ r → m_child_indices nd' = m_child_indices nd)).
  { intros pg nd Hc. rewrite Hlk.
    assert (Hnot : pg = l ∨ pg = r ∨ pg = q →
              (if decide (pg ∈ take (m + 1) tc) then l
               else if decide (pg ∈ drop (m + 1) tc) then r
               else m_parent_num nd) = m_parent_num nd).
    { intros Hpg. destruct (decide (pg ∈ take (m + 1) tc)) as [Hx|_].
      { destruct (Hkid pg (Htake _ Hx)) as (_ & _ & _ & ? & ? & ? & _).
        destruct Hpg as [?|[?|?]]; done. }
      destruct (decide (pg ∈ drop (m + 1) tc)) as [Hx|_]; [|done].
      destruct (Hkid pg (Hdrop _ Hx)) as (_ & _ & _ & ? & ? & ? & _).
      destruct Hpg as [?|[?|?]]; done. }
    destruct (decide (pg = r)) as [Heq|Hpr'].
    { eexists. split; [reflexivity|]. rewrite Hnot by auto.
      assert (nd = rd) as -> by congruence. split; [done|]. done. }
    destruct (decide (pg = l)) as [Heq|Hpl'].
    { eexists. split; [reflexivity|]. rewrite Hnot by auto.
      assert (nd = ld) as -> by congruence. split; [done|]. done. }
    destruct (decide (pg = q)) as [Heq|Hpq'].
    { eexists. split; [reflexivity|]. rewrite Hnot by auto.
      assert (nd = qd) as -> by congruence. split; done. }
    rewrite Hc.
    destruct (decide (pg ∈ take (m + 1) tc)); [simpl; eauto|].
    destruct (decide (pg ∈ drop (m + 1) tc)); simpl; eauto. }
  assert (Hchildren : ∀ pg nd, m_node_cache d !! pg = Some nd →
            pg ≠ l → pg ≠ r →
            ∀ c, c ∈ m_child_indices nd →
                 ∃ cd, m_node_cache d1 !! c = Some cd ∧ m_parent_num cd = pg).
  { intros pg nd Hc Hpl' Hpr' c Hcin.
    destruct (child_facts _ _ _ _ _ Hok _ _ _ Hc Hcin) as (cd & Hcd & Hcp & _).
    destruct (Hkeep _ _ Hcd) as (cd' & Hcd' & Hpar' & _).
    exists cd'. split; [done|]. rewrite Hpar'.
    destruct (decide (c ∈ take (m + 1) tc)) as [Hx|_].
    { destruct (Hkid c (Htake _ Hx)) as (cd2 & Hcd2 & _ & _ & _ & _ & _ & _ & _ & Hw).
      assert (cd2 = cd) as -> by congruence. destruct Hw; congruence. }
    destruct (decide (c ∈ drop (m + 1) tc)) as [Hx|_]; [|done].
    destruct (Hkid c (Hdrop _ Hx)) as (cd2 & Hcd2 & _ & _ & _ & _ & _ & _ & _ & Hw).
    assert (cd2 = cd) as -> by congruence. destruct Hw; congruence. }
  assert (Hparent : ∀ pg nd, m_node_cache d !! pg = Some nd →
            m_parent_num nd ≠ INVALID_PAGE →
            m_parent_num nd ≠ l → m_parent_num nd ≠ r →
            S (h pg) = h (m_parent_num nd)
            ∧ ∃ pd, m_node_cache d1 !! m_parent_num nd = Some pd
                    ∧ (pg ∈ m_child_indices pd ∨ Deficient q = Orphan pg)).
  { intros pg nd Hc Hne Hnel Hner.
    destruct (parent_facts _ _ _ _ _ Hok _ _ Hc Hne) as (Hh & _ & pd & Hpd & Hor).
    split; [done|]. destruct Hor as [Hor|?]; [|done].
    destruct (Hkeep _ _ Hpd) as (pd' & Hpd' & _ & Hsame).
    exists pd'. split; [done|]. left. by rewrite Hsame. }
  assert (Hlkl : m_node_cache d1 !! l = Some (rotated_left ld rd separator)).
  { rewrite Hlk. destruct (decide (l = r)); [done|]. by destruct (decide (l = l)). }
  assert (Hlkr : m_node_cache d1 !! r = Some (rotated_right ld rd separator)).
  { rewrite Hlk. by destruct (decide (r = r)). }
  assert (Hlkq : m_node_cache d1 !! q = Some Q').
  { rewrite Hlk. destruct (decide (q = r)); [congruence|].
    destruct (decide (q = l)); [congruence|]. by destruct (decide (q = q)). }
  assert (Hmoved : ∀ c cd, c ∈ tc → m_node_cache d !! c = Some cd →
            m_node_cache d1 !! c
            = Some (with_parent (if decide (c ∈ take (m + 1) tc) then l else r) cd)).
  { intros c cd Hc Hcd. rewrite Hlk.
    destruct (Hkid c Hc) as (_ & _ & _ & ? & ? & ? & _).
    destruct (decide (c = r)); [done|]. destruct (decide (c = l)); [done|].
    destruct (decide (c = q)); [done|]. rewrite Hcd.
    destruct (decide (c ∈ take (m + 1) tc)); [done|].
    destruct (decide (c ∈ drop (m + 1) tc)); [done|].
    exfalso. destruct (Hsplit c Hc); done. }
  constructor.
  - apply (stream_ok_frame d); [reflexivity | reflexivity | apply (to_stream Hok)].
  - intros pg nd' Hlk'. rewrite Hlk in Hlk'.
    destruct (decide (pg = r)) as [Hpg|Hpgr].
    { (* the right node *)
      injection Hlk' as <-. rewrite Hpg.
      constructor; simpl; fold m temp tc.
      - exact Hnr.
      - apply (ok_range Hrok).
      - unfold well_shaped. simpl. fold m temp tc.
        destruct Htc as [->|[_ ->]]; [left; by rewrite drop_nil|by right].
      - by apply NoDup_drop.
      - intros c Hc.
        destruct (Hkid c (Hdrop _ Hc)) as (cd & Hcd & _).
        exists (with_parent r cd). split; [|done].
        change (m_node_cache d1 !! c = Some (with_parent r cd)).
        rewrite (Hmoved c cd (Hdrop _ Hc) Hcd).
        destruct (decide (c ∈ take (m + 1) tc)) as [Hx|_]; [|done].
        exfalso. by apply (Hdisj c).
      - intros Hnil. destruct Htc as [Hnil'|[_ Hlen]].
        + apply (ok_leaf Hrok). apply app_eq_nil in Hnil' as [_ ?]. done.
        + rewrite Hnil in Hlen. discriminate.
      - intros Hinv. congruence.
      - intros _. rewrite Hpr. split; [done|]. exists Q'. split; [done|]. by left.
      - rewrite Hld. lia.
      - intros _. rewrite Hld. destruct (decide _); lia.
      - intros Hinv. congruence. }
    destruct (decide (pg = l)) as [Hpg|Hpgl].
    { (* the left node *)
      injection Hlk' as <-. rewrite Hpg.
      constructor; simpl; fold m temp tc.
      - exact Hnl.
      - apply (ok_range Hlok).
      - unfold well_shaped. simpl. fold m temp tc.
        destruct Htc as [->|[-> _]]; [left; by rewrite take_nil|right].
        by rewrite Hlt.
      - by apply NoDup_take.
      - intros c Hc.
        destruct (Hkid c (Htake _ Hc)) as (cd & Hcd & _).
        exists (with_parent l cd). split; [|done].
        change (m_node_cache d1 !! c = Some (with_parent l cd)).
        rewrite (Hmoved c cd (Htake _ Hc) Hcd).
        by destruct (decide (c ∈ take (m + 1) tc)).
      - intros Hnil. destruct Htc as [Hnil'|[Hlen _]].
        + apply (ok_leaf Hlok). apply app_eq_nil in Hnil' as [? _]. done.
        + rewrite Hnil in Hlen. discriminate.
      - intros Hinv. congruence.
      - intros _. rewrite Hpl. split; [done|]. exists Q'. split; [done|]. by left.
      - rewrite Hlt. lia.
      - intros _. rewrite Hlt. destruct (decide _); lia.
      - intros Hinv. congruence. }
    destruct (decide (pg = q)) as [Hpg|Hpgq].
    { (* the parent *)
      injection Hlk' as <-. rewrite Hpg.
      assert (Hqlr : m_parent_num qd ≠ l ∧ m_parent_num qd ≠ r).
      { destruct (decide (m_parent_num qd = INVALID_PAGE)) as [Hi|Hi].
        - rewrite Hi. split; apply not_eq_sym; done.
        - destruct (parent_facts _ _ _ _ _ Hok _ _ Hq Hi) as (Hh & _).
          split; intros Heq; rewrite Heq in Hh; lia. }
      constructor; simpl.
      - apply (ok_num Hqok).
      - apply (ok_range Hqok).
      - unfold well_shaped. simpl. rewrite length_insert. apply (ok_shape Hqok).
      - apply (ok_nodup Hqok).
      - intros c Hc.
        destruct (decide (c = l)) as [Heq|Hcl];
          [rewrite Heq; eexists; split; [exact Hlkl|done]|].
        destruct (decide (c = r)) as [Heq|Hcr];
          [rewrite Heq; eexists; split; [exact Hlkr|done]|].
        assert (Hq1 : q ≠ l) by congruence. assert (Hq2 : q ≠ r) by congruence.
        by apply (Hchildren q qd Hq Hq1 Hq2 c).
      - apply (ok_leaf Hqok).
      - apply (ok_root Hqok).
      - intros Hne. destruct Hqlr. by apply (Hparent q qd).
      - rewrite length_insert. apply (ok_max Hqok).
      - intros Hne. rewrite length_insert.
        pose proof (ok_min Hqok Hne) as Hmin.
        destruct (decide (Deficient n = Deficient q)); [congruence|].
        destruct (decide _); lia.
      - intros _ _ Hx. done. }
    (* a node that was resident before *)
    destruct (m_node_cache d !! pg) as [nd|] eqn:Hc.
    2:{ repeat case_decide; discriminate. }
    pose proof (to_nodes Hok _ _ Hc) as Hnok.
    destruct (sib_other pg nd Hc) as [Hmin Hrootent]; [done|done|].
    pose proof (Hchildren pg nd Hc Hpgl Hpgr) as Hkids.
    destruct (decide (pg ∈ tc)) as [Hm|Hm].
    + (* a child of one of the two *)
      destruct (Hkid pg Hm) as (cd & Hcd & Hh & _ & _ & _ & _ & _ & Hne & _).
      assert (cd = nd) as -> by congruence.
      assert (Hnew : nd' = with_parent (if decide (pg ∈ take (m + 1) tc)
                                        then l else r) nd).
      { destruct (decide (pg ∈ take (m + 1) tc)); [by injection Hlk' as <-|].
        destruct (decide (pg ∈ drop (m + 1) tc)); [by injection Hlk' as <-|].
        exfalso. destruct (Hsplit pg Hm); done. }
      rewrite Hnew.
      constructor; simpl.
      * apply (ok_num Hnok).
      * apply (ok_range Hnok).
      * apply (ok_shape Hnok).
      * apply (ok_nodup Hnok).
      * exact Hkids.
      * apply (ok_leaf Hnok).
      * intros Hinv. destruct (decide _); congruence.
      * intros _. destruct (decide (pg ∈ take (m + 1) tc)) as [Hx|Hx].
        -- split; [done|]. eexists. split; [exact Hlkl|]. left. exact Hx.
        -- split; [rewrite <- sib_level; done|].
           eexists. split; [exact Hlkr|]. left. simpl. fold m tc.
           destruct (Hsplit pg Hm); done.
      * apply (ok_max Hnok).
      * intros _. specialize (Hmin Hne). destruct (decide _); lia.
      * intros Hinv. destruct (decide _); congruence.
    + (* any other node *)
      assert (nd' = nd) as ->.
      { destruct (decide (pg ∈ take (m + 1) tc)) as [Hx|_];
          [by apply Htake in Hx|].
        destruct (decide (pg ∈ drop (m + 1) tc)) as [Hx|_];
          [by apply Hdrop in Hx|].
        congruence. }
      constructor.
      * apply (ok_num Hnok).
      * apply (ok_range Hnok).
      * apply (ok_shape Hnok).
      * apply (ok_nodup Hnok).
      * exact Hkids.
      * apply (ok_leaf Hnok).
      * apply (ok_root Hnok).
      * intros Hne.
        destruct (parent_facts _ _ _ _ _ Hok _ _ Hc Hne) as (_ & _ & pd & Hpd & Hor).
        destruct Hor as [Hor|?]; [|done].
        apply (Hparent pg nd); auto.
        -- intros Heq. apply Hm. rewrite Heq, Hl in Hpd.
           injection Hpd as <-. apply elem_of_app. by left.
        -- intros Heq. apply Hm. rewrite Heq, Hr in Hpd.
           injection Hpd as <-. apply elem_of_app. by right.
      * apply (ok_max Hnok).
      * intros Hne. specialize (Hmin Hne). destruct (decide _); lia.
      * intros Hinv Hch _. by apply Hrootent.
  - intros x Hx. rewrite Hlk.
    pose proof (to_free Hok x Hx) as Hnone.
    destruct (decide (x = r)); [congruence|].
    destruct (decide (x = l)); [congruence|].
    destruct (decide (x = q)); [congruence|].
    rewrite Hnone. repeat case_decide; done.
  - intros Hinv. simpl in Hinv.
    rewrite (to_empty Hok Hinv) in Hq. by rewrite lookup_empty in Hq.
  - intros Hne. simpl in Hne. simpl m_root_page.
    destruct (to_root Hok Hne) as (rootd & Hrd & Hrp & Hh).
    destruct (Hkeep _ _ Hrd) as (rd' & Hrd' & Hpar' & _).
    exists rd'. split; [done|]. split; [|done]. rewrite Hpar'.
    destruct (decide _) as [Hx|_].
    { destruct (Hkid _ (Htake _ Hx)) as (cd & Hcd & _ & _ & _ & _ & _ & _ & ? & _).
      congruence. }
    destruct (decide _) as [Hx|_]; [|done].
    destruct (Hkid _ (Hdrop _ Hx)) as (cd & Hcd & _ & _ & _ & _ & _ & _ & ? & _).
    congruence.
Qed.

(** [merge] and [rotate] as [balance_up] calls them. *)
Lemma merge_ok entry_index separator d' :
  m_entries qd !! entry_index = Some separator →
  (length (m_entries ld) + length (m_entries rd) < MAX_NUM_ENTRIES)%nat →
  merge l r q entry_index d = Ok (tt, d') →
  tree_ok d' (r :: fl) h H (Deficient q) ∧ is_Some (m_node_cache d' !! q).
Proof.
  intros Hsep Hsum Hrun.
  destruct sib_left as (Hpl & Hhl & Hlq' & Hnl).
  destruct sib_right as (Hpr & Hhr & Hrq' & Hnr).
  destruct (index_of_elem r _ Hrq) as [j Hj].
  assert (Hlrcs : l ∉ m_child_indices rd).
  { intros Hin. destruct (sib_kid l) as (_ & _ & _ & _ & ? & _); [|done].
    apply elem_of_app. by right. }
  rewrite (merge_eq l r q entry_index d ld rd qd separator j) in Hrun by done.
  set (c1 := <[l:=merged ld rd separator]>
               (reparent l (m_child_indices rd)
                  (<[q:=merge_parent qd entry_index j]> (m_node_cache d)))) in Hrun.
  assert (Hr1 : c1 !! r = Some rd).
  { unfold c1. rewrite lookup_insert_ne by done. rewrite lookup_reparent.
    rewrite lookup_insert_ne by done. rewrite Hr.
    destruct (decide (r ∈ m_child_indices rd)) as [Hin|_]; [|done].
    destruct (sib_kid r) as (_ & _ & _ & _ & _ & ? & _); [|done].
    apply elem_of_app. by right. }
  destruct (deallocate_page_ok (set_cache c1 d) fl r) as
    (d1 & Hd & Hso1 & Hpages & Hcache1 & Hroot1).
  { apply (stream_ok_frame d); [reflexivity|reflexivity|apply (to_stream Hok)]. }
  { apply (ok_range (to_nodes Hok _ _ Hr)). }
  { apply (free_not_cached _ _ _ _ _ Hok _ _ Hr). }
  rewrite (del_node_eq r rd (set_cache c1 d) d1 Hr1 Hnr Hd) in Hrun.
  injection Hrun as <-.
  assert (Hc' : m_node_cache (set_cache (delete r (m_node_cache d1)) d1)
                = merge_cache l r q ld rd qd entry_index j separator (m_node_cache d)).
  { simpl. by rewrite Hcache1. }
  split.
  - apply (tree_ok_merge entry_index j separator); try done.
    apply (stream_ok_frame d1); [reflexivity|reflexivity|exact Hso1].
  - rewrite Hc'. unfold merge_cache.
    rewrite lookup_delete_ne by done. rewrite lookup_insert_ne by done.
    rewrite lookup_reparent, lookup_insert_eq. destruct (decide _); simpl; eauto.
Qed.

Lemma rotate_ok entry_index separator d' :
  m_entries qd !! entry_index = Some separator →
  (MAX_NUM_ENTRIES ≤ length (m_entries ld) + length (m_entries rd))%nat →
  rotate l r q entry_index d = Ok (tt, d') →
  tree_ok d' fl h H (Deficient q) ∧ is_Some (m_node_cache d' !! q).
Proof.
  intros Hsep Hsum Hrun.
  destruct sib_left as (Hpl & Hhl & Hlq' & Hnl).
  destruct sib_right as (Hpr & Hhr & Hrq' & Hnr).
  pose proof sib_sizes as (_ & _ & _ & Hxl & Hxr).
  destruct (rotate_sizes _ _ Hsum Hxl Hxr) as (Hm1 & Hm2 & Hm3).
  fold (rotate_middle ld rd) in Hm1, Hm2, Hm3.
  destruct (lookup_lt_is_Some_2 (rotate_entries ld rd separator)
              (rotate_middle ld rd)) as [separator' Hsep'].
  { unfold rotate_entries. rewrite !length_app. simpl. lia. }
  rewrite (rotate_eq l r q entry_index d ld rd qd separator separator') in Hrun;
    try done.
  - injection Hrun as <-. split; [by apply tree_ok_rotate|].
    simpl. unfold rotate_cache.
    rewrite !lookup_insert_ne by done. rewrite !lookup_reparent, lookup_insert_eq.
    repeat destruct (decide _); simpl; eauto.
  - apply sib_leaf.
  - intros Hne. destruct sib_shape as [Hnil|Hs].
    + apply app_eq_nil in Hnil as [? _]. done.
    + unfold rotate_children. rewrite Hs. lia.
  - intros Hin. by destruct (sib_kid l Hin) as (_ & _ & _ & _ & ? & _).
  - intros Hin. by destruct (sib_kid r Hin) as (_ & _ & _ & _ & _ & ? & _).
Qed.

Unset Default Proof Using.
End Siblings.

(** *** The root without an entry *)

Lemma tree_ok_collapse d fl h H n nd c d1 :
  tree_ok d fl h H (Deficient n) → m_node_cache d !! n = Some nd →
  m_parent_num nd = INVALID_PAGE → m_child_indices nd = [c] →
  stream_ok d1 (n :: fl) → num_pages d1 = num_pages d → m_root_page d1 = c →
  m_node_cache d1 = collapse_cache n c (m_node_cache d) →
  tree_ok d1 (n :: fl) h (h c) NoFocus.
Proof.
  intros Hok Hn Hpar Hch Hso1 Hpages Hroot Hcache.
  pose proof (to_nodes Hok _ _ Hn) as Hnok.
  pose proof low_entries_min as Hmin2.
  assert (Hcin : c ∈ m_child_indices nd) by (rewrite Hch; by left).
  destruct (child_facts _ _ _ _ _ Hok _ _ _ Hn Hcin) as (cd & Hcd & Hcp & Hhc & Hcn & Hcne).
  assert (Hlk : ∀ pg, m_node_cache d1 !! pg
            = if decide (pg = n) then None
              else if decide (pg = c) then Some (with_parent INVALID_PAGE cd)
              else m_node_cache d !! pg).
  { intros pg. rewrite Hcache. unfold collapse_cache.
    destruct (decide (pg = n)) as [Heq|?]; [rewrite Heq; apply lookup_delete_eq|].
    rewrite lookup_delete_ne by congruence. rewrite lookup_reparent.
    destruct (decide (pg = c)) as [Heq|?].
    - rewrite Heq, Hcd. destruct (decide (c ∈ [c])) as [|Hx]; [done|].
      exfalso. apply Hx. by left.
    - destruct (decide (pg ∈ [c])) as [Hx|]; [|done].
      apply list_elem_of_singleton in Hx. done. }
  assert (Hin : ∀ pg, in_stream d pg → in_stream d1 pg).
  { intros pg Hpg. unfold in_stream in Hpg |- *. by rewrite Hpages. }
  assert (Hnroot : n = m_root_page d) by apply (ok_root Hnok Hpar).
  assert (Hkids : ∀ pg xd, m_node_cache d !! pg = Some xd → pg ≠ n →
            ∀ x, x ∈ m_child_indices xd →
                 ∃ xd', m_node_cache d1 !! x = Some xd' ∧ m_parent_num xd' = pg).
  { intros pg xd Hc Hpn x Hx.
    destruct (child_facts _ _ _ _ _ Hok _ _ _ Hc Hx) as (xd' & Hxd' & Hxp & _ & _ & Hxne).
    exists xd'. split; [|done]. rewrite Hlk.
    destruct (decide (x = n)) as [Heq|_]; [congruence|].
    destruct (decide (x = c)) as [Heq|_]; [congruence|]. done. }
  constructor.
  - exact Hso1.
  - intros pg xd' Hlk'. rewrite Hlk in Hlk'.
    destruct (decide (pg = n)); [discriminate|].
    destruct (decide (pg = c)) as [Hpg|Hpgc].
    + injection Hlk' as <-. rewrite Hpg.
      pose proof (to_nodes Hok _ _ Hcd) as Hcok.
      constructor; simpl.
      * apply (ok_num Hcok).
      * apply Hin, (ok_range Hcok).
      * apply (ok_shape Hcok).
      * apply (ok_nodup Hcok).
      * by apply (Hkids c cd).
      * apply (ok_leaf Hcok).
      * done.
      * done.
      * apply (ok_max Hcok).
      * done.
      * intros _ _ _. pose proof (ok_min Hcok Hcne) as Hmin.
        destruct (decide (Deficient n = Deficient c)); [congruence|]. lia.
    + pose proof (to_nodes Hok _ _ Hlk') as Hxok.
      assert (Hxne : m_parent_num xd' ≠ INVALID_PAGE).
      { intros Hinv. pose proof (ok_root Hxok Hinv). congruence. }
      constructor.
      * apply (ok_num Hxok).
      * apply Hin, (ok_range Hxok).
      * apply (ok_shape Hxok).
      * apply (ok_nodup Hxok).
      * by apply (Hkids pg xd').
      * apply (ok_leaf Hxok).
      * done.
      * intros _.
        destruct (parent_facts _ _ _ _ _ Hok _ _ Hlk' Hxne)
          as (Hh & _ & pd & Hpd & Hor).
        split; [done|]. destruct Hor as [Hor|?]; [|done].
        assert (Hppn : m_parent_num xd' ≠ n).
        { intros Heq. rewrite Heq, Hn in Hpd. injection Hpd as <-.
          rewrite Hch in Hor. apply list_elem_of_singleton in Hor. done. }
        rewrite Hlk. destruct (decide (m_parent_num xd' = n)); [done|].
        destruct (decide (m_parent_num xd' = c)) as [Heq|_].
        -- eexists. split; [reflexivity|]. left. simpl.
           rewrite Heq, Hcd in Hpd. by injection Hpd as <-.
        -- eauto.
      * apply (ok_max Hxok).
      * intros _. pose proof (ok_min Hxok Hxne) as Hmin.
        destruct (decide (Deficient n = Deficient pg)); [congruence|].
        destruct (decide _); lia.
      * done.
  - intros x Hx. rewrite Hlk. destruct (decide (x = n)); [done|].
    apply elem_of_cons in Hx as [?|Hx]; [done|].
    pose proof (to_free Hok x Hx) as Hnone.
    destruct (decide (x = c)); [congruence|]. done.
  - intros Hinv. exfalso. rewrite Hroot in Hinv.
    by apply (cached_not_invalid _ _ _ _ _ Hok _ _ Hcd).
  - intros _. rewrite Hroot, Hlk.
    destruct (decide (c = n)); [done|]. destruct (decide (c = c)); [|done].
    eauto.
Qed.

(** *** A node whose entries alone change *)

Lemma tree_ok_set_entries d fl h H f' p pd es' :
  tree_ok d fl h H NoFocus → m_node_cache d !! p = Some pd →
  (length es' ≤ MAX_NUM_ENTRIES)%nat →
  (m_child_indices pd = [] ∨ length (m_child_indices pd) = S (length es')) →
  (m_parent_num pd ≠ INVALID_PAGE →
   (low_entries ≤ length es' + (if decide (f' = Deficient p) then 1 else 0))%nat) →
  (m_parent_num pd = INVALID_PAGE → m_child_indices pd ≠ [] →
   f' ≠ Deficient p → (1 ≤ length es')%nat) →
  tree_ok (set_cache (<[p := with_entries es' pd]> (m_node_cache d)) d)
    fl h H f'.
Proof.
  intros Hok Hp Hmax Hshape Hmin Hrootent.
  pose proof (to_nodes Hok _ _ Hp) as Hpok.
  assert (Hsame : ∀ pg xd, m_node_cache d !! pg = Some xd →
            ∃ xd', <[p := with_entries es' pd]> (m_node_cache d) !! pg = Some xd'
                   ∧ m_parent_num xd' = m_parent_num xd
                   ∧ m_child_indices xd' = m_child_indices xd).
  { intros pg xd Hc. destruct (decide (pg = p)) as [Heq|Hne].
    - rewrite Heq, lookup_insert_eq. eexists. split; [reflexivity|].
      assert (xd = pd) as -> by congruence. done.
    - rewrite lookup_insert_ne by done. eauto. }
  assert (Hnode : ∀ pg xd xd', m_node_cache d !! pg = Some xd →
            m_parent_num xd' = m_parent_num xd → m_num xd' = m_num xd →
            m_child_indices xd' = m_child_indices xd →
            (length (m_entries xd') ≤ MAX_NUM_ENTRIES)%nat →
            well_shaped xd' →
            (m_parent_num xd ≠ INVALID_PAGE →
             (low_entries ≤ length (m_entries xd')
                            + (if decide (f' = Deficient pg) then 1 else 0))%nat) →
            (m_parent_num xd = INVALID_PAGE → m_child_indices xd ≠ [] →
             f' ≠ Deficient pg → (1 ≤ length (m_entries xd'))%nat) →
            node_ok (set_cache (<[p := with_entries es' pd]> (m_node_cache d)) d)
              h f' pg xd').
  { intros pg xd xd' Hc Hpar Hnum Hch Hmx Hsh Hmn Hre.
    pose proof (to_nodes Hok _ _ Hc) as Hxok.
    constructor; rewrite ?Hpar, ?Hnum, ?Hch; try done.
    - apply (ok_num Hxok).
    - apply (ok_range Hxok).
    - apply (ok_nodup Hxok).
    - intros c Hcin.
      destruct (ok_children Hxok c Hcin) as (cd & Hcd & Hcp).
      destruct (Hsame _ _ Hcd) as (cd' & Hcd' & Hp' & _).
      exists cd'. split; [done|]. congruence.
    - apply (ok_leaf Hxok).
    - apply (ok_root Hxok).
    - intros Hne. destruct (ok_parent Hxok Hne) as (Hh & qd & Hqd & Hor).
      split; [done|]. destruct Hor as [Hor|?]; [|done].
      destruct (Hsame _ _ Hqd) as (qd' & Hqd' & _ & Hc').
      exists qd'. split; [done|]. left. by rewrite Hc'. }
  constructor.
  - apply (stream_ok_frame d); [reflexivity|reflexivity|apply (to_stream Hok)].
  - intros pg xd' Hlk. simpl in Hlk.
    destruct (decide (pg = p)) as [Heq|Hne].
    + rewrite Heq in Hlk |- *. rewrite lookup_insert_eq in Hlk.
      injection Hlk as <-. by apply (Hnode p pd).
    + rewrite lookup_insert_ne in Hlk by done.
      pose proof (to_nodes Hok _ _ Hlk) as Hxok.
      apply (Hnode pg xd'); try done.
      * apply (ok_max Hxok).
      * apply (ok_shape Hxok).
      * intros Hpne. pose proof (ok_min Hxok Hpne) as Hm.
        destruct (decide (NoFocus = Deficient pg)); [done|].
        destruct (decide _); lia.
      * intros Hinv Hch _. by apply (ok_root_entries Hxok).
  - intros x Hx. simpl. pose proof (to_free Hok x Hx) as Hnone.
    rewrite lookup_insert_ne; [done|]. congruence.
  - intros Hinv. simpl in Hinv. rewrite (to_empty Hok Hinv) in Hp.
    by rewrite lookup_empty in Hp.
  - intros Hne. simpl in Hne. simpl m_root_page.
    destruct (to_root Hok Hne) as (rd & Hrd & Hrp & Hh).
    destruct (Hsame _ _ Hrd) as (rd' & Hrd' & Hp' & _).
    exists rd'. split; [done|]. split; [congruence|done].
Qed.

(** The node that [balance_up] looks at has entries enough. *)
Lemma tree_ok_settled d fl h H n nd :
  tree_ok d fl h H (Deficient n) → m_node_cache d !! n = Some nd →
  (m_parent_num nd ≠ INVALID_PAGE → (low_entries ≤ length (m_entries nd))%nat) →
  (m_parent_num nd = INVALID_PAGE → m_child_indices nd ≠ [] →
   (1 ≤ length (m_entries nd))%nat) →
  tree_ok d fl h H NoFocus.
Proof.
  intros Hok Hn Hmin Hre. constructor; try apply Hok.
  intros pg xd Hc. pose proof (to_nodes Hok _ _ Hc) as Hxok.
  constructor; try apply Hxok.
  - intros Hne. destruct (ok_parent Hxok Hne) as (? & pd & ? & [?|?]); [|done].
    eauto.
  - intros Hne. destruct (decide (NoFocus = Deficient pg)); [done|].
    destruct (decide (pg = n)) as [Heq|Hpn].
    + rewrite Heq in Hc. assert (xd = nd) as -> by congruence.
      specialize (Hmin Hne). lia.
    + pose proof (ok_min Hxok Hne) as Hm.
      destruct (decide (Deficient n = Deficient pg)); [congruence|]. lia.
  - intros Hinv Hch _.
    destruct (decide (pg = n)) as [Heq|Hpn].
    + rewrite Heq in Hc. assert (xd = nd) as -> by congruence. by apply Hre.
    + apply (ok_root_entries Hxok Hinv Hch). congruence.
Qed.


End RemoveInvariant.


(** ** [balance_up] and [remove_entry] keep the tree well formed *)

Section BalanceInvariant.
Context {P : Params} {HP : ParamsOk}.

Lemma dir_check_bind {A} b (k : op A) d :
  (lift (dir_check b);; k) d
  = if b then k d else Throw CorruptedDirectoryException.
Proof. by destruct b. Qed.

(** The sibling that [find_sibling] picks is another child of the parent,
    and the index it returns is the index of an entry of the parent. *)
Lemma find_sibling_ok d fl h H n nd qd :
  tree_ok d fl h H (Deficient n) → m_node_cache d !! n = Some nd →
  m_parent_num nd ≠ INVALID_PAGE →
  m_node_cache d !! m_parent_num nd = Some qd →
  ∃ ei s sd, find_sibling (m_parent_num nd) n d = Ok ((ei, s), d)
    ∧ m_node_cache d !! s = Some sd
    ∧ s ∈ m_child_indices qd ∧ n ∈ m_child_indices qd ∧ s ≠ n
    ∧ is_Some (m_entries qd !! ei).
Proof.
  intros Hok Hn Hne Hq. set (q := m_parent_num nd) in *.
  pose proof (to_nodes Hok _ _ Hn) as Hnok.
  pose proof (to_nodes Hok _ _ Hq) as Hqok.
  pose proof low_entries_min as Hmin2.
  destruct (parent_facts _ _ _ _ _ Hok _ _ Hn Hne) as (Hh & Hqn & qd' & Hqd' & Hor).
  fold q in Hqd'. assert (qd' = qd) as -> by congruence.
  destruct Hor as [Hnq|?]; [|done].
  assert (Hlen : (2 ≤ length (m_child_indices qd))%nat
                 ∧ length (m_child_indices qd) = S (length (m_entries qd))).
  { destruct (ok_shape Hqok) as [Hnil|Hs].
    { rewrite Hnil in Hnq. by apply not_elem_of_nil in Hnq. }
    split; [|done]. rewrite Hs.
    assert (Hdq : Deficient n ≠ Deficient q).
    { intros [= Heq]. apply Hqn. by rewrite Heq. }
    destruct (decide (m_parent_num qd = INVALID_PAGE)) as [Hi|Hi].
    - assert (Hcne : m_child_indices qd ≠ []).
      { intros Hnil. rewrite Hnil in Hnq. by apply not_elem_of_nil in Hnq. }
      pose proof (ok_root_entries Hqok Hi Hcne Hdq). lia.
    - pose proof (ok_min Hqok Hi) as Hm.
      destruct (decide (Deficient n = Deficient q)); [done|]. lia. }
  destruct Hlen as [Hlen2 Hlens].
  destruct (index_of_elem n _ Hnq) as [idx Hidx].
  pose proof (index_of_Some _ _ _ Hidx) as Hidx'.
  pose proof (lookup_lt_Some _ _ _ Hidx') as Hidxlt.
  unfold find_sibling.
  rewrite (bind_Ok _ _ _ _ _ (deref_intro _ _ _ Hq)).
  rewrite (bind_Ok _ _ _ _ _ (deref_intro _ _ _ Hn)).
  rewrite dir_check_bind, (ok_num Hqok).
  rewrite bool_decide_eq_true_2 by done.
  rewrite (ok_num Hnok), Hidx.
  assert (Hres : ∀ k, m_child_indices qd !! k = Some n → ∀ k' s,
            k' ≠ k → m_child_indices qd !! k' = Some s →
            ∃ sd, retrieve_node q s d = Ok (s, d)
                  ∧ m_node_cache d !! s = Some sd
                  ∧ s ∈ m_child_indices qd ∧ s ≠ n).
  { intros k Hk k' s Hkk Hs.
    assert (Hsin : s ∈ m_child_indices qd) by by eapply list_elem_of_lookup_2.
    destruct (child_facts _ _ _ _ _ Hok _ _ _ Hq Hsin) as (sd & Hsd & Hsp & _).
    exists sd. split; [|split; [done|split; [done|]]].
    - apply (retrieve_node_resident q s d sd Hsd). by right.
    - intros Heq. rewrite Heq in Hs. apply Hkk.
      by apply (NoDup_lookup _ _ _ _ (ok_nodup Hqok) Hs Hk). }
  destruct (decide (idx + 1 = length (m_child_indices qd))%nat) as [Hlast|Hnl].
  - destruct idx as [|idx']; [lia|].
    destruct (lookup_lt_is_Some_2 (m_child_indices qd) idx') as [s Hs]; [lia|].
    rewrite Hs.
    destruct (Hres _ Hidx' idx' s) as (sd & Hret & Hsd & Hsin & Hsn); [lia|done|].
    rewrite (bind_Ok _ _ _ _ _ Hret). exists idx', s, sd.
    repeat split; auto. apply lookup_lt_is_Some_2. lia.
  - destruct (lookup_lt_is_Some_2 (m_child_indices qd) (idx + 1)) as [s Hs]; [lia|].
    rewrite Hs.
    destruct (Hres _ Hidx' (idx + 1)%nat s) as (sd & Hret & Hsd & Hsin & Hsn);
      [lia|done|].
    rewrite (bind_Ok _ _ _ _ _ Hret). exists idx, s, sd.
    repeat split; auto. apply lookup_lt_is_Some_2. lia.
Qed.

(** [balance_up], when it returns, leaves a well-formed tree. *)
Lemma balance_up_rec_ok budget :
  ∀ d fl h H n nd d',
    tree_ok d fl h H (Deficient n) → m_node_cache d !! n = Some nd →
    balance_up_rec budget n d = Ok (tt, d') →
    ∃ fl' h' H', tree_ok d' fl' h' H' NoFocus.
Proof.
  induction budget as [|budget IH]; intros d fl h H n nd d' Hok Hn Hrun;
    [discriminate|].
  pose proof (to_nodes Hok _ _ Hn) as Hnok.
  cbn [balance_up_rec] in Hrun.
  rewrite (bind_Ok _ _ _ _ _ (deref_intro _ _ _ Hn)) in Hrun.
  destruct (decide (m_parent_num nd = INVALID_PAGE)) as [Hroot|Hnonroot].
  - rewrite (bool_decide_eq_true_2 _ Hroot) in Hrun. cbn [andb orb] in Hrun.
    destruct (bool_decide (m_entries nd = [])) eqn:Hes;
      [apply bool_decide_eq_true in Hes|apply bool_decide_eq_false in Hes];
      cbn [andb] in Hrun.
    + destruct (bool_decide (m_child_indices nd = [])) eqn:Hcs;
        [apply bool_decide_eq_true in Hcs|apply bool_decide_eq_false in Hcs];
        cbn [negb] in Hrun.
      * (* a root leaf without an entry *)
        injection Hrun as <-. exists fl, h, H.
        apply (tree_ok_settled d fl h H n nd); auto; try done.
      * (* the root has no entry left: its only child is the new root *)
        rewrite dir_check_bind in Hrun.
        destruct (bool_decide _) eqn:Hone in Hrun; [|discriminate].
        apply bool_decide_eq_true in Hone.
        destruct (m_child_indices nd) as [|c [|c' cs]] eqn:Hch; try discriminate.
        rewrite (bind_Ok _ _ _ _ _ (adjust_children_in_cache_eq _ _ _ _ Hn)) in Hrun.
        rewrite Hch in Hrun.
        assert (Hcin : c ∈ m_child_indices nd) by (rewrite Hch; by left).
        destruct (child_facts _ _ _ _ _ Hok _ _ _ Hn Hcin)
          as (cd & Hcd & Hcp & Hhc & Hcn & Hcne).
        assert (Hn' : reparent INVALID_PAGE [c] (m_node_cache d) !! n = Some nd).
        { rewrite lookup_reparent. destruct (decide (n ∈ [c])) as [Hx|_]; [|done].
          apply list_elem_of_singleton in Hx. congruence. }
        erewrite bind_Ok in Hrun by (apply deref_intro; exact Hn').
        rewrite Hch in Hrun. cbn [head] in Hrun.
        unfold set_root_page at 1, modify at 1 in Hrun. unfold bind at 1 in Hrun.
        cbn [m_stream m_root_page m_start_free_page m_num_free_page m_node_cache
               set_cache] in Hrun.
        match type of Hrun with
        | del_node n ?st = _ => set (dm := st) in *
        end.
        destruct (deallocate_page_ok dm fl n) as
          (d1 & Hd & Hso1 & Hpages & Hcache1 & Hroot1).
        { apply (stream_ok_frame d); [reflexivity|reflexivity|apply (to_stream Hok)]. }
        { apply (ok_range Hnok). }
        { apply (free_not_cached _ _ _ _ _ Hok _ _ Hn). }
        rewrite (del_node_eq n nd dm d1 Hn' (ok_num Hnok) Hd) in Hrun.
        injection Hrun as <-. exists (n :: fl), h, (h c).
        apply (tree_ok_collapse d fl h H n nd c); try done.
        -- apply (stream_ok_frame d1); [reflexivity|reflexivity|exact Hso1].
        -- simpl. by rewrite Hcache1.
    + (* the root has an entry *)
      injection Hrun as <-. exists fl, h, H.
      apply (tree_ok_settled d fl h H n nd); auto; try done.
      intros _ _. destruct (m_entries nd); [done|simpl; lia].
  - rewrite (bool_decide_eq_false_2 _ Hnonroot) in Hrun. cbn [andb orb] in Hrun.
    destruct (bool_decide (MAX_NUM_ENTRIES / 2 ≤ length (m_entries nd))%nat) eqn:Hfill;
      [apply bool_decide_eq_true in Hfill|apply bool_decide_eq_false in Hfill].
    + injection Hrun as <-. exists fl, h, H.
      apply (tree_ok_settled d fl h H n nd); auto; try done.
      intros _. pose proof low_entries_le_min as Hle.
      unfold min_entries in Hle. lia.
    + destruct (parent_facts _ _ _ _ _ Hok _ _ Hn Hnonroot)
        as (Hh & Hqn & qd & Hqd & Hor).
      rewrite (bind_Ok _ _ _ _ _ (retrieve_existing_node_eq _ _)) in Hrun.
      rewrite Hqd in Hrun.
      destruct (find_sibling_ok d fl h H n nd qd Hok Hn Hnonroot Hqd)
        as (ei & s & sd & Hfs & Hsd & Hsq & Hnq & Hsn & [sep Hsep]).
      rewrite (bind_Ok _ _ _ _ _ Hfs) in Hrun. cbn [fst snd] in Hrun.
      rewrite (bind_Ok _ _ _ _ _ (deref_intro _ _ _ Hn)) in Hrun.
      rewrite (bind_Ok _ _ _ _ _ (deref_intro _ _ _ Hsd)) in Hrun.
      apply bind_inv in Hrun as ([] & d2 & Hstep & Hrun).
      destruct (last (m_entries nd)) as [a|]; [|discriminate].
      destruct (head (m_entries sd)) as [b|]; [|discriminate].
      assert (Hnext : ∃ fl2, tree_ok d2 fl2 h H (Deficient (m_parent_num nd))
                             ∧ is_Some (m_node_cache d2 !! m_parent_num nd)).
      { destruct (decide (length (m_entries nd) + length (m_entries sd)
                          < MAX_NUM_ENTRIES)%nat) as [Hsum|Hsum].
        - destruct (entry_less a b).
          + exists (s :: fl).
            apply (merge_ok d fl h H n (m_parent_num nd) n s qd nd sd Hok Hqd Hn Hsd
                     Hnq Hsq (not_eq_sym Hsn) (or_introl eq_refl) ei sep d2 Hsep);
              [lia|exact Hstep].
          + exists (n :: fl).
            apply (merge_ok d fl h H n (m_parent_num nd) s n qd sd nd Hok Hqd Hsd Hn
                     Hsq Hnq Hsn (or_intror eq_refl) ei sep d2 Hsep);
              [lia|exact Hstep].
        - destruct (entry_less a b).
          + exists fl.
            apply (rotate_ok d fl h H n (m_parent_num nd) n s qd nd sd Hok Hqd Hn Hsd
                     Hnq Hsq (not_eq_sym Hsn) (or_introl eq_refl) ei sep d2 Hsep);
              [lia|exact Hstep].
          + exists fl.
            apply (rotate_ok d fl h H n (m_parent_num nd) s n qd sd nd Hok Hqd Hsd Hn
                     Hsq Hnq Hsn (or_intror eq_refl) ei sep d2 Hsep);
              [lia|exact Hstep]. }
      destruct Hnext as (fl2 & Hok2 & [qd2 Hqd2]).
      by apply (IH d2 fl2 h H (m_parent_num nd) qd2 d').
Qed.

(** The walk of [replace_with_sub_entry] ends at a resident leaf. *)
Lemma rightmost_leaf_ok fuel :
  ∀ d fl h H f c cd l d',
    tree_ok d fl h H f → m_node_cache d !! c = Some cd →
    m_parent_num cd ≠ INVALID_PAGE →
    rightmost_leaf fuel c d = Ok (l, d') →
    d' = d ∧ ∃ ld, m_node_cache d !! l = Some ld ∧ m_child_indices ld = []
                   ∧ m_parent_num ld ≠ INVALID_PAGE.
Proof.
  induction fuel as [|fuel IH]; intros d fl h H f c cd l d' Hok Hc Hne Hrun;
    [discriminate|].
  cbn [rightmost_leaf] in Hrun.
  rewrite (bind_Ok _ _ _ _ _ (deref_intro _ _ _ Hc)) in Hrun.
  unfold is_leaf in Hrun.
  destruct (bool_decide (m_child_indices cd = [])) eqn:Hleaf;
    [apply bool_decide_eq_true in Hleaf|].
  { injection Hrun as <- <-. eauto. }
  destruct (last (m_child_indices cd)) as [x|] eqn:Hlast; [|discriminate].
  assert (Hx : x ∈ m_child_indices cd).
  { apply last_Some in Hlast as [l' ->]. apply elem_of_app. right. by left. }
  destruct (child_facts _ _ _ _ _ Hok _ _ _ Hc Hx) as (xd & Hxd & Hxp & _ & _ & Hxne).
  rewrite (bind_Ok _ _ _ _ _ (retrieve_node_resident (m_num cd) x d xd Hxd
             (or_intror (eq_trans (ok_num (to_nodes Hok _ _ Hc)) (eq_sym Hxp)))))
    in Hrun.
  by apply (IH d fl h H f x xd l d' Hok Hxd Hxne).
Qed.

(** The bound that the model puts on the walk is never reached: the walk
    goes down one level with every step, and a tree of height [k] has more
    than [k] resident nodes. *)
Lemma height_chain d fl h H f :
  tree_ok d fl h H f →
  ∀ k pg nd, m_node_cache d !! pg = Some nd → h pg = k →
    ∃ l : list Z, NoDup l ∧ length l = S k
      ∧ ∀ x, x ∈ l → is_Some (m_node_cache d !! x) ∧ (h x ≤ k)%nat.
Proof.
  intros Hok. induction k as [|k IH]; intros pg nd Hc Hh.
  { exists [pg]. split; [apply NoDup_singleton|]. split; [done|].
    intros x Hx. apply list_elem_of_singleton in Hx. rewrite Hx. split; [eauto|lia]. }
  destruct (m_child_indices nd) as [|c cs] eqn:Hcs.
  { pose proof (ok_leaf (to_nodes Hok _ _ Hc) Hcs). lia. }
  destruct (child_facts _ _ _ _ _ Hok _ _ c Hc) as (cd & Hcd & _ & Hhc & _);
    [rewrite Hcs; by left|].
  destruct (IH c cd Hcd) as (l & Hnd & Hlen & Hall); [lia|].
  exists (pg :: l). split; [|split; [simpl; by rewrite Hlen|]].
  - apply NoDup_cons. split; [|done]. intros Hin.
    destruct (Hall pg Hin) as [_ Hle]. lia.
  - intros x [->|Hx]%elem_of_cons; [split; [eauto|lia]|].
    destruct (Hall x Hx) as [? ?]. split; [done|lia].
Qed.

Lemma height_lt_size d fl h H f pg nd :
  tree_ok d fl h H f → m_node_cache d !! pg = Some nd →
  (h pg < size (m_node_cache d))%nat.
Proof.
  intros Hok Hc.
  destruct (height_chain d fl h H f Hok (h pg) pg nd Hc eq_refl)
    as (l & Hnd & Hlen & Hall).
  assert (Hsub : list_to_set (C := gset Z) l ⊆ dom (m_node_cache d)).
  { intros x Hx. apply elem_of_list_to_set in Hx. apply elem_of_dom.
    by destruct (Hall x Hx). }
  apply subseteq_size in Hsub.
  rewrite size_list_to_set, size_dom in Hsub by done. lia.
Qed.

Lemma rightmost_leaf_total d fl h H f fuel :
  tree_ok d fl h H f →
  ∀ c cd, m_node_cache d !! c = Some cd → (h c < fuel)%nat →
    ∃ l, rightmost_leaf fuel c d = Ok (l, d).
Proof.
  intros Hok. induction fuel as [|fuel IH]; intros c cd Hc Hh; [lia|].
  cbn [rightmost_leaf].
  rewrite (bind_Ok _ _ _ _ _ (deref_intro _ _ _ Hc)). unfold is_leaf.
  destruct (bool_decide (m_child_indices cd = [])) eqn:Hleaf; [by eexists|].
  apply bool_decide_eq_false in Hleaf.
  destruct (last (m_child_indices cd)) as [x|] eqn:Hlast.
  2:{ apply last_None in Hlast. done. }
  assert (Hx : x ∈ m_child_indices cd).
  { apply last_Some in Hlast as [l' ->]. apply elem_of_app. right. by left. }
  destruct (child_facts _ _ _ _ _ Hok _ _ _ Hc Hx) as (xd & Hxd & Hxp & Hhx & _).
  rewrite (bind_Ok _ _ _ _ _ (retrieve_node_resident (m_num cd) x d xd Hxd
             (or_intror (eq_trans (ok_num (to_nodes Hok _ _ Hc)) (eq_sym Hxp))))).
  apply (IH x xd Hxd). lia.
Qed.

Lemma walk_fuel_suffices d fl h H f c cd :
  tree_ok d fl h H f → m_node_cache d !! c = Some cd →
  ∃ l, rightmost_leaf (walk_fuel d) c d = Ok (l, d).
Proof.
  intros Hok Hc. apply (rightmost_leaf_total d fl h H f _ Hok c cd Hc).
  pose proof (height_lt_size d fl h H f c cd Hok Hc). unfold walk_fuel. lia.
Qed.

(** [replace_with_sub_entry] takes one entry from a leaf, which it returns. *)
Lemma replace_with_sub_entry_ok d fl h H n nd index depth l d' :
  tree_ok d fl h H NoFocus → m_node_cache d !! n = Some nd →
  replace_with_sub_entry n index depth d = Ok (l, d') →
  ∃ ld, m_node_cache d' !! l = Some ld ∧ tree_ok d' fl h H (Deficient l).
Proof.
  intros Hok Hn Hrun. pose proof (to_nodes Hok _ _ Hn) as Hnok.
  unfold replace_with_sub_entry in Hrun. rewrite dir_check_bind in Hrun.
  destruct (bool_decide _) in Hrun; [|discriminate].
  rewrite (bind_Ok _ _ _ _ _ (deref_intro _ _ _ Hn)) in Hrun.
  unfold is_leaf in Hrun.
  destruct (bool_decide (m_child_indices nd = [])) eqn:Hleaf;
    [apply bool_decide_eq_true in Hleaf|apply bool_decide_eq_false in Hleaf].
  - (* the entry is in a leaf *)
    destruct (decide (length (m_entries nd) ≤ index)%nat) as [|Hidx];
      [discriminate|].
    rewrite (bind_Ok _ _ _ _ _ (mutable_entries_intro _ _ _ _ Hn)) in Hrun.
    injection Hrun as <- <-.
    assert (Hlen : length (delete index (m_entries nd))
                   = (length (m_entries nd) - 1)%nat).
    { apply length_delete, lookup_lt_is_Some_2. lia. }
    eexists. split; [simpl; apply lookup_insert_eq|].
    apply tree_ok_set_entries; try done.
    + rewrite Hlen. pose proof (ok_max Hnok). lia.
    + by left.
    + intros Hne. rewrite Hlen. pose proof (ok_min Hnok Hne) as Hm.
      destruct (decide (NoFocus = Deficient n)); [done|].
      destruct (decide (Deficient n = Deficient n)); [lia|done].
  - (* the entry is in an internal node *)
    destruct (m_child_indices nd !! index) as [c|] eqn:Hc; [|discriminate].
    assert (Hcin : c ∈ m_child_indices nd) by by eapply list_elem_of_lookup_2.
    destruct (child_facts _ _ _ _ _ Hok _ _ _ Hn Hcin)
      as (cd & Hcd & Hcp & _ & _ & Hcne).
    rewrite (bind_Ok _ _ _ _ _ (retrieve_node_resident (m_num nd) c d cd Hcd
               (or_intror (eq_trans (ok_num Hnok) (eq_sym Hcp))))) in Hrun.
    unfold gets at 1 in Hrun. unfold bind at 1 in Hrun.
    apply bind_inv in Hrun as (lf & d0 & Hwalk & Hrun).
    destruct (rightmost_leaf_ok _ _ _ _ _ _ _ _ _ _ Hok Hcd Hcne Hwalk)
      as (-> & ld & Hld & Hlleaf & Hlne).
    rewrite (bind_Ok _ _ _ _ _ (deref_intro _ _ _ Hn)) in Hrun.
    destruct (decide (length (m_entries nd) ≤ index)%nat) as [|Hidx];
      [discriminate|].
    rewrite (bind_Ok _ _ _ _ _ (deref_intro _ _ _ Hld)) in Hrun.
    destruct (last (m_entries ld)) as [e'|] eqn:Hlast; [|discriminate].
    rewrite (bind_Ok _ _ _ _ _ (mutable_entries_intro _ _ _ _ Hn)) in Hrun.
    assert (Hln : lf ≠ n) by congruence.
    pose proof (to_nodes Hok _ _ Hld) as Hlok.
    set (d1 := set_cache (<[n := with_entries (<[index := e']> (m_entries nd)) nd]>
                            (m_node_cache d)) d) in *.
    assert (Hok1 : tree_ok d1 fl h H NoFocus).
    { apply tree_ok_set_entries; try done.
      - rewrite length_insert. apply (ok_max Hnok).
      - rewrite length_insert. apply (ok_shape Hnok).
      - intros Hne. rewrite length_insert. apply (ok_min Hnok Hne).
      - intros Hinv Hch _. rewrite length_insert.
        by apply (ok_root_entries Hnok). }
    assert (Hld1 : m_node_cache d1 !! lf = Some ld).
    { simpl. by rewrite lookup_insert_ne by done. }
    rewrite (bind_Ok _ _ _ _ _ (mutable_entries_intro _ _ _ _ Hld1)) in Hrun.
    injection Hrun as <- <-.
    eexists. split; [simpl; apply lookup_insert_eq|].
    assert (Hlen : length (pop_back (m_entries ld))
                   = (length (m_entries ld) - 1)%nat).
    { unfold pop_back. rewrite length_take. lia. }
    apply tree_ok_set_entries; try done.
    + rewrite Hlen. pose proof (ok_max Hlok). lia.
    + by left.
    + intros Hne. rewrite Hlen. pose proof (ok_min Hlok Hne) as Hm.
      destruct (decide (NoFocus = Deficient lf)); [done|].
      destruct (decide (Deficient lf = Deficient lf)); [lia|done].
Qed.

(** [remove_entry], when it returns, leaves a well-formed tree. *)
Lemma remove_entry_ok name d fl h H r d' :
  tree_ok d fl h H NoFocus →
  remove_entry name d = Ok (r, d') →
  ∃ fl' h' H', tree_ok d' fl' h' H' NoFocus.
Proof.
  intros Hok Hrun. unfold remove_entry in Hrun.
  destruct (decide _); [discriminate|].
  apply bind_inv in Hrun as (res & d0 & Hfind & Hrun).
  destruct (find_node_tree _ _ _ _ _ _ _ _ Hok Hfind) as [-> Hres].
  destruct Hres as [[Hroot ->]|(Hroot & node & i & b & xd & -> & Hx & _ & _)].
  { injection Hrun as <- <-. eauto. }
  destruct b; [|injection Hrun as <- <-; eauto].
  rewrite (bind_Ok _ _ _ _ _ (deref_intro _ _ _ Hx)) in Hrun.
  destruct (m_entries xd !! i) as [e|]; [|discriminate].
  apply bind_inv in Hrun as (lf & d1 & Hrep & Hrun).
  apply bind_inv in Hrun as ([] & d2 & Hbal & Hrun).
  injection Hrun as <- <-.
  destruct (replace_with_sub_entry_ok _ _ _ _ _ _ _ _ _ _ Hok Hx Hrep)
    as (ld & Hld & Hok1).
  by apply (balance_up_rec_ok _ d1 fl h H lf ld d2 Hok1 Hld Hbal).
Qed.

End BalanceInvariant.


(** ** The fill of the nodes of a directory built by its public operations *)

Section Scripts.
Context {P : Params}.

Lemma run_reachable script :
  ∀ d d', reachable d → run script d = Some d' → reachable d'.
Proof.
  induction script as [|[name|name] script IH]; intros d d' Hd Hrun;
    cbn [run] in Hrun.
  - by injection Hrun as <-.
  - destruct (decide (room d)) as [Hroom|]; [|discriminate].
    destruct (add_entry _ _ _ d) as [[b d1]|] eqn:Hadd; [|discriminate].
    apply (IH d1 d'); [|done]. by eapply reach_add.
  - destruct (remove_entry _ d) as [[r d1]|] eqn:Hrem; [|discriminate].
    apply (IH d1 d'); [|done]. by eapply reach_remove.
Qed.

End Scripts.

Section FillBound.
Context {P : Params} {HP : ParamsOk}.

Lemma tree_ok_empty : tree_ok empty_directory [] (λ _, 0%nat) 0 NoFocus.
Proof.
  pose proof block_size_min as HBS.
  constructor.
  - constructor; simpl; try done.
    + unfold num_pages. simpl. by rewrite Nat.Div0.div_0_l.
    + unfold num_pages. simpl. rewrite Nat.Div0.div_0_l. done.
    + apply NoDup_nil_2.
    + intros p Hp. by apply not_elem_of_nil in Hp.
  - intros pg nd Hc. simpl in Hc. by rewrite lookup_empty in Hc.
  - intros p Hp. by apply not_elem_of_nil in Hp.
  - done.
  - simpl. done.
Qed.

Lemma reachable_tree_ok d :
  reachable d → ∃ fl h H, tree_ok d fl h H NoFocus.
Proof.
  induction 1 as [|d name eid ty b d' _ (fl & h & H & Hok) Hroom Hadd
                  |d name r d' _ (fl & h & H & Hok) Hrem].
  - do 3 eexists. apply tree_ok_empty.
  - by eapply add_entry_ok.
  - by eapply remove_entry_ok.
Qed.

Lemma in_tree_cached d fl h H f pg :
  tree_ok d fl h H f → in_tree d pg → is_Some (m_node_cache d !! pg).
Proof.
  intros Hok. induction 1 as [Hr|pg nd c _ _ Hc Hin].
  - destruct (to_root Hok Hr) as (rd & Hrd & _). eauto.
  - destruct (ok_children (to_nodes Hok _ _ Hc) c Hin) as (cd & Hcd & _). eauto.
Qed.

(** C4, as the code has it. For every [MAX_NUM_ENTRIES] of at least 3, in
    every directory that [add_entry] and [remove_entry] make of the empty one
    (each call returning, each insertion with room in the stream for its
    pages), every node of the tree other than the root holds between
    [MAX_NUM_ENTRIES / 2] rounded up, less one, and [MAX_NUM_ENTRIES]
    entries: one fewer than half for an even [MAX_NUM_ENTRIES], half rounded
    down for an odd one. *)
Theorem non_root_fill_bound d :
  reachable d → fill_between low_entries d.
Proof.
  intros Hreach pg Hin Hne.
  destruct (reachable_tree_ok d Hreach) as (fl & h & H & Hok).
  destruct (in_tree_cached _ _ _ _ _ _ Hok Hin) as [nd Hc].
  exists nd. split; [done|].
  pose proof (to_nodes Hok _ _ Hc) as Hnok.
  assert (Hpar : m_parent_num nd ≠ INVALID_PAGE).
  { intros Hinv. by apply Hne, (ok_root Hnok). }
  pose proof (ok_min Hnok Hpar) as Hmin. pose proof (ok_max Hnok).
  destruct (decide (NoFocus = Deficient pg)); [done|]. lia.
Qed.

End FillBound.

Lemma reference_params_ok : @ParamsOk reference_params.
Proof. constructor; simpl; lia. Qed.

Lemma four_entries_params_ok : @ParamsOk (with_max_entries 4 reference_params).
Proof. constructor; simpl; lia. Qed.

Lemma non_root_fill_bound_witness :
  (∃ nd, m_node_cache (@after reference_params fifteen_then_remove) !! 1 = Some nd
         ∧ (6 ≤ length (m_entries nd) ≤ 13)%nat)
  ∧ (∃ nd, m_node_cache (@after (with_max_entries 4 reference_params) five_adds) !! 0
           = Some nd
           ∧ (1 ≤ length (m_entries nd) ≤ 4)%nat).
Proof.
  split.
  - apply (@non_root_fill_bound reference_params reference_params_ok
             (@after reference_params fifteen_then_remove)).
    + apply (run_reachable fifteen_then_remove empty_directory);
        [apply reach_empty | vm_compute; reflexivity].
    + eapply in_tree_child;
        [apply in_tree_root; vm_compute; discriminate
        | vm_compute; reflexivity
        | simpl; right; left].
    + vm_compute. discriminate.
  - apply (@non_root_fill_bound (with_max_entries 4 reference_params)
             four_entries_params_ok
             (@after (with_max_entries 4 reference_params) five_adds)).
    + apply (run_reachable five_adds empty_directory);
        [apply reach_empty | vm_compute; reflexivity].
    + eapply in_tree_child;
        [apply in_tree_root; vm_compute; discriminate
        | vm_compute; reflexivity
        | simpl; left].
    + vm_compute. discriminate.
Defined.

(** C4, the claim as stated fails. Under the reference constants
    ([MAX_NUM_ENTRIES = 13]) the fourteenth name splits the root leaf, and
    the left leaf (page 0) is left with 6 entries, fewer than the 7 of
    [MAX_NUM_ENTRIES / 2] rounded up. With [MAX_NUM_ENTRIES = 4] the fifth
    name leaves the left leaf with one entry, fewer than 2. *)
Lemma fill_bound_ceiling_fails :
  (4 ≤ @MAX_NUM_ENTRIES reference_params)%nat
  ∧ @reachable reference_params (@after reference_params fourteen_adds)
  ∧ ¬ @fill_between reference_params ((@MAX_NUM_ENTRIES reference_params + 1) / 2)
        (@after reference_params fourteen_adds)
  ∧ @reachable (with_max_entries 4 reference_params)
      (@after (with_max_entries 4 reference_params) five_adds)
  ∧ ¬ @fill_between (with_max_entries 4 reference_params) (4 / 2)
        (@after (with_max_entries 4 reference_params) five_adds).
Proof.
  assert (Hleft : ∀ (P : Params) script lo,
            m_root_page (@after P script) ≠ INVALID_PAGE →
            m_root_page (@after P script) ≠ 0 →
            (∃ rd, m_node_cache (@after P script) !! m_root_page (@after P script)
                   = Some rd ∧ 0 ∈ m_child_indices rd) →
            (∀ nd, m_node_cache (@after P script) !! 0 = Some nd →
                   (length (m_entries nd) < lo)%nat) →
            ¬ @fill_between P lo (@after P script)).
  { intros P script lo Hr Hr0 (rd & Hrd & Hin) Hlen Hf.
    destruct (Hf 0) as (nd & Hnd & Hlo & _).
    - eapply in_tree_child; [by apply in_tree_root|exact Hrd|exact Hin].
    - congruence.
    - specialize (Hlen nd Hnd). lia. }
  split; [simpl; lia|].
  split.
  { apply (run_reachable fourteen_adds empty_directory);
      [apply reach_empty | vm_compute; reflexivity]. }
  split.
  { apply Hleft.
    - vm_compute. discriminate.
    - vm_compute. discriminate.
    - eexists. split; [vm_compute; reflexivity|simpl; left].
    - intros nd Hnd. vm_compute in Hnd. injection Hnd as <-. vm_compute. lia. }
  split.
  { apply (run_reachable five_adds empty_directory);
      [apply reach_empty | vm_compute; reflexivity]. }
  apply Hleft.
  - vm_compute. discriminate.
  - vm_compute. discriminate.
  - eexists. split; [vm_compute; reflexivity|simpl; left].
  - intros nd Hnd. vm_compute in Hnd. injection Hnd as <-. vm_compute. lia.
Qed.


(** ** An entry added and removed again *)

(** *** The bisection on a partitioned range *)

Lemma lower_bound_loop_partition {A} (lt : A → bool) l k fuel :
  partition_point lt l k →
  ∀ first len, (len ≤ fuel)%nat → (first + len ≤ length l)%nat →
    (first ≤ k ≤ first + len)%nat →
    lower_bound_loop lt l fuel first len = k.
Proof.
  intros (Hk & Hlo & Hhi).
  induction fuel as [|fuel IH]; intros first len Hfuel Hlen Hbetween;
    cbn [lower_bound_loop]; [lia|].
  destruct (decide (len = 0)%nat); [lia|].
  assert (Hhalf : (len / 2 < len)%nat) by (apply Nat.div_lt; lia).
  destruct (lookup_lt_is_Some_2 l (first + len / 2)) as [x Hx]; [lia|].
  rewrite Hx. destruct (lt x) eqn:Hltx.
  - apply IH; try lia.
    destruct (decide (first + len / 2 < k)%nat); [lia|].
    rewrite (Hhi _ _ Hx) in Hltx by lia. discriminate.
  - apply IH; try lia.
    destruct (decide (k ≤ first + len / 2)%nat); [lia|].
    rewrite (Hlo _ _ Hx) in Hltx by lia. discriminate.
Qed.

Lemma lower_bound_partition {A} (lt : A → bool) l k :
  partition_point lt l k → lower_bound lt l = k.
Proof.
  intros Hp. unfold lower_bound.
  apply (lower_bound_loop_partition lt l k _ Hp); destruct Hp; lia.
Qed.


Section Sorted.
Context {P : Params}.
Hypothesis name_less_trans :
  ∀ a b c, name_less a b = true → name_less b c = true → name_less a c = true.

(** A sorted list of entries is partitioned for every name. *)
Lemma sorted_partition name es :
  sorted_entries es →
  ∃ k, partition_point (entry_less_name name) es k.
Proof using name_less_trans.
  induction es as [|a es IH]; intros Hs.
  { exists 0%nat. split; [simpl; lia|]. split; intros j x Hj; by destruct j. }
  destruct IH as (k & Hk & Hlo & Hhi).
  { intros j k a' b' Hj Hk Hjk. apply (Hs (S j) (S k)); [done|done|lia]. }
  destruct (entry_less_name name a) eqn:Ha.
  - exists (S k). split; [simpl; lia|]. split.
    + intros [|j] x Hj Hlt; simpl in Hj; [by injection Hj as <-|].
      apply (Hlo j); [done|lia].
    + intros [|j] x Hj Hle; [lia|]. simpl in Hj. apply (Hhi j); [done|lia].
  - exists 0%nat. split; [simpl; lia|]. split; [intros; lia|].
    intros [|j] x Hj _; simpl in Hj; [by injection Hj as <-|].
    destruct (entry_less_name name x) eqn:Hx; [|done].
    assert (Hax : entry_lt a x) by (apply (Hs 0%nat (S j)); [done|done|lia]).
    unfold entry_less_name in Ha, Hx. unfold entry_lt, entry_less in Hax.
    rewrite (name_less_trans _ _ _ Hax Hx) in Ha. discriminate.
Qed.

End Sorted.


(** *** The entry is found where it was put *)


Lemma lookup_insert_at {A} (l : list A) i x :
  (i ≤ length l)%nat → insert_at i x l !! i = Some x.
Proof.
  intros Hi. unfold insert_at.
  assert (Hlt : length (take i l) = i) by (rewrite length_take; lia).
  rewrite lookup_app_r by lia. by rewrite Hlt, Nat.sub_diag.
Qed.

Section AddRemove.
Context {P : Params} {HP : ParamsOk}.
Variables (d : BtreeDirectory) (fl : list Z) (h : Z → nat) (H : nat).
Variables (name eid : list byte) (ty : Z) (lf : Z) (ld : BtreeNode).
Hypothesis Hok : tree_ok d fl h H NoFocus.
Hypothesis name_less_irrefl : name_less name name = false.
Hypothesis name_less_trans :
  ∀ a b c, name_less a b = true → name_less b c = true → name_less a c = true.
Hypothesis Hlf : m_node_cache d !! lf = Some ld.
Hypothesis Hleaf : m_child_indices ld = [].
Hypothesis Hsorted : sorted_entries (m_entries ld).
Hypothesis Hfits : (length (m_entries ld) < MAX_NUM_ENTRIES)%nat.
Hypothesis Hfill :
  m_parent_num ld ≠ INVALID_PAGE →
  (MAX_NUM_ENTRIES / 2 ≤ length (m_entries ld))%nat.
Hypothesis Hdepth : (0 < BTREE_MAX_DEPTH)%nat.
Hypothesis Hname : (length name ≤ MAX_FILENAME_LENGTH)%nat.
Set Default Proof Using "All".

Let e := mkEntry name eid (wrap32 ty).
Let i := lower_bound (entry_less_name name) (m_entries ld).
Let d1 := set_cache (<[lf := inserted ld e INVALID_PAGE]> (m_node_cache d)) d.


Lemma inserted_children : m_child_indices (inserted ld e INVALID_PAGE) = [].
Proof. simpl. by apply children_after_insert_nil. Qed.






Unset Default Proof Using.
End AddRemove.


(** *** The order of the reference implementation *)

Lemma bytes_less_irrefl a : bytes_less a a = false.
Proof.
  induction a as [|x a IH]; [done|]. simpl.
  destruct (decide (byte_to_Z x < byte_to_Z x)); [lia|done].
Qed.

Lemma bytes_less_trans a :
  ∀ b c, bytes_less a b = true → bytes_less b c = true → bytes_less a c = true.
Proof.
  induction a as [|x a IH]; intros [|y b] [|z c] Hab Hbc; simpl in *;
    try done.
  destruct (decide (byte_to_Z x < byte_to_Z y)) as [Hxy|Hxy];
    destruct (decide (byte_to_Z y < byte_to_Z z)) as [Hyz|Hyz].
  - destruct (decide (byte_to_Z x < byte_to_Z z)); [done|lia].
  - destruct (decide (byte_to_Z z < byte_to_Z y)); [done|].
    destruct (decide (byte_to_Z x < byte_to_Z z)); [done|lia].
  - destruct (decide (byte_to_Z y < byte_to_Z x)); [done|].
    destruct (decide (byte_to_Z x < byte_to_Z z)); [done|lia].
  - destruct (decide (byte_to_Z y < byte_to_Z x)); [done|].
    destruct (decide (byte_to_Z z < byte_to_Z y)); [done|].
    destruct (decide (byte_to_Z x < byte_to_Z z)); [done|].
    destruct (decide (byte_to_Z z < byte_to_Z x)); [lia|].
    by apply (IH b c).
Qed.

Section Ascending.
Context {P : Params}.
Hypothesis name_less_trans :
  ∀ a b c, name_less a b = true → name_less b c = true → name_less a c = true.


End Ascending.



(** ** The shape of the directories made by the public operations *)

Section Shape.
Context {P : Params} {HP : ParamsOk}.

Lemma at_depth_height d fl h H f pg k :
  tree_ok d fl h H f → at_depth d pg k → (h pg + k = H)%nat.
Proof.
  intros Hok. induction 1 as [Hr|pg nd c k _ IH Hc Hin].
  - destruct (to_root Hok Hr) as (rd & _ & _ & Hh). lia.
  - destruct (child_facts _ _ _ _ _ Hok _ _ c Hc Hin) as (cd & _ & _ & Hh & _).
    lia.
Qed.

Lemma at_depth_in_tree d pg k : at_depth d pg k → in_tree d pg.
Proof.
  induction 1 as [Hr|pg nd c k _ IH Hc Hin].
  - by apply in_tree_root.
  - by eapply in_tree_child.
Qed.

Lemma cached_in_tree d fl h H :
  tree_ok d fl h H NoFocus →
  ∀ pg nd, m_node_cache d !! pg = Some nd → in_tree d pg.
Proof.
  intros Hok.
  assert (Hind : ∀ n pg nd, m_node_cache d !! pg = Some nd →
            (size (m_node_cache d) - h pg ≤ n)%nat → in_tree d pg).
  { induction n as [|n IH]; intros pg nd Hc Hn.
    - pose proof (height_lt_size _ _ _ _ _ _ _ Hok Hc). lia.
    - destruct (decide (m_parent_num nd = INVALID_PAGE)) as [He|Hne].
      + pose proof (ok_root (to_nodes Hok _ _ Hc) He) as Hr. rewrite Hr.
        apply in_tree_root. rewrite <- Hr.
        by eapply (cached_not_invalid _ _ _ _ _ Hok).
      + destruct (parent_facts _ _ _ _ _ Hok _ _ Hc Hne)
          as (Hh & _ & pd & Hpd & [Hin|Hf]); [|discriminate].
        eapply in_tree_child; [|exact Hpd|exact Hin].
        apply (IH _ pd Hpd). lia. }
  intros pg nd Hc. by apply (Hind _ pg nd Hc (Nat.le_refl _)).
Qed.

(** X1. The tree is balanced: in every directory that [add_entry] and
    [remove_entry] make of the empty one, any two leaves lie the same number
    of levels below the root. *)
Theorem reachable_leaves_same_depth d pg1 k1 pg2 k2 :
  reachable d →
  at_depth d pg1 k1 → leaf_page d pg1 →
  at_depth d pg2 k2 → leaf_page d pg2 →
  k1 = k2.
Proof.
  intros Hreach Hd1 (n1 & Hc1 & Hl1) Hd2 (n2 & Hc2 & Hl2).
  destruct (reachable_tree_ok d Hreach) as (fl & h & H & Hok).
  pose proof (at_depth_height _ _ _ _ _ _ _ Hok Hd1).
  pose proof (at_depth_height _ _ _ _ _ _ _ Hok Hd2).
  pose proof (ok_leaf (to_nodes Hok _ _ Hc1) Hl1).
  pose proof (ok_leaf (to_nodes Hok _ _ Hc2) Hl2).
  lia.
Qed.

(** X2. The links of the tree are consistent: in every directory that
    [add_entry] and [remove_entry] make of the empty one, a page of the tree
    is resident under its own page number, has no child or one child more
    than entries, at most [MAX_NUM_ENTRIES] entries, and no child twice;
    each of its children is resident and names it as parent; and it has no
    parent exactly when it is the root. *)
Theorem reachable_links_consistent d pg :
  reachable d → in_tree d pg →
  ∃ nd, m_node_cache d !! pg = Some nd
    ∧ m_num nd = pg
    ∧ well_shaped nd
    ∧ (length (m_entries nd) ≤ MAX_NUM_ENTRIES)%nat
    ∧ NoDup (m_child_indices nd)
    ∧ (∀ c, c ∈ m_child_indices nd →
         c ≠ pg ∧ ∃ cd, m_node_cache d !! c = Some cd ∧ m_parent_num cd = pg)
    ∧ (m_parent_num nd = INVALID_PAGE ↔ pg = m_root_page d).
Proof.
  intros Hreach Hin.
  destruct (reachable_tree_ok d Hreach) as (fl & h & H & Hok).
  destruct (in_tree_cached _ _ _ _ _ _ Hok Hin) as [nd Hc].
  pose proof (to_nodes Hok _ _ Hc) as Hn.
  exists nd. split; [done|]. split; [apply (ok_num Hn)|].
  split; [apply (ok_shape Hn)|]. split; [apply (ok_max Hn)|].
  split; [apply (ok_nodup Hn)|]. split.
  - intros c Hcin.
    destruct (child_facts _ _ _ _ _ Hok _ _ c Hc Hcin) as (cd & Hcd & Hp & _ & Hne & _).
    eauto.
  - by apply (root_is_root _ _ _ _ _ Hok).
Qed.

(** X3. The pages of the tree and the free list share no page: in every
    directory that [add_entry] and [remove_entry] make of the empty one,
    the free list is a chain of distinct pages of the stream that ends in
    [INVALID_PAGE], the resident nodes are exactly the pages of the tree,
    and a page of the tree lies inside the stream and is no page of the
    free list. *)
Theorem reachable_tree_and_free_list_disjoint d :
  reachable d →
  ∃ fl, free_chain d (m_start_free_page d) fl
    ∧ NoDup fl
    ∧ (∀ p, p ∈ fl → in_stream d p)
    ∧ (∀ pg, in_tree d pg ↔ is_Some (m_node_cache d !! pg))
    ∧ (∀ pg, in_tree d pg → in_stream d pg ∧ pg ∉ fl).
Proof.
  intros Hreach.
  destruct (reachable_tree_ok d Hreach) as (fl & h & H & Hok).
  exists fl. pose proof (to_stream Hok) as Hs.
  split; [apply (so_chain Hs)|]. split; [apply (so_nodup Hs)|].
  split; [apply (so_range Hs)|]. split.
  - intros pg. split.
    + by apply (in_tree_cached _ _ _ _ _ _ Hok).
    + intros [nd Hc]. by eapply cached_in_tree.
  - intros pg Hin.
    destruct (in_tree_cached _ _ _ _ _ _ Hok Hin) as [nd Hc]. split.
    + apply (ok_range (to_nodes Hok _ _ Hc)).
    + by eapply (free_not_cached _ _ _ _ _ Hok).
Qed.

End Shape.

Lemma reachable_leaves_same_depth_witness :
  at_depth (@after reference_params fifteen_then_remove) 0 1
  ∧ at_depth (@after reference_params fifteen_then_remove) 1 1
  ∧ 1%nat = 1%nat.
Proof.
  assert (Hd : ∀ c, c ∈ [0; 1] →
            at_depth (@after reference_params fifteen_then_remove) c 1).
  { intros c Hc.
    eapply depth_child;
      [apply depth_root; vm_compute; discriminate
      | vm_compute; reflexivity
      | exact Hc]. }
  assert (Hl : ∀ c, c ∈ [0; 1] →
            leaf_page (@after reference_params fifteen_then_remove) c).
  { intros c Hc. apply elem_of_cons in Hc as [->|Hc];
      [|apply list_elem_of_singleton in Hc as ->];
      eexists; (split; [vm_compute; reflexivity | reflexivity]). }
  assert (H0 : 0 ∈ [0; 1]) by (left).
  assert (H1 : 1 ∈ [0; 1]) by (right; left).
  split; [exact (Hd 0 H0)|]. split; [exact (Hd 1 H1)|].
  apply (@reachable_leaves_same_depth reference_params reference_params_ok
           (@after reference_params fifteen_then_remove) 0 1 1 1).
  - apply (run_reachable fifteen_then_remove empty_directory);
      [apply reach_empty | vm_compute; reflexivity].
  - exact (Hd 0 H0).
  - exact (Hl 0 H0).
  - exact (Hd 1 H1).
  - exact (Hl 1 H1).
Defined.

Lemma reachable_links_consistent_witness :
  let d := @after reference_params fifteen_then_remove in
  ∃ nd, m_node_cache d !! m_root_page d = Some nd
    ∧ m_num nd = m_root_page d
    ∧ well_shaped nd
    ∧ (length (m_entries nd) ≤ 13)%nat
    ∧ NoDup (m_child_indices nd)
    ∧ (∀ c, c ∈ m_child_indices nd →
         c ≠ m_root_page d
         ∧ ∃ cd, m_node_cache d !! c = Some cd ∧ m_parent_num cd = m_root_page d)
    ∧ (m_parent_num nd = INVALID_PAGE ↔ m_root_page d = m_root_page d).
Proof.
  apply (@reachable_links_consistent reference_params reference_params_ok
           (@after reference_params fifteen_then_remove)
           (m_root_page (@after reference_params fifteen_then_remove))).
  - apply (run_reachable fifteen_then_remove empty_directory);
      [apply reach_empty | vm_compute; reflexivity].
  - apply in_tree_root. vm_compute. discriminate.
Defined.

Lemma reachable_tree_and_free_list_disjoint_witness :
  ∃ fl, @free_chain reference_params (@after reference_params fifteen_then_remove)
          (m_start_free_page (@after reference_params fifteen_then_remove)) fl
    ∧ NoDup fl
    ∧ (∀ p, p ∈ fl → @in_stream reference_params
                        (@after reference_params fifteen_then_remove) p)
    ∧ (∀ pg, in_tree (@after reference_params fifteen_then_remove) pg
             ↔ is_Some (m_node_cache (@after reference_params fifteen_then_remove)
                          !! pg))
    ∧ (∀ pg, in_tree (@after reference_params fifteen_then_remove) pg →
             @in_stream reference_params
               (@after reference_params fifteen_then_remove) pg ∧ pg ∉ fl).
Proof.
  apply (@reachable_tree_and_free_list_disjoint reference_params
           reference_params_ok (@after reference_params fifteen_then_remove)).
  apply (run_reachable fifteen_then_remove empty_directory);
    [apply reach_empty | vm_compute; reflexivity].
Defined.


(** ** What the public operations answer *)

Section Answers.
Context {P : Params}.

(** X4. [add_entry] and [remove_entry] answer as [get_entry] does on the
    same directory: when [remove_entry] hands back an id and a type,
    [get_entry] reports that id and that type for the name, and when
    [add_entry] returns true, [get_entry] does not find the name. *)
Theorem add_and_remove_agree_with_get_entry
    (d : BtreeDirectory) (x eid : list byte) (ty : Z) :
  (∀ r d', remove_entry x d = Ok (Some r, d') →
           ∃ d1, get_entry x d = Ok (Some r, d1) ∧ same_tree d d1)
  ∧ (∀ d', add_entry x eid ty d = Ok (true, d') →
           ∃ d1, get_entry x d = Ok (None, d1) ∧ same_tree d d1).
Proof.
  unfold get_entry, add_entry, remove_entry.
  destruct (decide (MAX_FILENAME_LENGTH < length x)%nat); [split; discriminate|].
  split.
  - intros r d' H. bind_step H. rewrite (bind_Ok _ _ _ _ _ Hm).
    apply find_node_Ok in Hm as (Hst & [(i & ->)|(node & i & b & nd & -> & Hc & Hb)]).
    + discriminate.
    + destruct b; [|discriminate].
      bind_step H. apply deref_Ok in Hm as (-> & Hc').
      rewrite (bind_Ok _ _ _ _ _ (deref_intro _ _ _ Hc')).
      destruct (Hb eq_refl) as (e & He & Hname).
      rewrite Hc in Hc'. injection Hc' as <-. rewrite He in H |- *.
      destruct (decide (x = filename e)); [|congruence].
      bind_step H. bind_step H. unfold ret in H. injection H as <- _.
      eexists. split; [reflexivity | exact Hst].
  - intros d' H. bind_step H. rewrite (bind_Ok _ _ _ _ _ Hm).
    apply find_node_Ok in Hm as (Hst & [(i & ->)|(node & i & b & nd & -> & Hc & Hb)]).
    + eexists. split; [reflexivity | exact Hst].
    + destruct b.
      * unfold ret in H. discriminate.
      * eexists. split; [reflexivity | exact Hst].
Qed.

Lemma below_trans d a b c : below d a b → below d b c → below d a c.
Proof.
  intros Hab. induction 1 as [|pg nd c' _ IH Hc Hin]; [done|].
  by eapply below_child.
Qed.

Lemma below_inv d n nd x :
  m_node_cache d !! n = Some nd →
  below d n x ↔ x = n ∨ ∃ c, c ∈ m_child_indices nd ∧ below d c x.
Proof.
  intros Hn. split.
  - induction 1 as [|pg pd c _ IH Hc Hin]; [by left|]. right.
    destruct IH as [->|(c0 & Hc0 & Hb)].
    + exists c. rewrite Hn in Hc. injection Hc as <-. split; [done|constructor].
    + exists c0. split; [done|]. by eapply below_child.
  - intros [->|(c & Hc & Hb)]; [constructor|].
    eapply below_trans; [|exact Hb]. eapply below_child; [constructor|done..].
Qed.

Lemma in_tree_below d pg :
  in_tree d pg ↔ m_root_page d ≠ INVALID_PAGE ∧ below d (m_root_page d) pg.
Proof.
  split.
  - induction 1 as [Hr|pg nd c _ [Hr IH] Hc Hin].
    + split; [done|constructor].
    + split; [done|]. by eapply below_child.
  - intros [Hr Hb]. induction Hb as [|pg nd c _ IH Hc Hin].
    + by apply in_tree_root.
    + by eapply in_tree_child.
Qed.

Lemma get_root_node_none d :
  m_root_page d = INVALID_PAGE → get_root_node d = Ok (None, d).
Proof.
  intros Hr. unfold get_root_node, get_root_page, bind, gets.
  destruct (decide (m_root_page d = INVALID_PAGE)); [reflexivity|contradiction].
Qed.

Lemma get_root_node_resident d rd :
  m_root_page d ≠ INVALID_PAGE → m_node_cache d !! m_root_page d = Some rd →
  get_root_node d = Ok (Some (m_root_page d), d).
Proof.
  intros Hr Hrd. unfold get_root_node, get_root_page, bind, gets.
  destruct (decide (m_root_page d = INVALID_PAGE)); [contradiction|].
  fold (bind (retrieve_node INVALID_PAGE (m_root_page d))
          (λ n, ret (Some n)) d).
  by rewrite (bind_Ok _ _ _ _ _
               (retrieve_node_resident INVALID_PAGE _ d rd Hrd (or_introl eq_refl))).
Qed.

End Answers.

Section Iteration.
Context {P : Params} {HP : ParamsOk}.

(** The entries stored at or under the page [n]. *)
Let under (d : BtreeDirectory) (n : Z) (e : DirEntry) : Prop :=
  ∃ x xd, below d n x ∧ m_node_cache d !! x = Some xd ∧ e ∈ m_entries xd.

Lemma iterate_children_spec d (rec : Z → op (list DirEntry)) page cs :
  (∀ c, c ∈ cs → ∃ cd, m_node_cache d !! c = Some cd ∧ m_parent_num cd = page) →
  (∀ c, c ∈ cs → ∃ out, rec c d = Ok (out, d) ∧ ∀ e, e ∈ out ↔ under d c e) →
  ∃ outs, iterate_children rec page cs d = Ok (outs, d)
    ∧ ∀ e, e ∈ outs ↔ ∃ c, c ∈ cs ∧ under d c e.
Proof.
  induction cs as [|c cs IH]; intros Hkids Hrec.
  - exists []. split; [reflexivity|]. intros e. split.
    + intros He. by apply elem_of_nil in He.
    + intros (c & Hc & _). by apply elem_of_nil in Hc.
  - cbn [iterate_children].
    destruct (Hkids c) as (cd & Hcd & Hpar); [left|].
    rewrite (bind_Ok _ _ _ _ _ (retrieve_node_resident page c d cd Hcd
               (or_intror (eq_sym Hpar)))).
    destruct (Hrec c) as (out & Hout & Hspec); [left|].
    rewrite (bind_Ok _ _ _ _ _ Hout).
    destruct IH as (outs & Houts & Hspecs).
    { intros c' Hc'. apply Hkids. by right. }
    { intros c' Hc'. apply Hrec. by right. }
    rewrite (bind_Ok _ _ _ _ _ Houts).
    exists (out ++ outs). split; [reflexivity|].
    intros e. rewrite elem_of_app, Hspec, Hspecs. split.
    + intros [He|(c' & Hc' & He)].
      * exists c. split; [left|done].
      * exists c'. split; [by right|done].
    + intros (c' & Hc' & He). apply elem_of_cons in Hc' as [->|Hc'].
      * by left.
      * right. eauto.
Qed.

Lemma recursive_iterate_spec d fl h H f :
  tree_ok d fl h H f →
  ∀ budget n nd, m_node_cache d !! n = Some nd → (h n < budget)%nat →
    ∃ l, recursive_iterate_rec budget n d = Ok (l, d)
      ∧ ∀ e, e ∈ l ↔ under d n e.
Proof.
  intros Hok. induction budget as [|budget IH]; intros n nd Hn Hh; [lia|].
  cbn [recursive_iterate_rec].
  rewrite (bind_Ok _ _ _ _ _ (deref_intro _ _ _ Hn)).
  pose proof (to_nodes Hok _ _ Hn) as Hnok.
  destruct (iterate_children_spec d (recursive_iterate_rec budget) (m_num nd)
              (m_child_indices nd)) as (outs & Houts & Hspec).
  { intros c Hc. rewrite (ok_num Hnok). apply (ok_children Hnok c Hc). }
  { intros c Hc.
    destruct (child_facts _ _ _ _ _ Hok _ _ c Hn Hc) as (cd & Hcd & _ & Hhc & _).
    apply (IH c cd Hcd). lia. }
  rewrite (bind_Ok _ _ _ _ _ Houts).
  exists (m_entries nd ++ outs). split; [reflexivity|].
  intros e. rewrite elem_of_app, Hspec. unfold under. split.
  - intros [He|(c & Hc & x & xd & Hb & Hx & He)].
    + exists n, nd. split; [constructor|done].
    + exists x, xd. split; [|done].
      apply (below_inv d n nd x Hn). right. eauto.
  - intros (x & xd & Hb & Hx & He).
    apply (below_inv d n nd x Hn) in Hb as [->|(c & Hc & Hb)].
    + left. rewrite Hn in Hx. by injection Hx as <-.
    + right. exists c. split; [done|]. exists x, xd. done.
Qed.

(** Some leaf lies as deep as the tree is high. *)
Lemma deepest_leaf d fl h H f :
  tree_ok d fl h H f →
  ∀ m n nd k, m_node_cache d !! n = Some nd → h n = m → at_depth d n k →
    ∃ x, at_depth d x (k + m).
Proof.
  intros Hok. induction m as [|m IH]; intros n nd k Hn Hh Hd.
  - exists n. by rewrite Nat.add_0_r.
  - destruct (m_child_indices nd) as [|c cs] eqn:Hcs.
    { pose proof (ok_leaf (to_nodes Hok _ _ Hn) Hcs). lia. }
    assert (Hc : c ∈ m_child_indices nd) by (rewrite Hcs; left).
    destruct (child_facts _ _ _ _ _ Hok _ _ c Hn Hc) as (cd & Hcd & _ & Hhc & _).
    destruct (IH c cd (S k) Hcd) as (x & Hx); [lia| |].
    + by eapply depth_child.
    + exists x. by rewrite <- Nat.add_succ_comm.
Qed.

Lemma height_below_depth_bound d fl h H f :
  tree_ok d fl h H f → m_root_page d ≠ INVALID_PAGE →
  (∀ pg k, at_depth d pg k → (k < BTREE_MAX_DEPTH)%nat) →
  (H < BTREE_MAX_DEPTH)%nat.
Proof.
  intros Hok Hr Hdepth.
  destruct (to_root Hok Hr) as (rd & Hrd & _ & Hh).
  destruct (deepest_leaf d fl h H f Hok H (m_root_page d) rd 0%nat Hrd Hh)
    as (x & Hx); [by apply depth_root|].
  apply (Hdepth x). exact Hx.
Qed.

Lemma depth_lt_size d pg k :
  reachable d → at_depth d pg k → (k < size (m_node_cache d))%nat.
Proof.
  intros Hreach Hd.
  destruct (reachable_tree_ok d Hreach) as (fl & h & H & Hok).
  pose proof (at_depth_height _ _ _ _ _ _ _ Hok Hd) as Hk.
  assert (Hr : m_root_page d ≠ INVALID_PAGE).
  { apply at_depth_in_tree, in_tree_below in Hd. tauto. }
  destruct (to_root Hok Hr) as (rd & Hrd & _ & Hh).
  pose proof (height_lt_size _ _ _ _ _ _ _ Hok Hrd). lia.
Qed.

(** X5. [iterate_over_entries] hands the callback what the tree holds: in
    every directory that [add_entry] and [remove_entry] make of the empty
    one and that is less than [BTREE_MAX_DEPTH] levels deep, it returns
    without changing the directory, and the entries it passes to the
    callback are the entries stored in the nodes, none left out and none
    made up. *)
Theorem iterate_over_entries_lists_stored d :
  reachable d →
  (∀ pg k, at_depth d pg k → (k < BTREE_MAX_DEPTH)%nat) →
  ∃ l, iterate_over_entries d = Ok (l, d) ∧ ∀ e, e ∈ l ↔ stored d e.
Proof.
  intros Hreach Hdepth.
  destruct (reachable_tree_ok d Hreach) as (fl & h & H & Hok).
  unfold iterate_over_entries.
  destruct (decide (m_root_page d = INVALID_PAGE)) as [Hr|Hr].
  - rewrite (bind_Ok _ _ _ _ _ (get_root_node_none d Hr)).
    exists []. split; [reflexivity|]. intros e. split.
    + intros He. by apply elem_of_nil in He.
    + intros (pg & nd & Hc & _).
      rewrite (to_empty Hok Hr) in Hc. by rewrite lookup_empty in Hc.
  - destruct (to_root Hok Hr) as (rd & Hrd & Hpar & Hh).
    rewrite (bind_Ok _ _ _ _ _ (get_root_node_resident d rd Hr Hrd)).
    unfold recursive_iterate. rewrite Nat.sub_0_r.
    pose proof (height_below_depth_bound d fl h H NoFocus Hok Hr Hdepth) as HH.
    destruct (recursive_iterate_spec d fl h H NoFocus Hok BTREE_MAX_DEPTH
                (m_root_page d) rd Hrd) as (l & Hl & Hspec); [lia|].
    exists l. split; [exact Hl|].
    intros e. rewrite Hspec. unfold under, stored. split.
    + intros (x & xd & _ & Hx & He). eauto.
    + intros (x & xd & Hx & He). exists x, xd. split; [|done].
      apply (cached_in_tree d fl h H Hok) in Hx as Hin.
      by apply in_tree_below in Hin as [_ Hb].
Qed.

End Iteration.

Lemma add_and_remove_agree_with_get_entry_witness :
  (∃ d1, @get_entry reference_params (name_of "a") built_five
         = Ok (Some (@id_for reference_params (name_of "a"), 0), d1)
         ∧ same_tree (P := reference_params) built_five d1)
  ∧ (∃ d1, @get_entry reference_params (name_of "f") built_five = Ok (None, d1)
           ∧ same_tree (P := reference_params) built_five d1).
Proof.
  split.
  - eapply (proj1 (@add_and_remove_agree_with_get_entry reference_params
                     built_five (name_of "a") (replicate 32 x00) 0)).
    vm_compute. reflexivity.
  - eapply (proj2 (@add_and_remove_agree_with_get_entry reference_params
                     built_five (name_of "f") (replicate 32 x00) 0)).
    vm_compute. reflexivity.
Defined.

Lemma iterate_over_entries_lists_stored_witness :
  ∃ l, @iterate_over_entries reference_params
         (@after reference_params fifteen_then_remove)
       = Ok (l, @after reference_params fifteen_then_remove)
    ∧ ∀ e, e ∈ l ↔ stored (@after reference_params fifteen_then_remove) e.
Proof.
  assert (Hreach : @reachable reference_params
                     (@after reference_params fifteen_then_remove)).
  { apply (run_reachable fifteen_then_remove empty_directory);
      [apply reach_empty | vm_compute; reflexivity]. }
  apply (@iterate_over_entries_lists_stored reference_params reference_params_ok
           (@after reference_params fifteen_then_remove) Hreach).
  intros pg k Hd.
  pose proof (@depth_lt_size reference_params reference_params_ok _ pg k Hreach Hd)
    as Hlt.
  assert (Hsize : size (m_node_cache (@after reference_params fifteen_then_remove))
                  = 3%nat) by (vm_compute; reflexivity).
  rewrite Hsize in Hlt. simpl. lia.
Defined.


(** ** The free list and its validation *)

Section FreeListValidation.
Context {P : Params}.

Lemma validate_loop_links d :
  ∀ l before start, free_links d before start l →
    validate_free_list_loop (length l) start before d = Ok (true, d).
Proof.
  induction l as [|p l IH]; intros before start Hl; simpl in Hl |- *.
  - unfold ret. by rewrite bool_decide_eq_true_2.
  - destruct Hl as (-> & fp & Hfp & Hprev & Hrest).
    rewrite (bind_Ok _ _ _ _ _ Hfp).
    destruct (decide (prev fp ≠ before)); [contradiction|].
    by apply IH.
Qed.

Lemma validate_loop_inv d :
  ∀ n before start d',
    validate_free_list_loop n start before d = Ok (true, d') →
    d' = d ∧ ∃ l, length l = n ∧ free_links d before start l.
Proof.
  induction n as [|n IH]; intros before start d' Hrun; simpl in Hrun.
  - unfold ret in Hrun. injection Hrun as Hb <-. split; [reflexivity|].
    exists []. split; [reflexivity|]. by apply bool_decide_eq_true in Hb.
  - bind_step Hrun. pose proof (read_free_page_Ok _ _ _ _ Hm) as (-> & _).
    destruct (decide (prev a ≠ before)) as [|Heq]; [discriminate|].
    apply dec_stable in Heq.
    apply IH in Hrun as (-> & l & Hlen & Hl). split; [reflexivity|].
    exists (start :: l). split; [simpl; by rewrite Hlen|].
    simpl. split; [reflexivity|]. exists a. auto.
Qed.

(** X6. [validate_free_list] returns true exactly when the free list is
    linked both ways: when the [num_free_page] pages reached from
    [start_free_page] by [next] are free pages, each with the page before it
    as [prev] and the first with [INVALID_PAGE], and the [next] of the last
    is [INVALID_PAGE]. It changes nothing. *)
Theorem validate_free_list_accepts_linked_lists d :
  validate_free_list d = Ok (true, d)
  ↔ ∃ fl, length fl = Z.to_nat (m_num_free_page d)
      ∧ free_links d INVALID_PAGE (m_start_free_page d) fl.
Proof.
  unfold validate_free_list, get_start_free_page, get_num_free_page, bind, gets.
  split.
  - intros Hrun. by apply validate_loop_inv in Hrun as (_ & Hl).
  - intros (fl & Hlen & Hl). rewrite <- Hlen. by apply validate_loop_links.
Qed.

End FreeListValidation.

Section FreeListKept.
Context {P : Params} {HP : ParamsOk}.

Lemma free_links_frame d d' before start l :
  (∀ p, p ∈ l →
        stream_read (m_stream d') (page_offset p) BLOCK_SIZE
        = stream_read (m_stream d) (page_offset p) BLOCK_SIZE) →
  free_links d before start l → free_links d' before start l.
Proof.
  revert before start.
  induction l as [|p l IH]; intros before start Hsame; simpl; [done|].
  intros (-> & fp & Hfp & Hprev & Hrest).
  split; [reflexivity|]. exists fp. split; [|split; [exact Hprev|]].
  - eapply read_free_page_block; [|exact Hfp]. apply Hsame. left.
  - apply IH; [|exact Hrest]. intros q Hq. apply Hsame. by right.
Qed.

(** The back link of the first page of a free list does not matter to the
    rest of it. *)
Lemma free_links_tail d before p l fp :
  free_links d before p (p :: l) → read_free_page p d = Ok (fp, d) →
  prev fp = before ∧ free_links d p (next fp) l.
Proof.
  simpl. intros (_ & fp' & Hfp' & Hprev & Hrest) Hfp.
  rewrite Hfp in Hfp'. injection Hfp' as <-. done.
Qed.

Lemma free_list_length d fl :
  stream_ok d fl → (length fl ≤ num_pages d)%nat.
Proof.
  intros Hs.
  assert (Hsub : fl ⊆+ map Z.of_nat (seq 0 (num_pages d))).
  { apply NoDup_submseteq; [apply (so_nodup Hs)|].
    intros p Hp. destruct (so_range Hs p Hp) as [H0 H1].
    apply list_elem_of_fmap. exists (Z.to_nat p). split; [lia|].
    apply elem_of_seq. lia. }
  apply submseteq_length in Hsub.
  by rewrite length_map, length_seq in Hsub.
Qed.

Lemma deallocate_page_links d fl pg :
  free_list_ok d fl → in_stream d pg → pg ∉ fl →
  ∃ d1,
    deallocate_page pg d = Ok (tt, d1)
    ∧ free_list_ok d1 (pg :: fl)
    ∧ length (m_stream d1) = length (m_stream d)
    ∧ m_node_cache d1 = m_node_cache d
    ∧ m_root_page d1 = m_root_page d.
Proof.
  pose proof block_size_min as HBS.
  intros [Hs Hlinks Hcount] Hpg Hfresh.
  destruct (deallocate_page_ok d fl pg Hs Hpg Hfresh)
    as (d1 & Hrun & Hs1 & Hnp1 & Hcache & Hroot).
  exists d1. split; [exact Hrun|].
  pose proof (free_list_length d1 (pg :: fl) Hs1) as Hlen1. simpl in Hlen1.
  pose proof (so_pages Hs1) as Hpages1.
  pose proof (so_aligned Hs) as Hal. pose proof (so_aligned Hs1) as Hal1.
  assert (Hsl : length (m_stream d1) = length (m_stream d))
    by (rewrite Hal, Hal1, Hnp1; reflexivity).
  assert (Hoff : page_offset pg ≠ stream_size (m_stream d)).
  { unfold page_offset, stream_size. rewrite Hal. destruct Hpg. nia. }
  set (img1 := free_page_image {| next := m_start_free_page d; prev := INVALID_PAGE |}).
  set (d0 := set_stream (stream_write (m_stream d) (page_offset pg) img1) d).
  assert (Himg1 : length img1 = BLOCK_SIZE)
    by (apply free_page_image_length; exact block_size_min).
  assert (Hother0 : ∀ r, in_stream d r → r ≠ pg →
            stream_read (m_stream d0) (page_offset r) BLOCK_SIZE
            = stream_read (m_stream d) (page_offset r) BLOCK_SIZE).
  { intros r Hr Hrq. unfold d0. simpl.
    apply (write_page_read_other _ _ _ _ (num_pages d)); auto.
    apply Hpg. }
  assert (Hstart_range : 0 ≤ m_start_free_page d < 2 ^ 32).
  { destruct fl as [|q l]; simpl in Hlinks.
    - rewrite Hlinks. unfold INVALID_PAGE. lia.
    - destruct Hlinks as (-> & _).
      assert (Hq : in_stream d q) by (apply (so_range Hs); left).
      destruct Hq. pose proof (so_pages Hs). unfold INVALID_PAGE in *. lia. }
  assert (Hpg0 : read_free_page pg d0
                 = Ok ({| next := m_start_free_page d; prev := INVALID_PAGE |}, d0)).
  { apply (read_written_free_page pg _ d block_size_min); simpl; [exact Hstart_range|].
    unfold INVALID_PAGE. lia. }
  assert (Hwrap : wrap32 (m_num_free_page d + 1) = Z.of_nat (S (length fl))).
  { rewrite Hcount. unfold wrap32. rewrite Z.mod_small; [lia|].
    unfold INVALID_PAGE in Hpages1. lia. }
  destruct fl as [|q l].
  - simpl in Hlinks.
    assert (Hd1 : d1 = set_free_list pg (wrap32 (m_num_free_page d + 1)) d0).
    { assert (Hrun' : deallocate_page pg d
                      = Ok (tt, set_free_list pg (wrap32 (m_num_free_page d + 1)) d0)).
      { unfold deallocate_page, bind, gets.
        destruct (decide _); [contradiction|].
        unfold get_start_free_page, gets, write_free_page, modify. simpl.
        rewrite Hlinks.
        destruct (decide (INVALID_PAGE ≠ INVALID_PAGE)); [congruence|].
        unfold ret, set_start_free_page, get_num_free_page, set_num_free_page,
          modify, gets. simpl. unfold d0, img1. rewrite Hlinks. reflexivity. }
      rewrite Hrun' in Hrun. by injection Hrun as <-. }
    split; [|auto].
    constructor; [exact Hs1| |].
    + rewrite Hd1. simpl. split; [reflexivity|].
      exists {| next := m_start_free_page d; prev := INVALID_PAGE |}.
      split; [|split; [reflexivity|]].
      * apply (read_free_page_stream pg d0); [reflexivity | exact Hpg0].
      * simpl. exact Hlinks.
    + rewrite Hd1. simpl. exact Hwrap.
  - simpl in Hlinks. destruct Hlinks as (Hstart & fp & Hfp & Hprev & Hrest).
    assert (Hqin : in_stream d q) by (apply (so_range Hs); left).
    assert (Hq : q ≠ INVALID_PAGE).
    { eapply in_stream_not_invalid; [apply (so_pages Hs)|exact Hqin]. }
    assert (Hqpg : q ≠ pg).
    { intros ->. apply Hfresh. left. }
    pose proof (so_nodup Hs) as Hnd.
    apply NoDup_cons in Hnd as [Hql Hnd'].
    pose proof (read_free_page_Ok _ _ _ _ Hfp) as (_ & Hnext & _).
    assert (Hfp0 : read_free_page q d0 = Ok (fp, d0)).
    { eapply read_free_page_block; [|exact Hfp]. by apply Hother0. }
    set (img2 := free_page_image {| next := next fp; prev := pg |}).
    set (d2 := set_stream (stream_write (m_stream d0) (page_offset q) img2) d0).
    assert (Himg2 : length img2 = BLOCK_SIZE)
      by (apply free_page_image_length; exact block_size_min).
    assert (Hlen0 : length (m_stream d0) = length (m_stream d)).
    { unfold d0. simpl. apply (write_page_length _ _ _ (num_pages d)); auto. }
    assert (Hal0 : length (m_stream d0) = (num_pages d * BLOCK_SIZE)%nat)
      by (rewrite Hlen0; exact Hal).
    assert (Hother1 : ∀ r, in_stream d r → r ≠ q →
              stream_read (m_stream d2) (page_offset r) BLOCK_SIZE
              = stream_read (m_stream d0) (page_offset r) BLOCK_SIZE).
    { intros r Hr Hrq. unfold d2. simpl.
      apply (write_page_read_other _ _ _ _ (num_pages d)); auto.
      apply Hqin. }
    assert (Hd1 : d1 = set_free_list pg (wrap32 (m_num_free_page d + 1)) d2).
    { assert (Hrun' : deallocate_page pg d
                      = Ok (tt, set_free_list pg (wrap32 (m_num_free_page d + 1)) d2)).
      { unfold deallocate_page, bind, gets.
        destruct (decide _); [contradiction|].
        unfold get_start_free_page, gets, write_free_page, modify. simpl.
        rewrite Hstart.
        destruct (decide (q ≠ INVALID_PAGE)) as [_|Hn]; [|exfalso; exact (Hn Hq)].
        rewrite <- Hstart. fold img1. fold d0. rewrite Hstart. rewrite Hfp0.
        unfold ret, set_start_free_page, get_num_free_page, set_num_free_page,
          modify, gets. simpl. reflexivity. }
      rewrite Hrun' in Hrun. by injection Hrun as <-. }
    split; [|auto].
    constructor; [exact Hs1| |].
    + rewrite Hd1. simpl. split; [reflexivity|].
      exists {| next := m_start_free_page d; prev := INVALID_PAGE |}.
      split; [|split; [reflexivity|]].
      * apply (read_free_page_block d0); [|exact Hpg0].
        apply Hother1; [exact Hpg | congruence].
      * simpl. split; [exact Hstart|].
        exists {| next := next fp; prev := pg |}. split; [|split; [reflexivity|]].
        -- apply (read_free_page_stream q d2); [reflexivity|].
           apply (read_written_free_page q _ d0 block_size_min); simpl; [lia|].
           destruct Hpg. pose proof (so_pages Hs). unfold INVALID_PAGE in *. lia.
        -- simpl. eapply free_links_frame; [|exact Hrest].
           intros r Hr. simpl.
           change (stream_read (m_stream d2) (page_offset r) BLOCK_SIZE
                   = stream_read (m_stream d) (page_offset r) BLOCK_SIZE).
           assert (Hrin : in_stream d r) by (apply (so_range Hs); by right).
           assert (r ≠ q) by (intros ->; contradiction).
           assert (r ≠ pg).
           { intros ->. apply Hfresh. by right. }
           rewrite Hother1, Hother0; auto.
    + rewrite Hd1. simpl. exact Hwrap.
Qed.

Lemma free_links_chain d before start l :
  (∀ p, p ∈ l → p ≠ INVALID_PAGE) →
  free_links d before start l → free_chain d start l.
Proof.
  revert before start.
  induction l as [|p l IH]; intros before start Hne; simpl; [done|].
  intros (-> & fp & Hfp & _ & Hrest).
  split; [reflexivity|]. split; [apply Hne; left|].
  exists fp. split; [exact Hfp|].
  apply (IH p); [|exact Hrest]. intros q Hq. apply Hne. by right.
Qed.

Lemma stream_ok_of_links d fl d1 l :
  stream_ok d fl → length (m_stream d1) = length (m_stream d) →
  NoDup l → (∀ p, p ∈ l → in_stream d p) →
  free_links d1 INVALID_PAGE (m_start_free_page d1) l →
  stream_ok d1 l.
Proof.
  intros Hs Hlen Hnd Hrange Hl.
  assert (Hnp : num_pages d1 = num_pages d) by (unfold num_pages; by rewrite Hlen).
  constructor.
  - rewrite Hnp, Hlen. apply (so_aligned Hs).
  - rewrite Hnp. apply (so_pages Hs).
  - eapply free_links_chain; [|exact Hl].
    intros p Hp. eapply in_stream_not_invalid; [apply (so_pages Hs)|by apply Hrange].
  - exact Hnd.
  - intros p Hp. unfold in_stream. rewrite Hnp. by apply Hrange.
Qed.

(** [allocate_page] with a free list that is not empty: the head is handed
    out and the rest stays linked. *)
Lemma allocate_page_pop d p l :
  free_list_ok d (p :: l) →
  ∃ d1,
    allocate_page d = Ok (p, d1)
    ∧ free_list_ok d1 l
    ∧ length (m_stream d1) = length (m_stream d)
    ∧ m_node_cache d1 = m_node_cache d
    ∧ m_root_page d1 = m_root_page d.
Proof.
  pose proof block_size_min as HBS.
  intros [Hs Hlinks Hcount].
  pose proof (so_aligned Hs) as Hal.
  pose proof (free_list_length d _ Hs) as Hlen.
  pose proof (so_pages Hs) as Hpages.
  simpl in Hlinks. destruct Hlinks as (Hstart & fp & Hfp & Hprev & Hrest).
  pose proof (so_nodup Hs) as Hnd. apply NoDup_cons in Hnd as [Hpl' Hnd'].
  assert (Hpin : in_stream d p) by (apply (so_range Hs); left).
  assert (Hp : p ≠ INVALID_PAGE).
  { eapply in_stream_not_invalid; [exact Hpages|exact Hpin]. }
  assert (Hwrap : wrap32 (m_num_free_page d - 1) = Z.of_nat (length l)).
  { rewrite Hcount. unfold wrap32. simpl length in *.
    rewrite Z.mod_small; [lia|]. unfold INVALID_PAGE in Hpages. lia. }
  destruct l as [|q l''].
  - simpl in Hrest.
    exists (set_free_list INVALID_PAGE (wrap32 (m_num_free_page d - 1)) d).
    split.
    { unfold allocate_page, bind, get_start_free_page, gets. rewrite Hstart.
      destruct (decide (p = INVALID_PAGE)); [contradiction|].
      rewrite Hfp. unfold get_num_free_page, gets, set_num_free_page,
        set_start_free_page, modify, ret. simpl.
      destruct (decide (next fp ≠ INVALID_PAGE)); [contradiction|].
      rewrite Hrest. reflexivity. }
    split; [|auto].
    constructor; simpl; [|reflexivity|exact Hwrap].
    apply (stream_ok_of_links d _ _ _ Hs); [reflexivity|constructor| |reflexivity].
    intros r Hr. by apply elem_of_nil in Hr.
  - simpl in Hrest. destruct Hrest as (Hq & fp' & Hfp' & Hprev' & Hrest').
    assert (Hqin : in_stream d q) by (apply (so_range Hs); right; left).
    assert (Hqne : q ≠ INVALID_PAGE).
    { eapply in_stream_not_invalid; [exact Hpages|exact Hqin]. }
    assert (Hpq : p ≠ q).
    { intros ->. apply Hpl'. left. }
    apply NoDup_cons in Hnd' as Hnd2. destruct Hnd2 as [Hql'' Hnd''].
    pose proof (read_free_page_Ok _ _ _ _ Hfp') as (_ & Hnext' & _).
    set (img := free_page_image {| next := next fp'; prev := INVALID_PAGE |}).
    set (d0 := set_free_list q (wrap32 (m_num_free_page d - 1)) d).
    set (d2 := set_stream (stream_write (m_stream d0) (page_offset q) img) d0).
    assert (Himg : length img = BLOCK_SIZE)
      by (apply free_page_image_length; exact block_size_min).
    assert (Hother : ∀ r, in_stream d r → r ≠ q →
              stream_read (m_stream d2) (page_offset r) BLOCK_SIZE
              = stream_read (m_stream d) (page_offset r) BLOCK_SIZE).
    { intros r Hr Hrq. unfold d2, d0. simpl.
      apply (write_page_read_other _ _ _ _ (num_pages d)); auto.
      apply Hqin. }
    assert (Hlen2 : length (m_stream d2) = length (m_stream d)).
    { unfold d2, d0. simpl. apply (write_page_length _ _ _ (num_pages d)); auto. }
    exists d2. split.
    { unfold allocate_page, bind, get_start_free_page, gets. rewrite Hstart.
      destruct (decide (p = INVALID_PAGE)); [contradiction|].
      rewrite Hfp. unfold get_num_free_page, gets, set_num_free_page,
        set_start_free_page, modify, ret. simpl.
      rewrite Hq.
      destruct (decide (q ≠ INVALID_PAGE)) as [_|Hn]; [|exfalso; exact (Hn Hqne)].
      change (mkDir (m_stream d) (m_root_page d) q (wrap32 (m_num_free_page d - 1))
                (m_node_cache d)) with d0.
      rewrite (read_free_page_stream q d d0 fp' eq_refl Hfp').
      reflexivity. }
    assert (Hl2 : free_links d2 INVALID_PAGE q (q :: l'')).
    { simpl. split; [reflexivity|].
      exists {| next := next fp'; prev := INVALID_PAGE |}.
      split; [|split; [reflexivity|]].
      - apply (read_written_free_page q _ d0 block_size_min); simpl; [lia|].
        unfold INVALID_PAGE. lia.
      - simpl. eapply free_links_frame; [|exact Hrest'].
        intros r Hr. apply Hother.
        + apply (so_range Hs). right. by right.
        + intros ->. contradiction. }
    split; [|auto].
    constructor; [|exact Hl2|exact Hwrap].
    apply (stream_ok_of_links d _ _ _ Hs); [exact Hlen2|exact Hnd'| |exact Hl2].
    intros r Hr. apply (so_range Hs). by right.
Qed.

(** [allocate_page] with an empty free list: the stream grows by a block. *)
Lemma allocate_page_grow d :
  free_list_ok d [] → Z.of_nat (num_pages d) < INVALID_PAGE →
  ∃ d1,
    allocate_page d = Ok (Z.of_nat (num_pages d), d1)
    ∧ free_list_ok d1 []
    ∧ length (m_stream d1) = (length (m_stream d) + BLOCK_SIZE)%nat
    ∧ m_node_cache d1 = m_node_cache d
    ∧ m_root_page d1 = m_root_page d.
Proof.
  pose proof block_size_min as HBS.
  intros [Hs Hlinks Hcount] Hroom.
  destruct (allocate_page_ok d [] Hs Hroom)
    as (sp & d1 & fl1 & Hrun & Hs1 & _ & _ & _ & Hsub & _).
  assert (Hfl1 : fl1 = []).
  { destruct fl1 as [|x fl1]; [done|]. exfalso.
    eapply not_elem_of_nil, (Hsub x). left. }
  rewrite Hfl1 in Hs1. simpl in Hlinks, Hcount.
  assert (Hrun' : allocate_page d
                  = Ok (Z.of_nat (num_pages d),
                        set_stream (m_stream d ++ replicate BLOCK_SIZE x00) d)).
  { unfold allocate_page, bind, get_start_free_page, gets, modify, ret.
    rewrite Hlinks. destruct (decide (INVALID_PAGE = INVALID_PAGE)); [|congruence].
    rewrite stream_resize_grow. unfold wrap32, stream_size.
    rewrite <- Nat2Z.inj_div. fold (num_pages d).
    rewrite Z.mod_small; [reflexivity|]. unfold INVALID_PAGE in Hroom. lia. }
  rewrite Hrun' in Hrun. injection Hrun as <- <-.
  eexists. split; [exact Hrun'|]. split.
  - constructor; simpl; [exact Hs1|exact Hlinks|exact Hcount].
  - simpl. rewrite length_app, length_replicate. auto.
Qed.

Lemma free_list_ok_validates d fl :
  free_list_ok d fl → validate_free_list d = Ok (true, d).
Proof.
  intros [Hs Hlinks Hcount].
  unfold validate_free_list, get_start_free_page, get_num_free_page, bind, gets.
  rewrite Hcount, Nat2Z.id. by apply validate_loop_links.
Qed.

(** X7. The allocator keeps the free list linked: when the free list is
    linked both ways and [num_free_page] counts it, then after
    [deallocate_page] of a page of the stream that is not free it is that
    list with the page in front, after [allocate_page] it is that list
    without its first page, or still empty after the stream has grown by a
    block; and each time [validate_free_list] returns true on the result. *)
Theorem allocator_keeps_free_list_linked d fl :
  free_list_ok d fl →
  (∀ pg, in_stream d pg → pg ∉ fl →
     ∃ d1, deallocate_page pg d = Ok (tt, d1)
       ∧ free_list_ok d1 (pg :: fl)
       ∧ validate_free_list d1 = Ok (true, d1))
  ∧ (Z.of_nat (num_pages d) < INVALID_PAGE →
     ∃ sp d1, allocate_page d = Ok (sp, d1)
       ∧ sp = default (Z.of_nat (num_pages d)) (head fl)
       ∧ free_list_ok d1 (tail fl)
       ∧ validate_free_list d1 = Ok (true, d1)).
Proof.
  intros Hok. split.
  - intros pg Hpg Hfresh.
    destruct (deallocate_page_links d fl pg Hok Hpg Hfresh) as (d1 & Hrun & Hok1 & _).
    exists d1. split; [exact Hrun|]. split; [exact Hok1|].
    by eapply free_list_ok_validates.
  - intros Hroom. destruct fl as [|p l].
    + destruct (allocate_page_grow d Hok Hroom) as (d1 & Hrun & Hok1 & _).
      exists (Z.of_nat (num_pages d)), d1. split; [exact Hrun|].
      split; [reflexivity|]. split; [exact Hok1|].
      by eapply free_list_ok_validates.
    + destruct (allocate_page_pop d p l Hok) as (d1 & Hrun & Hok1 & _).
      exists p, d1. split; [exact Hrun|].
      split; [reflexivity|]. split; [exact Hok1|].
      by eapply free_list_ok_validates.
Qed.

Lemma free_links_start d before start l :
  free_links d before start l → start = default INVALID_PAGE (head l).
Proof. destruct l; simpl; [done|]. by intros (-> & _). Qed.

(** X8. The free list is a stack: after [deallocate_page] of a page of the
    stream that is not free, the next [allocate_page] hands out that very
    page, and leaves the free list, [start_free_page], [num_free_page] and
    the length of the stream as they were before the two calls. *)
Theorem deallocate_then_allocate_returns_page d fl pg :
  free_list_ok d fl → in_stream d pg → pg ∉ fl →
  ∃ d1 d2,
    deallocate_page pg d = Ok (tt, d1)
    ∧ allocate_page d1 = Ok (pg, d2)
    ∧ free_list_ok d2 fl
    ∧ m_start_free_page d2 = m_start_free_page d
    ∧ m_num_free_page d2 = m_num_free_page d
    ∧ length (m_stream d2) = length (m_stream d)
    ∧ m_node_cache d2 = m_node_cache d
    ∧ m_root_page d2 = m_root_page d.
Proof.
  intros Hok Hpg Hfresh.
  destruct (deallocate_page_links d fl pg Hok Hpg Hfresh)
    as (d1 & Hrun1 & Hok1 & Hlen1 & Hc1 & Hr1).
  destruct (allocate_page_pop d1 pg fl Hok1) as (d2 & Hrun2 & Hok2 & Hlen2 & Hc2 & Hr2).
  exists d1, d2. split; [exact Hrun1|]. split; [exact Hrun2|].
  split; [exact Hok2|]. split.
  { rewrite (free_links_start _ _ _ _ (flo_links Hok2)).
    by rewrite (free_links_start _ _ _ _ (flo_links Hok)). }
  split; [by rewrite (flo_count Hok2), (flo_count Hok)|].
  split; [congruence|]. split; congruence.
Qed.

End FreeListKept.

Lemma one_free_page_ok : @free_list_ok reference_params one_free_page [1].
Proof.
  assert (Hn : @num_pages reference_params one_free_page = 2%nat)
    by (vm_compute; reflexivity).
  assert (Hin : @in_stream reference_params one_free_page 1).
  { unfold in_stream. rewrite Hn. lia. }
  constructor.
  - constructor.
    + vm_compute. reflexivity.
    + rewrite Hn. unfold INVALID_PAGE. lia.
    + simpl. split; [reflexivity|]. split; [discriminate|].
      eexists. split; [vm_compute; reflexivity|]. reflexivity.
    + apply NoDup_singleton.
    + intros p Hp. apply list_elem_of_singleton in Hp. by rewrite Hp.
  - simpl. split; [reflexivity|].
    eexists. split; [vm_compute; reflexivity|]. split; reflexivity.
  - reflexivity.
Qed.

Lemma page_0_of_one_free_page :
  @in_stream reference_params one_free_page 0 ∧ 0 ∉ [1].
Proof.
  split.
  - assert (Hn : @num_pages reference_params one_free_page = 2%nat)
      by (vm_compute; reflexivity).
    unfold in_stream. rewrite Hn. lia.
  - intros Hin. apply list_elem_of_singleton in Hin. discriminate.
Qed.

Lemma allocator_keeps_free_list_linked_witness :
  (∃ d1, @deallocate_page reference_params 0 one_free_page = Ok (tt, d1)
     ∧ @free_list_ok reference_params d1 [0; 1]
     ∧ @validate_free_list reference_params d1 = Ok (true, d1))
  ∧ (∃ sp d1, @allocate_page reference_params one_free_page = Ok (sp, d1)
       ∧ sp = 1
       ∧ @free_list_ok reference_params d1 []
       ∧ @validate_free_list reference_params d1 = Ok (true, d1)).
Proof.
  destruct (@allocator_keeps_free_list_linked reference_params reference_params_ok
              one_free_page [1] one_free_page_ok) as [Hd Ha].
  split.
  - apply (Hd 0); apply page_0_of_one_free_page.
  - apply Ha. vm_compute. reflexivity.
Defined.

Lemma deallocate_then_allocate_returns_page_witness :
  ∃ d1 d2,
    @deallocate_page reference_params 0 one_free_page = Ok (tt, d1)
    ∧ @allocate_page reference_params d1 = Ok (0, d2)
    ∧ @free_list_ok reference_params d2 [1]
    ∧ m_start_free_page d2 = m_start_free_page one_free_page
    ∧ m_num_free_page d2 = m_num_free_page one_free_page
    ∧ length (m_stream d2) = length (m_stream one_free_page)
    ∧ m_node_cache d2 = m_node_cache one_free_page
    ∧ m_root_page d2 = m_root_page one_free_page.
Proof.
  apply (@deallocate_then_allocate_returns_page reference_params
           reference_params_ok one_free_page [1] 0 one_free_page_ok);
    apply page_0_of_one_free_page.
Defined.


(** ** Nodes and free pages on the stream *)

Section Pages.
Context {P : Params}.

Lemma to_buffer_length n buffer out :
  to_buffer n buffer = Ok out → length out = length buffer.
Proof.
  intros H. apply to_buffer_Ok in H as (-> & Hfit & _).
  rewrite length_app, length_drop. lia.
Qed.

Lemma write_node_Ok num n d d' :
  write_node num n d = Ok (tt, d') →
  num ≠ INVALID_PAGE
  ∧ ∃ out, to_buffer n (map indeterminate (seq 0 BLOCK_SIZE)) = Ok out
      ∧ length out = BLOCK_SIZE
      ∧ d' = set_stream (stream_write (m_stream d) (page_offset num) out) d.
Proof.
  unfold write_node. destruct (decide (num = INVALID_PAGE)); [discriminate|].
  intros H. split; [done|]. bind_step H.
  unfold lift in Hm.
  destruct (to_buffer n _) as [out|] eqn:Hto; [|discriminate].
  injection Hm as <- <-. unfold modify in H. injection H as <-.
  exists out. split; [reflexivity|]. split; [|reflexivity].
  rewrite (to_buffer_length _ _ _ Hto), length_map, length_seq. reflexivity.
Qed.

(** X9. What [write_node] puts on a page, [read_node] gets back: for a
    node whose entries and child page numbers the format can represent, the
    node read from the page has the same entries and the same children in
    the same order, the parent it was given, and is clean; and
    [read_free_page] refuses the page as corrupted. *)
Theorem write_node_read_back num n parent d d' :
  Forall encodable_entry (m_entries n) →
  Forall (λ c, 0 ≤ c < 2 ^ 32) (m_child_indices n) →
  Z.of_nat BLOCK_SIZE ≤ 262144 →
  write_node num n d = Ok (tt, d') →
  read_node num (new_node parent num) d'
  = Ok (mkNode parent num (m_child_indices n) (m_entries n) false, d')
  ∧ read_free_page num d' = Throw CorruptedDirectoryException.
Proof.
  intros Hes Hcs HB Hw.
  apply write_node_Ok in Hw as (Hnum & out & Hto & Hlen & ->).
  assert (Hrd : stream_read
                  (stream_write (m_stream d) (page_offset num) out)
                  (page_offset num) BLOCK_SIZE = out).
  { rewrite <- Hlen at 1. apply stream_write_read_same. }
  set (d' := set_stream (stream_write (m_stream d) (page_offset num) out) d).
  assert (Hblock : read_block num d' = Ok (out, d')).
  { rewrite <- Hrd at 1. apply read_block_intro. unfold d'. simpl.
    rewrite Hrd. exact Hlen. }
  apply to_buffer_Ok in Hto as (Hout & Hfit & HF).
  rewrite !length_app, !length_to_little_endian, children_image_length,
    entries_image_length in Hfit by exact HF.
  rewrite length_map, length_seq in Hfit.
  assert (Hsz : (5 * length (m_entries n) ≤ entry_size * length (m_entries n))%nat).
  { apply Nat.mul_le_mono_r. unfold entry_size. lia. }
  split.
  - unfold read_node. destruct (decide _); [contradiction|].
    rewrite (bind_Ok _ _ _ _ _ Hblock).
    rewrite Hout. rewrite <- !app_assoc.
    rewrite from_buffer_image by (try assumption; lia).
    reflexivity.
  - unfold read_free_page.
    rewrite (bind_Ok _ _ _ _ _ Hblock).
    assert (Hflag : from_little_endian (take 4 out) = 1).
    { rewrite Hout, <- !app_assoc.
      rewrite take_app_length' by (by rewrite length_to_little_endian).
      apply from_to_little_endian. simpl. lia. }
    rewrite Hflag. destruct (decide (1 ≠ 0)); [reflexivity|lia].
Qed.

(** X10. A free page reads as an empty node: after [write_free_page],
    [read_node] of the page returns the node it was handed without an entry
    or a child added, and reports no corruption; so [retrieve_node] of such
    a page that is not resident makes it resident as an empty leaf under
    the parent it was given. *)
Theorem free_page_reads_as_empty_node num fp parent d :
  (12 ≤ BLOCK_SIZE)%nat → num ≠ INVALID_PAGE →
  0 ≤ next fp < 2 ^ 32 → 0 ≤ prev fp < 2 ^ 32 →
  ∃ d', write_free_page num fp d = Ok (tt, d')
    ∧ read_free_page num d' = Ok (fp, d')
    ∧ (∀ n0, read_node num n0 d' = Ok (n0, d'))
    ∧ (m_node_cache d !! num = None →
       retrieve_node parent num d'
       = Ok (num, set_cache (<[num := new_node parent num]> (m_node_cache d')) d')).
Proof.
  intros HB Hnum Hn Hp.
  set (d' := set_stream (stream_write (m_stream d) (page_offset num)
                           (free_page_image fp)) d).
  exists d'. split; [reflexivity|].
  pose proof (read_written_free_page num fp d HB Hn Hp) as Hfp. fold d' in Hfp.
  split; [exact Hfp|].
  assert (Hblank : blank_page d' num).
  { assert (Hrd : stream_read (m_stream d') (page_offset num) BLOCK_SIZE
                  = free_page_image fp).
    { unfold d'. simpl. rewrite <- (free_page_image_length fp HB) at 1.
      apply stream_write_read_same. }
    apply blank_page_intro; rewrite ?Hrd.
    - exact Hnum.
    - by apply free_page_image_length.
    - lia.
    - unfold free_page_image.
      rewrite take_app_length' by (by rewrite length_replicate).
      apply from_little_endian_zeros. }
  split; [exact Hblank|].
  intros Hc. apply retrieve_node_blank; [exact Hc|exact Hblank].
Qed.

End Pages.

Lemma write_node_read_back_witness :
  let d' := state_after (@write_node reference_params 3 sample_node) empty_directory in
  @read_node reference_params 3 (new_node 9 3) d'
  = Ok (mkNode 9 3 (m_child_indices sample_node) (m_entries sample_node) false, d')
  ∧ @read_free_page reference_params 3 d' = Throw CorruptedDirectoryException.
Proof.
  apply (@write_node_read_back reference_params 3 sample_node 9 empty_directory).
  - repeat constructor; vm_compute; try discriminate.
    + intros H. apply list_elem_of_In in H. simpl in H. intuition discriminate.
    + intros H. apply list_elem_of_In in H. simpl in H. intuition discriminate.
  - repeat constructor; vm_compute; discriminate.
  - vm_compute. intros H; discriminate.
  - vm_compute. reflexivity.
Defined.

Lemma free_page_reads_as_empty_node_witness :
  ∃ d', @write_free_page reference_params 1 {| next := 7; prev := INVALID_PAGE |}
          empty_directory = Ok (tt, d')
    ∧ @read_free_page reference_params 1 d'
      = Ok ({| next := 7; prev := INVALID_PAGE |}, d')
    ∧ (∀ n0, @read_node reference_params 1 n0 d' = Ok (n0, d'))
    ∧ (m_node_cache empty_directory !! 1 = None →
       @retrieve_node reference_params 5 1 d'
       = Ok (1, set_cache (<[1 := new_node 5 1]> (m_node_cache d')) d')).
Proof.
  apply (@free_page_reads_as_empty_node reference_params 1
           {| next := 7; prev := INVALID_PAGE |} 5 empty_directory).
  - simpl. lia.
  - discriminate.
  - simpl. lia.
  - simpl. unfold INVALID_PAGE. lia.
Defined.


(** ** Names in order *)

Section OrderBasics.
Context {P : Params} {HO : NameOrder}.

Lemma name_less_asym a b : name_less a b = true → name_less b a = false.
Proof.
  intros Hab. destruct (name_less b a) eqn:Hba; [|done].
  pose proof (name_less_trans _ _ _ Hab Hba) as Haa.
  by rewrite name_less_irrefl in Haa.
Qed.

Lemma name_less_ne a b : name_less a b = true → a ≠ b.
Proof. intros Hab ->. by rewrite name_less_irrefl in Hab. Qed.

Lemma name_less_cases a b :
  name_less a b = true ∨ a = b ∨ name_less b a = true.
Proof.
  destruct (name_less a b) eqn:Hab; [by left|].
  destruct (name_less b a) eqn:Hba; [by right; right|].
  right. left. by apply name_less_total.
Qed.

Lemma above_trans lo a b : above lo a → name_less a b = true → above lo b.
Proof. destruct lo as [x|]; simpl; [|done]. apply name_less_trans. Qed.

Lemma beneath_trans a b hi : name_less a b = true → beneath b hi → beneath a hi.
Proof. destruct hi as [x|]; simpl; [|done]. apply name_less_trans. Qed.

(** *** Sorted lists of entries *)

Lemma sorted_nil : sorted_entries [].
Proof. intros j k a b Hj. by rewrite lookup_nil in Hj. Qed.

Lemma sorted_singleton e : sorted_entries [e].
Proof.
  intros j k a b Hj Hk Hjk.
  apply lookup_lt_Some in Hj, Hk. simpl in *. lia.
Qed.

Lemma sorted_app_inv a b :
  sorted_entries (a ++ b) →
  sorted_entries a ∧ sorted_entries b
  ∧ ∀ x y, x ∈ a → y ∈ b → entry_lt x y.
Proof.
  intros Hs. split; [|split].
  - intros j k x y Hj Hk Hjk.
    apply (Hs j k); [by apply lookup_app_l_Some|by apply lookup_app_l_Some|done].
  - intros j k x y Hj Hk Hjk.
    apply (Hs (length a + j)%nat (length a + k)%nat); [| |lia].
    + rewrite lookup_app_r by lia. by replace (length a + j - length a)%nat with j by lia.
    + rewrite lookup_app_r by lia. by replace (length a + k - length a)%nat with k by lia.
  - intros x y Hx Hy.
    apply list_elem_of_lookup in Hx as [j Hj]. apply list_elem_of_lookup in Hy as [k Hk].
    apply (Hs j (length a + k)%nat).
    + by apply lookup_app_l_Some.
    + rewrite lookup_app_r by lia. by replace (length a + k - length a)%nat with k by lia.
    + apply lookup_lt_Some in Hj. lia.
Qed.

Lemma sorted_app a b :
  sorted_entries a → sorted_entries b →
  (∀ x y, x ∈ a → y ∈ b → entry_lt x y) →
  sorted_entries (a ++ b).
Proof.
  intros Ha Hb Hab j k x y Hj Hk Hjk.
  apply lookup_app_Some in Hj as [Hj|[Hja Hj]];
    apply lookup_app_Some in Hk as [Hk|[Hka Hk]].
  - by apply (Ha j k).
  - apply Hab; by eapply list_elem_of_lookup_2.
  - apply lookup_lt_Some in Hk. lia.
  - apply (Hb (j - length a)%nat (k - length a)%nat); [done|done|lia].
Qed.

Lemma sorted_take es k : sorted_entries es → sorted_entries (take k es).
Proof.
  intros Hs. rewrite <- (take_drop k es) in Hs. by apply sorted_app_inv in Hs as [? _].
Qed.

Lemma sorted_drop es k : sorted_entries es → sorted_entries (drop k es).
Proof.
  intros Hs. rewrite <- (take_drop k es) in Hs.
  by apply sorted_app_inv in Hs as (_ & ? & _).
Qed.

Lemma sorted_lookup_lt es j k a b :
  sorted_entries es → es !! j = Some a → es !! k = Some b → (j < k)%nat →
  name_less (filename a) (filename b) = true.
Proof. intros Hs Hj Hk Hjk. by apply (Hs j k). Qed.

Lemma sorted_lookup_le es j k a b :
  sorted_entries es → es !! j = Some a → es !! k = Some b → (j ≤ k)%nat →
  a = b ∨ name_less (filename a) (filename b) = true.
Proof.
  intros Hs Hj Hk Hjk. destruct (decide (j = k)) as [->|].
  - left. congruence.
  - right. apply (Hs j k); [done|done|lia].
Qed.

Lemma sorted_cons e es :
  sorted_entries es → (∀ y, y ∈ es → entry_lt e y) → sorted_entries (e :: es).
Proof.
  intros Hs He. apply (sorted_app [e] es); [apply sorted_singleton|done|].
  intros x y Hx Hy. apply list_elem_of_singleton in Hx as ->. by apply He.
Qed.

Lemma sorted_cons_inv e es :
  sorted_entries (e :: es) → sorted_entries es ∧ ∀ y, y ∈ es → entry_lt e y.
Proof.
  intros Hs. apply (sorted_app_inv [e] es) in Hs as (_ & Hes & Hc).
  split; [done|]. intros y Hy. apply Hc; [left|done].
Qed.

(** The names of a sorted list are distinct. *)
Lemma sorted_name_inj es j k a b :
  sorted_entries es → es !! j = Some a → es !! k = Some b →
  filename a = filename b → j = k.
Proof.
  intros Hs Hj Hk Hab.
  destruct (Nat.lt_trichotomy j k) as [Hlt|[->|Hlt]]; [|done|].
  - pose proof (Hs j k a b Hj Hk Hlt) as H1. unfold entry_lt, entry_less in H1.
    rewrite Hab in H1. by rewrite name_less_irrefl in H1.
  - pose proof (Hs k j b a Hk Hj Hlt) as H1. unfold entry_lt, entry_less in H1.
    rewrite Hab in H1. by rewrite name_less_irrefl in H1.
Qed.

(** An entry put where [lower_bound] says keeps the list sorted, unless its
    name is there already. *)
Lemma sorted_insert_at es e k :
  sorted_entries es → partition_point (entry_less_name (filename e)) es k →
  (∀ a, a ∈ es → filename a ≠ filename e) →
  sorted_entries (insert_at k e es).
Proof.
  intros Hs (Hk & Hlo & Hhi) Hne. unfold insert_at.
  apply sorted_app; [by apply sorted_take| |].
  - apply sorted_cons; [by apply sorted_drop|].
    intros y Hy. apply list_elem_of_lookup in Hy as [j Hj].
    rewrite lookup_drop in Hj.
    pose proof (Hhi _ _ Hj ltac:(lia)) as Hge. unfold entry_less_name in Hge.
    unfold entry_lt, entry_less.
    destruct (name_less_cases (filename e) (filename y)) as [?|[Heq|Hlt]]; [done| |].
    + exfalso. eapply Hne; [by eapply list_elem_of_lookup_2|done].
    + congruence.
  - intros x y Hx Hy.
    apply list_elem_of_lookup in Hx as [j Hj].
    apply lookup_take_Some in Hj as [Hj Hjk].
    pose proof (Hlo _ _ Hj Hjk) as Hxe. unfold entry_less_name in Hxe.
    apply elem_of_cons in Hy as [->|Hy]; [done|].
    apply list_elem_of_lookup in Hy as [i Hi]. rewrite lookup_drop in Hi.
    apply (Hs j (k + i)%nat); [done|done|lia].
Qed.

Lemma sorted_delete es i : sorted_entries es → sorted_entries (delete i es).
Proof.
  intros Hs j k a b Hj Hk Hjk.
  destruct (decide (j < i)%nat); destruct (decide (k < i)%nat).
  - rewrite list_lookup_delete_lt in Hj, Hk by done. by apply (Hs j k).
  - rewrite list_lookup_delete_lt in Hj by done. rewrite list_lookup_delete_ge in Hk by lia.
    apply (Hs j (S k)); [done|done|lia].
  - lia.
  - rewrite list_lookup_delete_ge in Hj, Hk by lia.
    apply (Hs (S j) (S k)); [done|done|lia].
Qed.

Lemma sorted_replace es i e :
  sorted_entries es →
  (∀ j a, es !! j = Some a → (j < i)%nat → entry_lt a e) →
  (∀ j a, es !! j = Some a → (i < j)%nat → entry_lt e a) →
  sorted_entries (<[i := e]> es).
Proof.
  intros Hs Hlo Hhi j k a b Hj Hk Hjk.
  apply list_lookup_insert_Some in Hj as [(-> & -> & Hi)|[Hji Hj]];
    apply list_lookup_insert_Some in Hk as [(-> & -> & Hi')|[Hki Hk]].
  - lia.
  - apply (Hhi k); [done|lia].
  - apply (Hlo j); [done|lia].
  - by apply (Hs j k).
Qed.

End OrderBasics.

(** *** Where a name belongs among sorted entries *)

Section Partition.
Context {P : Params} {HO : NameOrder}.

Lemma partition_unique {A} (lt : A → bool) l k k' :
  partition_point lt l k → partition_point lt l k' → k = k'.
Proof.
  intros Hk Hk'. apply lower_bound_partition in Hk, Hk'. congruence.
Qed.

Lemma sorted_has_partition x es :
  sorted_entries es →
  partition_point (entry_less_name x) es (lower_bound (entry_less_name x) es).
Proof.
  intros Hs. destruct (sorted_partition name_less_trans x es Hs) as [k Hk].
  by rewrite (lower_bound_partition _ _ _ Hk).
Qed.

Lemma partition_own es i e :
  sorted_entries es → es !! i = Some e →
  partition_point (entry_less_name (filename e)) es i.
Proof.
  intros Hs Hi. split; [apply lookup_lt_Some in Hi; lia|]. split.
  - intros j a Hj Hji. by apply (Hs j i).
  - intros j a Hj Hij. unfold entry_less_name.
    destruct (sorted_lookup_le es i j e a Hs Hi Hj Hij) as [->|Hlt].
    + apply name_less_irrefl.
    + by apply name_less_asym.
Qed.

Lemma partition_child es blo bhi i x :
  sorted_entries es → (i ≤ length es)%nat →
  above (child_lo es blo i) x → beneath x (child_hi es bhi i) →
  partition_point (entry_less_name x) es i.
Proof.
  intros Hs Hi Hlo Hhi. split; [done|]. split.
  - intros j a Hj Hji. unfold entry_less_name.
    destruct i as [|i']; [lia|]. simpl in Hlo.
    destruct (lookup_lt_is_Some_2 es i') as [b Hb]; [lia|].
    rewrite Hb in Hlo. simpl in Hlo.
    destruct (sorted_lookup_le es j i' a b Hs Hj Hb) as [->|Hlt]; [lia|done|].
    by eapply name_less_trans.
  - intros j a Hj Hij. unfold entry_less_name. unfold child_hi in Hhi.
    destruct (es !! i) as [b|] eqn:Hb.
    2:{ apply lookup_ge_None in Hb. apply lookup_lt_Some in Hj. lia. }
    simpl in Hhi. apply name_less_asym.
    destruct (sorted_lookup_le es i j b a Hs Hb Hj Hij) as [->|Hlt]; [done|].
    by eapply name_less_trans.
Qed.

(** Where the bisection stops for a name that is not among the entries, the
    entries before are less, and the entries from there on are greater. *)
Lemma partition_absent es x k :
  sorted_entries es → partition_point (entry_less_name x) es k →
  (∀ e, es !! k = Some e → filename e ≠ x) →
  (∀ e, e ∈ es → filename e ≠ x)
  ∧ (∀ blo, above blo x → above (child_lo es blo k) x)
  ∧ (∀ bhi, beneath x bhi → beneath x (child_hi es bhi k)).
Proof.
  intros Hs (Hk & Hlo & Hhi) Hne.
  assert (Hgt : ∀ j a, es !! j = Some a → (k ≤ j)%nat →
            name_less x (filename a) = true).
  { intros j a Hj Hkj.
    destruct (lookup_lt_is_Some_2 es k) as [b Hb];
      [apply lookup_lt_Some in Hj; lia|].
    assert (Hxb : name_less x (filename b) = true).
    { pose proof (Hhi _ _ Hb (Nat.le_refl _)) as Hge. unfold entry_less_name in Hge.
      destruct (name_less_cases x (filename b)) as [?|[Heq|Hlt]]; [done| |congruence].
      exfalso. by apply (Hne b). }
    destruct (sorted_lookup_le es k j b a Hs Hb Hj Hkj) as [<-|Hlt]; [done|].
    by eapply name_less_trans. }
  split; [|split].
  - intros e He. apply list_elem_of_lookup in He as [j Hj].
    destruct (decide (j < k)%nat).
    + pose proof (Hlo _ _ Hj ltac:(done)) as Hlt. unfold entry_less_name in Hlt.
      by apply name_less_ne.
    + apply not_eq_sym, name_less_ne. apply (Hgt j); [done|lia].
  - intros blo Hblo. destruct k as [|k']; [done|]. simpl.
    destruct (es !! k') as [b|] eqn:Hb; [|done]. simpl.
    apply (Hlo k'); [done|lia].
  - intros bhi Hb. unfold child_hi. destruct (es !! k) as [b|] eqn:Hkb; [|done].
    simpl. by apply (Hgt k).
Qed.

End Partition.


(** ** Searching a tree whose names are in order *)

Section Search.
Context {P : Params} {HP : ParamsOk} {HO : NameOrder}.
Variables (d : BtreeDirectory) (fl : list Z) (h : Z → nat) (H : nat) (f : focus).
Variables (lo hi : Z → bound).
Hypothesis Hok : tree_ok d fl h H f.
Hypothesis Hkeys : keys_ok d lo hi None.
Set Default Proof Using "All".

Lemma child_index_le pg nd i c :
  m_node_cache d !! pg = Some nd → m_child_indices nd !! i = Some c →
  (i ≤ length (m_entries nd))%nat.
Proof.
  intros Hpg Hc. apply lookup_lt_Some in Hc.
  destruct (ok_shape (to_nodes Hok _ _ Hpg)) as [Hnil|Hs].
  - rewrite Hnil in Hc. simpl in Hc. lia.
  - lia.
Qed.

Lemma child_bounds pg nd i c :
  m_node_cache d !! pg = Some nd → m_child_indices nd !! i = Some c →
  lo c = child_lo (m_entries nd) (lo pg) i
  ∧ hi c = child_hi (m_entries nd) (hi pg) i.
Proof.
  intros Hpg Hc. pose proof (ko_nodes Hkeys _ _ Hpg) as Hk. split.
  - by apply (ka_lo Hk).
  - by apply (ka_hi Hk).
Qed.

(** The bounds of a child lie within the bounds of its parent. *)
Lemma child_bounds_nest pg nd i c x :
  m_node_cache d !! pg = Some nd → m_child_indices nd !! i = Some c →
  above (lo c) x → beneath x (hi c) →
  above (lo pg) x ∧ beneath x (hi pg).
Proof.
  intros Hpg Hc Hlo Hhi.
  destruct (child_bounds pg nd i c Hpg Hc) as [Hl Hh].
  pose proof (child_index_le pg nd i c Hpg Hc) as Hi.
  pose proof (ko_nodes Hkeys _ _ Hpg) as Hk.
  rewrite Hl in Hlo. rewrite Hh in Hhi. split.
  - destruct i as [|j]; [done|]. simpl in Hlo.
    destruct (lookup_lt_is_Some_2 (m_entries nd) j) as [e He]; [lia|].
    rewrite He in Hlo. simpl in Hlo.
    eapply above_trans; [|exact Hlo].
    apply (ka_above Hk). by eapply list_elem_of_lookup_2.
  - unfold child_hi in Hhi. destruct (m_entries nd !! i) as [e|] eqn:He; [|done].
    simpl in Hhi. eapply beneath_trans; [exact Hhi|].
    apply (ka_beneath Hk). by eapply list_elem_of_lookup_2.
Qed.

Lemma bounds_nest a m x :
  below d a m → above (lo m) x → beneath x (hi m) →
  above (lo a) x ∧ beneath x (hi a).
Proof.
  induction 1 as [|pg nd c _ IH Hpg Hin]; [done|].
  intros Hlo Hhi. apply list_elem_of_lookup in Hin as [i Hi].
  destruct (child_bounds_nest pg nd i c x Hpg Hi Hlo Hhi). by apply IH.
Qed.

(** The names of a node lie within the bounds of every page above it. *)
Lemma stored_within a m md e :
  below d a m → m_node_cache d !! m = Some md → e ∈ m_entries md →
  above (lo a) (filename e) ∧ beneath (filename e) (hi a).
Proof.
  intros Hb Hm He. pose proof (ko_nodes Hkeys _ _ Hm) as Hk.
  apply (bounds_nest a m); [done|by apply (ka_above Hk)|by apply (ka_beneath Hk)].
Qed.

Lemma retrieve_child pg nd i c :
  m_node_cache d !! pg = Some nd → m_child_indices nd !! i = Some c →
  ∃ cd, m_node_cache d !! c = Some cd
        ∧ retrieve_node (m_num nd) c d = Ok (c, d).
Proof.
  intros Hpg Hc. pose proof (to_nodes Hok _ _ Hpg) as Hnok.
  destruct (ok_children Hnok c (list_elem_of_lookup_2 _ _ _ Hc)) as (cd & Hcd & Hcp).
  exists cd. split; [done|].
  apply (retrieve_node_resident (m_num nd) c d cd Hcd). right.
  by rewrite (ok_num Hnok), Hcp.
Qed.

(** The search for the name of a stored entry, when it returns, has found
    that entry. *)
Lemma search_finds m md k e fuel :
  m_node_cache d !! m = Some md → m_entries md !! k = Some e →
  ∀ n nd r d', m_node_cache d !! n = Some nd → below d n m →
    find_node_loop fuel (filename e) n d = Ok (r, d') →
    r = (Some m, k, true) ∧ d' = d.
Proof.
  intros Hm He.
  induction fuel as [|fuel IH]; intros n nd r d' Hn Hb Hrun; [discriminate|].
  cbn [find_node_loop] in Hrun.
  rewrite (bind_Ok _ _ _ _ _ (deref_intro _ _ _ Hn)) in Hrun.
  pose proof (ko_nodes Hkeys _ _ Hn) as Hk.
  pose proof (ko_nodes Hkeys _ _ Hm) as Hkm.
  destruct (decide (m = n)) as [Heq|Hne].
  - rewrite Heq in Hm. rewrite Hm in Hn. injection Hn as <-.
    rewrite (lower_bound_partition _ _ _ (partition_own _ _ _ (ka_sorted Hk) He))
      in Hrun.
    rewrite He in Hrun. rewrite bool_decide_eq_true_2 in Hrun by done.
    injection Hrun as <- <-. by rewrite Heq.
  - apply (below_inv d n nd m Hn) in Hb as [?|(c & Hc & Hb)]; [done|].
    apply list_elem_of_lookup in Hc as [j Hj].
    destruct (child_bounds n nd j c Hn Hj) as [Hl Hh].
    destruct (stored_within c m md e Hb Hm (list_elem_of_lookup_2 _ _ _ He))
      as [Habove Hbeneath].
    rewrite Hl in Habove. rewrite Hh in Hbeneath.
    pose proof (partition_child _ _ _ _ _ (ka_sorted Hk)
                  (child_index_le n nd j c Hn Hj) Habove Hbeneath) as Hpart.
    rewrite (lower_bound_partition _ _ _ Hpart) in Hrun.
    assert (Hmiss : match m_entries nd !! j with
                    | Some e0 => bool_decide (filename e = filename e0)
                    | None => false
                    end = false).
    { unfold child_hi in Hbeneath.
      destruct (m_entries nd !! j) as [e0|]; [|done]. simpl in Hbeneath.
      apply bool_decide_eq_false. by apply name_less_ne. }
    rewrite Hmiss in Hrun. unfold is_leaf in Hrun.
    rewrite bool_decide_eq_false_2 in Hrun.
    2:{ intros Hnil. rewrite Hnil in Hj. by rewrite lookup_nil in Hj. }
    rewrite Hj in Hrun.
    destruct (retrieve_child n nd j c Hn Hj) as (cd & Hcd & Hret).
    rewrite (bind_Ok _ _ _ _ _ Hret) in Hrun.
    by apply (IH c cd r d' Hcd Hb).
Qed.

(** Where the search ends without the name, the name is within the bounds of
    the leaf and is none of its names. *)
Lemma search_path x fuel :
  ∀ n nd node i d', m_node_cache d !! n = Some nd →
    above (lo n) x → beneath x (hi n) →
    find_node_loop fuel x n d = Ok ((Some node, i, false), d') →
    d' = d ∧ below d n node
    ∧ ∃ xd, m_node_cache d !! node = Some xd ∧ m_child_indices xd = []
        ∧ above (lo node) x ∧ beneath x (hi node)
        ∧ partition_point (entry_less_name x) (m_entries xd) i
        ∧ ∀ e, e ∈ m_entries xd → filename e ≠ x.
Proof.
  induction fuel as [|fuel IH]; intros n nd node i d' Hn Hlo Hhi Hrun;
    [discriminate|].
  cbn [find_node_loop] in Hrun.
  rewrite (bind_Ok _ _ _ _ _ (deref_intro _ _ _ Hn)) in Hrun.
  pose proof (ko_nodes Hkeys _ _ Hn) as Hk.
  pose proof (sorted_has_partition x _ (ka_sorted Hk)) as Hpart.
  set (j := lower_bound (entry_less_name x) (m_entries nd)) in *.
  destruct (match m_entries nd !! j with
            | Some e => bool_decide (x = filename e)
            | None => false
            end) eqn:Hhit; [discriminate|].
  assert (Hne : ∀ e, m_entries nd !! j = Some e → filename e ≠ x).
  { intros e He. rewrite He in Hhit. apply bool_decide_eq_false in Hhit. congruence. }
  destruct (partition_absent _ _ _ (ka_sorted Hk) Hpart Hne) as (Habs & Hclo & Hchi).
  unfold is_leaf in Hrun.
  destruct (bool_decide (m_child_indices nd = [])) eqn:Hleaf.
  - injection Hrun as <- <- <-. apply bool_decide_eq_true in Hleaf.
    split; [done|]. split; [constructor|]. exists nd. auto 10.
  - destruct (m_child_indices nd !! j) as [c|] eqn:Hc; [|discriminate].
    destruct (retrieve_child n nd j c Hn Hc) as (cd & Hcd & Hret).
    rewrite (bind_Ok _ _ _ _ _ Hret) in Hrun.
    destruct (child_bounds n nd j c Hn Hc) as [Hl Hh].
    destruct (IH c cd node i d' Hcd) as (-> & Hb & Hres).
    + rewrite Hl. by apply Hclo.
    + rewrite Hh. by apply Hchi.
    + exact Hrun.
    + split; [done|]. split; [|exact Hres].
      eapply below_trans; [|exact Hb].
      eapply below_child; [constructor|exact Hn|by eapply list_elem_of_lookup_2].
Qed.

(** With enough turns of its loop, [find_node] does return. *)
Lemma search_total x fuel :
  ∀ n nd, m_node_cache d !! n = Some nd → (h n < fuel)%nat →
    ∃ r, find_node_loop fuel x n d = Ok (r, d).
Proof.
  induction fuel as [|fuel IH]; intros n nd Hn Hh; [lia|].
  cbn [find_node_loop].
  rewrite (bind_Ok _ _ _ _ _ (deref_intro _ _ _ Hn)).
  pose proof (ko_nodes Hkeys _ _ Hn) as Hk.
  pose proof (sorted_has_partition x _ (ka_sorted Hk)) as Hpart.
  set (j := lower_bound (entry_less_name x) (m_entries nd)) in *.
  destruct (match m_entries nd !! j with
            | Some e => bool_decide (x = filename e)
            | None => false
            end); [by eexists|].
  unfold is_leaf.
  destruct (bool_decide (m_child_indices nd = [])) eqn:Hleaf; [by eexists|].
  apply bool_decide_eq_false in Hleaf.
  destruct (ok_shape (to_nodes Hok _ _ Hn)) as [?|Hs]; [done|].
  destruct (lookup_lt_is_Some_2 (m_child_indices nd) j) as [c Hc].
  { destruct Hpart as [Hj _]. lia. }
  rewrite Hc.
  destruct (retrieve_child n nd j c Hn Hc) as (cd & Hcd & Hret).
  rewrite (bind_Ok _ _ _ _ _ Hret).
  apply (IH c cd Hcd).
  destruct (child_facts _ _ _ _ _ Hok _ _ c Hn (list_elem_of_lookup_2 _ _ _ Hc))
    as (cd' & _ & _ & Hhc & _). lia.
Qed.

Unset Default Proof Using.
End Search.


(** ** Entries and children that stay in order *)

Lemma lookup_insert_at_lt {A} (l : list A) i j x :
  (j < i)%nat → (i ≤ length l)%nat → insert_at i x l !! j = l !! j.
Proof.
  intros Hj Hi. unfold insert_at.
  rewrite lookup_app_l by (rewrite length_take; lia).
  by rewrite lookup_take_lt.
Qed.

Lemma lookup_insert_at_gt {A} (l : list A) i j x :
  (i ≤ j)%nat → (i ≤ length l)%nat → insert_at i x l !! (S j) = l !! j.
Proof.
  intros Hj Hi. unfold insert_at.
  assert (Hlt : length (take i l) = i) by (rewrite length_take; lia).
  rewrite lookup_app_r by lia. rewrite Hlt.
  replace (S j - i)%nat with (S (j - i)) by lia. simpl.
  rewrite lookup_drop. f_equal. lia.
Qed.

Section Ordered.
Context {P : Params} {HO : NameOrder}.

Lemma keys_at_ghost lo hi lo' hi' ex ex' blo bhi es cs :
  (∀ c, c ∈ cs → lo' c = lo c) →
  (∀ c, c ∈ cs → ex' ≠ Some c → hi' c = hi c ∧ ex ≠ Some c) →
  keys_at lo hi ex blo bhi es cs → keys_at lo' hi' ex' blo bhi es cs.
Proof.
  intros Hlo Hhi [K1 K2 K3 K4 K5]. constructor; try done.
  - intros i c Hc. rewrite Hlo by by eapply list_elem_of_lookup_2. by apply K4.
  - intros i c Hc Hex.
    destruct (Hhi c (list_elem_of_lookup_2 _ _ _ Hc) Hex) as [-> Hex'].
    by apply K5.
Qed.

Lemma keys_at_leaf lo hi ex blo bhi es :
  sorted_entries es →
  (∀ e, e ∈ es → above blo (filename e) ∧ beneath (filename e) bhi) →
  keys_at lo hi ex blo bhi es [].
Proof.
  intros Hs Hb. constructor; try done.
  - intros e He. by apply Hb.
  - intros e He. by apply Hb.
Qed.

(** The two halves of a node around its [m]-th entry. *)
Lemma keys_at_split_left lo hi ex blo bhi es cs m pe :
  keys_at lo hi ex blo bhi es cs → es !! m = Some pe →
  keys_at lo hi ex blo (Some (filename pe)) (take m es) (take (S m) cs).
Proof.
  intros [K1 K2 K3 K4 K5] Hm. constructor.
  - by apply sorted_take.
  - intros e He. apply K2. by eapply subseteq_take.
  - intros e He. simpl. apply list_elem_of_lookup in He as [j Hj].
    apply lookup_take_Some in Hj as [Hj Hjm]. by apply (K1 j m).
  - intros i c Hc. apply lookup_take_Some in Hc as [Hc Hi].
    rewrite (K4 _ _ Hc). destruct i as [|j]; [done|]. simpl.
    by rewrite lookup_take_lt by lia.
  - intros i c Hc Hex. apply lookup_take_Some in Hc as [Hc Hi].
    rewrite (K5 _ _ Hc Hex). unfold child_hi.
    destruct (decide (i = m)) as [->|Hne].
    + rewrite Hm. by rewrite lookup_take_ge by lia.
    + rewrite lookup_take_lt by lia. apply lookup_lt_Some in Hm.
      destruct (lookup_lt_is_Some_2 es i) as [e He]; [lia|]. by rewrite He.
Qed.

Lemma keys_at_split_right lo hi ex blo bhi es cs m pe :
  keys_at lo hi ex blo bhi es cs → es !! m = Some pe →
  keys_at lo hi ex (Some (filename pe)) bhi (drop (S m) es) (drop (S m) cs).
Proof.
  intros [K1 K2 K3 K4 K5] Hm. constructor.
  - by apply sorted_drop.
  - intros e He. simpl. apply list_elem_of_lookup in He as [j Hj].
    rewrite lookup_drop in Hj. apply (K1 m (S m + j)%nat); [done|done|lia].
  - intros e He. apply K3. by eapply subseteq_drop.
  - intros i c Hc. rewrite lookup_drop in Hc. rewrite (K4 _ _ Hc).
    destruct i as [|j]; simpl.
    + rewrite Nat.add_0_r. by rewrite Hm.
    + rewrite lookup_drop. do 2 f_equal. lia.
  - intros i c Hc Hex. rewrite lookup_drop in Hc. rewrite (K5 _ _ Hc Hex).
    unfold child_hi. by rewrite lookup_drop.
Qed.

(** Two neighbours and the entry between them, as one node. *)
Lemma keys_at_join lo hi ex blo bhi el cl er cr sep :
  keys_at lo hi ex blo (Some (filename sep)) el cl →
  keys_at lo hi ex (Some (filename sep)) bhi er cr →
  above blo (filename sep) → beneath (filename sep) bhi →
  length cl = S (length el) ∨ (cl = [] ∧ cr = []) →
  keys_at lo hi ex blo bhi (el ++ sep :: er) (cl ++ cr).
Proof.
  intros [L1 L2 L3 L4 L5] [R1 R2 R3 R4 R5] Hlo Hhi Hshape.
  assert (Hsep : ∀ a, a ∈ el → entry_lt a sep) by (intros a Ha; by apply L3).
  assert (Hsep' : ∀ a, a ∈ er → entry_lt sep a) by (intros a Ha; by apply R2).
  constructor.
  - apply sorted_app; [done|by apply sorted_cons|].
    intros x y Hx Hy. apply elem_of_cons in Hy as [->|Hy]; [by apply Hsep|].
    unfold entry_lt, entry_less.
    eapply name_less_trans; [by apply Hsep|by apply Hsep'].
  - intros e He. apply elem_of_app in He as [He|He]; [by apply L2|].
    apply elem_of_cons in He as [->|He]; [done|].
    eapply above_trans; [exact Hlo|by apply Hsep'].
  - intros e He. apply elem_of_app in He as [He|He].
    + eapply beneath_trans; [by apply Hsep|done].
    + apply elem_of_cons in He as [->|He]; [done|by apply R3].
  - intros i c Hc. destruct Hshape as [Hlen|[-> ->]]; [|simpl in Hc; by rewrite lookup_nil in Hc].
    apply lookup_app_Some in Hc as [Hc|[Hi Hc]].
    + rewrite (L4 _ _ Hc). destruct i as [|j]; [done|]. simpl.
      apply lookup_lt_Some in Hc. by rewrite lookup_app_l by lia.
    + rewrite (R4 _ _ Hc). rewrite Hlen in Hi, Hc |- *.
      destruct i as [|i]; [lia|]. simpl.
      destruct (decide (i = length el)) as [->|Hne].
      * rewrite Nat.sub_diag. simpl.
        rewrite lookup_app_r by lia. by rewrite Nat.sub_diag.
      * replace (S i - S (length el))%nat with (S (i - S (length el))) by lia.
        simpl. rewrite lookup_app_r by lia.
        replace (i - length el)%nat with (S (i - S (length el))) by lia. done.
  - intros i c Hc Hex. destruct Hshape as [Hlen|[-> ->]]; [|simpl in Hc; by rewrite lookup_nil in Hc].
    apply lookup_app_Some in Hc as [Hc|[Hi Hc]].
    + rewrite (L5 _ _ Hc Hex). unfold child_hi.
      apply lookup_lt_Some in Hc.
      destruct (decide (i = length el)) as [->|Hne].
      * rewrite (lookup_ge_None_2 el) by lia.
        rewrite lookup_app_r by lia. by rewrite Nat.sub_diag.
      * rewrite lookup_app_l by lia.
        destruct (lookup_lt_is_Some_2 el i) as [e He]; [lia|]. by rewrite He.
    + rewrite (R5 _ _ Hc Hex). unfold child_hi. rewrite Hlen in Hi |- *.
      rewrite (lookup_app_r el) by lia.
      replace (i - length el)%nat with (S (i - S (length el))) by lia. done.
Qed.

(** A leaf takes an entry where the bisection puts it. *)
Lemma keys_at_insert_leaf lo hi ex blo bhi es i e :
  keys_at lo hi ex blo bhi es [] →
  partition_point (entry_less_name (filename e)) es i →
  (∀ a, a ∈ es → filename a ≠ filename e) →
  above blo (filename e) → beneath (filename e) bhi →
  keys_at lo hi ex blo bhi (insert_at i e es) [].
Proof.
  intros [K1 K2 K3 K4 K5] Hpart Habs Hlo Hhi. apply keys_at_leaf.
  - by apply sorted_insert_at.
  - intros a Ha. apply elem_of_insert_at in Ha as [->|Ha]; [done|].
    split; [by apply K2|by apply K3].
Qed.

Lemma child_lo_above es blo i x :
  (∀ a, a ∈ es → above blo (filename a)) → (i ≤ length es)%nat →
  above (child_lo es blo i) x → above blo x.
Proof.
  intros Hes Hi Hx. destruct i as [|j]; [done|]. simpl in Hx.
  destruct (lookup_lt_is_Some_2 es j) as [b Hb]; [lia|].
  rewrite Hb in Hx. simpl in Hx.
  eapply above_trans; [|exact Hx]. apply Hes. by eapply list_elem_of_lookup_2.
Qed.

Lemma child_hi_beneath es bhi i x :
  (∀ a, a ∈ es → beneath (filename a) bhi) →
  beneath x (child_hi es bhi i) → beneath x bhi.
Proof.
  intros Hes Hx. unfold child_hi in Hx.
  destruct (es !! i) as [b|] eqn:Hb; [|done]. simpl in Hx.
  eapply beneath_trans; [exact Hx|]. apply Hes. by eapply list_elem_of_lookup_2.
Qed.

(** A node takes the entry that the split of its child [c0] has promoted,
    and the sibling [sp] next to the child. *)
Lemma keys_at_insert_child lo hi blo bhi es cs i c0 sp e :
  keys_at lo hi (Some c0) blo bhi es cs → NoDup cs →
  cs !! i = Some c0 → (i ≤ length es)%nat →
  lo sp = Some (filename e) → hi c0 = Some (filename e) →
  hi sp = child_hi es bhi i →
  above (lo c0) (filename e) → beneath (filename e) (hi sp) →
  partition_point (entry_less_name (filename e)) es i
  ∧ keys_at lo hi None blo bhi (insert_at i e es) (insert_at (S i) sp cs).
Proof.
  intros [K1 K2 K3 K4 K5] Hnd Hc0 Hi Hlosp Hhic0 Hhisp Hlo Hhi.
  rewrite (K4 _ _ Hc0) in Hlo. rewrite Hhisp in Hhi.
  pose proof (partition_child _ _ _ _ _ K1 Hi Hlo Hhi) as Hpart.
  split; [exact Hpart|].
  assert (Hne : ∀ b, es !! i = Some b → filename b ≠ filename e).
  { intros b Hb. unfold child_hi in Hhi. rewrite Hb in Hhi. simpl in Hhi.
    apply not_eq_sym. by apply name_less_ne. }
  destruct (partition_absent _ _ _ K1 Hpart Hne) as (Habs & _ & _).
  pose proof (lookup_lt_Some _ _ _ Hc0) as Hilt.
  constructor.
  - by apply sorted_insert_at.
  - intros a Ha. apply elem_of_insert_at in Ha as [->|Ha]; [|by apply K2].
    by eapply child_lo_above.
  - intros a Ha. apply elem_of_insert_at in Ha as [->|Ha]; [|by apply K3].
    by eapply child_hi_beneath.
  - intros k c Hc.
    destruct (Nat.lt_trichotomy k (S i)) as [Hlt|[->|Hgt]].
    + rewrite lookup_insert_at_lt in Hc by lia. rewrite (K4 _ _ Hc).
      destruct k as [|j]; [done|]. simpl. by rewrite lookup_insert_at_lt by lia.
    + rewrite lookup_insert_at in Hc by lia. injection Hc as <-.
      rewrite Hlosp. simpl. by rewrite lookup_insert_at by lia.
    + destruct k as [|k]; [lia|].
      rewrite lookup_insert_at_gt in Hc by lia. rewrite (K4 _ _ Hc).
      destruct k as [|j]; [lia|]. simpl. by rewrite lookup_insert_at_gt by lia.
  - intros k c Hc _. unfold child_hi.
    destruct (Nat.lt_trichotomy k (S i)) as [Hlt|[->|Hgt]].
    + rewrite lookup_insert_at_lt in Hc by lia.
      destruct (decide (k = i)) as [->|Hki].
      * rewrite Hc0 in Hc. injection Hc as <-.
        rewrite Hhic0. by rewrite lookup_insert_at by lia.
      * rewrite lookup_insert_at_lt by lia.
        apply (K5 _ _ Hc). intros [= <-]. apply Hki.
        by apply (NoDup_lookup _ _ _ _ Hnd Hc Hc0).
    + rewrite lookup_insert_at in Hc by lia. injection Hc as <-.
      rewrite Hhisp. by rewrite lookup_insert_at_gt by lia.
    + destruct k as [|k]; [lia|].
      rewrite lookup_insert_at_gt in Hc by lia.
      rewrite lookup_insert_at_gt by lia.
      apply (K5 _ _ Hc). intros [= <-].
      pose proof (NoDup_lookup _ _ _ _ Hnd Hc Hc0). lia.
Qed.

(** A node loses the entry between two neighbours that become one. *)
Lemma keys_at_delete lo hi hi' blo bhi es cs i l r :
  keys_at lo hi None blo bhi es cs → NoDup cs →
  cs !! i = Some l → cs !! S i = Some r →
  hi' l = hi r → (∀ c, c ∈ cs → c ≠ l → hi' c = hi c) →
  keys_at lo hi' None blo bhi (delete i es) (delete (S i) cs).
Proof.
  intros [K1 K2 K3 K4 K5] Hnd Hl Hr Hhil Hhi'.
  assert (Hex : ∀ c : Z, (None : option Z) ≠ Some c) by done.
  constructor.
  - by apply sorted_delete.
  - intros a Ha. apply K2. by eapply elem_of_delete.
  - intros a Ha. apply K3. by eapply elem_of_delete.
  - intros k c Hc. rewrite list_lookup_delete in Hc.
    destruct (decide (k < S i)%nat) as [Hlt|Hge].
    + rewrite (K4 _ _ Hc). destruct k as [|j]; [done|]. simpl.
      by rewrite list_lookup_delete_lt by lia.
    + rewrite (K4 _ _ Hc). simpl. destruct k as [|j]; [lia|]. simpl.
      by rewrite list_lookup_delete_ge by lia.
  - intros k c Hc _. rewrite list_lookup_delete in Hc. unfold child_hi.
    destruct (decide (k < S i)%nat) as [Hlt|Hge].
    + destruct (decide (k = i)) as [->|Hki].
      * rewrite Hl in Hc. injection Hc as <-.
        rewrite Hhil, (K5 _ _ Hr (Hex _)). unfold child_hi.
        by rewrite list_lookup_delete_ge by lia.
      * rewrite Hhi'.
        -- rewrite (K5 _ _ Hc (Hex _)). unfold child_hi.
           by rewrite list_lookup_delete_lt by lia.
        -- by eapply list_elem_of_lookup_2.
        -- intros ->. apply Hki. by apply (NoDup_lookup _ _ _ _ Hnd Hc Hl).
    + rewrite Hhi'.
      * rewrite (K5 _ _ Hc (Hex _)). unfold child_hi.
        by rewrite list_lookup_delete_ge by lia.
      * by eapply list_elem_of_lookup_2.
      * intros ->. pose proof (NoDup_lookup _ _ _ _ Hnd Hc Hl). lia.
Qed.

(** A node has one entry replaced by another that fits between its
    neighbours. *)
Lemma keys_at_replace lo hi lo' hi' blo bhi es cs i e :
  keys_at lo hi None blo bhi es cs → (i < length es)%nat →
  (∀ j a, es !! j = Some a → (j < i)%nat → entry_lt a e) →
  (∀ j a, es !! j = Some a → (i < j)%nat → entry_lt e a) →
  above blo (filename e) → beneath (filename e) bhi →
  (∀ k c, cs !! k = Some c →
     lo' c = (if decide (k = S i) then Some (filename e) else lo c)
     ∧ hi' c = (if decide (k = i) then Some (filename e) else hi c)) →
  keys_at lo' hi' None blo bhi (<[i := e]> es) cs.
Proof.
  intros [K1 K2 K3 K4 K5] Hi Hbefore Hafter Hlo Hhi Hghost.
  assert (Hex : ∀ c : Z, (None : option Z) ≠ Some c) by done.
  constructor.
  - by apply sorted_replace.
  - intros a Ha. apply list_elem_of_lookup in Ha as [j Hj].
    apply list_lookup_insert_Some in Hj as [(_ & <- & _)|[_ Hj]]; [done|].
    apply K2. by eapply list_elem_of_lookup_2.
  - intros a Ha. apply list_elem_of_lookup in Ha as [j Hj].
    apply list_lookup_insert_Some in Hj as [(_ & <- & _)|[_ Hj]]; [done|].
    apply K3. by eapply list_elem_of_lookup_2.
  - intros k c Hc. destruct (Hghost k c Hc) as [-> _].
    destruct k as [|j].
    + destruct (decide _); [lia|]. by rewrite (K4 _ _ Hc).
    + simpl. destruct (decide (S j = S i)) as [[= ->]|Hne].
      * by rewrite list_lookup_insert_eq.
      * rewrite list_lookup_insert_ne by lia. by rewrite (K4 _ _ Hc).
  - intros k c Hc _. destruct (Hghost k c Hc) as [_ ->]. unfold child_hi.
    destruct (decide (k = i)) as [->|Hne].
    + by rewrite list_lookup_insert_eq.
    + rewrite list_lookup_insert_ne by lia. by rewrite (K5 _ _ Hc (Hex _)).
Qed.

End Ordered.


(** ** The entries that a directory holds *)

Section Contents.
Context {P : Params}.

Lemma contents_delete d k :
  contents d
  ≡ₚ entries_at (m_node_cache d) k
     ++ contents (set_cache (delete k (m_node_cache d)) d).
Proof.
  unfold contents, entries_at. simpl.
  destruct (m_node_cache d !! k) as [n|] eqn:Hk; simpl.
  - rewrite fmap_delete.
    rewrite <- (map_to_list_delete (m_entries <$> m_node_cache d) k (m_entries n)).
    + reflexivity.
    + by rewrite lookup_fmap, Hk.
  - by rewrite delete_id.
Qed.

Lemma entries_at_delete_ne (c : gmap Z BtreeNode) k k' :
  k ≠ k' → entries_at (delete k c) k' = entries_at c k'.
Proof. intros Hne. unfold entries_at. by rewrite lookup_delete_ne. Qed.

(** Two caches that differ in the entries of the pages [K] only. *)
Lemma contents_change (K : list Z) :
  ∀ d d', NoDup K →
    (∀ pg, pg ∉ K →
       m_entries <$> m_node_cache d' !! pg = m_entries <$> m_node_cache d !! pg) →
    contents d' ++ concat (entries_at (m_node_cache d) <$> K)
    ≡ₚ contents d ++ concat (entries_at (m_node_cache d') <$> K).
Proof.
  induction K as [|k K IH]; intros d d' Hnd Hsame.
  - simpl. rewrite !app_nil_r. unfold contents.
    assert (Heq : m_entries <$> m_node_cache d' = m_entries <$> m_node_cache d).
    { apply map_eq. intros pg. rewrite !lookup_fmap.
      apply Hsame, not_elem_of_nil. }
    by rewrite Heq.
  - apply NoDup_cons in Hnd as [Hk Hnd].
    set (d0 := set_cache (delete k (m_node_cache d)) d).
    set (d0' := set_cache (delete k (m_node_cache d')) d').
    assert (HIH : contents d0' ++ concat (entries_at (m_node_cache d0) <$> K)
                  ≡ₚ contents d0 ++ concat (entries_at (m_node_cache d0') <$> K)).
    { apply IH; [done|]. intros pg Hpg. simpl.
      destruct (decide (pg = k)) as [->|Hne].
      - by rewrite !lookup_delete_eq.
      - rewrite !lookup_delete_ne by done. apply Hsame.
        intros Hin. apply elem_of_cons in Hin as [?|?]; done. }
    assert (Hmap : ∀ c : gmap Z BtreeNode,
              entries_at (delete k c) <$> K = entries_at c <$> K).
    { intros c. apply list_fmap_ext. intros i x Hx.
      apply entries_at_delete_ne. intros ->.
      apply Hk. by eapply list_elem_of_lookup_2. }
    simpl in HIH. rewrite !Hmap in HIH.
    rewrite !fmap_cons. simpl.
    rewrite (contents_delete d k), (contents_delete d' k).
    fold d0 d0'.
    set (A := contents d0) in *. set (A' := contents d0') in *.
    set (B := concat (entries_at (m_node_cache d) <$> K)) in *.
    set (B' := concat (entries_at (m_node_cache d') <$> K)) in *.
    set (E := entries_at (m_node_cache d) k).
    set (E' := entries_at (m_node_cache d') k).
    transitivity (E' ++ E ++ (A' ++ B)); [solve_Permutation|].
    rewrite HIH. solve_Permutation.
Qed.

Lemma elem_of_concat {A} (x : A) (ls : list (list A)) :
  x ∈ concat ls ↔ ∃ l, x ∈ l ∧ l ∈ ls.
Proof.
  induction ls as [|l ls IH]; simpl.
  - split; [intros Hx; by apply elem_of_nil in Hx|].
    intros (l & _ & Hl). by apply elem_of_nil in Hl.
  - rewrite elem_of_app, IH. split.
    + intros [Hx|(l' & Hx & Hl')]; [exists l; split; [done|left]|].
      exists l'. split; [done|by right].
    + intros (l' & Hx & Hl'). apply elem_of_cons in Hl' as [->|Hl']; [by left|].
      right. eauto.
Qed.

Lemma stored_contents d e : stored d e ↔ e ∈ contents d.
Proof.
  unfold stored, contents. rewrite elem_of_concat. split.
  - intros (pg & nd & Hc & He). exists (m_entries nd). split; [done|].
    apply list_elem_of_fmap. exists (pg, m_entries nd). split; [done|].
    apply elem_of_map_to_list. by rewrite lookup_fmap, Hc.
  - intros (l & He & Hl). apply list_elem_of_fmap in Hl as ([pg l'] & -> & Hl).
    apply elem_of_map_to_list in Hl. rewrite lookup_fmap in Hl.
    destruct (m_node_cache d !! pg) as [nd|] eqn:Hc; [|done].
    injection Hl as <-. eauto.
Qed.

End Contents.

(** *** Dirty nodes stay dirty *)

Lemma dirty_insert (c : gmap Z BtreeNode) pg nd' p x :
  <[p := x]> c !! pg = Some nd' → m_dirty x = true →
  (∀ nd, c !! pg = Some nd → m_dirty nd = true) → m_dirty nd' = true.
Proof.
  intros Hpg Hx Hold. destruct (decide (pg = p)) as [->|Hne].
  - rewrite lookup_insert_eq in Hpg. by injection Hpg as <-.
  - rewrite lookup_insert_ne in Hpg by done. by apply Hold.
Qed.

Lemma dirty_reparent parent cs (c : gmap Z BtreeNode) pg nd' :
  reparent parent cs c !! pg = Some nd' →
  (∀ nd, c !! pg = Some nd → m_dirty nd = true) → m_dirty nd' = true.
Proof.
  rewrite lookup_reparent. intros Hpg Hold. destruct (decide _); [|by apply Hold].
  destruct (c !! pg) as [nd|]; [|done]. by injection Hpg as <-.
Qed.

Lemma dirty_delete (c : gmap Z BtreeNode) pg nd' p :
  delete p c !! pg = Some nd' →
  (∀ nd, c !! pg = Some nd → m_dirty nd = true) → m_dirty nd' = true.
Proof.
  intros Hpg Hold. destruct (decide (pg = p)) as [->|Hne].
  - by rewrite lookup_delete_eq in Hpg.
  - rewrite lookup_delete_ne in Hpg by done. by apply Hold.
Qed.


(** ** Insertion keeps the names in order *)

Section InsertOrder.
Context {P : Params} {HP : ParamsOk} {HO : NameOrder}.

Section Inserting.
Variables (d : BtreeDirectory) (fl : list Z) (h : Z → nat) (H : nat) (f : focus).
Variables (lo hi : Z → bound) (g : option (Z * Z)).
Variables (p : Z) (pd : BtreeNode) (e : DirEntry) (ac : Z).
Hypothesis Hok : tree_ok d fl h H f.
Hypothesis Hkeys : keys_ok d lo hi g.
Hypothesis Hp : m_node_cache d !! p = Some pd.
Hypothesis Hpre : insert_pre d f p pd ac.
Hypothesis Hik : insert_keys lo hi g p pd e ac.
Set Default Proof Using "All".

Let es := entries_after_insert pd e.
Let cs := children_after_insert pd e ac.

(** The node with the entry, and the sibling, put in. *)
Lemma keys_at_inserted : keys_at lo hi None (lo p) (hi p) es cs.
Proof.
  pose proof (ko_nodes Hkeys _ _ Hp) as Kp.
  pose proof (to_nodes Hok _ _ Hp) as Hpok.
  unfold es, cs, entries_after_insert.
  change (λ x, entry_less x e) with (entry_less_name (filename e)).
  destruct Hik as [(Hac & Hg & Hlo & Hhi & Habs)|(Hac & c0 & Hg & Hc0 & Hloac)].
  - (* a leaf *)
    destruct Hpre as [(_ & _ & Hleaf)|(Hac' & _)]; [|contradiction].
    rewrite (children_after_insert_nil _ _ _ Hleaf).
    rewrite Hg, Hleaf in Kp. simpl in Kp.
    apply keys_at_insert_leaf; try done.
    apply sorted_has_partition, (ka_sorted Kp).
  - (* the parent of a node that has been split *)
    destruct Hpre as [(Hac' & _)|(_ & Hf & Hne & Hnin & ad & Had & Hadp)];
      [contradiction|].
    destruct (cs_internal d fl h H f p pd e ac Hok Hp Hpre Hne) as [_ Hcs].
    fold cs in Hcs. unfold cs in Hcs. rewrite Hcs.
    change (λ x, entry_less x e) with (entry_less_name (filename e)).
    rewrite Hg in Kp. simpl in Kp.
    destruct (ko_pending Hkeys c0 ac Hg) as (x & Hx & Hhic0 & Habove & Hbeneath & Hq).
    rewrite Hloac in Hx. injection Hx as <-.
    apply list_elem_of_lookup in Hc0 as [i Hi].
    assert (Hile : (i ≤ length (m_entries pd))%nat).
    { apply lookup_lt_Some in Hi.
      destruct (ok_shape Hpok) as [?|Hs]; [done|lia]. }
    destruct (keys_at_insert_child lo hi (lo p) (hi p) (m_entries pd)
                (m_child_indices pd) i c0 ac e Kp (ok_nodup Hpok) Hi Hile Hloac
                Hhic0 (Hq p pd i Hp Hi) Habove Hbeneath) as [Hpart Hres].
    rewrite (lower_bound_partition _ _ _ Hpart).
    by rewrite Nat.add_1_r.
Qed.

Lemma keys_ok_inserted :
  keys_ok (set_cache (<[p := inserted pd e ac]> (m_node_cache d)) d) lo hi None.
Proof.
  constructor.
  - intros pg nd Hpg. simpl in Hpg.
    destruct (decide (pg = p)) as [->|Hne].
    + rewrite lookup_insert_eq in Hpg. injection Hpg as <-. simpl.
      apply keys_at_inserted.
    + rewrite lookup_insert_ne in Hpg by done.
      pose proof (ko_nodes Hkeys _ _ Hpg) as K.
      eapply keys_at_ghost; [| |exact K]; [done|].
      intros c Hc _. split; [done|].
      destruct Hik as [(_ & -> & _)|(_ & c0 & -> & Hc0 & _)]; [done|].
      simpl. intros [= <-].
      destruct (child_facts _ _ _ _ _ Hok _ _ _ Hpg Hc) as (cd & Hcd & Hcp & _).
      destruct (child_facts _ _ _ _ _ Hok _ _ _ Hp Hc0) as (cd' & Hcd' & Hcp' & _).
      congruence.
  - apply (ko_root Hkeys).
  - intros c sp Hg. discriminate.
Qed.

Lemma contents_inserted :
  contents (set_cache (<[p := inserted pd e ac]> (m_node_cache d)) d)
  ≡ₚ e :: contents d.
Proof.
  pose proof (contents_change [p] d
                (set_cache (<[p := inserted pd e ac]> (m_node_cache d)) d)) as Hc.
  simpl in Hc. unfold entries_at in Hc.
  rewrite lookup_insert_eq, Hp in Hc. simpl in Hc. rewrite !app_nil_r in Hc.
  apply (Permutation_app_inv_r (m_entries pd)).
  rewrite Hc.
  - unfold entries_after_insert. rewrite insert_at_perm. solve_Permutation.
  - apply NoDup_singleton.
  - intros pg Hpg. rewrite lookup_insert_ne; [done|].
    intros ->. apply Hpg. left.
Qed.

Unset Default Proof Using.
End Inserting.

Section Splitting.
Variables (d : BtreeDirectory) (fl : list Z) (h : Z → nat) (H : nat) (f : focus).
Variables (lo hi : Z → bound) (g : option (Z * Z)).
Variables (p : Z) (pd : BtreeNode) (e : DirEntry) (ac : Z).
Variables (sp : Z) (d1 : BtreeDirectory) (fl1 : list Z) (promoted : DirEntry).
Hypothesis Hok : tree_ok d fl h H f.
Hypothesis Hkeys : keys_ok d lo hi g.
Hypothesis Hp : m_node_cache d !! p = Some pd.
Hypothesis Hpre : insert_pre d f p pd ac.
Hypothesis Hik : insert_keys lo hi g p pd e ac.
Hypothesis Hfull : length (m_entries pd) = MAX_NUM_ENTRIES.
Hypothesis Hso1 : stream_ok d1 fl1.
Hypothesis Hsp_in : in_stream d1 sp.
Hypothesis Hsp_fl1 : sp ∉ fl1.
Hypothesis Hfl1 : ∀ q, q ∈ fl1 → q ∈ fl.
Hypothesis Hsp_new : sp ∈ fl ∨ sp = Z.of_nat (num_pages d).
Hypothesis Hpages : (num_pages d ≤ num_pages d1)%nat.
Hypothesis Hprom :
  entries_after_insert pd e
    !! split_index (length (entries_after_insert pd e)) = Some promoted.
Set Default Proof Using "All".

Let es := entries_after_insert pd e.
Let cs := children_after_insert pd e ac.
Let mid := split_index (length es).
Let c' := split_cache p sp pd e ac (m_node_cache d).
Let xp := filename promoted.
Let lo' : Z → bound := <[sp := Some xp]> lo.
Let hi' : Z → bound := <[sp := hi p]> (<[p := Some xp]> hi).

Lemma split_sp_fresh : m_node_cache d !! sp = None.
Proof.
  apply (sp_not_cached d fl h H f p pd e ac sp d1 fl1 Hok Hp Hpre Hfull Hso1
           Hsp_in Hsp_fl1 Hfl1 Hsp_new Hpages).
Qed.

Lemma split_p_sp : p ≠ sp.
Proof. intros Heq. pose proof split_sp_fresh as Hn. rewrite <- Heq in Hn. congruence. Qed.

Lemma ghost_sp : lo' sp = Some xp ∧ hi' sp = hi p.
Proof. unfold lo', hi'. by rewrite !fn_lookup_insert. Qed.

Lemma ghost_p : lo' p = lo p ∧ hi' p = Some xp.
Proof.
  pose proof split_p_sp. unfold lo', hi'.
  rewrite !fn_lookup_insert_ne by done. by rewrite fn_lookup_insert.
Qed.

Lemma ghost_other c : c ≠ p → c ≠ sp → lo' c = lo c ∧ hi' c = hi c.
Proof. intros Hp' Hsp'. unfold lo', hi'. by rewrite !fn_lookup_insert_ne by done. Qed.

Lemma cs_old c : c ∈ cs → c ≠ p ∧ c ≠ sp.
Proof.
  intros Hc.
  destruct (cs_child d fl h H f p pd e ac Hok Hp Hpre c Hc) as (cd & Hcd & _ & _ & Hne).
  split; [done|]. intros ->. pose proof split_sp_fresh. congruence.
Qed.

Lemma child_old pg nd c :
  m_node_cache d !! pg = Some nd → c ∈ m_child_indices nd → c ≠ sp.
Proof.
  intros Hpg Hc.
  destruct (child_facts _ _ _ _ _ Hok _ _ _ Hpg Hc) as (cd & Hcd & _).
  intros ->. pose proof split_sp_fresh. congruence.
Qed.

(** A page other than the two halves holds what it held. *)
Lemma split_other pg nd' :
  c' !! pg = Some nd' → pg ≠ p → pg ≠ sp →
  ∃ nd, m_node_cache d !! pg = Some nd
        ∧ m_entries nd' = m_entries nd
        ∧ m_child_indices nd' = m_child_indices nd.
Proof.
  intros Hpg Hnp Hnsp.
  destruct (split_lookup_inv d fl h H f p pd e ac sp d1 fl1 Hok Hp Hpre Hfull Hso1
              Hsp_in Hsp_fl1 Hfl1 Hsp_new Hpages pg nd' Hpg)
    as [[? _]|[[? _]|(_ & _ & nd & Hnd & ->)]]; [done|done|].
  exists nd. split; [done|]. by destruct (decide _).
Qed.

Lemma keys_at_es : keys_at lo hi None (lo p) (hi p) es cs.
Proof. apply (keys_at_inserted d fl h H f lo hi g p pd e ac Hok Hkeys Hp Hpre Hik). Qed.

Lemma promoted_bounds : above (lo p) xp ∧ beneath xp (hi p).
Proof.
  pose proof keys_at_es as K. apply list_elem_of_lookup_2 in Hprom.
  split; [by apply (ka_above K)|by apply (ka_beneath K)].
Qed.

Lemma keys_at_left ex :
  ex ≠ Some sp →
  keys_at lo' hi' ex (lo p) (Some xp) (take mid es) (take (mid + 1) cs).
Proof.
  intros Hex. rewrite Nat.add_1_r.
  eapply keys_at_ghost;
    [| |apply (keys_at_split_left lo hi None (lo p) (hi p) es cs mid promoted
                 keys_at_es Hprom)].
  - intros c Hc. apply subseteq_take, cs_old in Hc as [_ Hc].
    unfold lo'. by rewrite fn_lookup_insert_ne.
  - intros c Hc _. apply subseteq_take, cs_old in Hc as [Hcp Hc].
    split; [|done]. unfold hi'. by rewrite !fn_lookup_insert_ne.
Qed.

Lemma keys_at_right ex :
  keys_at lo' hi' ex (Some xp) (hi p) (drop (mid + 1) es) (drop (mid + 1) cs).
Proof.
  rewrite Nat.add_1_r.
  eapply keys_at_ghost;
    [| |apply (keys_at_split_right lo hi None (lo p) (hi p) es cs mid promoted
                 keys_at_es Hprom)].
  - intros c Hc. apply subseteq_drop, cs_old in Hc as [_ Hc].
    unfold lo'. by rewrite fn_lookup_insert_ne.
  - intros c Hc _. apply subseteq_drop, cs_old in Hc as [Hcp Hc].
    split; [|done]. unfold hi'. by rewrite !fn_lookup_insert_ne.
Qed.

(** The nodes that the split does not touch keep their order, the node
    above [p] but for the upper bound of [p]. *)
Lemma keys_at_other pg nd :
  m_node_cache d !! pg = Some nd → pg ≠ p →
  keys_at lo' hi' (Some p) (lo' pg) (hi' pg) (m_entries nd) (m_child_indices nd).
Proof.
  intros Hpg Hne.
  assert (Hnsp : pg ≠ sp).
  { intros ->. pose proof split_sp_fresh. congruence. }
  destruct (ghost_other _ Hne Hnsp) as [-> ->].
  pose proof (ko_nodes (keys_ok_inserted d fl h H f lo hi g p pd e ac Hok Hkeys Hp
                          Hpre Hik) pg nd) as K.
  simpl in K. rewrite lookup_insert_ne in K by done. specialize (K Hpg).
  eapply keys_at_ghost; [| |exact K].
  - intros c Hc. unfold lo'. rewrite fn_lookup_insert_ne; [done|].
    apply not_eq_sym. by eapply child_old.
  - intros c Hc Hex. split; [|done]. unfold hi'.
    rewrite !fn_lookup_insert_ne; [done|congruence|].
    apply not_eq_sym. by eapply child_old.
Qed.

(** The split of a node that has a parent: the names are in order, but the
    parent does not yet separate the two halves. *)
Lemma keys_ok_split :
  m_parent_num pd ≠ INVALID_PAGE →
  keys_ok (mkDir (m_stream d1) (m_root_page d) (m_start_free_page d1)
             (m_num_free_page d1) c')
    lo' hi' (Some (p, sp)).
Proof.
  intros Hpar. pose proof split_p_sp as Hpsp. pose proof promoted_bounds as [Hpa Hpb].
  constructor.
  - intros pg nd' Hpg. simpl in Hpg |- *.
    destruct (decide (pg = p)) as [->|Hnp].
    { unfold c' in Hpg. rewrite lookup_split_cache in Hpg.
      destruct (decide (p = p)); [|done]. injection Hpg as <-. simpl.
      destruct ghost_p as [-> ->].
      apply keys_at_left. intros [= ->]. done. }
    destruct (decide (pg = sp)) as [->|Hnsp].
    { unfold c' in Hpg. rewrite lookup_split_cache in Hpg.
      destruct (decide (sp = p)); [done|].
      destruct (decide (sp = sp)); [|done]. injection Hpg as <-. simpl.
      destruct ghost_sp as [-> ->].
      apply keys_at_right. }
    destruct (split_other pg nd' Hpg Hnp Hnsp) as (nd & Hnd & -> & ->).
    by apply keys_at_other.
  - simpl. intros Hr.
    destruct (to_root Hok Hr) as (rd & Hrd & Hrp & _).
    assert (Hrp' : m_root_page d ≠ p).
    { intros Heq. rewrite Heq, Hp in Hrd. injection Hrd as <-. done. }
    assert (Hrsp : m_root_page d ≠ sp).
    { intros Heq. pose proof split_sp_fresh as Hn. rewrite <- Heq in Hn. congruence. }
    destruct (ghost_other _ Hrp' Hrsp) as [-> ->].
    apply (ko_root Hkeys Hr).
  - intros c sp0 [= <- <-]. exists xp.
    destruct ghost_sp as [Hg1 Hg2]. destruct ghost_p as [Hg3 Hg4].
    rewrite Hg1, Hg2, Hg3, Hg4.
    do 4 (split; [done|]).
    intros q qd i Hq Hi. simpl in Hq.
    assert (Hqp : q ≠ p).
    { intros ->. unfold c' in Hq. rewrite lookup_split_cache in Hq.
      destruct (decide (p = p)); [|done]. injection Hq as <-. simpl in Hi.
      apply list_elem_of_lookup_2, subseteq_take, cs_old in Hi as [? _]. done. }
    assert (Hqsp : q ≠ sp).
    { intros ->. unfold c' in Hq. rewrite lookup_split_cache in Hq.
      destruct (decide (sp = p)); [done|].
      destruct (decide (sp = sp)); [|done]. injection Hq as <-. simpl in Hi.
      apply list_elem_of_lookup_2, subseteq_drop, cs_old in Hi as [? _]. done. }
    destruct (split_other q qd Hq Hqp Hqsp) as (nd & Hnd & -> & Hcs).
    rewrite Hcs in Hi. destruct (ghost_other _ Hqp Hqsp) as [_ ->].
    pose proof (ko_nodes (keys_ok_inserted d fl h H f lo hi g p pd e ac Hok Hkeys Hp
                            Hpre Hik) q nd) as K.
    simpl in K. rewrite lookup_insert_ne in K by done. specialize (K Hnd).
    by apply (ka_hi K).
Qed.

(** The split of the root: both halves under the new root on page [rp]. *)
Lemma keys_ok_split_root rp d2 :
  m_parent_num pd = INVALID_PAGE → m_num pd = p →
  m_node_cache d !! rp = None → rp ≠ sp →
  keys_ok (mkDir (m_stream d2) rp (m_start_free_page d2) (m_num_free_page d2)
             (new_root_cache p sp rp pd e promoted ac (m_node_cache d)))
    (<[rp := None]> lo') (<[rp := None]> hi') None.
Proof.
  intros Hpar Hnum Hrp Hrpsp.
  pose proof split_p_sp as Hpsp. pose proof promoted_bounds as [Hpa Hpb].
  assert (Hrpp : rp ≠ p) by (intros ->; congruence).
  assert (Hroot : p = m_root_page d).
  { by apply (root_is_root _ _ _ _ _ Hok _ _ Hp). }
  assert (Hrne : m_root_page d ≠ INVALID_PAGE).
  { rewrite <- Hroot. by eapply (cached_not_invalid _ _ _ _ _ Hok). }
  destruct (ko_root Hkeys Hrne) as [Hlor Hhir]. rewrite <- Hroot in Hlor, Hhir.
  assert (Hnew : ∀ c, c ≠ rp → <[rp := None]> lo' c = lo' c
                               ∧ <[rp := None]> hi' c = hi' c).
  { intros c Hc. by rewrite !fn_lookup_insert_ne by done. }
  assert (Hcsrp : ∀ c, c ∈ cs → c ≠ rp).
  { intros c Hc.
    destruct (cs_child d fl h H f p pd e ac Hok Hp Hpre c Hc) as (cd & Hcd & _).
    intros ->. congruence. }
  constructor.
  - intros pg nd' Hpg. unfold new_root_cache in Hpg. simpl in Hpg |- *.
    destruct (decide (pg = sp)) as [->|Hnsp].
    { rewrite lookup_insert_eq in Hpg. injection Hpg as <-. simpl.
      destruct (Hnew sp (not_eq_sym Hrpsp)) as [-> ->].
      destruct ghost_sp as [-> ->].
      eapply keys_at_ghost; [| |apply (keys_at_right None)].
      - intros c Hc. apply subseteq_drop in Hc. by apply Hnew, Hcsrp.
      - intros c Hc _. split; [|done]. apply subseteq_drop in Hc.
        by apply Hnew, Hcsrp. }
    rewrite lookup_insert_ne in Hpg by done.
    destruct (decide (pg = p)) as [->|Hnp].
    { rewrite lookup_insert_eq in Hpg. injection Hpg as <-. simpl.
      destruct (Hnew p (not_eq_sym Hrpp)) as [-> ->].
      destruct ghost_p as [-> ->].
      eapply keys_at_ghost; [| |apply (keys_at_left None)]; [| |done].
      - intros c Hc. apply subseteq_take in Hc. by apply Hnew, Hcsrp.
      - intros c Hc _. split; [|done]. apply subseteq_take in Hc.
        by apply Hnew, Hcsrp. }
    rewrite lookup_insert_ne in Hpg by done.
    destruct (decide (pg = rp)) as [->|Hnrp].
    { rewrite lookup_insert_eq in Hpg. injection Hpg as <-. simpl.
      rewrite !fn_lookup_insert. rewrite Hnum.
      constructor.
      - apply sorted_singleton.
      - done.
      - done.
      - intros i c Hc. destruct i as [|[|i]]; simpl in Hc; [| |done].
        + injection Hc as <-. destruct (Hnew p (not_eq_sym Hrpp)) as [-> _].
          destruct ghost_p as [-> _]. by rewrite Hlor.
        + injection Hc as <-. destruct (Hnew sp (not_eq_sym Hrpsp)) as [-> _].
          by destruct ghost_sp as [-> _].
      - intros i c Hc _. destruct i as [|[|i]]; simpl in Hc; [| |done].
        + injection Hc as <-. destruct (Hnew p (not_eq_sym Hrpp)) as [_ ->].
          by destruct ghost_p as [_ ->].
        + injection Hc as <-. destruct (Hnew sp (not_eq_sym Hrpsp)) as [_ ->].
          destruct ghost_sp as [_ ->]. by rewrite Hhir. }
    rewrite lookup_insert_ne in Hpg by done.
    destruct (split_other pg nd' Hpg Hnp Hnsp) as (nd & Hnd & -> & ->).
    destruct (Hnew pg Hnrp) as [-> ->].
    eapply keys_at_ghost; [| |apply (keys_at_other pg nd Hnd Hnp)].
    + intros c Hc. apply Hnew. intros ->.
      destruct (child_facts _ _ _ _ _ Hok _ _ _ Hnd Hc) as (cd & Hcd & _). congruence.
    + intros c Hc _.
      destruct (child_facts _ _ _ _ _ Hok _ _ _ Hnd Hc) as (cd & Hcd & _ & _ & _ & Hcpar).
      split.
      * apply Hnew. intros ->. congruence.
      * intros [= <-]. rewrite Hp in Hcd. injection Hcd as <-. done.
  - simpl. intros _. by rewrite !fn_lookup_insert.
  - intros c sp0 Hg. discriminate.
Qed.

Lemma split_entries : es = take mid es ++ promoted :: drop (S mid) es.
Proof. symmetry. by apply take_drop_middle. Qed.

Lemma contents_split D :
  m_node_cache D = c' →
  promoted :: contents D ≡ₚ e :: contents d.
Proof.
  intros HD. pose proof split_p_sp as Hpsp.
  pose proof (contents_change [p; sp] d D) as Hc.
  simpl in Hc. unfold entries_at in Hc. rewrite HD in Hc. unfold c' in Hc.
  rewrite !lookup_split_cache in Hc.
  destruct (decide (p = p)); [|done].
  destruct (decide (sp = p)); [done|].
  destruct (decide (sp = sp)); [|done].
  rewrite Hp, split_sp_fresh in Hc. simpl in Hc. rewrite !app_nil_r in Hc.
  fold es mid in Hc.
  apply (Permutation_app_inv_r (m_entries pd)). simpl.
  rewrite Hc.
  - transitivity (contents d ++ es).
    + rewrite split_entries at 3. rewrite Nat.add_1_r. solve_Permutation.
    + unfold es, entries_after_insert. rewrite insert_at_perm. solve_Permutation.
  - apply NoDup_cons. split; [|apply NoDup_singleton].
    intros Hin. apply list_elem_of_singleton in Hin. done.
  - intros pg Hpg. rewrite lookup_split_cache.
    destruct (decide (pg = p)) as [->|_]; [exfalso; apply Hpg; left|].
    destruct (decide (pg = sp)) as [->|_]; [exfalso; apply Hpg; right; left|].
    destruct (decide _); [|done].
    by destruct (m_node_cache d !! pg).
Qed.

Lemma contents_split_root rp D :
  m_node_cache d !! rp = None → rp ≠ sp →
  m_node_cache D = new_root_cache p sp rp pd e promoted ac (m_node_cache d) →
  contents D ≡ₚ e :: contents d.
Proof.
  intros Hrp Hrpsp HD. pose proof split_p_sp as Hpsp.
  assert (Hrpp : rp ≠ p) by (intros ->; congruence).
  pose proof (contents_change [p; sp; rp] d D) as Hc.
  simpl in Hc. unfold entries_at in Hc. rewrite HD in Hc.
  unfold new_root_cache in Hc.
  rewrite (lookup_insert_ne _ sp p), (lookup_insert_eq _ p) in Hc by done.
  rewrite (lookup_insert_eq _ sp) in Hc.
  rewrite (lookup_insert_ne _ sp rp), (lookup_insert_ne _ p rp),
    (lookup_insert_eq _ rp) in Hc by done.
  rewrite Hp, split_sp_fresh, Hrp in Hc. simpl in Hc. rewrite !app_nil_r in Hc.
  fold es mid in Hc.
  apply (Permutation_app_inv_r (m_entries pd)).
  rewrite Hc.
  - transitivity (contents d ++ es).
    + rewrite split_entries at 3. rewrite Nat.add_1_r. solve_Permutation.
    + unfold es, entries_after_insert. rewrite insert_at_perm. solve_Permutation.
  - apply NoDup_cons. split.
    { intros Hin. apply elem_of_cons in Hin as [?|Hin]; [done|].
      apply list_elem_of_singleton in Hin. done. }
    apply NoDup_cons. split; [|apply NoDup_singleton].
    intros Hin. apply list_elem_of_singleton in Hin. done.
  - intros pg Hpg.
    assert (pg ≠ p ∧ pg ≠ sp ∧ pg ≠ rp) as (? & ? & ?).
    { repeat split; intros ->; apply Hpg; [left|right; left|right; right; left]. }
    rewrite !lookup_insert_ne by done. rewrite lookup_split_cache.
    destruct (decide (pg = p)); [done|]. destruct (decide (pg = sp)); [done|].
    destruct (decide _); [|done].
    by destruct (m_node_cache d !! pg).
Qed.

Unset Default Proof Using.
End Splitting.

End InsertOrder.


(** ** [add_entry] keeps a search tree and adds one entry *)

Section AddOrder.
Context {P : Params} {HP : ParamsOk} {HO : NameOrder}.

(** [insert_and_balance], when it returns, leaves a well-formed search tree
    that holds the entry it was given besides what the tree held. *)
Lemma insert_and_balance_rec_sorted budget :
  ∀ d fl h H f lo hi g p pd e ac d',
    tree_ok d fl h H f → keys_ok d lo hi g →
    m_node_cache d !! p = Some pd →
    insert_pre d f p pd ac → insert_keys lo hi g p pd e ac →
    Z.of_nat (num_pages d) + Z.of_nat budget < INVALID_PAGE →
    insert_and_balance_rec budget p e ac d = Ok (tt, d') →
    ∃ fl' h' H' lo' hi',
      tree_ok d' fl' h' H' NoFocus ∧ keys_ok d' lo' hi' None
      ∧ contents d' ≡ₚ e :: contents d.
Proof.
  induction budget as [|budget IH];
    intros d fl h H f lo hi g p pd e ac d' Hok Hkeys Hp Hpre Hik Hroom Hrun;
    [discriminate|].
  pose proof (to_nodes Hok _ _ Hp) as Hpok.
  pose proof low_entries_bounds as Hodd.
  destruct (decide (length (m_entries pd) < MAX_NUM_ENTRIES)%nat) as [Hfit|Hfull].
  { rewrite (insert_and_balance_fits _ _ _ _ _ _ Hp (ok_shape Hpok) Hfit) in Hrun.
    injection Hrun as <-. exists fl, h, H, lo, hi.
    split; [apply (tree_ok_inserted d fl h H f p pd e ac Hok Hp Hpre Hfit)|].
    split; [apply (keys_ok_inserted d fl h H f lo hi g p pd e ac Hok Hkeys Hp Hpre Hik)|].
    apply (contents_inserted d fl h H f lo hi g p pd e ac Hok Hkeys Hp Hpre Hik). }
  assert (Hlen : length (m_entries pd) = MAX_NUM_ENTRIES).
  { pose proof (ok_max Hpok). lia. }
  destruct (allocate_page_ok d fl (to_stream Hok)) as
    (sp & d1 & fl1 & Ha & Hso1 & Hsp_in & Hsp_fl1 & Hblank & Hfl1 & Hsp_new
       & Hpages & Hcache1 & Hroot1); [lia|].
  assert (Hpg : (num_pages d ≤ num_pages d1)%nat) by lia.
  pose proof (sp_not_cached d fl h H f p pd e ac sp d1 fl1 Hok Hp Hpre Hlen
                Hso1 Hsp_in Hsp_fl1 Hfl1 Hsp_new Hpg) as Hspc.
  pose proof (es_length d fl h H f p pd e ac sp d1 fl1 Hok Hp Hpre Hlen
                Hso1 Hsp_in Hsp_fl1 Hfl1 Hsp_new Hpg) as Hes.
  assert (Hspcs : sp ∉ children_after_insert pd e ac).
  { intros Hin.
    destruct (cs_child d fl h H f p pd e ac Hok Hp Hpre sp Hin) as (cd & Hcd & _).
    congruence. }
  destruct (lookup_lt_is_Some_2 (entries_after_insert pd e)
              (split_index (length (entries_after_insert pd e))))
    as [promoted Hprom].
  { rewrite Hes, split_index_full. unfold low_entries in *. lia. }
  destruct (decide (m_parent_num pd = INVALID_PAGE)) as [Hpar|Hpar].
  - (* the root splits *)
    destruct (allocate_page_ok d1 fl1 Hso1) as
      (rp & d2 & fl2 & Ha2 & Hso2 & Hrp_in & Hrp_fl2 & Hblank2 & Hfl2 & Hrp_new
         & Hpages2 & _ & _); [lia|].
    assert (Hrpsp : rp ≠ sp).
    { intros Heq. destruct Hrp_new as [Hr|Hr].
      - apply Hsp_fl1. by rewrite <- Heq.
      - unfold in_stream in Hsp_in. lia. }
    assert (Hrpc : m_node_cache d !! rp = None).
    { destruct Hrp_new as [Hr|Hr]; [by apply (to_free Hok), Hfl1|].
      destruct (m_node_cache d !! rp) as [nd|] eqn:Hc; [|done].
      destruct (ok_range (to_nodes Hok _ _ Hc)). lia. }
    rewrite (split_step_root budget p pd e ac d sp d1 promoted rp d2) in Hrun;
      try done.
    + injection Hrun as <-. do 5 eexists. split; [|split].
      * apply (tree_ok_split_root d fl h H f p pd e ac sp d1 fl1 Hok Hp Hpre Hlen
                 Hso1 Hsp_in Hsp_fl1 Hfl1 Hsp_new Hpg rp d2 fl2 promoted);
          try done. lia.
      * apply (keys_ok_split_root d fl h H f lo hi g p pd e ac sp d1 fl1 promoted
                 Hok Hkeys Hp Hpre Hik Hlen Hso1 Hsp_in Hsp_fl1 Hfl1 Hsp_new Hpg
                 Hprom rp d2 Hpar (ok_num Hpok) Hrpc Hrpsp).
      * eapply (contents_split_root d fl h H f lo hi g p pd e ac sp d1 fl1 promoted
                  Hok Hkeys Hp Hpre Hik Hlen Hso1 Hsp_in Hsp_fl1 Hfl1 Hsp_new Hpg
                  Hprom rp); [exact Hrpc|exact Hrpsp|reflexivity].
    + apply (ok_num Hpok).
    + apply (ok_shape Hpok).
    + lia.
    + apply (p_not_in_cs d fl h H f p pd e ac Hok Hp Hpre).
  - (* the node has a parent, which takes the promoted entry *)
    destruct (parent_facts _ _ _ _ _ Hok _ _ Hp Hpar) as (Hhq & Hqp & qd & Hqd & Hqor).
    rewrite (split_step_parent budget p pd e ac d sp d1 promoted) in Hrun;
      try done.
    2: apply (ok_num Hpok).
    2: apply (ok_shape Hpok).
    2: lia.
    2: apply (p_not_in_cs d fl h H f p pd e ac Hok Hp Hpre).
    pose proof (tree_ok_split d fl h H f p pd e ac sp d1 fl1 Hok Hp Hpre Hlen
                  Hso1 Hsp_in Hsp_fl1 Hfl1 Hsp_new Hpg Hpar) as Hok2.
    pose proof (keys_ok_split d fl h H f lo hi g p pd e ac sp d1 fl1 promoted
                  Hok Hkeys Hp Hpre Hik Hlen Hso1 Hsp_in Hsp_fl1 Hfl1 Hsp_new Hpg
                  Hprom Hpar) as Hkeys2.
    pose proof (split_lookup_old d fl h H f p pd e ac sp d1 fl1 Hok Hp Hpre Hlen
                  Hso1 Hsp_in Hsp_fl1 Hfl1 Hsp_new Hpg _ _ Hqd Hqp) as Hq2.
    assert (Hpin : p ∈ m_child_indices qd).
    { destruct Hqor as [?|Hor]; [done|].
      by apply (p_not_orphan d fl h H f p pd e ac sp d1 fl1 Hok Hp Hpre Hlen
                  Hso1 Hsp_in Hsp_fl1 Hfl1 Hsp_new Hpg) in Hor. }
    assert (Hch : m_child_indices (if decide (m_parent_num pd ∈ moved_children pd e ac)
                                   then with_parent sp qd else qd)
                  = m_child_indices qd).
    { by destruct (decide _). }
    assert (Hspne : sp ≠ INVALID_PAGE).
    { eapply in_stream_not_invalid; [apply (so_pages Hso1)|exact Hsp_in]. }
    destruct (IH _ _ _ _ _ _ _ _ _ _ promoted sp d' Hok2 Hkeys2 Hq2)
      as (fl' & h' & H' & lo' & hi' & Hok' & Hkeys' & Hcont'); [| | |exact Hrun|].
    + right. rewrite Hch.
      split; [exact Hspne|].
      split; [reflexivity|].
      split; [intros Hnil; rewrite Hnil in Hpin; by apply not_elem_of_nil in Hpin|].
      split.
      { intros Hin.
        destruct (child_facts _ _ _ _ _ Hok _ _ _ Hqd Hin) as (cd & Hcd & _).
        congruence. }
      exists (split_right sp pd e ac). split; [|reflexivity].
      simpl. rewrite lookup_split_cache.
      destruct (decide (sp = p)) as [Heq|_]; [rewrite Heq in Hspc; congruence|].
      by destruct (decide (sp = sp)).
    + right. split; [exact Hspne|]. exists p. split; [reflexivity|].
      rewrite Hch. split; [exact Hpin|].
      by rewrite fn_lookup_insert.
    + change (Z.of_nat (num_pages d1) + Z.of_nat budget < INVALID_PAGE). lia.
    + exists fl', h', H', lo', hi'. split; [exact Hok'|]. split; [exact Hkeys'|].
      rewrite Hcont'.
      eapply (contents_split d fl h H f lo hi g p pd e ac sp d1 fl1 promoted
                Hok Hkeys Hp Hpre Hik Hlen Hso1 Hsp_in Hsp_fl1 Hfl1 Hsp_new Hpg
                Hprom). reflexivity.
Qed.

Lemma find_node_resident name d fl h H f :
  tree_ok d fl h H f → m_root_page d ≠ INVALID_PAGE →
  find_node name d = find_node_loop BTREE_MAX_DEPTH name (m_root_page d) d.
Proof.
  intros Hok Hr. destruct (to_root Hok Hr) as (rd & Hrd & _).
  unfold find_node.
  by rewrite (bind_Ok _ _ _ _ _ (get_root_node_resident d rd Hr Hrd)).
Qed.

Lemma keys_ok_first d e pg :
  keys_ok (mkDir (m_stream d) pg (m_start_free_page d) (m_num_free_page d)
             {[ pg := mkNode INVALID_PAGE pg [] [e] true ]})
    (λ _, None) (λ _, None) None.
Proof.
  constructor.
  - intros q nd Hq. simpl in Hq. apply lookup_singleton_Some in Hq as [<- <-].
    simpl. apply keys_at_leaf; [apply sorted_singleton|done].
  - done.
  - intros c sp Hg. discriminate.
Qed.

Lemma contents_singleton d pg nd :
  m_node_cache d = {[ pg := nd ]} → contents d = m_entries nd.
Proof.
  intros Hc. unfold contents. rewrite Hc, map_fmap_singleton, map_to_list_singleton.
  simpl. apply app_nil_r.
Qed.

Lemma contents_empty d : m_node_cache d = ∅ → contents d = [].
Proof.
  intros Hc. unfold contents. by rewrite Hc, fmap_empty, map_to_list_empty.
Qed.

(** [add_entry], when it returns, leaves a well-formed search tree; when it
    returns true the tree holds the new entry besides what it held, and
    when it returns false it is unchanged. *)
Lemma add_entry_sorted name eid ty d fl h H lo hi b d' :
  tree_ok d fl h H NoFocus → keys_ok d lo hi None → room d →
  add_entry name eid ty d = Ok (b, d') →
  (∃ fl' h' H' lo' hi', tree_ok d' fl' h' H' NoFocus ∧ keys_ok d' lo' hi' None)
  ∧ contents d'
    ≡ₚ (if b then [mkEntry name eid (wrap32 ty)] else []) ++ contents d.
Proof.
  intros Hok Hkeys Hroom Hrun. unfold add_entry in Hrun.
  destruct (decide _); [discriminate|].
  apply bind_inv in Hrun as (r & d0 & Hfind & Hrun).
  pose proof Hfind as Hfind'.
  destruct (find_node_tree _ _ _ _ _ _ _ _ Hok Hfind) as [-> Hres].
  unfold room in Hroom.
  destruct Hres as [[Hroot ->]|(Hroot & node & i & b' & xd & -> & Hx & Hleaf & _)].
  - (* the directory is empty *)
    pose proof (to_empty Hok Hroot) as Hempty.
    destruct (allocate_page_ok d fl (to_stream Hok)) as
      (sp & d1 & fl1 & Ha & Hso1 & Hsp_in & Hsp_fl1 & Hblank & Hfl1 & Hsp_new
         & Hpages & Hcache1 & Hroot1); [lia|].
    rewrite (bind_Ok _ _ _ _ _ Ha) in Hrun.
    unfold set_root_page at 1, modify at 1 in Hrun. unfold bind at 1 in Hrun.
    unfold get_root_node, get_root_page in Hrun.
    unfold bind at 1 2 in Hrun. unfold gets in Hrun. simpl in Hrun.
    assert (Hspne : sp ≠ INVALID_PAGE).
    { eapply in_stream_not_invalid; [apply (so_pages Hso1)|exact Hsp_in]. }
    destruct (decide (sp = INVALID_PAGE)); [contradiction|].
    unfold bind at 1 in Hrun.
    rewrite retrieve_node_blank in Hrun.
    2:{ simpl. by rewrite Hcache1, Hempty. }
    2:{ eapply blank_page_stream; [|exact Hblank]. reflexivity. }
    unfold ret in Hrun.
    erewrite bind_Ok in Hrun by (apply mutable_entries_intro; simpl; apply lookup_insert_eq).
    injection Hrun as <- <-.
    assert (Hc : <[sp := with_entries ([] ++ [mkEntry name eid (wrap32 ty)])
                           (new_node INVALID_PAGE sp)]>
                   (<[sp := new_node INVALID_PAGE sp]> (m_node_cache d1))
                 = {[ sp := mkNode INVALID_PAGE sp [] [mkEntry name eid (wrap32 ty)] true ]}).
    { rewrite insert_insert_eq, Hcache1, Hempty. reflexivity. }
    unfold set_cache. simpl. simpl in Hc. rewrite Hc. split.
    + exists fl1, (λ _, 0%nat), 0%nat, (λ _, None), (λ _, None). split.
      * eapply (tree_ok_first d fl d1 fl1); eauto.
        constructor.
        -- apply (to_stream Hok).
        -- intros pg nd Hpg. rewrite Hempty in Hpg. by rewrite lookup_empty in Hpg.
        -- intros p _. by rewrite Hempty.
        -- done.
        -- intros Hne. contradiction.
      * apply (keys_ok_first d1).
    + rewrite (contents_empty d Hempty). simpl.
      by erewrite contents_singleton by reflexivity.
  - destruct b'.
    + injection Hrun as <- <-. split; [|done]. eauto 10.
    + apply bind_inv in Hrun as ([] & d2 & Hins & Hrun).
      injection Hrun as <- <-. unfold insert_and_balance in Hins.
      rewrite (find_node_resident name d fl h H NoFocus Hok Hroot) in Hfind'.
      destruct (to_root Hok Hroot) as (rd & Hrd & _).
      destruct (ko_root Hkeys Hroot) as [Hlor Hhir].
      destruct (search_path d fl h H NoFocus lo hi Hok Hkeys name BTREE_MAX_DEPTH
                  (m_root_page d) rd node i d Hrd) as (_ & _ & xd' & Hx' & _ & Hlo & Hhi
                                                        & _ & Habs);
        [by rewrite Hlor|by rewrite Hhir|exact Hfind'|].
      rewrite Hx in Hx'. injection Hx' as <-.
      destruct (insert_and_balance_rec_sorted (BTREE_MAX_DEPTH - 0) d fl h H NoFocus
                  lo hi None node xd
                  (mkEntry name eid (wrap32 ty)) INVALID_PAGE d2 Hok Hkeys Hx)
        as (fl' & h' & H' & lo' & hi' & Hok' & Hkeys' & Hcont').
      * left. auto.
      * left. simpl. auto.
      * lia.
      * exact Hins.
      * split; [eauto 10|]. by rewrite Hcont'.
Qed.

End AddOrder.


(** ** [merge], [rotate] and the loss of the root keep the names in order *)

Section RebalanceOrder.
Context {P : Params} {HP : ParamsOk} {HO : NameOrder}.

Lemma reparent_shape parent cs (c : gmap Z BtreeNode) pg nd' :
  reparent parent cs c !! pg = Some nd' →
  ∃ nd, c !! pg = Some nd ∧ m_entries nd' = m_entries nd
        ∧ m_child_indices nd' = m_child_indices nd.
Proof.
  rewrite lookup_reparent. destruct (decide _); [|eauto].
  destruct (c !! pg) as [nd|]; [|done]. intros [= <-]. eauto.
Qed.

Lemma reparent_entries parent cs (c : gmap Z BtreeNode) pg :
  m_entries <$> reparent parent cs c !! pg = m_entries <$> c !! pg.
Proof.
  rewrite lookup_reparent. destruct (decide _); [|done]. by destruct (c !! pg).
Qed.

Lemma index_of_lookup pg (l : list Z) j :
  NoDup l → l !! j = Some pg → index_of pg l = Some j.
Proof.
  intros Hnd Hj.
  destruct (index_of_elem pg l) as [j' Hj']; [by eapply list_elem_of_lookup_2|].
  rewrite Hj'. f_equal. eapply NoDup_lookup; [done| |done]. by apply index_of_Some.
Qed.

(** An entry of a node lies within the bounds of the children on either
    side of it. *)
Lemma sep_within lo hi blo bhi es cs i sep :
  keys_at lo hi None blo bhi es cs → es !! i = Some sep →
  above (child_lo es blo i) (filename sep)
  ∧ beneath (filename sep) (child_hi es bhi (S i)).
Proof.
  intros K Hi.
  assert (Hin : sep ∈ es) by by eapply list_elem_of_lookup_2.
  split.
  - destruct i as [|i']; simpl; [by apply (ka_above K)|].
    destruct (lookup_lt_is_Some_2 es i') as [b Hb].
    { apply lookup_lt_Some in Hi. lia. }
    rewrite Hb. simpl. apply (sorted_lookup_lt es i' (S i') b sep (ka_sorted K)); auto.
  - unfold child_hi. destruct (es !! S i) as [b|] eqn:Hb; [|by apply (ka_beneath K)].
    simpl. apply (sorted_lookup_lt es i (S i) sep b (ka_sorted K)); auto.
Qed.

(** An entry within the bounds of two adjacent children can take the place
    of the entry between them. *)
Lemma between_children lo hi blo bhi es cs i e :
  keys_at lo hi None blo bhi es cs → (i < length es)%nat →
  above (child_lo es blo i) (filename e) →
  beneath (filename e) (child_hi es bhi (S i)) →
  (∀ j a, es !! j = Some a → (j < i)%nat → entry_lt a e)
  ∧ (∀ j a, es !! j = Some a → (i < j)%nat → entry_lt e a)
  ∧ above blo (filename e) ∧ beneath (filename e) bhi.
Proof.
  intros K Hi Hlo Hhi. split; [|split; [|split]].
  - intros j a Hj Hji. destruct i as [|i']; [lia|]. simpl in Hlo.
    destruct (lookup_lt_is_Some_2 es i') as [b Hb]; [lia|].
    rewrite Hb in Hlo. simpl in Hlo. unfold entry_lt, entry_less.
    destruct (sorted_lookup_le es j i' a b (ka_sorted K) Hj Hb) as [->|Hlt];
      [lia|done|].
    by eapply name_less_trans.
  - intros j a Hj Hij. unfold child_hi in Hhi.
    destruct (lookup_lt_is_Some_2 es (S i)) as [b Hb].
    { apply lookup_lt_Some in Hj. lia. }
    rewrite Hb in Hhi. simpl in Hhi. unfold entry_lt, entry_less.
    destruct (sorted_lookup_le es (S i) j b a (ka_sorted K) Hb Hj) as [->|Hlt];
      [lia|done|].
    by eapply name_less_trans.
  - apply (child_lo_above es blo i); [apply (ka_above K)|lia|done].
  - apply (child_hi_beneath es bhi (S i)); [apply (ka_beneath K)|done].
Qed.

Section Adjacent.
Variables (d : BtreeDirectory) (fl : list Z) (h : Z → nat) (H : nat).
Variables (n q l r : Z) (qd ld rd : BtreeNode).
Variables (lo hi : Z → bound) (i : nat) (sep : DirEntry).
Hypothesis Hok : tree_ok d fl h H (Deficient n).
Hypothesis Hkeys : keys_ok d lo hi None.
Hypothesis Hq : m_node_cache d !! q = Some qd.
Hypothesis Hl : m_node_cache d !! l = Some ld.
Hypothesis Hr : m_node_cache d !! r = Some rd.
Hypothesis Hli : m_child_indices qd !! i = Some l.
Hypothesis Hri : m_child_indices qd !! S i = Some r.
Hypothesis Hsep : m_entries qd !! i = Some sep.
Hypothesis Hn : n = l ∨ n = r.
Set Default Proof Using "All".

Lemma adj_left : l ∈ m_child_indices qd.
Proof. by eapply list_elem_of_lookup_2. Qed.

Lemma adj_right : r ∈ m_child_indices qd.
Proof. by eapply list_elem_of_lookup_2. Qed.

Lemma adj_ne : l ≠ r.
Proof.
  intros Heq. rewrite <- Heq in Hri.
  pose proof (NoDup_lookup _ _ _ _ (ok_nodup (to_nodes Hok _ _ Hq)) Hli Hri). lia.
Qed.

Lemma adj_index : index_of r (m_child_indices qd) = Some (S i).
Proof. apply index_of_lookup; [apply (ok_nodup (to_nodes Hok _ _ Hq))|done]. Qed.

(** The bounds of the two nodes meet at the separator. *)
Lemma adj_bounds :
  lo l = child_lo (m_entries qd) (lo q) i ∧ hi l = Some (filename sep)
  ∧ lo r = Some (filename sep) ∧ hi r = child_hi (m_entries qd) (hi q) (S i).
Proof.
  pose proof (ko_nodes Hkeys _ _ Hq) as K. simpl in K.
  split; [apply (ka_lo K _ _ Hli)|].
  split; [rewrite (ka_hi K _ _ Hli) by done; unfold child_hi; by rewrite Hsep|].
  split; [rewrite (ka_lo K _ _ Hri); simpl; by rewrite Hsep|].
  by apply (ka_hi K _ _ Hri).
Qed.

Lemma adj_kid c :
  c ∈ m_child_indices ld ++ m_child_indices rd →
  c ≠ l ∧ c ≠ r ∧ c ≠ q ∧ c ∉ m_child_indices qd.
Proof.
  intros Hc.
  destruct (sib_kid d fl h H n q l r qd ld rd Hok Hq Hl Hr adj_left adj_right
              adj_ne Hn c Hc) as (_ & _ & _ & _ & ? & ? & ? & _ & ?).
  auto.
Qed.

(** The two nodes and the separator, as one node. *)
Lemma adj_joined :
  keys_at lo hi None (lo l) (hi r)
    (m_entries ld ++ sep :: m_entries rd)
    (m_child_indices ld ++ m_child_indices rd).
Proof.
  destruct adj_bounds as (Hlol & Hhil & Hlor & Hhir).
  pose proof (ko_nodes Hkeys _ _ Hl) as Kl.
  pose proof (ko_nodes Hkeys _ _ Hr) as Kr.
  pose proof (ko_nodes Hkeys _ _ Hq) as Kq. simpl in Kl, Kr, Kq.
  rewrite Hhil in Kl. rewrite Hlor in Kr.
  destruct (sep_within _ _ _ _ _ _ _ _ Kq Hsep) as [Ha Hb].
  apply keys_at_join; try done.
  - by rewrite Hlol.
  - by rewrite Hhir.
  - destruct (ok_shape (to_nodes Hok _ _ Hl)) as [Hnil|Hs]; [|by left].
    right. split; [done|].
    by apply (sib_leaf d fl h H n q l r qd ld rd Hok Hq Hl Hr adj_left adj_right
                adj_ne Hn).
Qed.

(** A resident node other than the three has none of them as a child. *)
Lemma adj_other pg nd c :
  m_node_cache d !! pg = Some nd → pg ≠ q → c ∈ m_child_indices nd →
  c ≠ l ∧ c ≠ r.
Proof.
  intros Hpg Hne Hc.
  destruct (child_facts _ _ _ _ _ Hok _ _ _ Hpg Hc) as (cd & Hcd & Hcp & _).
  destruct (sib_left d fl h H n q l r qd ld rd Hok Hq Hl Hr adj_left adj_right
              adj_ne Hn) as (Hpl & _).
  destruct (sib_right d fl h H n q l r qd ld rd Hok Hq Hl Hr adj_left adj_right
              adj_ne Hn) as (Hpr & _).
  split; intros ->; congruence.
Qed.

Lemma adj_root :
  m_root_page d ≠ INVALID_PAGE → m_root_page d ≠ l ∧ m_root_page d ≠ r.
Proof.
  intros Hroot. destruct (to_root Hok Hroot) as (xd & Hxd & Hxp & _).
  destruct (sib_left d fl h H n q l r qd ld rd Hok Hq Hl Hr adj_left adj_right
              adj_ne Hn) as (Hpl & _ & Hlq & _).
  destruct (sib_right d fl h H n q l r qd ld rd Hok Hq Hl Hr adj_left adj_right
              adj_ne Hn) as (Hpr & _ & Hrq & _).
  pose proof (cached_not_invalid _ _ _ _ _ Hok _ _ Hq) as Hqne.
  split; intros Heq; rewrite Heq in Hxd; congruence.
Qed.

(** *** [merge] *)

Lemma lookup_merge_cache pg :
  merge_cache l r q ld rd qd i (S i) sep (m_node_cache d) !! pg
  = if decide (pg = r) then None
    else if decide (pg = l) then Some (merged ld rd sep)
    else if decide (pg = q) then Some (merge_parent qd i (S i))
    else if decide (pg ∈ m_child_indices rd)
         then with_parent l <$> m_node_cache d !! pg
         else m_node_cache d !! pg.
Proof.
  unfold merge_cache.
  destruct (decide (pg = r)) as [->|Hpr]; [by rewrite lookup_delete_eq|].
  rewrite lookup_delete_ne by done.
  destruct (decide (pg = l)) as [->|Hpl]; [by rewrite lookup_insert_eq|].
  rewrite lookup_insert_ne by done. rewrite lookup_reparent.
  destruct (decide (pg = q)) as [->|Hpq].
  - rewrite lookup_insert_eq. destruct (decide _) as [Hin|]; [|done].
    destruct (adj_kid q) as (_ & _ & ? & _); [|done].
    apply elem_of_app. by right.
  - by rewrite lookup_insert_ne by done.
Qed.

Lemma keys_ok_merge d1 :
  m_root_page d1 = m_root_page d →
  m_node_cache d1 = merge_cache l r q ld rd qd i (S i) sep (m_node_cache d) →
  keys_ok d1 lo (<[l := hi r]> hi) None.
Proof.
  intros Hroot Hcache. pose proof adj_ne as Hlr.
  destruct (sib_left d fl h H n q l r qd ld rd Hok Hq Hl Hr adj_left adj_right
              adj_ne Hn) as (Hpl & _ & Hlq & _).
  constructor; [| |done].
  - intros pg nd' Hpg. rewrite Hcache, lookup_merge_cache in Hpg. simpl.
    destruct (decide (pg = r)) as [->|Hpr]; [done|].
    destruct (decide (pg = l)) as [->|Hpl'].
    { injection Hpg as <-. simpl. rewrite fn_lookup_insert.
      rewrite <- app_assoc. simpl.
      eapply keys_at_ghost; [| |exact adj_joined]; [done|].
      intros c Hc _. split; [|done].
      rewrite fn_lookup_insert_ne; [done|].
      apply not_eq_sym. by destruct (adj_kid c Hc). }
    rewrite fn_lookup_insert_ne by by apply not_eq_sym.
    destruct (decide (pg = q)) as [->|Hpq].
    { injection Hpg as <-. simpl.
      apply (keys_at_delete lo hi _ (lo q) (hi q) _ _ i l r); try done.
      - apply (ko_nodes Hkeys _ _ Hq).
      - apply (ok_nodup (to_nodes Hok _ _ Hq)).
      - by rewrite fn_lookup_insert.
      - intros c _ Hcl. by rewrite fn_lookup_insert_ne by by apply not_eq_sym. }
    assert (Hold : ∃ nd, m_node_cache d !! pg = Some nd
              ∧ m_entries nd' = m_entries nd
              ∧ m_child_indices nd' = m_child_indices nd).
    { destruct (decide _); [|eauto].
      destruct (m_node_cache d !! pg) as [nd|]; [|done].
      injection Hpg as <-. eauto. }
    destruct Hold as (nd & Hnd & -> & ->).
    eapply keys_at_ghost; [| |exact (ko_nodes Hkeys _ _ Hnd)]; [done|].
    intros c Hc _. split; [|done].
    rewrite fn_lookup_insert_ne; [done|].
    apply not_eq_sym. by destruct (adj_other pg nd c Hnd Hpq Hc).
  - rewrite Hroot. intros Hr0. destruct (adj_root Hr0) as [Hrl _].
    rewrite fn_lookup_insert_ne by by apply not_eq_sym.
    apply (ko_root Hkeys Hr0).
Qed.

Lemma contents_merge d1 :
  m_node_cache d1 = merge_cache l r q ld rd qd i (S i) sep (m_node_cache d) →
  contents d1 ≡ₚ contents d.
Proof.
  intros Hcache. pose proof adj_ne as Hlr.
  destruct (sib_left d fl h H n q l r qd ld rd Hok Hq Hl Hr adj_left adj_right
              adj_ne Hn) as (_ & _ & Hlq & _).
  destruct (sib_right d fl h H n q l r qd ld rd Hok Hq Hl Hr adj_left adj_right
              adj_ne Hn) as (_ & _ & Hrq & _).
  pose proof (contents_change [l; r; q] d d1) as Hc.
  simpl in Hc. unfold entries_at in Hc. rewrite Hcache in Hc.
  rewrite !lookup_merge_cache in Hc.
  destruct (decide (l = r)); [done|]. destruct (decide (l = l)); [|done].
  destruct (decide (r = r)); [|done]. destruct (decide (q = r)); [done|].
  destruct (decide (q = l)); [done|]. destruct (decide (q = q)); [|done].
  rewrite Hl, Hr, Hq in Hc. simpl in Hc. rewrite !app_nil_r in Hc.
  apply (Permutation_app_inv_r (m_entries ld ++ m_entries rd ++ m_entries qd)).
  rewrite Hc.
  - rewrite (delete_Permutation (m_entries qd) i sep Hsep) at 2. solve_Permutation.
  - apply NoDup_cons. split.
    { intros [?|[?|[]%elem_of_nil]%elem_of_cons]%elem_of_cons; done. }
    apply NoDup_cons. split; [|apply NoDup_singleton].
    intros ?%list_elem_of_singleton. done.
  - intros pg Hpg. rewrite lookup_merge_cache.
    destruct (decide (pg = r)) as [->|_]; [exfalso; apply Hpg; right; left|].
    destruct (decide (pg = l)) as [->|_]; [exfalso; apply Hpg; left|].
    destruct (decide (pg = q)) as [->|_]; [exfalso; apply Hpg; right; right; left|].
    destruct (decide _); [|done]. by destruct (m_node_cache d !! pg).
Qed.

(** What [merge] leaves. *)
Lemma merge_state d' :
  (length (m_entries ld) + length (m_entries rd) < MAX_NUM_ENTRIES)%nat →
  merge l r q i d = Ok (tt, d') →
  m_root_page d' = m_root_page d
  ∧ m_node_cache d' = merge_cache l r q ld rd qd i (S i) sep (m_node_cache d).
Proof.
  intros Hsum Hrun. pose proof adj_ne as Hlr.
  destruct (sib_left d fl h H n q l r qd ld rd Hok Hq Hl Hr adj_left adj_right
              adj_ne Hn) as (Hpl & Hhl & Hlq' & Hnl).
  destruct (sib_right d fl h H n q l r qd ld rd Hok Hq Hl Hr adj_left adj_right
              adj_ne Hn) as (Hpr & Hhr & Hrq' & Hnr).
  assert (Hlrcs : l ∉ m_child_indices rd).
  { intros Hin. destruct (adj_kid l) as (? & _); [|done].
    apply elem_of_app. by right. }
  rewrite (merge_eq l r q i d ld rd qd sep (S i)) in Hrun by (done || apply adj_index).
  set (c1 := <[l:=merged ld rd sep]>
               (reparent l (m_child_indices rd)
                  (<[q:=merge_parent qd i (S i)]> (m_node_cache d)))) in Hrun.
  assert (Hr1 : c1 !! r = Some rd).
  { unfold c1. rewrite lookup_insert_ne by done. rewrite lookup_reparent.
    rewrite lookup_insert_ne by done. rewrite Hr.
    destruct (decide (r ∈ m_child_indices rd)) as [Hin|_]; [|done].
    destruct (adj_kid r) as (_ & ? & _); [|done].
    apply elem_of_app. by right. }
  destruct (deallocate_page_ok (set_cache c1 d) fl r) as
    (d1 & Hd & Hso1 & Hpages & Hcache1 & Hroot1).
  { apply (stream_ok_frame d); [reflexivity|reflexivity|apply (to_stream Hok)]. }
  { apply (ok_range (to_nodes Hok _ _ Hr)). }
  { apply (free_not_cached _ _ _ _ _ Hok _ _ Hr). }
  rewrite (del_node_eq r rd (set_cache c1 d) d1 Hr1 Hnr Hd) in Hrun.
  injection Hrun as <-. simpl. split; [done|]. by rewrite Hcache1.
Qed.

(** *** [rotate] *)

Section Rotating.
Variable sep' : DirEntry.
Hypothesis Hsum :
  (MAX_NUM_ENTRIES ≤ length (m_entries ld) + length (m_entries rd))%nat.
Hypothesis Hsep' : rotate_entries ld rd sep !! rotate_middle ld rd = Some sep'.

Let c' := rotate_cache l r q ld rd qd i sep sep' (m_node_cache d).
Let lo' : Z → bound := <[r := Some (filename sep')]> lo.
Let hi' : Z → bound := <[l := Some (filename sep')]> hi.

Lemma lookup_rotate_cache :
  c' !! r = Some (rotated_right ld rd sep)
  ∧ c' !! l = Some (rotated_left ld rd sep)
  ∧ c' !! q = Some (with_entries (<[i := sep']> (m_entries qd)) qd).
Proof.
  pose proof adj_ne as Hlr.
  destruct (sib_left d fl h H n q l r qd ld rd Hok Hq Hl Hr adj_left adj_right
              adj_ne Hn) as (_ & _ & Hlq & _).
  destruct (sib_right d fl h H n q l r qd ld rd Hok Hq Hl Hr adj_left adj_right
              adj_ne Hn) as (_ & _ & Hrq & _).
  unfold c', rotate_cache.
  split; [by rewrite lookup_insert_eq|].
  split; [rewrite lookup_insert_ne by done; by rewrite lookup_insert_eq|].
  rewrite !lookup_insert_ne by by apply not_eq_sym.
  rewrite !lookup_reparent, lookup_insert_eq.
  assert (Hnq : q ∉ rotate_children ld rd).
  { intros Hin. by destruct (adj_kid q Hin) as (_ & _ & ? & _). }
  destruct (decide (q ∈ drop _ _)) as [Hin|_];
    [exfalso; apply Hnq; by eapply subseteq_drop|].
  destruct (decide (q ∈ take _ _)) as [Hin|_];
    [exfalso; apply Hnq; by eapply subseteq_take|].
  done.
Qed.

Lemma rotate_shape pg nd' :
  c' !! pg = Some nd' → pg ≠ l → pg ≠ r → pg ≠ q →
  ∃ nd, m_node_cache d !! pg = Some nd ∧ m_entries nd' = m_entries nd
        ∧ m_child_indices nd' = m_child_indices nd.
Proof.
  unfold c', rotate_cache. intros Hpg Hpl Hpr Hpq.
  rewrite !lookup_insert_ne in Hpg by done.
  apply reparent_shape in Hpg as (n1 & Hpg & -> & ->).
  apply reparent_shape in Hpg as (n2 & Hpg & -> & ->).
  rewrite lookup_insert_ne in Hpg by done. eauto.
Qed.

Lemma rotate_sep_bounds :
  above (lo l) (filename sep') ∧ beneath (filename sep') (hi r).
Proof.
  pose proof adj_joined as K.
  assert (Hin : sep' ∈ m_entries ld ++ sep :: m_entries rd).
  { by eapply list_elem_of_lookup_2. }
  split; [by apply (ka_above K)|by apply (ka_beneath K)].
Qed.

Lemma keys_ok_rotate : keys_ok (set_cache c' d) lo' hi' None.
Proof.
  pose proof adj_ne as Hlr. pose proof adj_joined as K.
  destruct adj_bounds as (Hlol & Hhil & Hlor & Hhir).
  destruct rotate_sep_bounds as [Hsa Hsb].
  destruct (sib_left d fl h H n q l r qd ld rd Hok Hq Hl Hr adj_left adj_right
              adj_ne Hn) as (Hpl & _ & Hlq & _).
  destruct (sib_right d fl h H n q l r qd ld rd Hok Hq Hl Hr adj_left adj_right
              adj_ne Hn) as (Hpr & _ & Hrq & _).
  assert (Hghost : ∀ c, c ≠ l → c ≠ r → lo' c = lo c ∧ hi' c = hi c).
  { intros c Hcl Hcr. unfold lo', hi'.
    by rewrite !fn_lookup_insert_ne by by apply not_eq_sym. }
  constructor; [| |done].
  - intros pg nd' Hpg. simpl in Hpg |- *. fold c' in Hpg.
    destruct (decide (pg = r)) as [->|Hpr'].
    { destruct lookup_rotate_cache as (Hcr & _). rewrite Hcr in Hpg.
      injection Hpg as <-. simpl. rewrite Nat.add_1_r.
      unfold lo' at 2, hi' at 2. rewrite fn_lookup_insert.
      rewrite fn_lookup_insert_ne by done.
      eapply keys_at_ghost;
        [| |exact (keys_at_split_right _ _ _ _ _ _ _ _ _ K Hsep')].
      - intros c Hc. apply Hghost; apply subseteq_drop in Hc;
          by destruct (adj_kid c Hc) as (? & ? & _).
      - intros c Hc _. split; [|done]. apply Hghost; apply subseteq_drop in Hc;
          by destruct (adj_kid c Hc) as (? & ? & _). }
    destruct (decide (pg = l)) as [->|Hpl'].
    { destruct lookup_rotate_cache as (_ & Hcl & _). rewrite Hcl in Hpg.
      injection Hpg as <-. simpl. rewrite Nat.add_1_r.
      unfold lo' at 2, hi' at 2. rewrite fn_lookup_insert.
      rewrite fn_lookup_insert_ne by by apply not_eq_sym.
      eapply keys_at_ghost;
        [| |exact (keys_at_split_left _ _ _ _ _ _ _ _ _ K Hsep')].
      - intros c Hc. apply Hghost; apply subseteq_take in Hc;
          by destruct (adj_kid c Hc) as (? & ? & _).
      - intros c Hc _. split; [|done]. apply Hghost; apply subseteq_take in Hc;
          by destruct (adj_kid c Hc) as (? & ? & _). }
    destruct (Hghost pg Hpl' Hpr') as [-> ->].
    destruct (decide (pg = q)) as [->|Hpq].
    { destruct lookup_rotate_cache as (_ & _ & Hcq). rewrite Hcq in Hpg.
      injection Hpg as <-. simpl.
      pose proof (ko_nodes Hkeys _ _ Hq) as Kq. simpl in Kq.
      assert (Hilt : (i < length (m_entries qd))%nat) by by eapply lookup_lt_Some.
      rewrite Hlol in Hsa. rewrite Hhir in Hsb.
      destruct (between_children _ _ _ _ _ _ _ _ Kq Hilt Hsa Hsb)
        as (B1 & B2 & B3 & B4).
      apply (keys_at_replace lo hi); try done.
      intros k c Hk. pose proof (ok_nodup (to_nodes Hok _ _ Hq)) as Hnd.
      split.
      - destruct (decide (k = S i)) as [->|Hne].
        + assert (c = r) as -> by congruence. unfold lo'. by rewrite fn_lookup_insert.
        + unfold lo'. rewrite fn_lookup_insert_ne; [done|].
          intros <-. apply Hne. by apply (NoDup_lookup _ _ _ _ Hnd Hk Hri).
      - destruct (decide (k = i)) as [->|Hne].
        + assert (c = l) as -> by congruence. unfold hi'. by rewrite fn_lookup_insert.
        + unfold hi'. rewrite fn_lookup_insert_ne; [done|].
          intros <-. apply Hne. by apply (NoDup_lookup _ _ _ _ Hnd Hk Hli). }
    destruct (rotate_shape pg nd' Hpg Hpl' Hpr' Hpq) as (nd & Hnd & -> & ->).
    eapply keys_at_ghost; [| |exact (ko_nodes Hkeys _ _ Hnd)].
    + intros c Hc. apply Hghost; by destruct (adj_other pg nd c Hnd Hpq Hc).
    + intros c Hc _. split; [|done].
      apply Hghost; by destruct (adj_other pg nd c Hnd Hpq Hc).
  - simpl. intros Hr0. destruct (adj_root Hr0) as [Hrl Hrr].
    destruct (Hghost _ Hrl Hrr) as [-> ->]. apply (ko_root Hkeys Hr0).
Qed.

Lemma contents_rotate : contents (set_cache c' d) ≡ₚ contents d.
Proof.
  pose proof adj_ne as Hlr.
  destruct (sib_left d fl h H n q l r qd ld rd Hok Hq Hl Hr adj_left adj_right
              adj_ne Hn) as (_ & _ & Hlq & _).
  destruct (sib_right d fl h H n q l r qd ld rd Hok Hq Hl Hr adj_left adj_right
              adj_ne Hn) as (_ & _ & Hrq & _).
  pose proof (contents_change [l; r; q] d (set_cache c' d)) as Hc.
  simpl in Hc. unfold entries_at in Hc. fold c' in Hc.
  destruct lookup_rotate_cache as (Hcr & Hcl & Hcq).
  rewrite Hcr, Hcl, Hcq, Hl, Hr, Hq in Hc. simpl in Hc. rewrite !app_nil_r in Hc.
  apply (Permutation_app_inv_r (m_entries ld ++ m_entries rd ++ m_entries qd)).
  rewrite Hc.
  - set (T := rotate_entries ld rd sep) in *. set (m := rotate_middle ld rd) in *.
    assert (HT : T ≡ₚ sep' :: take m T ++ drop (m + 1) T).
    { rewrite <- (take_drop_middle T m sep' Hsep') at 1. rewrite Nat.add_1_r.
      solve_Permutation. }
    assert (HQ : <[i := sep']> (m_entries qd) ≡ₚ sep' :: delete i (m_entries qd)).
    { rewrite insert_take_drop by by eapply lookup_lt_Some.
      rewrite delete_take_drop. solve_Permutation. }
    rewrite HQ. rewrite (delete_Permutation (m_entries qd) i sep Hsep) at 2.
    transitivity (contents d ++ T ++ delete i (m_entries qd)).
    + rewrite HT at 3. solve_Permutation.
    + unfold T, rotate_entries. solve_Permutation.
  - apply NoDup_cons. split.
    { intros [?|[?|[]%elem_of_nil]%elem_of_cons]%elem_of_cons; done. }
    apply NoDup_cons. split; [|apply NoDup_singleton].
    intros ?%list_elem_of_singleton. done.
  - intros pg Hpg. simpl. fold c'. unfold c', rotate_cache.
    rewrite !lookup_insert_ne.
    + rewrite !reparent_entries. rewrite lookup_insert_ne; [done|].
      intros <-. apply Hpg. right; right; left.
    + intros <-. apply Hpg. left.
    + intros <-. apply Hpg. right; left.
Qed.

End Rotating.

(** What [rotate] leaves. *)
Lemma rotate_state d' :
  (MAX_NUM_ENTRIES ≤ length (m_entries ld) + length (m_entries rd))%nat →
  rotate l r q i d = Ok (tt, d') →
  ∃ sep', rotate_entries ld rd sep !! rotate_middle ld rd = Some sep'
    ∧ d' = set_cache (rotate_cache l r q ld rd qd i sep sep' (m_node_cache d)) d.
Proof.
  intros Hsum Hrun. pose proof adj_ne as Hlr.
  destruct (sib_left d fl h H n q l r qd ld rd Hok Hq Hl Hr adj_left adj_right
              adj_ne Hn) as (Hpl & Hhl & Hlq' & Hnl).
  destruct (sib_right d fl h H n q l r qd ld rd Hok Hq Hl Hr adj_left adj_right
              adj_ne Hn) as (Hpr & Hhr & Hrq' & Hnr).
  pose proof (sib_sizes d fl h H n q l r qd ld rd Hok Hq Hl Hr adj_left adj_right
                adj_ne Hn) as (_ & _ & _ & Hxl & Hxr).
  destruct (rotate_sizes _ _ Hsum Hxl Hxr) as (Hm1 & Hm2 & Hm3).
  fold (rotate_middle ld rd) in Hm1, Hm2, Hm3.
  destruct (lookup_lt_is_Some_2 (rotate_entries ld rd sep)
              (rotate_middle ld rd)) as [sep' Hsep'].
  { unfold rotate_entries. rewrite !length_app. simpl. lia. }
  exists sep'. split; [done|].
  rewrite (rotate_eq l r q i d ld rd qd sep sep') in Hrun; try done.
  - by injection Hrun as <-.
  - apply (sib_leaf d fl h H n q l r qd ld rd Hok Hq Hl Hr adj_left adj_right
             adj_ne Hn).
  - intros Hne.
    destruct (sib_shape d fl h H n q l r qd ld rd Hok Hq Hl Hr adj_left adj_right
                adj_ne Hn) as [Hnil|Hs].
    + apply app_eq_nil in Hnil as [? _]. done.
    + unfold rotate_children. rewrite Hs. lia.
  - intros Hin. by destruct (adj_kid l Hin) as (? & _).
  - intros Hin. by destruct (adj_kid r Hin) as (_ & ? & _).
Qed.

(** Either way the tree stays a search tree with the same entries. *)
Lemma merge_sorted d' :
  (length (m_entries ld) + length (m_entries rd) < MAX_NUM_ENTRIES)%nat →
  merge l r q i d = Ok (tt, d') →
  tree_ok d' (r :: fl) h H (Deficient q) ∧ is_Some (m_node_cache d' !! q)
  ∧ keys_ok d' lo (<[l := hi r]> hi) None ∧ contents d' ≡ₚ contents d.
Proof.
  intros Hsum Hrun.
  destruct (merge_ok d fl h H n q l r qd ld rd Hok Hq Hl Hr adj_left adj_right
              adj_ne Hn i sep d' Hsep Hsum Hrun) as [Hok' Hq'].
  destruct (merge_state d' Hsum Hrun) as [Hroot Hcache].
  split; [done|]. split; [done|].
  split; [by apply keys_ok_merge|by apply contents_merge].
Qed.

Lemma rotate_sorted d' :
  (MAX_NUM_ENTRIES ≤ length (m_entries ld) + length (m_entries rd))%nat →
  rotate l r q i d = Ok (tt, d') →
  tree_ok d' fl h H (Deficient q) ∧ is_Some (m_node_cache d' !! q)
  ∧ (∃ lo' hi', keys_ok d' lo' hi' None) ∧ contents d' ≡ₚ contents d.
Proof.
  intros Hsum Hrun.
  destruct (rotate_ok d fl h H n q l r qd ld rd Hok Hq Hl Hr adj_left adj_right
              adj_ne Hn i sep d' Hsep Hsum Hrun) as [Hok' Hq'].
  destruct (rotate_state d' Hsum Hrun) as (sep' & Hsep' & ->).
  split; [done|]. split; [done|].
  split; [|by apply contents_rotate].
  eexists _, _. by apply keys_ok_rotate.
Qed.

(** The entries of the left node come before those of the right one. *)
Lemma adj_order a b :
  a ∈ m_entries ld → b ∈ m_entries rd → entry_less a b = true.
Proof.
  intros Ha Hb. destruct adj_bounds as (_ & Hhil & Hlor & _).
  pose proof (ka_beneath (ko_nodes Hkeys _ _ Hl) a Ha) as H1.
  pose proof (ka_above (ko_nodes Hkeys _ _ Hr) b Hb) as H2.
  rewrite Hhil in H1. rewrite Hlor in H2. simpl in H1, H2.
  unfold entry_less. by eapply name_less_trans.
Qed.

Unset Default Proof Using.
End Adjacent.

(** *** The root without an entry *)

Lemma keys_ok_collapse d fl h H lo hi n nd c d1 :
  tree_ok d fl h H (Deficient n) → keys_ok d lo hi None →
  m_node_cache d !! n = Some nd →
  m_parent_num nd = INVALID_PAGE → m_entries nd = [] → m_child_indices nd = [c] →
  m_root_page d1 = c →
  m_node_cache d1 = collapse_cache n c (m_node_cache d) →
  keys_ok d1 lo hi None ∧ contents d1 ≡ₚ contents d.
Proof.
  intros Hok Hkeys Hn Hpar Hes Hcs Hroot Hcache.
  pose proof (ok_root (to_nodes Hok _ _ Hn) Hpar) as Hnr.
  pose proof (cached_not_invalid _ _ _ _ _ Hok _ _ Hn) as Hnne.
  pose proof (ko_nodes Hkeys _ _ Hn) as Kn. simpl in Kn. rewrite Hes, Hcs in Kn.
  assert (Hrn : m_root_page d ≠ INVALID_PAGE) by congruence.
  destruct (ko_root Hkeys Hrn) as [Hlo Hhi]. rewrite <- Hnr in Hlo, Hhi.
  split.
  - constructor; [| |done].
    + intros pg nd' Hpg. simpl. rewrite Hcache in Hpg. unfold collapse_cache in Hpg.
      destruct (decide (pg = n)) as [->|Hne]; [by rewrite lookup_delete_eq in Hpg|].
      rewrite lookup_delete_ne in Hpg by done.
      apply reparent_shape in Hpg as (nd0 & Hpg & -> & ->).
      apply (ko_nodes Hkeys _ _ Hpg).
    + rewrite Hroot. intros _.
      rewrite (ka_lo Kn 0%nat c eq_refl), (ka_hi Kn 0%nat c eq_refl) by done.
      simpl. by rewrite Hlo, Hhi.
  - pose proof (contents_change [n] d d1) as Hc.
    simpl in Hc. unfold entries_at in Hc. rewrite Hcache in Hc.
    unfold collapse_cache in Hc at 2. rewrite lookup_delete_eq, Hn in Hc.
    simpl in Hc. rewrite Hes in Hc. rewrite !app_nil_r in Hc.
    rewrite <- Hcache in Hc. apply Hc; [apply NoDup_singleton|].
    intros pg Hpg. rewrite Hcache. unfold collapse_cache.
    rewrite lookup_delete_ne.
    + apply reparent_entries.
    + intros <-. apply Hpg. left.
Qed.

End RebalanceOrder.


(** ** [balance_up] keeps the names in order *)

Section BalanceOrder.
Context {P : Params} {HP : ParamsOk} {HO : NameOrder}.

(** The sibling that [find_sibling] picks is the child next to the node, and
    the index is that of the entry between the two. *)
Lemma find_sibling_adjacent d fl h H n nd qd :
  tree_ok d fl h H (Deficient n) → m_node_cache d !! n = Some nd →
  m_parent_num nd ≠ INVALID_PAGE →
  m_node_cache d !! m_parent_num nd = Some qd →
  ∃ ei s sd sep, find_sibling (m_parent_num nd) n d = Ok ((ei, s), d)
    ∧ m_node_cache d !! s = Some sd
    ∧ m_entries qd !! ei = Some sep
    ∧ (m_child_indices qd !! ei = Some n ∧ m_child_indices qd !! S ei = Some s
       ∨ m_child_indices qd !! ei = Some s ∧ m_child_indices qd !! S ei = Some n
         ∧ length (m_child_indices qd) = S (S ei)).
Proof.
  intros Hok Hn Hne Hq. set (q := m_parent_num nd) in *.
  pose proof (to_nodes Hok _ _ Hn) as Hnok.
  pose proof (to_nodes Hok _ _ Hq) as Hqok.
  pose proof low_entries_min as Hmin2.
  destruct (parent_facts _ _ _ _ _ Hok _ _ Hn Hne) as (Hh & Hqn & qd' & Hqd' & Hor).
  fold q in Hqd'. assert (qd' = qd) as -> by congruence.
  destruct Hor as [Hnq|?]; [|done].
  assert (Hlens : length (m_child_indices qd) = S (length (m_entries qd))).
  { destruct (ok_shape Hqok) as [Hnil|Hs]; [|done].
    rewrite Hnil in Hnq. by apply not_elem_of_nil in Hnq. }
  destruct (index_of_elem n _ Hnq) as [idx Hidx].
  pose proof (index_of_Some _ _ _ Hidx) as Hidx'.
  pose proof (lookup_lt_Some _ _ _ Hidx') as Hidxlt.
  destruct (find_sibling_ok d fl h H n nd qd Hok Hn Hne Hq)
    as (ei & s & sd & Hfs & Hsd & Hsq & _ & Hsn & [sep Hsep]).
  exists ei, s, sd, sep. split; [done|]. split; [done|]. split; [done|].
  fold q in Hfs. revert Hfs. unfold find_sibling.
  rewrite (bind_Ok _ _ _ _ _ (deref_intro _ _ _ Hq)).
  rewrite (bind_Ok _ _ _ _ _ (deref_intro _ _ _ Hn)).
  rewrite dir_check_bind, (ok_num Hqok).
  rewrite bool_decide_eq_true_2 by done.
  rewrite (ok_num Hnok), Hidx.
  destruct (decide (idx + 1 = length (m_child_indices qd))%nat) as [Hlast|Hnl].
  - destruct idx as [|idx']; [done|].
    destruct (m_child_indices qd !! idx') as [c|] eqn:Hc; [|done].
    destruct (child_facts _ _ _ _ _ Hok _ _ c Hq) as (cd & Hcd & Hcp & _);
      [by eapply list_elem_of_lookup_2|].
    rewrite (bind_Ok _ _ _ _ _ (retrieve_node_resident q c d cd Hcd (or_intror (eq_sym Hcp)))).
    intros [= <- <-]. right. split; [done|]. split; [done|]. lia.
  - destruct (m_child_indices qd !! (idx + 1)%nat) as [c|] eqn:Hc; [|done].
    destruct (child_facts _ _ _ _ _ Hok _ _ c Hq) as (cd & Hcd & Hcp & _);
      [by eapply list_elem_of_lookup_2|].
    rewrite (bind_Ok _ _ _ _ _ (retrieve_node_resident q c d cd Hcd (or_intror (eq_sym Hcp)))).
    intros [= <- <-]. left. rewrite Nat.add_1_r in Hc. done.
Qed.

(** [balance_up], when it returns, leaves a search tree with the entries that
    it found. *)
Lemma balance_up_rec_sorted budget :
  ∀ d fl h H lo hi n nd d',
    tree_ok d fl h H (Deficient n) → keys_ok d lo hi None →
    m_node_cache d !! n = Some nd →
    balance_up_rec budget n d = Ok (tt, d') →
    (∃ fl' h' H' lo' hi',
        tree_ok d' fl' h' H' NoFocus ∧ keys_ok d' lo' hi' None)
    ∧ contents d' ≡ₚ contents d.
Proof.
  induction budget as [|budget IH]; intros d fl h H lo hi n nd d' Hok Hkeys Hn Hrun;
    [discriminate|].
  pose proof (to_nodes Hok _ _ Hn) as Hnok.
  cbn [balance_up_rec] in Hrun.
  rewrite (bind_Ok _ _ _ _ _ (deref_intro _ _ _ Hn)) in Hrun.
  assert (Hsettled :
    (m_parent_num nd ≠ INVALID_PAGE → (low_entries ≤ length (m_entries nd))%nat) →
    (m_parent_num nd = INVALID_PAGE → m_child_indices nd ≠ [] →
     (1 ≤ length (m_entries nd))%nat) →
    (∃ fl' h' H' lo' hi',
        tree_ok d fl' h' H' NoFocus ∧ keys_ok d lo' hi' None)
    ∧ contents d ≡ₚ contents d).
  { intros H1 H2. split; [|done]. exists fl, h, H, lo, hi. split; [|done].
    by apply (tree_ok_settled d fl h H n nd). }
  destruct (decide (m_parent_num nd = INVALID_PAGE)) as [Hroot|Hnonroot].
  - rewrite (bool_decide_eq_true_2 _ Hroot) in Hrun. cbn [andb orb] in Hrun.
    destruct (bool_decide (m_entries nd = [])) eqn:Hes;
      [apply bool_decide_eq_true in Hes|apply bool_decide_eq_false in Hes];
      cbn [andb] in Hrun.
    + destruct (bool_decide (m_child_indices nd = [])) eqn:Hcs;
        [apply bool_decide_eq_true in Hcs|apply bool_decide_eq_false in Hcs];
        cbn [negb] in Hrun.
      * injection Hrun as <-. by apply Hsettled.
      * rewrite dir_check_bind in Hrun.
        destruct (bool_decide _) eqn:Hone in Hrun; [|discriminate].
        apply bool_decide_eq_true in Hone.
        destruct (m_child_indices nd) as [|c [|c' cs]] eqn:Hch; try discriminate.
        rewrite (bind_Ok _ _ _ _ _ (adjust_children_in_cache_eq _ _ _ _ Hn)) in Hrun.
        rewrite Hch in Hrun.
        assert (Hcin : c ∈ m_child_indices nd) by (rewrite Hch; by left).
        destruct (child_facts _ _ _ _ _ Hok _ _ _ Hn Hcin)
          as (cd & Hcd & Hcp & Hhc & Hcn & Hcne).
        assert (Hn' : reparent INVALID_PAGE [c] (m_node_cache d) !! n = Some nd).
        { rewrite lookup_reparent. destruct (decide (n ∈ [c])) as [Hx|_]; [|done].
          apply list_elem_of_singleton in Hx. congruence. }
        erewrite bind_Ok in Hrun by (apply deref_intro; exact Hn').
        rewrite Hch in Hrun. cbn [head] in Hrun.
        unfold set_root_page at 1, modify at 1 in Hrun. unfold bind at 1 in Hrun.
        cbn [m_stream m_root_page m_start_free_page m_num_free_page m_node_cache
               set_cache] in Hrun.
        match type of Hrun with
        | del_node n ?st = _ => set (dm := st) in *
        end.
        destruct (deallocate_page_ok dm fl n) as
          (d1 & Hd & Hso1 & Hpages & Hcache1 & Hroot1).
        { apply (stream_ok_frame d); [reflexivity|reflexivity|apply (to_stream Hok)]. }
        { apply (ok_range Hnok). }
        { apply (free_not_cached _ _ _ _ _ Hok _ _ Hn). }
        rewrite (del_node_eq n nd dm d1 Hn' (ok_num Hnok) Hd) in Hrun.
        injection Hrun as <-.
        destruct (keys_ok_collapse d fl h H lo hi n nd c
                    (set_cache (delete n (m_node_cache d1)) d1)) as [Hk Hc];
          try done.
        { simpl. by rewrite Hcache1. }
        split; [|done]. exists (n :: fl), h, (h c), lo, hi. split; [|done].
        apply (tree_ok_collapse d fl h H n nd c); try done.
        -- apply (stream_ok_frame d1); [reflexivity|reflexivity|exact Hso1].
        -- simpl. by rewrite Hcache1.
    + injection Hrun as <-. apply Hsettled; [done|].
      intros _ _. destruct (m_entries nd); [done|simpl; lia].
  - rewrite (bool_decide_eq_false_2 _ Hnonroot) in Hrun. cbn [andb orb] in Hrun.
    destruct (bool_decide (MAX_NUM_ENTRIES / 2 ≤ length (m_entries nd))%nat) eqn:Hfill;
      [apply bool_decide_eq_true in Hfill|apply bool_decide_eq_false in Hfill].
    + injection Hrun as <-. apply Hsettled; [|done].
      intros _. pose proof low_entries_le_min as Hle.
      unfold min_entries in Hle. lia.
    + destruct (parent_facts _ _ _ _ _ Hok _ _ Hn Hnonroot)
        as (Hh & Hqn & qd & Hqd & Hor).
      rewrite (bind_Ok _ _ _ _ _ (retrieve_existing_node_eq _ _)) in Hrun.
      rewrite Hqd in Hrun.
      destruct (find_sibling_adjacent d fl h H n nd qd Hok Hn Hnonroot Hqd)
        as (ei & s & sd & sep & Hfs & Hsd & Hsep & Hadj).
      rewrite (bind_Ok _ _ _ _ _ Hfs) in Hrun. cbn [fst snd] in Hrun.
      rewrite (bind_Ok _ _ _ _ _ (deref_intro _ _ _ Hn)) in Hrun.
      rewrite (bind_Ok _ _ _ _ _ (deref_intro _ _ _ Hsd)) in Hrun.
      apply bind_inv in Hrun as ([] & d2 & Hstep & Hrun).
      destruct (last (m_entries nd)) as [a|] eqn:Ha; [|discriminate].
      destruct (head (m_entries sd)) as [b|] eqn:Hb; [|discriminate].
      assert (Hain : a ∈ m_entries nd).
      { apply last_Some in Ha as [l' ->]. apply elem_of_app. right. by left. }
      assert (Hbin : b ∈ m_entries sd).
      { destruct (m_entries sd); [done|]. injection Hb as ->. by left. }
      assert (Hnext : ∃ fl2 lo2 hi2,
                tree_ok d2 fl2 h H (Deficient (m_parent_num nd))
                ∧ is_Some (m_node_cache d2 !! m_parent_num nd)
                ∧ keys_ok d2 lo2 hi2 None ∧ contents d2 ≡ₚ contents d).
      { destruct Hadj as [[Hl Hr]|(Hl & Hr & _)].
        - (* the node is the left one *)
          rewrite (adj_order d fl h H n (m_parent_num nd) n s qd nd sd lo hi ei sep
                     Hok Hkeys Hqd Hn Hsd Hl Hr Hsep (or_introl eq_refl) a b Hain
                     Hbin) in Hstep.
          destruct (decide (length (m_entries nd) + length (m_entries sd)
                            < MAX_NUM_ENTRIES)%nat) as [Hsum|Hsum].
          + destruct (merge_sorted d fl h H n (m_parent_num nd) n s qd nd sd lo hi
                        ei sep Hok Hkeys Hqd Hn Hsd Hl Hr Hsep (or_introl eq_refl)
                        d2 Hsum Hstep) as (? & ? & ? & ?).
            eauto 10.
          + destruct (rotate_sorted d fl h H n (m_parent_num nd) n s qd nd sd lo hi
                        ei sep Hok Hkeys Hqd Hn Hsd Hl Hr Hsep (or_introl eq_refl)
                        d2) as (? & ? & (lo2 & hi2 & ?) & ?); [lia|done|].
            eauto 10.
        - (* the node is the right one *)
          pose proof (adj_order d fl h H n (m_parent_num nd) s n qd sd nd lo hi ei sep
                     Hok Hkeys Hqd Hsd Hn Hl Hr Hsep (or_intror eq_refl) b a Hbin
                     Hain) as Hba.
          unfold entry_less in Hba. apply name_less_asym in Hba.
          unfold entry_less in Hstep. rewrite Hba in Hstep.
          destruct (decide (length (m_entries nd) + length (m_entries sd)
                            < MAX_NUM_ENTRIES)%nat) as [Hsum|Hsum].
          + destruct (merge_sorted d fl h H n (m_parent_num nd) s n qd sd nd lo hi
                        ei sep Hok Hkeys Hqd Hsd Hn Hl Hr Hsep (or_intror eq_refl)
                        d2) as (? & ? & ? & ?); [lia|done|].
            eauto 10.
          + destruct (rotate_sorted d fl h H n (m_parent_num nd) s n qd sd nd lo hi
                        ei sep Hok Hkeys Hqd Hsd Hn Hl Hr Hsep (or_intror eq_refl)
                        d2) as (? & ? & (lo2 & hi2 & ?) & ?); [lia|done|].
            eauto 10. }
      destruct Hnext as (fl2 & lo2 & hi2 & Hok2 & [qd2 Hqd2] & Hkeys2 & Hc2).
      destruct (IH d2 fl2 h H lo2 hi2 (m_parent_num nd) qd2 d' Hok2 Hkeys2 Hqd2 Hrun)
        as [Hres Hc]. split; [done|]. by rewrite Hc.
Qed.

End BalanceOrder.


(** ** [replace_with_sub_entry] keeps the names in order *)

Section ReplaceOrder.
Context {P : Params} {HP : ParamsOk} {HO : NameOrder}.

(** A bound that is not the name stays. *)
Lemma rebound_ne x x' b : b ≠ Some x → rebound x x' b = b.
Proof. intros Hne. unfold rebound. by destruct (decide _). Qed.

Lemma rebound_eq x x' : rebound x x' (Some x) = Some x'.
Proof. unfold rebound. by destruct (decide _). Qed.

(** A node without the name [x], when [x] gives way to a lesser name [x']
    in the bounds: the entries of a node that had [x] above it must be less
    than [x']. *)
Lemma keys_at_rebound lo hi blo bhi es cs x x' :
  keys_at lo hi None blo bhi es cs →
  (∀ a, a ∈ es → filename a ≠ x) →
  name_less x' x = true →
  (bhi = Some x → ∀ a, a ∈ es → name_less (filename a) x' = true) →
  keys_at (λ pg, rebound x x' (lo pg)) (λ pg, rebound x x' (hi pg)) None
    (rebound x x' blo) (rebound x x' bhi) es cs.
Proof.
  intros K Hno Hlt Hhi. constructor.
  - apply (ka_sorted K).
  - intros a Ha. pose proof (ka_above K a Ha) as Hab. unfold rebound.
    destruct (decide (blo = Some x)) as [->|]; [|done]. simpl in *.
    by eapply name_less_trans.
  - intros a Ha. pose proof (ka_beneath K a Ha) as Hab. unfold rebound.
    destruct (decide (bhi = Some x)) as [Heq|]; [|done]. simpl. by apply Hhi.
  - intros i c Hc. rewrite (ka_lo K i c Hc). destruct i as [|j]; [done|]. simpl.
    destruct (es !! j) as [b|] eqn:Hb; simpl; [|done].
    apply rebound_ne. intros [= Heq]. apply (Hno b); [|done].
    by eapply list_elem_of_lookup_2.
  - intros i c Hc _. rewrite (ka_hi K i c Hc) by done. unfold child_hi.
    destruct (es !! i) as [b|] eqn:Hb; [|done].
    apply rebound_ne. intros [= Heq]. apply (Hno b); [|done].
    by eapply list_elem_of_lookup_2.
Qed.

Section Resident.
Variables (d : BtreeDirectory) (fl : list Z) (h : Z → nat) (H : nat).
Variables (lo hi : Z → bound).
Hypothesis Hok : tree_ok d fl h H NoFocus.
Hypothesis Hkeys : keys_ok d lo hi None.
Set Default Proof Using "All".

(** A name is stored at one place only. *)
Lemma stored_once m1 md1 k1 e1 m2 md2 k2 e2 :
  m_node_cache d !! m1 = Some md1 → m_entries md1 !! k1 = Some e1 →
  m_node_cache d !! m2 = Some md2 → m_entries md2 !! k2 = Some e2 →
  filename e1 = filename e2 → m1 = m2 ∧ k1 = k2.
Proof.
  intros Hm1 Hk1 Hm2 Hk2 Heq.
  pose proof (cached_in_tree d fl h H Hok _ _ Hm1) as Hin1.
  pose proof (cached_in_tree d fl h H Hok _ _ Hm2) as Hin2.
  apply in_tree_below in Hin1 as [Hroot Hb1]. apply in_tree_below in Hin2 as [_ Hb2].
  destruct (to_root Hok Hroot) as (rd & Hrd & _).
  destruct (search_total d fl h H NoFocus lo hi Hok Hkeys (filename e1)
              (S (h (m_root_page d))) _ _ Hrd) as [r Hrun]; [lia|].
  destruct (search_finds d fl h H NoFocus lo hi Hok Hkeys m1 md1 k1 e1 _ Hm1 Hk1
              _ _ _ _ Hrd Hb1 Hrun) as [Hr1 _].
  rewrite Heq in Hrun.
  destruct (search_finds d fl h H NoFocus lo hi Hok Hkeys m2 md2 k2 e2 _ Hm2 Hk2
              _ _ _ _ Hrd Hb2 Hrun) as [Hr2 _].
  rewrite Hr1 in Hr2. by injection Hr2.
Qed.

(** The last child of an internal node. *)
Lemma last_child c cd t :
  m_node_cache d !! c = Some cd → last (m_child_indices cd) = Some t →
  m_child_indices cd !! length (m_entries cd) = Some t.
Proof.
  intros Hc Hlast. rewrite last_lookup in Hlast.
  destruct (ok_shape (to_nodes Hok _ _ Hc)) as [Hnil|Hs].
  - by rewrite Hnil in Hlast.
  - by rewrite Hs in Hlast.
Qed.

Lemma spine_below c s : spine d c s → below d c s.
Proof.
  induction 1 as [c|c cd t s Hc Hlast _ IH]; [constructor|].
  apply (below_trans d c t s); [|done].
  eapply below_child; [constructor|done|].
  by eapply list_elem_of_lookup_2, last_child.
Qed.

Lemma spine_hi c s : spine d c s → hi s = hi c.
Proof.
  induction 1 as [c|c cd t s Hc Hlast _ IH]; [done|].
  rewrite IH.
  destruct (child_bounds d fl h H NoFocus lo hi Hok Hkeys c cd _ t Hc
              (last_child c cd t Hc Hlast)) as [_ ->].
  unfold child_hi. by rewrite lookup_ge_None_2.
Qed.

Lemma spine_ext c s sd t :
  spine d c s → m_node_cache d !! s = Some sd →
  last (m_child_indices sd) = Some t → spine d c t.
Proof.
  intros Hsp. induction Hsp as [c|c cd t' s Hc Hlast _ IH]; intros Hs Ht.
  - eapply spine_step; [done|done|constructor].
  - eapply spine_step; [done|done|]. by apply IH.
Qed.

Lemma spine_linear c s lf lfd :
  spine d c s → spine d c lf → m_node_cache d !! lf = Some lfd →
  m_child_indices lfd = [] → spine d s lf.
Proof.
  intros Hsp. induction Hsp as [c|c cd t s Hc Hlast _ IH]; intros Hlf Hlfd Hleaf;
    [done|].
  inversion Hlf as [|c0 cd0 t0 s0 Hc0 Hlast0 Hsp0]; subst.
  - rewrite Hc in Hlfd. injection Hlfd as <-. by rewrite Hleaf in Hlast.
  - rewrite Hc in Hc0. injection Hc0 as <-. rewrite Hlast in Hlast0.
    injection Hlast0 as <-. by apply IH.
Qed.

(** The entries of a node are less than those further down its spine. *)
Lemma spine_entries_lt s sd lf lfd e' :
  spine d s lf → s ≠ lf → m_node_cache d !! s = Some sd →
  m_node_cache d !! lf = Some lfd → e' ∈ m_entries lfd →
  ∀ a, a ∈ m_entries sd → name_less (filename a) (filename e') = true.
Proof.
  intros Hsp Hne Hs Hlf He' a Ha.
  inversion Hsp as [|c0 cd0 t0 s0 Hc0 Hlast0 Hsp0]; subst; [done|].
  rewrite Hs in Hc0. injection Hc0 as <-.
  pose proof (last_child s sd t0 Hs Hlast0) as Ht.
  destruct (child_bounds d fl h H NoFocus lo hi Hok Hkeys s sd _ t0 Hs Ht)
    as [Hlo Hhi].
  destruct (stored_within d fl h H NoFocus lo hi Hok Hkeys t0 lf lfd e'
              (spine_below _ _ Hsp0) Hlf He') as [Hab Hbe].
  rewrite Hlo in Hab. rewrite Hhi in Hbe.
  pose proof (partition_child _ _ _ _ _ (ka_sorted (ko_nodes Hkeys _ _ Hs))
                (Nat.le_refl _) Hab Hbe) as (_ & Hp & _).
  apply list_elem_of_lookup in Ha as [j Hj].
  apply (Hp j a Hj). by eapply lookup_lt_Some.
Qed.

(** The walk of [replace_with_sub_entry] goes down a spine. *)
Lemma rightmost_leaf_spine fuel :
  ∀ c cd l d', m_node_cache d !! c = Some cd →
    rightmost_leaf fuel c d = Ok (l, d') → spine d c l.
Proof.
  induction fuel as [|fuel IH]; intros c cd l d' Hc Hrun; [discriminate|].
  cbn [rightmost_leaf] in Hrun.
  rewrite (bind_Ok _ _ _ _ _ (deref_intro _ _ _ Hc)) in Hrun.
  unfold is_leaf in Hrun.
  destruct (bool_decide (m_child_indices cd = [])) eqn:Hleaf.
  { injection Hrun as <- <-. constructor. }
  destruct (last (m_child_indices cd)) as [x|] eqn:Hlast; [|discriminate].
  assert (Hx : x ∈ m_child_indices cd).
  { apply last_Some in Hlast as [l' ->]. apply elem_of_app. right. by left. }
  destruct (child_facts _ _ _ _ _ Hok _ _ _ Hc Hx) as (xd & Hxd & Hxp & _ & _ & Hxne).
  rewrite (bind_Ok _ _ _ _ _ (retrieve_node_resident (m_num cd) x d xd Hxd
             (or_intror (eq_trans (ok_num (to_nodes Hok _ _ Hc)) (eq_sym Hxp)))))
    in Hrun.
  eapply spine_step; [done|done|]. by eapply IH.
Qed.

Section Internal.
Variables (n : Z) (nd : BtreeNode) (index : nat) (e : DirEntry) (c : Z).
Variables (lf : Z) (ld : BtreeNode) (e' : DirEntry).
Hypothesis Hn : m_node_cache d !! n = Some nd.
Hypothesis He : m_entries nd !! index = Some e.
Hypothesis Hc : m_child_indices nd !! index = Some c.
Hypothesis Hsp : spine d c lf.
Hypothesis Hld : m_node_cache d !! lf = Some ld.
Hypothesis Hleaf : m_child_indices ld = [].
Hypothesis He' : last (m_entries ld) = Some e'.

Let x := filename e.
Let x' := filename e'.
Let lo' : Z → bound := λ pg, rebound x x' (lo pg).
Let hi' : Z → bound := λ pg, rebound x x' (hi pg).
Let c' := <[lf := with_entries (pop_back (m_entries ld)) ld]>
            (<[n := with_entries (<[index := e']> (m_entries nd)) nd]>
               (m_node_cache d)).

Lemma pred_in : e' ∈ m_entries ld.
Proof. apply last_Some in He' as [l' ->]. apply elem_of_app. right. by left. Qed.

Lemma pred_ne : lf ≠ n.
Proof.
  intros Heq. rewrite Heq, Hn in Hld. injection Hld as <-.
  by rewrite Hleaf in Hc.
Qed.

Lemma pred_hi : hi c = Some x ∧ hi lf = Some x.
Proof.
  destruct (child_bounds d fl h H NoFocus lo hi Hok Hkeys n nd _ c Hn Hc)
    as [_ Hhi].
  unfold child_hi in Hhi. rewrite He in Hhi.
  split; [done|]. by rewrite (spine_hi c lf Hsp).
Qed.

(** The entry taken from the leaf comes before the one it replaces, and
    lies within the bounds of the child. *)
Lemma pred_bounds :
  name_less x' x = true ∧ above (lo c) x' ∧ above (lo lf) x'.
Proof.
  destruct pred_hi as [Hhc Hhl].
  pose proof (ko_nodes Hkeys _ _ Hld) as K. simpl in K.
  pose proof (ka_beneath K e' pred_in) as Hb. rewrite Hhl in Hb.
  split; [done|].
  split; [|by apply (ka_above K e' pred_in)].
  by destruct (stored_within d fl h H NoFocus lo hi Hok Hkeys c lf ld e'
                 (spine_below _ _ Hsp) Hld pred_in).
Qed.

(** Only the nodes of the spine have the name as their upper bound. *)
Lemma hi_on_spine pg pgd :
  m_node_cache d !! pg = Some pgd → hi pg = Some x → spine d c pg.
Proof.
  intros Hpg. pose proof (cached_in_tree d fl h H Hok _ _ Hpg) as Hin.
  revert pgd Hpg. induction Hin as [Hroot|p pd k _ IH Hp Hk]; intros pgd Hpg Hhi.
  - destruct (ko_root Hkeys Hroot) as [_ Hnone]. congruence.
  - apply list_elem_of_lookup in Hk as [j Hj].
    destruct (child_bounds d fl h H NoFocus lo hi Hok Hkeys p pd j k Hp Hj)
      as [_ Hhik].
    rewrite Hhi in Hhik. unfold child_hi in Hhik.
    destruct (m_entries pd !! j) as [b|] eqn:Hb.
    + injection Hhik as Hx.
      destruct (stored_once n nd index e p pd j b Hn He Hp Hb Hx) as [<- <-].
      assert (k = c) as -> by congruence. constructor.
    + apply (spine_ext c p pd k); [by apply (IH pd)|done|].
      rewrite last_lookup.
      pose proof (lookup_lt_Some _ _ _ Hj) as Hlt.
      apply lookup_ge_None_1 in Hb.
      destruct (ok_shape (to_nodes Hok _ _ Hp)) as [Hnil|Hs].
      { by rewrite Hnil in Hj. }
      rewrite Hs. simpl. assert (j = length (m_entries pd)) as <- by lia. done.
Qed.

Lemma keys_ok_replaced : keys_ok (set_cache c' d) lo' hi' None.
Proof.
  destruct pred_hi as [Hhc Hhl]. destruct pred_bounds as (Hlt & Hac & Hal).
  pose proof pred_ne as Hne. pose proof pred_in as Hin.
  pose proof (ko_nodes Hkeys _ _ Hn) as Kn. simpl in Kn.
  pose proof (ko_nodes Hkeys _ _ Hld) as Kl. simpl in Kl.
  assert (Hein : e ∈ m_entries nd) by by eapply list_elem_of_lookup_2.
  assert (Hlon : lo n ≠ Some x).
  { intros Heq. pose proof (ka_above Kn e Hein) as Ha. rewrite Heq in Ha.
    simpl in Ha. unfold x in Ha. by rewrite name_less_irrefl in Ha. }
  assert (Hhin : hi n ≠ Some x).
  { intros Heq. pose proof (ka_beneath Kn e Hein) as Ha. rewrite Heq in Ha.
    simpl in Ha. unfold x in Ha. by rewrite name_less_irrefl in Ha. }
  constructor; [| |done].
  - intros pg nd' Hpg. simpl in Hpg |- *. fold c' in Hpg. unfold c' in Hpg.
    destruct (decide (pg = lf)) as [->|Hpl].
    { rewrite lookup_insert_eq in Hpg. injection Hpg as <-. simpl. rewrite Hleaf.
      apply keys_at_leaf; [apply sorted_take, (ka_sorted Kl)|].
      intros a Ha. unfold pop_back in Ha.
      apply list_elem_of_lookup in Ha as [j Hj].
      apply lookup_take_Some in Hj as [Hj Hjlt].
      assert (Hain : a ∈ m_entries ld) by by eapply list_elem_of_lookup_2.
      assert (Hae : name_less (filename a) x' = true).
      { rewrite last_lookup in He'.
        apply (sorted_lookup_lt _ j _ a e' (ka_sorted Kl) Hj He'). lia. }
      split.
      - unfold lo'. rewrite rebound_ne; [by apply (ka_above Kl)|].
        intros Heq. rewrite Heq in Hal. simpl in Hal.
        pose proof (name_less_asym _ _ Hal). congruence.
      - unfold hi'. rewrite Hhl, rebound_eq. done. }
    rewrite lookup_insert_ne in Hpg by done.
    destruct (decide (pg = n)) as [->|Hpn].
    { rewrite lookup_insert_eq in Hpg. injection Hpg as <-. simpl.
      unfold lo' at 2, hi' at 2. rewrite !rebound_ne by done.
      assert (Hilt : (index < length (m_entries nd))%nat) by by eapply lookup_lt_Some.
      destruct (child_bounds d fl h H NoFocus lo hi Hok Hkeys n nd _ c Hn Hc)
        as [Hloc _].
      rewrite Hloc in Hac.
      destruct (sep_within _ _ _ _ _ _ _ _ Kn He) as [_ Hsb].
      destruct (between_children _ _ _ _ _ _ index e' Kn Hilt Hac)
        as (B1 & B2 & B3 & B4); [by eapply beneath_trans|].
      apply (keys_at_replace lo hi); try done.
      intros k c0 Hk.
      destruct (child_bounds d fl h H NoFocus lo hi Hok Hkeys n nd _ c0 Hn Hk)
        as [Hlo0 Hhi0].
      unfold lo', hi'. rewrite Hlo0, Hhi0. split.
      - destruct (decide (k = S index)) as [->|Hks].
        + simpl. rewrite He. apply rebound_eq.
        + destruct k as [|j]; [by apply rebound_ne|]. simpl.
          destruct (m_entries nd !! j) as [b|] eqn:Hb; [|done]. simpl.
          apply rebound_ne. intros [= Heq]. apply Hks. f_equal.
          by apply (sorted_name_inj _ _ _ _ _ (ka_sorted Kn) Hb He).
      - unfold child_hi. destruct (decide (k = index)) as [->|Hki].
        + rewrite He. apply rebound_eq.
        + destruct (m_entries nd !! k) as [b|] eqn:Hb; [|by apply rebound_ne].
          apply rebound_ne. intros [= Heq]. apply Hki.
          by apply (sorted_name_inj _ _ _ _ _ (ka_sorted Kn) Hb He). }
    rewrite lookup_insert_ne in Hpg by done.
    apply keys_at_rebound; [apply (ko_nodes Hkeys _ _ Hpg)| |done|].
    + intros a Ha Heq. apply list_elem_of_lookup in Ha as [j Hj].
      destruct (stored_once pg nd' j a n nd index e Hpg Hj Hn He Heq) as [? _].
      done.
    + intros Hhi a Ha.
      pose proof (hi_on_spine pg nd' Hpg Hhi) as Hsp1.
      pose proof (spine_linear c pg lf ld Hsp1 Hsp Hld Hleaf) as Hsp2.
      by apply (spine_entries_lt pg nd' lf ld e' Hsp2 Hpl Hpg Hld Hin).
  - simpl. intros Hroot. destruct (ko_root Hkeys Hroot) as [Hl0 Hh0].
    unfold lo', hi'. by rewrite Hl0, Hh0.
Qed.

Lemma contents_replaced : e :: contents (set_cache c' d) ≡ₚ contents d.
Proof.
  pose proof pred_ne as Hne.
  pose proof (contents_change [lf; n] d (set_cache c' d)) as Hcc.
  simpl in Hcc. unfold entries_at in Hcc. fold c' in Hcc.
  assert (Hc1 : c' !! lf = Some (with_entries (pop_back (m_entries ld)) ld)).
  { unfold c'. by rewrite lookup_insert_eq. }
  assert (Hc2 : c' !! n = Some (with_entries (<[index := e']> (m_entries nd)) nd)).
  { unfold c'. rewrite lookup_insert_ne by done. by rewrite lookup_insert_eq. }
  rewrite Hc1, Hc2, Hld, Hn in Hcc. simpl in Hcc. rewrite !app_nil_r in Hcc.
  assert (Hpop : m_entries ld = pop_back (m_entries ld) ++ [e']).
  { apply last_Some in He' as [l' Hl']. rewrite Hl'. unfold pop_back.
    rewrite length_app. simpl. rewrite Nat.add_sub. by rewrite take_app_length. }
  assert (HQ : <[index := e']> (m_entries nd) ≡ₚ e' :: delete index (m_entries nd)).
  { rewrite insert_take_drop by by eapply lookup_lt_Some.
    rewrite delete_take_drop. solve_Permutation. }
  apply (Permutation_app_inv_r
           (pop_back (m_entries ld) ++ e' :: delete index (m_entries nd))).
  transitivity (contents (set_cache c' d) ++ m_entries ld ++ m_entries nd).
  - rewrite Hpop at 2. rewrite (delete_Permutation (m_entries nd) index e He) at 2.
    solve_Permutation.
  - rewrite Hcc.
    + rewrite HQ. solve_Permutation.
    + apply NoDup_cons. split; [|apply NoDup_singleton].
      intros ?%list_elem_of_singleton. done.
    + intros pg Hpg. simpl. unfold c'. rewrite !lookup_insert_ne; [done| |].
      * intros <-. apply Hpg. right; left.
      * intros <-. apply Hpg. left.
Qed.

End Internal.

(** A leaf may lose entries. *)
Lemma keys_ok_shrink_leaf p pd es' :
  m_node_cache d !! p = Some pd → m_child_indices pd = [] →
  sorted_entries es' → (∀ a, a ∈ es' → a ∈ m_entries pd) →
  keys_ok (set_cache (<[p := with_entries es' pd]> (m_node_cache d)) d) lo hi None.
Proof.
  intros Hp Hleaf Hs Hsub. constructor; [| |done].
  - intros pg nd' Hpg. simpl in Hpg |- *.
    destruct (decide (pg = p)) as [->|Hne].
    + rewrite lookup_insert_eq in Hpg. injection Hpg as <-. simpl. rewrite Hleaf.
      pose proof (ko_nodes Hkeys _ _ Hp) as K. simpl in K.
      apply keys_at_leaf; [done|]. intros a Ha.
      split; [apply (ka_above K)|apply (ka_beneath K)]; auto.
    + rewrite lookup_insert_ne in Hpg by done. apply (ko_nodes Hkeys _ _ Hpg).
  - simpl. apply (ko_root Hkeys).
Qed.

(** [replace_with_sub_entry] takes the entry away and leaves a search tree. *)
Lemma replace_with_sub_entry_sorted n nd index e depth l d' :
  m_node_cache d !! n = Some nd → m_entries nd !! index = Some e →
  replace_with_sub_entry n index depth d = Ok (l, d') →
  (∃ ld lo' hi', m_node_cache d' !! l = Some ld
      ∧ tree_ok d' fl h H (Deficient l) ∧ keys_ok d' lo' hi' None)
  ∧ e :: contents d' ≡ₚ contents d.
Proof.
  intros Hn He Hrun.
  destruct (replace_with_sub_entry_ok d fl h H n nd index depth l d' Hok Hn Hrun)
    as (ld' & Hld' & Hok').
  pose proof (to_nodes Hok _ _ Hn) as Hnok.
  unfold replace_with_sub_entry in Hrun. rewrite dir_check_bind in Hrun.
  destruct (bool_decide _) in Hrun; [|discriminate].
  rewrite (bind_Ok _ _ _ _ _ (deref_intro _ _ _ Hn)) in Hrun.
  unfold is_leaf in Hrun.
  destruct (bool_decide (m_child_indices nd = [])) eqn:Hleaf;
    [apply bool_decide_eq_true in Hleaf|apply bool_decide_eq_false in Hleaf].
  - destruct (decide (length (m_entries nd) ≤ index)%nat) as [|Hidx];
      [discriminate|].
    rewrite (bind_Ok _ _ _ _ _ (mutable_entries_intro _ _ _ _ Hn)) in Hrun.
    injection Hrun as <- <-. split.
    + exists ld', lo, hi. split; [done|]. split; [done|].
      apply keys_ok_shrink_leaf; try done.
      * apply sorted_delete, (ka_sorted (ko_nodes Hkeys _ _ Hn)).
      * intros a. apply elem_of_delete.
    + pose proof (contents_change [n] d
                    (set_cache (<[n := with_entries (delete index (m_entries nd)) nd]>
                                  (m_node_cache d)) d)) as Hcc.
      simpl in Hcc. unfold entries_at in Hcc.
      rewrite lookup_insert_eq, Hn in Hcc. simpl in Hcc. rewrite !app_nil_r in Hcc.
      apply (Permutation_app_inv_r (delete index (m_entries nd))).
      rewrite <- Hcc.
      * pose proof (delete_Permutation (m_entries nd) index e He) as Hdel.
        set (D := delete index (m_entries nd)) in *.
        set (C := contents _) in *. clearbody C D.
        rewrite Hdel. solve_Permutation.
      * apply NoDup_singleton.
      * intros pg Hpg. rewrite lookup_insert_ne; [done|].
        intros <-. apply Hpg. left.
  - destruct (m_child_indices nd !! index) as [c|] eqn:Hc; [|discriminate].
    assert (Hcin : c ∈ m_child_indices nd) by by eapply list_elem_of_lookup_2.
    destruct (child_facts _ _ _ _ _ Hok _ _ _ Hn Hcin)
      as (cd & Hcd & Hcp & _ & _ & Hcne).
    rewrite (bind_Ok _ _ _ _ _ (retrieve_node_resident (m_num nd) c d cd Hcd
               (or_intror (eq_trans (ok_num Hnok) (eq_sym Hcp))))) in Hrun.
    unfold gets at 1 in Hrun. unfold bind at 1 in Hrun.
    apply bind_inv in Hrun as (lf & d0 & Hwalk & Hrun).
    pose proof (rightmost_leaf_spine _ _ _ _ _ Hcd Hwalk) as Hsp.
    destruct (rightmost_leaf_ok _ _ _ _ _ _ _ _ _ _ Hok Hcd Hcne Hwalk)
      as (-> & ld & Hld & Hlleaf & Hlne).
    rewrite (bind_Ok _ _ _ _ _ (deref_intro _ _ _ Hn)) in Hrun.
    destruct (decide (length (m_entries nd) ≤ index)%nat) as [|Hidx];
      [discriminate|].
    rewrite (bind_Ok _ _ _ _ _ (deref_intro _ _ _ Hld)) in Hrun.
    destruct (last (m_entries ld)) as [e'|] eqn:Hlast; [|discriminate].
    rewrite (bind_Ok _ _ _ _ _ (mutable_entries_intro _ _ _ _ Hn)) in Hrun.
    assert (Hln : lf ≠ n) by congruence.
    set (d1 := set_cache (<[n := with_entries (<[index := e']> (m_entries nd)) nd]>
                            (m_node_cache d)) d) in *.
    assert (Hld1 : m_node_cache d1 !! lf = Some ld).
    { simpl. by rewrite lookup_insert_ne by done. }
    rewrite (bind_Ok _ _ _ _ _ (mutable_entries_intro _ _ _ _ Hld1)) in Hrun.
    injection Hrun as <- <-. split.
    + exists ld'. eexists _, _. split; [done|]. split; [done|].
      apply (keys_ok_replaced n nd index e c lf ld e' Hn He Hc Hsp Hld Hlleaf Hlast).
    + apply (contents_replaced n nd index e c lf ld e' Hn He Hc Hsp Hld Hlleaf Hlast).
Qed.

Unset Default Proof Using.
End Resident.

End ReplaceOrder.


(** ** The directory as a search tree: the public operations *)

Section SearchTree.
Context {P : Params} {HP : ParamsOk} {HO : NameOrder}.

(** In a search tree [find_node] hits a name if and only if it is stored. *)
Lemma find_node_sorted name d fl h H lo hi r d' :
  tree_ok d fl h H NoFocus → keys_ok d lo hi None →
  find_node name d = Ok (r, d') →
  d' = d
  ∧ ((∃ node i nd e, r = (Some node, i, true)
        ∧ m_node_cache d !! node = Some nd ∧ m_entries nd !! i = Some e
        ∧ filename e = name)
     ∨ ((∃ on i, r = (on, i, false)) ∧ ∀ e, stored d e → filename e ≠ name)).
Proof.
  intros Hok Hkeys Hfind.
  destruct (find_node_Ok _ _ _ _ Hfind) as [_ Hhit].
  destruct (find_node_tree _ _ _ _ _ _ _ _ Hok Hfind) as [-> Hres].
  split; [done|].
  destruct Hres as [[Hroot ->]|(Hroot & node & i & b & xd & -> & Hx & _)].
  { right. split; [eauto|]. intros e (pg & nd & Hpg & _).
    rewrite (to_empty Hok Hroot) in Hpg. by rewrite lookup_empty in Hpg. }
  destruct b.
  - left. destruct Hhit as [[i' [=]]|(node' & i' & b' & nd' & [= <- <- <-] & Hnd' & Hb')].
    destruct (Hb' eq_refl) as (e & He & Hname). eauto 10.
  - right. split; [eauto|]. intros e (pg & nd & Hpg & Hin) Hname.
    apply list_elem_of_lookup in Hin as [k Hk].
    rewrite (find_node_resident name d fl h H NoFocus Hok Hroot) in Hfind.
    destruct (to_root Hok Hroot) as (rd & Hrd & _).
    pose proof (cached_in_tree d fl h H Hok _ _ Hpg) as Hin.
    apply in_tree_below in Hin as [_ Hb].
    rewrite <- Hname in Hfind.
    by destruct (search_finds d fl h H NoFocus lo hi Hok Hkeys pg nd k e _ Hpg Hk
                   _ _ _ _ Hrd Hb Hfind) as [[=] _].
Qed.

(** [get_entry] returns what is stored under the name. *)
Lemma get_entry_sorted name d fl h H lo hi r d' :
  tree_ok d fl h H NoFocus → keys_ok d lo hi None →
  get_entry name d = Ok (r, d') →
  d' = d
  ∧ ((∃ e, stored d e ∧ filename e = name ∧ r = Some (id e, to_int (type e)))
     ∨ (r = None ∧ ∀ e, stored d e → filename e ≠ name)).
Proof.
  intros Hok Hkeys Hrun. unfold get_entry in Hrun.
  destruct (decide _); [discriminate|].
  apply bind_inv in Hrun as (res & d0 & Hfind & Hrun).
  destruct (find_node_sorted _ _ _ _ _ _ _ _ _ Hok Hkeys Hfind) as [-> Hres].
  destruct Hres as [(node & i & nd & e & -> & Hnd & He & Hname)
                   |[(on & i & ->) Hno]].
  - rewrite (bind_Ok _ _ _ _ _ (deref_intro _ _ _ Hnd)) in Hrun.
    rewrite He in Hrun. destruct (decide (name = filename e)); [|done].
    injection Hrun as <- <-. split; [done|]. left. exists e.
    split; [|done]. exists node, nd. split; [done|]. by eapply list_elem_of_lookup_2.
  - destruct on; injection Hrun as <- <-; auto.
Qed.

(** It returns whenever the name is short enough and the tree no higher
    than the search may go. *)
Lemma get_entry_total name d fl h H lo hi :
  tree_ok d fl h H NoFocus → keys_ok d lo hi None →
  (length name ≤ MAX_FILENAME_LENGTH)%nat →
  (m_root_page d ≠ INVALID_PAGE → (H < BTREE_MAX_DEPTH)%nat) →
  ∃ r, get_entry name d = Ok (r, d).
Proof.
  intros Hok Hkeys Hlen HH.
  assert (Hfind : ∃ r, find_node name d = Ok (r, d)).
  { destruct (decide (m_root_page d = INVALID_PAGE)) as [Hroot|Hroot].
    - unfold find_node. rewrite (bind_Ok _ _ _ _ _ (get_root_node_none d Hroot)).
      by eexists.
    - rewrite (find_node_resident name d fl h H NoFocus Hok Hroot).
      destruct (to_root Hok Hroot) as (rd & Hrd & _ & Hh).
      apply (search_total d fl h H NoFocus lo hi Hok Hkeys name _ _ _ Hrd).
      specialize (HH Hroot). lia. }
  destruct Hfind as [res Hfind]. unfold get_entry.
  destruct (decide _); [lia|].
  rewrite (bind_Ok _ _ _ _ _ Hfind).
  destruct (find_node_sorted _ _ _ _ _ _ _ _ _ Hok Hkeys Hfind) as [_ Hres].
  destruct Hres as [(node & i & nd & e & -> & Hnd & He & Hname)
                   |[(on & i & ->) Hno]].
  - rewrite (bind_Ok _ _ _ _ _ (deref_intro _ _ _ Hnd)).
    rewrite He. destruct (decide (name = filename e)); by eexists.
  - destruct on; by eexists.
Qed.

(** [add_entry] returns false for a name that is stored, and leaves the
    directory as it is; it returns true for any other. *)
Lemma add_entry_flag name eid ty d fl h H lo hi b d' :
  tree_ok d fl h H NoFocus → keys_ok d lo hi None →
  add_entry name eid ty d = Ok (b, d') →
  (b = true ∧ ∀ e, stored d e → filename e ≠ name)
  ∨ (b = false ∧ d' = d ∧ ∃ e, stored d e ∧ filename e = name).
Proof.
  intros Hok Hkeys Hrun. unfold add_entry in Hrun.
  destruct (decide _); [discriminate|].
  apply bind_inv in Hrun as (res & d0 & Hfind & Hrun).
  destruct (find_node_sorted _ _ _ _ _ _ _ _ _ Hok Hkeys Hfind) as [-> Hres].
  destruct Hres as [(node & i & nd & e & -> & Hnd & He & Hname)
                   |[(on & i & ->) Hno]].
  - injection Hrun as <- <-. right. split; [done|]. split; [done|].
    exists e. split; [|done]. exists node, nd. split; [done|].
    by eapply list_elem_of_lookup_2.
  - left. split; [|done]. destruct on.
    + apply bind_inv in Hrun as ([] & d2 & _ & Hrun). by injection Hrun as <- _.
    + apply bind_inv in Hrun as (pg & d1 & _ & Hrun).
      apply bind_inv in Hrun as ([] & d2 & _ & Hrun).
      apply bind_inv in Hrun as (node & d3 & _ & Hrun).
      destruct node; [|discriminate].
      apply bind_inv in Hrun as ([] & d4 & _ & Hrun). by injection Hrun as <- _.
Qed.

(** [remove_entry] takes away the entry of the name, which it returns, and
    nothing else; a name that is not stored leaves the directory as it is. *)
Lemma remove_entry_sorted name d fl h H lo hi r d' :
  tree_ok d fl h H NoFocus → keys_ok d lo hi None →
  remove_entry name d = Ok (r, d') →
  (∃ fl' h' H' lo' hi', tree_ok d' fl' h' H' NoFocus ∧ keys_ok d' lo' hi' None)
  ∧ ((r = None ∧ d' = d ∧ ∀ e, stored d e → filename e ≠ name)
     ∨ (∃ e, filename e = name ∧ r = Some (id e, to_int (type e))
             ∧ e :: contents d' ≡ₚ contents d)).
Proof.
  intros Hok Hkeys Hrun. unfold remove_entry in Hrun.
  destruct (decide _); [discriminate|].
  apply bind_inv in Hrun as (res & d0 & Hfind & Hrun).
  destruct (find_node_sorted _ _ _ _ _ _ _ _ _ Hok Hkeys Hfind) as [-> Hres].
  destruct Hres as [(node & i & nd & e & -> & Hnd & He & Hname)
                   |[(on & i & ->) Hno]].
  - rewrite (bind_Ok _ _ _ _ _ (deref_intro _ _ _ Hnd)) in Hrun.
    rewrite He in Hrun.
    apply bind_inv in Hrun as (lf & d1 & Hrep & Hrun).
    apply bind_inv in Hrun as ([] & d2 & Hbal & Hrun).
    injection Hrun as <- <-.
    destruct (replace_with_sub_entry_sorted d fl h H lo hi Hok Hkeys node nd i e
                0%nat lf d1 Hnd He Hrep)
      as [(ld & lo1 & hi1 & Hld & Hok1 & Hkeys1) Hc1].
    destruct (balance_up_rec_sorted _ d1 fl h H lo1 hi1 lf ld d2 Hok1 Hkeys1 Hld
                Hbal) as [Hres Hc2].
    split; [done|]. right. exists e. split; [done|]. split; [done|].
    by rewrite Hc2.
  - assert (r = None ∧ d' = d) as [-> ->].
    { destruct on; by injection Hrun as <- <-. }
    split; [eauto 10|]. left. auto.
Qed.

Lemma keys_ok_empty : keys_ok empty_directory (λ _, None) (λ _, None) None.
Proof.
  constructor; [| |done].
  - intros pg nd Hpg. simpl in Hpg. by rewrite lookup_empty in Hpg.
  - done.
Qed.

(** Every directory that the operations make of the empty one is a search
    tree in which no name occurs twice. *)
Lemma reachable_sorted d :
  reachable d → sorted_dir d ∧ NoDup (filename <$> contents d).
Proof.
  induction 1 as [|d name eid ty b d' _ [(fl & h & H & lo & hi & Hok & Hkeys) Hnd]
                     Hroom Hrun
                  |d name r d' _ [(fl & h & H & lo & hi & Hok & Hkeys) Hnd] Hrun].
  - split.
    + exists [], (λ _, 0%nat), 0%nat, (λ _, None), (λ _, None).
      split; [apply tree_ok_empty|apply keys_ok_empty].
    + rewrite contents_empty by done. apply NoDup_nil_2.
  - destruct (add_entry_sorted name eid ty d fl h H lo hi b d' Hok Hkeys Hroom Hrun)
      as [Hres Hc].
    split; [done|]. rewrite Hc.
    destruct (add_entry_flag name eid ty d fl h H lo hi b d' Hok Hkeys Hrun)
      as [[-> Hno]|(-> & _)]; [|done].
    simpl. apply NoDup_cons. split; [|done].
    intros (e & Hname & He)%list_elem_of_fmap.
    apply stored_contents in He. by apply (Hno e).
  - destruct (remove_entry_sorted name d fl h H lo hi r d' Hok Hkeys Hrun)
      as [Hres [(_ & -> & _)|(e & _ & _ & Hc)]]; [done|].
    split; [done|]. rewrite <- Hc in Hnd. simpl in Hnd.
    by apply NoDup_cons in Hnd as [_ ?].
Qed.

Lemma NoDup_fmap_eq {A B} (f : A → B) (l : list A) x y :
  NoDup (f <$> l) → x ∈ l → y ∈ l → f x = f y → x = y.
Proof.
  intros Hnd [i Hi]%list_elem_of_lookup [j Hj]%list_elem_of_lookup Heq.
  assert (i = j) as ->; [|congruence].
  apply (NoDup_lookup (f <$> l) i j (f x) Hnd).
  - by rewrite list_lookup_fmap, Hi.
  - by rewrite list_lookup_fmap, Hj, Heq.
Qed.

(** What [get_entry] returns depends on the stored entries alone. *)
Lemma get_entry_agree name d1 d2 r1 r2 d1' d2' :
  reachable d1 → reachable d2 →
  (∀ e, filename e = name → e ∈ contents d1 ↔ e ∈ contents d2) →
  get_entry name d1 = Ok (r1, d1') → get_entry name d2 = Ok (r2, d2') →
  r1 = r2.
Proof.
  intros Hr1 Hr2 Hsame Hg1 Hg2.
  destruct (reachable_sorted d1 Hr1) as [(fl1 & h1 & H1 & lo1 & hi1 & Hok1 & Hk1) Hnd1].
  destruct (reachable_sorted d2 Hr2) as [(fl2 & h2 & H2 & lo2 & hi2 & Hok2 & Hk2) Hnd2].
  destruct (get_entry_sorted _ _ _ _ _ _ _ _ _ Hok1 Hk1 Hg1)
    as [_ [(e1 & He1 & Hn1 & ->)|(-> & Hno1)]];
    destruct (get_entry_sorted _ _ _ _ _ _ _ _ _ Hok2 Hk2 Hg2)
      as [_ [(e2 & He2 & Hn2 & ->)|(-> & Hno2)]]; try done.
  - apply stored_contents in He1, He2.
    apply (Hsame e1 Hn1) in He1.
    assert (e1 = e2) as ->; [|done].
    apply (NoDup_fmap_eq filename (contents d2)); try done. congruence.
  - apply stored_contents, (Hsame e1 Hn1), stored_contents in He1.
    by destruct (Hno2 e1 He1).
  - apply stored_contents, (Hsame e2 Hn2), stored_contents in He2.
    by destruct (Hno1 e2 He2).
Qed.

End SearchTree.


(** ** The directory as a map from names to ids and types *)

(** *** The order of the reference implementation is a strict total order *)

Lemma byte_to_Z_inj x y : byte_to_Z x = byte_to_Z y → x = y.
Proof.
  intros Heq. rewrite <- (byte_of_to_Z x), <- (byte_of_to_Z y). by rewrite Heq.
Qed.

Lemma bytes_less_total a :
  ∀ b, bytes_less a b = false → bytes_less b a = false → a = b.
Proof.
  induction a as [|x a IH]; intros [|y b] Hab Hba; simpl in *; try done.
  destruct (decide (byte_to_Z x < byte_to_Z y)); [done|].
  destruct (decide (byte_to_Z y < byte_to_Z x)); [done|].
  f_equal; [apply byte_to_Z_inj; lia|by apply IH].
Qed.

Lemma reference_name_order : @NameOrder reference_params.
Proof.
  constructor; [apply bytes_less_irrefl|apply bytes_less_trans|apply bytes_less_total].
Qed.

Section DirectoryAsMap.
Context {P : Params} {HP : ParamsOk} {HO : NameOrder}.

(** X11. No name is stored twice: in every directory that [add_entry] and
    [remove_entry] make of the empty one, two entries with the same name are
    the same entry of the same node. *)
Theorem stored_names_are_unique d m1 md1 k1 e1 m2 md2 k2 e2 :
  reachable d →
  m_node_cache d !! m1 = Some md1 → m_entries md1 !! k1 = Some e1 →
  m_node_cache d !! m2 = Some md2 → m_entries md2 !! k2 = Some e2 →
  filename e1 = filename e2 →
  m1 = m2 ∧ k1 = k2.
Proof.
  intros Hreach Hm1 Hk1 Hm2 Hk2 Heq.
  destruct (reachable_sorted d Hreach) as [(fl & h & H & lo & hi & Hok & Hkeys) _].
  by apply (stored_once d fl h H lo hi Hok Hkeys m1 md1 k1 e1 m2 md2 k2 e2).
Qed.

(** X12. The tree is a search tree: in every directory that [add_entry] and
    [remove_entry] make of the empty one, the entries of a node ascend
    strictly by name, and every entry stored at or under the [i]-th child of
    the node comes before the [i]-th entry of the node and after the one
    before it. *)
Theorem reachable_is_search_tree d pg nd :
  reachable d → m_node_cache d !! pg = Some nd →
  sorted_entries (m_entries nd)
  ∧ ∀ i c m md a,
      m_child_indices nd !! i = Some c → below d c m →
      m_node_cache d !! m = Some md → a ∈ m_entries md →
      (∀ b, m_entries nd !! i = Some b → entry_lt a b)
      ∧ (∀ j b, i = S j → m_entries nd !! j = Some b → entry_lt b a).
Proof.
  intros Hreach Hpg.
  destruct (reachable_sorted d Hreach) as [(fl & h & H & lo & hi & Hok & Hkeys) _].
  split; [apply (ka_sorted (ko_nodes Hkeys _ _ Hpg))|].
  intros i c m md a Hc Hb Hm Ha.
  destruct (stored_within d fl h H NoFocus lo hi Hok Hkeys c m md a Hb Hm Ha)
    as [Hab Hbe].
  destruct (child_bounds d fl h H NoFocus lo hi Hok Hkeys pg nd i c Hpg Hc)
    as [Hlo Hhi].
  rewrite Hlo in Hab. rewrite Hhi in Hbe. split.
  - intros b Hb'. unfold child_hi in Hbe. by rewrite Hb' in Hbe.
  - intros j b -> Hb'. simpl in Hab. by rewrite Hb' in Hab.
Qed.

(** X13. [get_entry] finds exactly what is stored: in every directory that
    [add_entry] and [remove_entry] make of the empty one and that is no more
    than [BTREE_MAX_DEPTH] levels high, [get_entry] of a name of at most
    [MAX_FILENAME_LENGTH] bytes returns, leaves the directory as it is, and
    hands back the id and the type of the stored entry of that name, or
    nothing when no entry of that name is stored. *)
Theorem get_entry_returns_what_is_stored d name :
  reachable d →
  (length name ≤ MAX_FILENAME_LENGTH)%nat →
  (∀ pg k, at_depth d pg k → (k < BTREE_MAX_DEPTH)%nat) →
  ∃ r, get_entry name d = Ok (r, d)
    ∧ ((∃ e, stored d e ∧ filename e = name ∧ r = Some (id e, to_int (type e)))
       ∨ (r = None ∧ ∀ e, stored d e → filename e ≠ name)).
Proof.
  intros Hreach Hlen Hdepth.
  destruct (reachable_sorted d Hreach) as [(fl & h & H & lo & hi & Hok & Hkeys) _].
  destruct (get_entry_total name d fl h H lo hi Hok Hkeys Hlen) as [r Hrun].
  { intros Hroot. by apply (height_below_depth_bound d fl h H NoFocus Hok Hroot). }
  exists r. split; [done|].
  by destruct (get_entry_sorted name d fl h H lo hi r d Hok Hkeys Hrun).
Qed.

(** X14. [add_entry] adds one entry or none: from a directory that
    [add_entry] and [remove_entry] have made of the empty one, it returns
    true for a name that is not stored, and the stored entries are then the
    new entry and those there were; for a name that is stored it returns
    false and leaves the directory as it is. *)
Theorem add_entry_adds_exactly_one d name eid ty b d' :
  reachable d → room d →
  add_entry name eid ty d = Ok (b, d') →
  (b = true ∧ (∀ e, stored d e → filename e ≠ name)
   ∧ contents d' ≡ₚ mkEntry name eid (wrap32 ty) :: contents d)
  ∨ (b = false ∧ (∃ e, stored d e ∧ filename e = name) ∧ d' = d).
Proof.
  intros Hreach Hroom Hrun.
  destruct (reachable_sorted d Hreach) as [(fl & h & H & lo & hi & Hok & Hkeys) _].
  destruct (add_entry_sorted name eid ty d fl h H lo hi b d' Hok Hkeys Hroom Hrun)
    as [_ Hc].
  destruct (add_entry_flag name eid ty d fl h H lo hi b d' Hok Hkeys Hrun)
    as [[-> Hno]|(-> & -> & Hyes)]; [left|right]; auto.
Qed.

(** X15. [remove_entry] removes one entry or none: from a directory that
    [add_entry] and [remove_entry] have made of the empty one, it hands back
    the id and the type of the stored entry of the name, and the stored
    entries are then those there were without that one; for a name that is
    not stored it returns nothing and leaves the directory as it is. *)
Theorem remove_entry_removes_exactly_one d name r d' :
  reachable d →
  remove_entry name d = Ok (r, d') →
  (∃ e, filename e = name ∧ r = Some (id e, to_int (type e))
        ∧ e :: contents d' ≡ₚ contents d)
  ∨ (r = None ∧ (∀ e, stored d e → filename e ≠ name) ∧ d' = d).
Proof.
  intros Hreach Hrun.
  destruct (reachable_sorted d Hreach) as [(fl & h & H & lo & hi & Hok & Hkeys) _].
  destruct (remove_entry_sorted name d fl h H lo hi r d' Hok Hkeys Hrun)
    as [_ [(-> & -> & Hno)|Hyes]]; [right|left]; auto.
Qed.

(** X16. An entry that has been added is found, and the others are found as
    before: after [add_entry] has returned true, [get_entry] of the name
    hands back the id and the type that were added, as [int] takes the type
    from [uint32_t], and [get_entry] of any other name hands back what it
    handed back before. *)
Theorem get_entry_after_add_entry d name eid ty d' y r d'' :
  reachable d → room d →
  add_entry name eid ty d = Ok (true, d') →
  get_entry y d' = Ok (r, d'') →
  (y = name ∧ r = Some (eid, to_int (wrap32 ty)))
  ∨ (y ≠ name ∧ ∀ r0 d0, get_entry y d = Ok (r0, d0) → r0 = r).
Proof.
  intros Hreach Hroom Hadd Hget.
  pose proof (reach_add d name eid ty true d' Hreach Hroom Hadd) as Hreach'.
  destruct (reachable_sorted d Hreach) as [(fl & h & H & lo & hi & Hok & Hkeys) _].
  destruct (add_entry_sorted name eid ty d fl h H lo hi true d' Hok Hkeys Hroom Hadd)
    as [_ Hc]. simpl in Hc.
  destruct (add_entry_flag name eid ty d fl h H lo hi true d' Hok Hkeys Hadd)
    as [[_ Hno]|(? & _)]; [|done].
  destruct (decide (y = name)) as [->|Hne]; [left|right]; (split; [done|]).
  - destruct (reachable_sorted d' Hreach')
      as [(fl' & h' & H' & lo' & hi' & Hok' & Hkeys') _].
    destruct (get_entry_sorted name d' fl' h' H' lo' hi' r d'' Hok' Hkeys' Hget)
      as [_ [(e & He & Hname & ->)|(_ & Hnone)]].
    + apply stored_contents in He. rewrite Hc in He.
      apply elem_of_cons in He as [->|He]; [done|].
      apply stored_contents in He. by destruct (Hno e He).
    + exfalso. apply (Hnone (mkEntry name eid (wrap32 ty))); [|done].
      apply stored_contents. rewrite Hc. by left.
  - intros r0 d0 Hget0.
    apply (get_entry_agree y d d' r0 r d0 d'' Hreach Hreach'); [|done|done].
    intros e He. rewrite Hc. rewrite elem_of_cons. split; [by right|].
    intros [->|?]; [|done]. by destruct Hne.
Qed.

(** X17. An entry that has been removed is found no more, and the others are
    found as before: after [remove_entry] of a name, [get_entry] of the name
    hands back nothing, and [get_entry] of any other name hands back what it
    handed back before. *)
Theorem get_entry_after_remove_entry d name rm d' y r d'' :
  reachable d →
  remove_entry name d = Ok (rm, d') →
  get_entry y d' = Ok (r, d'') →
  (y = name ∧ r = None)
  ∨ (y ≠ name ∧ ∀ r0 d0, get_entry y d = Ok (r0, d0) → r0 = r).
Proof.
  intros Hreach Hrm Hget.
  pose proof (reach_remove d name rm d' Hreach Hrm) as Hreach'.
  destruct (reachable_sorted d Hreach) as [(fl & h & H & lo & hi & Hok & Hkeys) Hnd].
  destruct (reachable_sorted d' Hreach')
    as [(fl' & h' & H' & lo' & hi' & Hok' & Hkeys') _].
  destruct (remove_entry_sorted name d fl h H lo hi rm d' Hok Hkeys Hrm)
    as [_ [(-> & -> & Hno)|(e & Hname & -> & Hc)]].
  - (* the name was not stored *)
    destruct (decide (y = name)) as [->|Hne]; [left|right]; (split; [done|]).
    + destruct (get_entry_sorted name d fl h H lo hi r d'' Hok Hkeys Hget)
        as [_ [(e & He & Hname & _)|(-> & _)]]; [|done].
      by destruct (Hno e He).
    + intros r0 d0 Hget0. congruence.
  - destruct (decide (y = name)) as [->|Hne]; [left|right]; (split; [done|]).
    + destruct (get_entry_sorted name d' fl' h' H' lo' hi' r d'' Hok' Hkeys' Hget)
        as [_ [(e2 & He2 & Hname2 & _)|(-> & _)]]; [|done].
      exfalso. rewrite <- Hc in Hnd. simpl in Hnd.
      apply NoDup_cons in Hnd as [Hnin _]. apply Hnin.
      apply list_elem_of_fmap. exists e2. split; [congruence|].
      by apply stored_contents.
    + intros r0 d0 Hget0.
      apply (get_entry_agree y d d' r0 r d0 d'' Hreach Hreach'); [|done|done].
      intros e0 He0. rewrite <- Hc. rewrite elem_of_cons. split; [|by right].
      intros [->|?]; [|done]. destruct Hne. congruence.
Qed.

(** X18. [find_sibling] picks the neighbour: in every directory that
    [add_entry] and [remove_entry] make of the empty one, for a node that is
    not the root it returns the child of the parent that comes next after
    the node, or the one before it when the node is the last child, together
    with the index of the entry of the parent that lies between the two; it
    changes nothing. *)
Theorem find_sibling_returns_neighbour d n nd :
  reachable d → m_node_cache d !! n = Some nd →
  m_parent_num nd ≠ INVALID_PAGE →
  ∃ qd ei s sep,
    m_node_cache d !! m_parent_num nd = Some qd
    ∧ find_sibling (m_parent_num nd) n d = Ok ((ei, s), d)
    ∧ m_entries qd !! ei = Some sep
    ∧ (m_child_indices qd !! ei = Some n ∧ m_child_indices qd !! S ei = Some s
       ∨ m_child_indices qd !! ei = Some s ∧ m_child_indices qd !! S ei = Some n
         ∧ length (m_child_indices qd) = S (S ei)).
Proof.
  intros Hreach Hn Hne.
  destruct (reachable_tree_ok d Hreach) as (fl & h & H & Hok).
  destruct (parent_facts _ _ _ _ _ Hok _ _ Hn Hne) as (_ & _ & qd & Hqd & _).
  destruct (find_sibling_adjacent d fl h H n nd qd (tree_ok_weaken d fl h H n Hok)
              Hn Hne Hqd) as (ei & s & sd & sep & Hfs & _ & Hsep & Hadj).
  exists qd, ei, s, sep. auto.
Qed.

End DirectoryAsMap.

Lemma stored_names_are_unique_witness : (2 : Z) = 2 ∧ 0%nat = 0%nat.
Proof.
  eapply (@stored_names_are_unique reference_params reference_params_ok
            reference_name_order (@after reference_params fifteen_then_remove)
            2 _ 0%nat _ 2 _ 0%nat _).
  - apply (run_reachable fifteen_then_remove empty_directory);
      [apply reach_empty | vm_compute; reflexivity].
  - vm_compute. reflexivity.
  - vm_compute. reflexivity.
  - vm_compute. reflexivity.
  - vm_compute. reflexivity.
  - reflexivity.
Defined.

Lemma reachable_is_search_tree_witness :
  let d := @after reference_params fifteen_then_remove in
  let nd := mkNode INVALID_PAGE 2 [0; 1]
              [mkEntry (name_of "09") (@id_for reference_params (name_of "09")) 0]
              true in
  @sorted_entries reference_params (m_entries nd)
  ∧ ∀ i c m md a,
      m_child_indices nd !! i = Some c → below d c m →
      m_node_cache d !! m = Some md → a ∈ m_entries md →
      (∀ b, m_entries nd !! i = Some b → @entry_lt reference_params a b)
      ∧ (∀ j b, i = S j → m_entries nd !! j = Some b
                → @entry_lt reference_params b a).
Proof.
  apply (@reachable_is_search_tree reference_params reference_params_ok
           reference_name_order (@after reference_params fifteen_then_remove) 2).
  - apply (run_reachable fifteen_then_remove empty_directory);
      [apply reach_empty | vm_compute; reflexivity].
  - vm_compute. reflexivity.
Defined.

Lemma get_entry_returns_what_is_stored_witness :
  let d := @after reference_params fifteen_then_remove in
  ∃ r, @get_entry reference_params (name_of "05") d = Ok (r, d)
    ∧ ((∃ e, stored d e ∧ filename e = name_of "05"
             ∧ r = Some (id e, to_int (type e)))
       ∨ (r = None ∧ ∀ e, stored d e → filename e ≠ name_of "05")).
Proof.
  assert (Hreach : @reachable reference_params
                     (@after reference_params fifteen_then_remove)).
  { apply (run_reachable fifteen_then_remove empty_directory);
      [apply reach_empty | vm_compute; reflexivity]. }
  apply (@get_entry_returns_what_is_stored reference_params reference_params_ok
           reference_name_order (@after reference_params fifteen_then_remove)
           (name_of "05") Hreach).
  - vm_compute. lia.
  - intros pg k Hd.
    pose proof (@depth_lt_size reference_params reference_params_ok _ pg k Hreach Hd)
      as Hlt.
    assert (Hsize : size (m_node_cache (@after reference_params fifteen_then_remove))
                    = 3%nat) by (vm_compute; reflexivity).
    rewrite Hsize in Hlt. simpl. lia.
Defined.

Lemma add_entry_adds_exactly_one_witness :
  let d := @after reference_params fourteen_adds in
  let d' := @after reference_params (fourteen_adds ++ [Add "15"%string]) in
  (true = true ∧ (∀ e, stored d e → filename e ≠ name_of "15")
   ∧ contents d'
     ≡ₚ mkEntry (name_of "15") (@id_for reference_params (name_of "15")) (wrap32 0)
        :: contents d)
  ∨ (true = false ∧ (∃ e, stored d e ∧ filename e = name_of "15") ∧ d' = d).
Proof.
  apply (@add_entry_adds_exactly_one reference_params reference_params_ok
           reference_name_order (@after reference_params fourteen_adds)
           (name_of "15") (@id_for reference_params (name_of "15")) 0).
  - apply (run_reachable fourteen_adds empty_directory);
      [apply reach_empty | vm_compute; reflexivity].
  - vm_compute. reflexivity.
  - vm_compute. reflexivity.
Defined.

Lemma remove_entry_removes_exactly_one_witness :
  let d := @after reference_params fifteen_then_remove in
  let d' := @after reference_params (fifteen_then_remove ++ [Remove "09"%string]) in
  let r := Some (@id_for reference_params (name_of "09"), 0) in
  (∃ e, filename e = name_of "09" ∧ r = Some (id e, to_int (type e))
        ∧ e :: contents d' ≡ₚ contents d)
  ∨ (r = None ∧ (∀ e, stored d e → filename e ≠ name_of "09") ∧ d' = d).
Proof.
  apply (@remove_entry_removes_exactly_one reference_params reference_params_ok
           reference_name_order (@after reference_params fifteen_then_remove)
           (name_of "09")).
  - apply (run_reachable fifteen_then_remove empty_directory);
      [apply reach_empty | vm_compute; reflexivity].
  - vm_compute. reflexivity.
Defined.

Lemma get_entry_after_add_entry_witness :
  let d := @after reference_params fourteen_adds in
  let r := Some (@id_for reference_params (name_of "15"), 0) in
  (name_of "15" = name_of "15" ∧ r = Some (@id_for reference_params (name_of "15"),
                                           to_int (wrap32 0)))
  ∨ (name_of "15" ≠ name_of "15"
     ∧ ∀ r0 d0, @get_entry reference_params (name_of "15") d = Ok (r0, d0) → r0 = r).
Proof.
  apply (@get_entry_after_add_entry reference_params reference_params_ok
           reference_name_order (@after reference_params fourteen_adds)
           (name_of "15") (@id_for reference_params (name_of "15")) 0
           (@after reference_params (fourteen_adds ++ [Add "15"%string]))
           (name_of "15") _
           (@after reference_params (fourteen_adds ++ [Add "15"%string]))).
  - apply (run_reachable fourteen_adds empty_directory);
      [apply reach_empty | vm_compute; reflexivity].
  - vm_compute. reflexivity.
  - vm_compute. reflexivity.
  - vm_compute. reflexivity.
Defined.

Lemma get_entry_after_remove_entry_witness :
  let d := @after reference_params fifteen_then_remove in
  let r := Some (@id_for reference_params (name_of "10"), 0) in
  (name_of "10" = name_of "09" ∧ r = None)
  ∨ (name_of "10" ≠ name_of "09"
     ∧ ∀ r0 d0, @get_entry reference_params (name_of "10") d = Ok (r0, d0) → r0 = r).
Proof.
  apply (@get_entry_after_remove_entry reference_params reference_params_ok
           reference_name_order (@after reference_params fifteen_then_remove)
           (name_of "09") (Some (@id_for reference_params (name_of "09"), 0))
           (@after reference_params (fifteen_then_remove ++ [Remove "09"%string]))
           (name_of "10") _
           (@after reference_params (fifteen_then_remove ++ [Remove "09"%string]))).
  - apply (run_reachable fifteen_then_remove empty_directory);
      [apply reach_empty | vm_compute; reflexivity].
  - vm_compute. reflexivity.
  - vm_compute. reflexivity.
Defined.

Lemma find_sibling_returns_neighbour_witness :
  let d := @after reference_params fifteen_then_remove in
  ∃ qd ei s sep,
    m_node_cache d !! 2 = Some qd
    ∧ @find_sibling reference_params 2 1 d = Ok ((ei, s), d)
    ∧ m_entries qd !! ei = Some sep
    ∧ (m_child_indices qd !! ei = Some 1 ∧ m_child_indices qd !! S ei = Some s
       ∨ m_child_indices qd !! ei = Some s ∧ m_child_indices qd !! S ei = Some 1
         ∧ length (m_child_indices qd) = S (S ei)).
Proof.
  eapply (@find_sibling_returns_neighbour reference_params reference_params_ok
            (@after reference_params fifteen_then_remove) 1
            (mkNode 2 1 [] _ true)).
  - apply (run_reachable fifteen_then_remove empty_directory);
      [apply reach_empty | vm_compute; reflexivity].
  - vm_compute. reflexivity.
  - vm_compute. discriminate.
Defined.


(** ** [flush_cache] writes the dirty nodes out *)

Section Flush.
Context {P : Params}.

Lemma write_children_fits cs size w :
  (length w + 4 * length cs ≤ size)%nat →
  write_children cs size w = Ok (w ++ children_image cs).
Proof.
  revert w. induction cs as [|c cs IH]; intros w Hfit; simpl.
  - unfold children_image. simpl. by rewrite app_nil_r.
  - unfold write_little_endian_and_forward.
    simpl in Hfit. destruct (decide _) as [_|Hn]; [|lia].
    rewrite IH.
    + by rewrite children_image_cons, <- app_assoc.
    + rewrite length_app, length_to_little_endian. lia.
Qed.

Lemma write_entries_fits es size w :
  Forall (λ e, length (filename e) ≤ MAX_FILENAME_LENGTH)%nat es →
  (length w + entry_size * length es ≤ size)%nat →
  write_entries es size w = Ok (w ++ entries_image es).
Proof.
  revert w. induction es as [|e es IH]; intros w HF Hfit; simpl.
  - unfold entries_image. simpl. by rewrite app_nil_r.
  - apply Forall_cons in HF as [He HF].
    assert (Hsz : (entry_size * length (e :: es)
                   = entry_size + entry_size * length es)%nat) by (simpl; lia).
    rewrite Hsz in Hfit. unfold entry_size in Hfit at 1.
    unfold write_entry, write_and_forward.
    destruct (decide (MAX_FILENAME_LENGTH < _)%nat) as [|_]; [lia|].
    rewrite filename_array_length by done.
    destruct (decide _) as [_|Hn]; [|lia].
    rewrite length_app, filename_array_length, length_resize by done.
    destruct (decide _) as [_|Hn]; [|lia].
    rewrite !length_app, filename_array_length, length_resize,
      length_to_little_endian by done.
    destruct (decide _) as [_|Hn]; [|lia].
    rewrite IH; [|done|].
    + rewrite entries_image_cons. unfold entry_image. by rewrite <- !app_assoc.
    + rewrite !length_app, filename_array_length, length_resize,
        length_to_little_endian by done. lia.
Qed.

Lemma to_buffer_fits n buffer :
  Forall (λ e, length (filename e) ≤ MAX_FILENAME_LENGTH)%nat (m_entries n) →
  (8 + 4 * length (m_child_indices n) + entry_size * length (m_entries n)
   ≤ length buffer)%nat →
  ∃ out, to_buffer n buffer = Ok out.
Proof.
  intros HF Hfit. unfold to_buffer, write_little_endian_and_forward.
  simpl length at 1.
  destruct (decide _) as [_|Hn]; [|lia].
  rewrite app_nil_l, length_to_little_endian.
  destruct (decide _) as [_|Hn]; [|lia].
  rewrite length_app, !length_to_little_endian.
  destruct (decide _) as [_|Hn]; [|lia].
  rewrite write_children_fits.
  2:{ rewrite !length_app, !length_to_little_endian. lia. }
  rewrite write_entries_fits; [by eexists|done|].
  rewrite !length_app, !length_to_little_endian, children_image_length. lia.
Qed.

(** [read_node] looks at the block of the page alone. *)
Lemma read_node_block num n0 d d1 :
  stream_read (m_stream d1) (page_offset num) BLOCK_SIZE
  = stream_read (m_stream d) (page_offset num) BLOCK_SIZE →
  read_node num n0 d1
  = match read_node num n0 d with
    | Ok (n, _) => Ok (n, d1)
    | Throw e => Throw e
    end.
Proof.
  intros Hs. unfold read_node. destruct (decide _); [reflexivity|].
  unfold read_block, bind, gets, lift, ret. rewrite Hs.
  destruct (dir_check _) as [[]|]; [|reflexivity].
  destruct (from_buffer _ _); reflexivity.
Qed.

Lemma on_disk_block d d1 pg nd :
  stream_read (m_stream d1) (page_offset pg) BLOCK_SIZE
  = stream_read (m_stream d) (page_offset pg) BLOCK_SIZE →
  on_disk d pg nd → on_disk d1 pg nd.
Proof.
  intros Hs Hon parent. rewrite (read_node_block _ _ d) by done. by rewrite Hon.
Qed.

(** The block of a node that is on the stream lies within it. *)
Lemma on_disk_within d pg nd :
  (0 < BLOCK_SIZE)%nat → on_disk d pg nd →
  (Z.to_nat (page_offset pg) + BLOCK_SIZE ≤ length (m_stream d))%nat.
Proof.
  intros HB Hon. specialize (Hon 0). unfold read_node in Hon.
  destruct (decide _); [discriminate|].
  apply bind_inv in Hon as (buf & d1 & Hblock & _).
  apply read_block_Ok in Hblock as (_ & -> & Hlen).
  unfold stream_read in Hlen. rewrite length_take, length_drop in Hlen. lia.
Qed.

(** A write to another page leaves it there. *)
Lemma on_disk_other d pg nd q out :
  (0 < BLOCK_SIZE)%nat →
  0 ≤ pg → 0 ≤ q → pg ≠ q → length out = BLOCK_SIZE →
  on_disk d pg nd →
  on_disk (set_stream (stream_write (m_stream d) (page_offset q) out) d) pg nd.
Proof.
  intros HB Hpg Hq Hne Hlen Hon.
  pose proof (on_disk_within d pg nd HB Hon) as Hin.
  apply (on_disk_block d); [|done]. simpl.
  rewrite !page_offset_nat in * by done.
  apply stream_write_read_other.
  - unfold page_offset. lia.
  - unfold page_offset. lia.
  - by rewrite page_offset_nat.
  - rewrite !page_offset_nat, Hlen by done.
    destruct (decide (pg < q)); [left|right]; nia.
Qed.

Lemma block_other d pg q out :
  0 ≤ pg → 0 ≤ q → pg ≠ q → length out = BLOCK_SIZE →
  (Z.to_nat (page_offset pg) + BLOCK_SIZE ≤ length (m_stream d))%nat →
  stream_read (stream_write (m_stream d) (page_offset q) out) (page_offset pg)
    BLOCK_SIZE
  = stream_read (m_stream d) (page_offset pg) BLOCK_SIZE.
Proof.
  intros Hpg Hq Hne Hlen Hin.
  apply stream_write_read_other.
  - unfold page_offset. lia.
  - unfold page_offset. lia.
  - done.
  - rewrite !page_offset_nat, Hlen by done.
    destruct (decide (pg < q)); [left|right]; nia.
Qed.

(** [write_node] puts a node that can be written out on its page. *)
Lemma write_node_saves num n d :
  node_fits → savable num n →
  ∃ out, length out = BLOCK_SIZE
    ∧ write_node num n d
      = Ok (tt, set_stream (stream_write (m_stream d) (page_offset num) out) d)
    ∧ on_disk (set_stream (stream_write (m_stream d) (page_offset num) out) d)
        num n.
Proof.
  intros [Hfits HB] (Hnum & Hrange & Hes & Hcs & Hen & Hch).
  assert (HF : Forall (λ e, length (filename e) ≤ MAX_FILENAME_LENGTH)%nat
                 (m_entries n)).
  { eapply Forall_impl; [exact Hen|]. by intros e (_ & ? & _). }
  assert (Hsz : (entry_size * length (m_entries n)
                 ≤ entry_size * MAX_NUM_ENTRIES)%nat).
  { by apply Nat.mul_le_mono_l. }
  destruct (to_buffer_fits n (map indeterminate (seq 0 BLOCK_SIZE)) HF)
    as [out Hto].
  { rewrite length_map, length_seq. lia. }
  assert (Hlen : length out = BLOCK_SIZE).
  { by rewrite (to_buffer_length _ _ _ Hto), length_map, length_seq. }
  exists out. split; [done|].
  assert (Hw : write_node num n d
               = Ok (tt, set_stream (stream_write (m_stream d) (page_offset num) out)
                           d)).
  { unfold write_node. destruct (decide (num = INVALID_PAGE)); [lia|].
    unfold lift, bind. by rewrite Hto. }
  split; [done|].
  set (d' := set_stream (stream_write (m_stream d) (page_offset num) out) d).
  assert (Hrd : stream_read (m_stream d') (page_offset num) BLOCK_SIZE = out).
  { unfold d'. simpl. rewrite <- Hlen at 1. apply stream_write_read_same. }
  assert (Hblock : read_block num d' = Ok (out, d')).
  { rewrite <- Hrd at 1. apply read_block_intro. by rewrite Hrd. }
  apply to_buffer_Ok in Hto as (Hout & Hfit & _).
  assert (Hsz5 : (5 ≤ entry_size)%nat) by (unfold entry_size; lia).
  intros parent. unfold read_node. destruct (decide _); [lia|].
  rewrite (bind_Ok _ _ _ _ _ Hblock).
  rewrite Hout. rewrite <- !app_assoc.
  rewrite from_buffer_image; [reflexivity|done|done| |]; nia.
Qed.

(** The loop of [flush_cache]. *)
Lemma flush_nodes_spec l :
  ∀ d, node_fits → NoDup l.*1 →
    (∀ k n, (k, n) ∈ l → savable k n) →
    ∃ d', flush_nodes l d = Ok (tt, d')
      ∧ m_root_page d' = m_root_page d
      ∧ m_start_free_page d' = m_start_free_page d
      ∧ m_num_free_page d' = m_num_free_page d
      ∧ m_node_cache d' = flushed l (m_node_cache d)
      ∧ (length (m_stream d) ≤ length (m_stream d'))%nat
      ∧ (∀ k n, (k, n) ∈ l → m_dirty n = true → on_disk d' k n)
      ∧ (∀ pg, 0 ≤ pg → (∀ n, (pg, n) ∈ l → m_dirty n = false) →
           (Z.to_nat (page_offset pg) + BLOCK_SIZE ≤ length (m_stream d))%nat →
           stream_read (m_stream d') (page_offset pg) BLOCK_SIZE
           = stream_read (m_stream d) (page_offset pg) BLOCK_SIZE).
Proof.
  induction l as [|[k n] l IH]; intros d Hfits Hnd Hsav.
  { exists d. repeat split; try done. intros k n Hin. by apply elem_of_nil in Hin. }
  simpl in Hnd. apply NoDup_cons in Hnd as [Hk Hnd].
  assert (HB : (0 < BLOCK_SIZE)%nat) by (destruct Hfits; lia).
  assert (Hsav' : ∀ k0 n0, (k0, n0) ∈ l → savable k0 n0).
  { intros k0 n0 Hin. apply Hsav. by right. }
  assert (Hkn : savable k n) by (apply Hsav; left).
  pose proof Hkn as (Hnum & Hrange & _).
  assert (Hfresh : ∀ n0, (k, n0) ∈ l → m_dirty n0 = false).
  { intros n0 Hin. exfalso. apply Hk. apply list_elem_of_fmap. by exists (k, n0). }
  cbn [flush_nodes].
  destruct (m_dirty n) eqn:Hdirty.
  - destruct (write_node_saves k n d Hfits Hkn) as (out & Hlen & Hw & Hon).
    rewrite Hnum.
    set (d1 := set_stream (stream_write (m_stream d) (page_offset k) out) d) in *.
    set (d2 := set_cache (<[k := clear_dirty n]> (m_node_cache d1)) d1).
    assert (Hstep : (write_node k n;; store k (clear_dirty n)) d = Ok (tt, d2)).
    { by rewrite (bind_Ok _ _ _ _ _ Hw). }
    assert (Hgrow : (length (m_stream d) ≤ length (m_stream d2))%nat).
    { simpl. rewrite stream_write_length. lia. }
    rewrite (bind_Ok _ _ _ _ _ Hstep).
    destruct (IH d2 Hfits Hnd Hsav')
      as (d' & Hrun & Hr & Hs & Hf & Hc & Hg & Hd & Hframe).
    exists d'. split; [done|]. repeat split; try done.
    + unfold flushed. simpl. by rewrite Hdirty.
    + lia.
    + intros k0 n0 [[= -> ->]|Hin]%elem_of_cons Hdn; [|by apply Hd].
      apply (on_disk_block d2); [|by apply (on_disk_block d1)].
      apply Hframe; [lia|done|].
      apply (on_disk_within d2 k n HB). by apply (on_disk_block d1).
    + intros pg Hpg Hclean Hin.
      assert (Hne : pg ≠ k).
      { intros ->. specialize (Hclean n (list_elem_of_here _ _)). congruence. }
      rewrite Hframe; [| done | | lia].
      * simpl. apply block_other; try done; lia.
      * intros n0 Hin0. apply Hclean. by right.
  - destruct (IH d Hfits Hnd Hsav')
      as (d' & Hrun & Hr & Hs & Hf & Hc & Hg & Hd & Hframe).
    exists d'. split; [done|]. repeat split; try done.
    + unfold flushed. simpl. by rewrite Hdirty.
    + intros k0 n0 [[= -> ->]|Hin]%elem_of_cons Hdn; [congruence|by apply Hd].
    + intros pg Hpg Hclean Hin. apply Hframe; [done| |done].
      intros n0 Hin0. apply Hclean. by right.
Qed.

Lemma clear_dirty_clean n : m_dirty n = false → clear_dirty n = n.
Proof. destruct n. simpl. by intros ->. Qed.

Lemma lookup_flushed l :
  ∀ c pg, NoDup l.*1 →
    flushed l c !! pg
    = match (list_to_map l : gmap Z BtreeNode) !! pg with
      | Some n => if m_dirty n then Some (clear_dirty n) else c !! pg
      | None => c !! pg
      end.
Proof.
  induction l as [|[k n] l IH]; intros c pg Hnd; [done|].
  simpl in Hnd. apply NoDup_cons in Hnd as [Hk Hnd].
  assert (Hnone : (list_to_map l : gmap Z BtreeNode) !! k = None).
  { by apply not_elem_of_list_to_map_1. }
  assert (Hstep : flushed ((k, n) :: l) c
                  = flushed l (if m_dirty n then <[k := clear_dirty n]> c else c))
    by reflexivity.
  rewrite Hstep, IH by done. rewrite list_to_map_cons.
  destruct (decide (pg = k)) as [->|Hne].
  - rewrite Hnone, lookup_insert_eq.
    destruct (m_dirty n); [by rewrite lookup_insert_eq|done].
  - rewrite (lookup_insert_ne (list_to_map l)) by done.
    destruct (list_to_map l !! pg) as [n'|]; destruct (m_dirty n);
      by rewrite ?lookup_insert_ne by done.
Qed.

(** [flush_cache] leaves every resident node clean and on the stream,
    provided it was dirty or was there already, and leaves the blocks of
    all other pages as they are. *)
Lemma flush_cache_spec d :
  node_fits →
  (∀ pg nd, m_node_cache d !! pg = Some nd → savable pg nd) →
  ∃ d', flush_cache d = Ok (tt, d')
    ∧ m_root_page d' = m_root_page d
    ∧ m_start_free_page d' = m_start_free_page d
    ∧ m_num_free_page d' = m_num_free_page d
    ∧ m_node_cache d' = clear_dirty <$> m_node_cache d
    ∧ (∀ pg nd, m_node_cache d !! pg = Some nd →
         m_dirty nd = true ∨ on_disk d pg nd → on_disk d' pg nd)
    ∧ (∀ pg, 0 ≤ pg →
         (∀ nd, m_node_cache d !! pg = Some nd → m_dirty nd = false) →
         (Z.to_nat (page_offset pg) + BLOCK_SIZE ≤ length (m_stream d))%nat →
         stream_read (m_stream d') (page_offset pg) BLOCK_SIZE
         = stream_read (m_stream d) (page_offset pg) BLOCK_SIZE).
Proof.
  intros Hfits Hsav. unfold flush_cache, bind, gets.
  assert (HB : (0 < BLOCK_SIZE)%nat) by (destruct Hfits; lia).
  pose proof (NoDup_fst_map_to_list (m_node_cache d)) as Hnd.
  destruct (flush_nodes_spec (map_to_list (m_node_cache d)) d Hfits Hnd)
    as (d' & Hrun & Hr & Hs & Hf & Hc & Hg & Hd & Hframe).
  { intros k n Hin. apply Hsav. by apply elem_of_map_to_list. }
  exists d'. split; [done|]. repeat split; try done.
  - rewrite Hc. apply map_eq. intros pg.
    rewrite lookup_flushed by done. rewrite list_to_map_to_list, lookup_fmap.
    destruct (m_node_cache d !! pg) as [n|] eqn:Hn; simpl; [|done].
    destruct (m_dirty n) eqn:Hdn; [done|]. by rewrite clear_dirty_clean.
  - intros pg nd Hpg Hor.
    destruct (m_dirty nd) eqn:Hdn.
    + apply Hd; [|done]. by apply elem_of_map_to_list.
    + destruct Hor as [|Hon]; [done|].
      destruct (Hsav pg nd Hpg) as (_ & Hrange & _).
      apply (on_disk_block d); [|done].
      apply Hframe; [lia| |by apply (on_disk_within d pg nd)].
      intros n0 Hin. apply elem_of_map_to_list in Hin. congruence.
  - intros pg Hpg Hclean Hin. apply Hframe; [done| |done].
    intros n0 Hin0. apply elem_of_map_to_list in Hin0. by apply Hclean.
Qed.

End Flush.


(** ** A directory some of whose nodes are on the stream only *)

Section Reopen.
Context {P : Params} {HP : ParamsOk}.

(** A directory whose nodes are all resident. *)
Lemma loaded_refl d : loaded d d.
Proof.
  constructor; [done| |].
  - intros pg nd Hpg. exists nd. by repeat split.
  - intros pg nd0 Hpg Hnone. congruence.
Qed.

(** The dirty flags and the stream of [d0] do not matter. *)
Lemma loaded_same_nodes d0 d0' di :
  m_root_page d0' = m_root_page d0 →
  (∀ pg nd, m_node_cache d0 !! pg = Some nd →
     ∃ nd', m_node_cache d0' !! pg = Some nd' ∧ same_node nd nd') →
  (∀ pg nd', m_node_cache d0' !! pg = Some nd' →
     ∃ nd, m_node_cache d0 !! pg = Some nd ∧ same_node nd nd') →
  loaded d0 di → loaded d0' di.
Proof.
  intros Hroot Hto Hfrom Hl. constructor.
  - by rewrite (loaded_root Hl).
  - intros pg nd Hpg. destruct (loaded_cache Hl pg nd Hpg) as (nd0 & Hnd0 & Hs).
    destruct (Hto pg nd0 Hnd0) as (nd' & Hnd' & Hs'). exists nd'. split; [done|].
    destruct Hs as (? & ? & ? & ?), Hs' as (? & ? & ? & ?).
    repeat split; congruence.
  - intros pg nd' Hpg Hnone. destruct (Hfrom pg nd' Hpg) as (nd & Hnd & Hs).
    pose proof (loaded_disk Hl pg nd Hnd Hnone) as Hon.
    destruct Hs as (_ & _ & Hcs & Hes). intros parent.
    rewrite <- Hcs, <- Hes. apply Hon.
Qed.

Section Simulation.
Variables (d0 : BtreeDirectory) (fl : list Z) (h : Z → nat) (H : nat).
Hypothesis Hok : tree_ok d0 fl h H NoFocus.
Set Default Proof Using "All".

(** [retrieve_node] finds the node in the cache or reads it back. *)
Lemma retrieve_node_loaded di c cd :
  loaded d0 di → m_node_cache d0 !! c = Some cd →
  ∃ di' nd, retrieve_node (m_parent_num cd) c di = Ok (c, di')
    ∧ loaded d0 di'
    ∧ m_node_cache di' !! c = Some nd ∧ same_node nd cd.
Proof.
  intros Hro Hc. unfold retrieve_node, bind, gets.
  destruct (m_node_cache di !! c) as [n|] eqn:Hn.
  - destruct (loaded_cache Hro c n Hn) as (nd0 & Hnd0 & Hsame).
    assert (nd0 = cd) as -> by congruence.
    exists di, n. split; [|done].
    destruct Hsame as (Hpar & _). rewrite <- Hpar.
    rewrite (bool_decide_eq_true_2 (m_parent_num n = m_parent_num n)) by done.
    by rewrite orb_true_r.
  - rewrite (loaded_disk Hro c cd Hc Hn (m_parent_num cd)). simpl.
    eexists _, _. split; [reflexivity|]. split; [|split].
    + constructor.
      * simpl. apply (loaded_root Hro).
      * intros pg nd Hpg. simpl in Hpg.
        destruct (decide (pg = c)) as [->|Hne].
        -- rewrite lookup_insert_eq in Hpg. injection Hpg as <-.
           exists cd. split; [done|]. repeat split; simpl; try done.
           symmetry. apply (ok_num (to_nodes Hok _ _ Hc)).
        -- rewrite lookup_insert_ne in Hpg by done. by apply (loaded_cache Hro).
      * intros pg nd0 Hpg Hnone. simpl in Hnone.
        destruct (decide (pg = c)) as [->|Hne].
        -- by rewrite lookup_insert_eq in Hnone.
        -- rewrite lookup_insert_ne in Hnone by done.
           apply (on_disk_block di); [done|]. by apply (loaded_disk Hro).
    + simpl. apply lookup_insert_eq.
    + repeat split; simpl; try done.
      symmetry. apply (ok_num (to_nodes Hok _ _ Hc)).
Qed.

(** The search takes the same way through the nodes that are read back. *)
Lemma find_node_loop_loaded fuel name :
  ∀ n nd0 nd di r d0',
    loaded d0 di → m_node_cache d0 !! n = Some nd0 →
    m_node_cache di !! n = Some nd → same_node nd nd0 →
    find_node_loop fuel name n d0 = Ok (r, d0') →
    ∃ di', find_node_loop fuel name n di = Ok (r, di') ∧ loaded d0 di'
      ∧ ∀ node i b, r = (Some node, i, b) →
          ∃ x x0, m_node_cache di' !! node = Some x
                  ∧ m_node_cache d0 !! node = Some x0 ∧ same_node x x0.
Proof.
  induction fuel as [|fuel IH]; intros n nd0 nd di r d0' Hro Hn0 Hn Hsame Hrun;
    [discriminate|].
  destruct Hsame as (Hpar & Hnum & Hcs & Hes).
  cbn [find_node_loop] in Hrun |- *.
  rewrite (bind_Ok _ _ _ _ _ (deref_intro _ _ _ Hn0)) in Hrun.
  rewrite (bind_Ok _ _ _ _ _ (deref_intro _ _ _ Hn)).
  rewrite Hes. unfold is_leaf in *. rewrite Hcs.
  set (i := lower_bound (entry_less_name name) (m_entries nd0)) in *.
  destruct (match m_entries nd0 !! i with
            | Some e => bool_decide (name = filename e)
            | None => false
            end).
  { injection Hrun as <- <-. exists di. split; [done|]. split; [done|].
    intros node i0 b [= <- <- <-]. exists nd, nd0. by repeat split. }
  destruct (bool_decide (m_child_indices nd0 = [])).
  { injection Hrun as <- <-. exists di. split; [done|]. split; [done|].
    intros node i0 b [= <- <- <-]. exists nd, nd0. by repeat split. }
  destruct (m_child_indices nd0 !! i) as [c|] eqn:Hc; [|discriminate].
  pose proof (to_nodes Hok _ _ Hn0) as Hnok.
  destruct (child_facts _ _ _ _ _ Hok _ _ c Hn0) as (cd & Hcd & Hcp & _);
    [by eapply list_elem_of_lookup_2|].
  rewrite (bind_Ok _ _ _ _ _ (retrieve_node_resident (m_num nd0) c d0 cd Hcd
             (or_intror (eq_trans (ok_num Hnok) (eq_sym Hcp))))) in Hrun.
  destruct (retrieve_node_loaded di c cd Hro Hcd)
    as (di1 & x & Hret & Hro1 & Hx & Hsame1).
  rewrite Hnum, (ok_num Hnok), <- Hcp.
  rewrite (bind_Ok _ _ _ _ _ Hret).
  by apply (IH c cd x di1 r d0').
Qed.


(** The root is found in the cache or read back. *)
Lemma get_root_node_loaded di :
  loaded d0 di → m_root_page d0 ≠ INVALID_PAGE →
  ∃ di' rd x, get_root_node di = Ok (Some (m_root_page d0), di')
    ∧ loaded d0 di' ∧ m_node_cache d0 !! m_root_page d0 = Some rd
    ∧ m_node_cache di' !! m_root_page d0 = Some x ∧ same_node x rd.
Proof.
  intros Hro Hroot.
  destruct (to_root Hok Hroot) as (rd & Hrd & Hrp & _).
  destruct (retrieve_node_loaded di _ rd Hro Hrd)
    as (di1 & x & Hret & Hro1 & Hx & Hsame1).
  rewrite Hrp in Hret. exists di1, rd, x. split; [|done].
  unfold get_root_node, get_root_page. unfold bind at 1, gets.
  rewrite (loaded_root Hro). destruct (decide _); [done|].
  by rewrite (bind_Ok _ _ _ _ _ Hret).
Qed.

Lemma find_node_loaded name di r d0' :
  loaded d0 di → find_node name d0 = Ok (r, d0') →
  ∃ di', find_node name di = Ok (r, di') ∧ loaded d0 di'
    ∧ ∀ node i b, r = (Some node, i, b) →
        ∃ x x0, m_node_cache di' !! node = Some x
                ∧ m_node_cache d0 !! node = Some x0 ∧ same_node x x0.
Proof.
  intros Hro Hrun.
  destruct (decide (m_root_page d0 = INVALID_PAGE)) as [Hroot|Hroot].
  - unfold find_node in Hrun |- *.
    rewrite (bind_Ok _ _ _ _ _ (get_root_node_none d0 Hroot)) in Hrun.
    rewrite (bind_Ok _ _ _ _ _ (get_root_node_none di
               (eq_trans (loaded_root Hro) Hroot))).
    injection Hrun as <- <-. exists di. split; [done|]. split; [done|].
    intros node i b [=].
  - rewrite (find_node_resident name d0 fl h H NoFocus Hok Hroot) in Hrun.
    destruct (get_root_node_loaded di Hro Hroot)
      as (di1 & rd & x & Hgr & Hro1 & Hrd & Hx & Hsame1).
    unfold find_node. rewrite (bind_Ok _ _ _ _ _ Hgr).
    by apply (find_node_loop_loaded _ name _ rd x di1 r d0').
Qed.


(** So [get_entry] hands back what it handed back before. *)
Lemma get_entry_loaded name di r d0' :
  loaded d0 di → get_entry name d0 = Ok (r, d0') →
  ∃ di', get_entry name di = Ok (r, di') ∧ loaded d0 di'.
Proof.
  intros Hro Hrun. unfold get_entry in Hrun |- *.
  destruct (decide _); [discriminate|].
  apply bind_inv in Hrun as (res & d1 & Hfind & Hrun).
  destruct (find_node_tree _ _ _ _ _ _ _ _ Hok Hfind) as [-> _].
  destruct (find_node_loaded name di res d0 Hro Hfind)
    as (di1 & Hfind1 & Hro1 & Hres).
  rewrite (bind_Ok _ _ _ _ _ Hfind1).
  destruct res as [[[node|] i] [|]]; try (injection Hrun as <- <-; eauto).
  destruct (Hres node i true eq_refl) as (x & x0 & Hx & Hx0 & _ & _ & _ & Hes).
  rewrite (bind_Ok _ _ _ _ _ (deref_intro _ _ _ Hx0)) in Hrun.
  rewrite (bind_Ok _ _ _ _ _ (deref_intro _ _ _ Hx)). rewrite Hes.
  destruct (m_entries x0 !! i) as [e|]; [|discriminate].
  destruct (decide (name = filename e)); injection Hrun as <- <-; eauto.
Qed.


(** The nodes of a well-formed tree can be written out when their entries
    can. *)
Lemma resident_savable pg nd :
  node_fits → m_node_cache d0 !! pg = Some nd →
  Forall encodable_entry (m_entries nd) → savable pg nd.
Proof.
  intros _ Hpg Hes. pose proof (to_nodes Hok _ _ Hpg) as Hnok.
  pose proof (so_pages (to_stream Hok)) as Hpages.
  assert (Hin : ∀ c, in_stream d0 c → 0 ≤ c < INVALID_PAGE).
  { unfold in_stream. intros c. lia. }
  split; [apply (ok_num Hnok)|]. split; [apply Hin, (ok_range Hnok)|].
  split; [apply (ok_max Hnok)|]. split; [|split; [done|]].
  - pose proof (ok_max Hnok). destruct (ok_shape Hnok) as [-> | ->]; simpl; lia.
  - apply Forall_forall. intros c Hc.
    destruct (ok_children Hnok c Hc) as (cd & Hcd & _).
    pose proof (Hin c (ok_range (to_nodes Hok _ _ Hcd))) as Hr.
    unfold INVALID_PAGE in Hr. lia.
Qed.

Unset Default Proof Using.
End Simulation.

End Reopen.


(** ** The operations leave every resident node dirty *)

Section Dirty.
Context {P : Params} {HP : ParamsOk}.

Lemma dirty_cache_insert c p x :
  dirty_cache c → m_dirty x = true → dirty_cache (<[p := x]> c).
Proof. intros Hc Hx pg nd Hpg. eapply dirty_insert; [exact Hpg|done|apply Hc]. Qed.

Lemma dirty_cache_reparent parent cs c :
  dirty_cache c → dirty_cache (reparent parent cs c).
Proof. intros Hc pg nd Hpg. eapply dirty_reparent; [exact Hpg|apply Hc]. Qed.

Lemma dirty_cache_delete c p : dirty_cache c → dirty_cache (delete p c).
Proof. intros Hc pg nd Hpg. eapply dirty_delete; [exact Hpg|apply Hc]. Qed.

Lemma dirty_split_cache p sp pd e ac c :
  dirty_cache c → dirty_cache (split_cache p sp pd e ac c).
Proof.
  intros Hc. unfold split_cache.
  by repeat first [apply dirty_cache_insert | apply dirty_cache_reparent].
Qed.

Lemma dirty_new_root_cache p sp rp pd e promoted ac c :
  dirty_cache c → dirty_cache (new_root_cache p sp rp pd e promoted ac c).
Proof.
  intros Hc. unfold new_root_cache.
  do 3 (apply dirty_cache_insert; [|done]). by apply dirty_split_cache.
Qed.

Lemma dirty_merge_cache l r q ld rd qd i j sep c :
  dirty_cache c → dirty_cache (merge_cache l r q ld rd qd i j sep c).
Proof.
  intros Hc. unfold merge_cache.
  by repeat first [apply dirty_cache_delete | apply dirty_cache_insert
                  | apply dirty_cache_reparent].
Qed.

Lemma dirty_rotate_cache l r q ld rd qd i sep sep' c :
  dirty_cache c → dirty_cache (rotate_cache l r q ld rd qd i sep sep' c).
Proof.
  intros Hc. unfold rotate_cache.
  by repeat first [apply dirty_cache_insert | apply dirty_cache_reparent].
Qed.

Lemma dirty_collapse_cache n c0 c :
  dirty_cache c → dirty_cache (collapse_cache n c0 c).
Proof.
  intros Hc. unfold collapse_cache.
  by apply dirty_cache_delete, dirty_cache_reparent.
Qed.

(** [insert_and_balance] *)
Lemma insert_and_balance_rec_dirty budget :
  ∀ d fl h H f p pd e ac d',
    tree_ok d fl h H f → all_dirty d →
    m_node_cache d !! p = Some pd → insert_pre d f p pd ac →
    Z.of_nat (num_pages d) + Z.of_nat budget < INVALID_PAGE →
    insert_and_balance_rec budget p e ac d = Ok (tt, d') →
    all_dirty d'.
Proof.
  induction budget as [|budget IH];
    intros d fl h H f p pd e ac d' Hok Hdirty Hp Hpre Hroom Hrun; [discriminate|].
  pose proof (Hdirty : dirty_cache (m_node_cache d)) as Hdc.
  pose proof (to_nodes Hok _ _ Hp) as Hpok.
  pose proof low_entries_bounds as Hodd.
  destruct (decide (length (m_entries pd) < MAX_NUM_ENTRIES)%nat) as [Hfit|Hfull].
  { rewrite (insert_and_balance_fits _ _ _ _ _ _ Hp (ok_shape Hpok) Hfit) in Hrun.
    injection Hrun as <-. by apply dirty_cache_insert. }
  assert (Hlen : length (m_entries pd) = MAX_NUM_ENTRIES).
  { pose proof (ok_max Hpok). lia. }
  destruct (allocate_page_ok d fl (to_stream Hok)) as
    (sp & d1 & fl1 & Ha & Hso1 & Hsp_in & Hsp_fl1 & Hblank & Hfl1 & Hsp_new
       & Hpages & Hcache1 & Hroot1); [lia|].
  assert (Hpg : (num_pages d ≤ num_pages d1)%nat) by lia.
  pose proof (sp_not_cached d fl h H f p pd e ac sp d1 fl1 Hok Hp Hpre Hlen
                Hso1 Hsp_in Hsp_fl1 Hfl1 Hsp_new Hpg) as Hspc.
  pose proof (es_length d fl h H f p pd e ac sp d1 fl1 Hok Hp Hpre Hlen
                Hso1 Hsp_in Hsp_fl1 Hfl1 Hsp_new Hpg) as Hes.
  assert (Hspcs : sp ∉ children_after_insert pd e ac).
  { intros Hin.
    destruct (cs_child d fl h H f p pd e ac Hok Hp Hpre sp Hin) as (cd & Hcd & _).
    congruence. }
  destruct (lookup_lt_is_Some_2 (entries_after_insert pd e)
              (split_index (length (entries_after_insert pd e))))
    as [promoted Hprom].
  { rewrite Hes, split_index_full. unfold low_entries in *. lia. }
  destruct (decide (m_parent_num pd = INVALID_PAGE)) as [Hpar|Hpar].
  - destruct (allocate_page_ok d1 fl1 Hso1) as
      (rp & d2 & fl2 & Ha2 & Hso2 & Hrp_in & Hrp_fl2 & Hblank2 & Hfl2 & Hrp_new
         & Hpages2 & _ & _); [lia|].
    assert (Hrpsp : rp ≠ sp).
    { intros Heq. destruct Hrp_new as [Hr|Hr].
      - apply Hsp_fl1. by rewrite <- Heq.
      - unfold in_stream in Hsp_in. lia. }
    assert (Hrpc : m_node_cache d !! rp = None).
    { destruct Hrp_new as [Hr|Hr]; [by apply (to_free Hok), Hfl1|].
      destruct (m_node_cache d !! rp) as [nd|] eqn:Hc; [|done].
      destruct (ok_range (to_nodes Hok _ _ Hc)). lia. }
    rewrite (split_step_root budget p pd e ac d sp d1 promoted rp d2) in Hrun;
      try done.
    + injection Hrun as <-. by apply dirty_new_root_cache.
    + apply (ok_num Hpok).
    + apply (ok_shape Hpok).
    + lia.
    + apply (p_not_in_cs d fl h H f p pd e ac Hok Hp Hpre).
  - destruct (parent_facts _ _ _ _ _ Hok _ _ Hp Hpar) as (Hhq & Hqp & qd & Hqd & Hqor).
    rewrite (split_step_parent budget p pd e ac d sp d1 promoted) in Hrun;
      try done.
    2: apply (ok_num Hpok).
    2: apply (ok_shape Hpok).
    2: lia.
    2: apply (p_not_in_cs d fl h H f p pd e ac Hok Hp Hpre).
    pose proof (tree_ok_split d fl h H f p pd e ac sp d1 fl1 Hok Hp Hpre Hlen
                  Hso1 Hsp_in Hsp_fl1 Hfl1 Hsp_new Hpg Hpar) as Hok2.
    pose proof (split_lookup_old d fl h H f p pd e ac sp d1 fl1 Hok Hp Hpre Hlen
                  Hso1 Hsp_in Hsp_fl1 Hfl1 Hsp_new Hpg _ _ Hqd Hqp) as Hq2.
    assert (Hpin : p ∈ m_child_indices qd).
    { destruct Hqor as [?|Hor]; [done|].
      by apply (p_not_orphan d fl h H f p pd e ac sp d1 fl1 Hok Hp Hpre Hlen
                  Hso1 Hsp_in Hsp_fl1 Hfl1 Hsp_new Hpg) in Hor. }
    assert (Hch : m_child_indices (if decide (m_parent_num pd ∈ moved_children pd e ac)
                                   then with_parent sp qd else qd)
                  = m_child_indices qd).
    { by destruct (decide _). }
    assert (Hspne : sp ≠ INVALID_PAGE).
    { eapply in_stream_not_invalid; [apply (so_pages Hso1)|exact Hsp_in]. }
    eapply (IH _ _ _ _ _ _ _ promoted sp d' Hok2); [| exact Hq2 | | |exact Hrun].
    + unfold all_dirty. simpl. by apply dirty_split_cache.
    + right. rewrite Hch.
      split; [exact Hspne|].
      split; [reflexivity|].
      split; [intros Hnil; rewrite Hnil in Hpin; by apply not_elem_of_nil in Hpin|].
      split.
      { intros Hin.
        destruct (child_facts _ _ _ _ _ Hok _ _ _ Hqd Hin) as (cd & Hcd & _).
        congruence. }
      exists (split_right sp pd e ac). split; [|reflexivity].
      simpl. rewrite lookup_split_cache.
      destruct (decide (sp = p)) as [Heq|_]; [rewrite Heq in Hspc; congruence|].
      by destruct (decide (sp = sp)).
    + change (Z.of_nat (num_pages d1) + Z.of_nat budget < INVALID_PAGE). lia.
Qed.

Lemma add_entry_dirty name eid ty d fl h H b d' :
  tree_ok d fl h H NoFocus → all_dirty d → room d →
  add_entry name eid ty d = Ok (b, d') → all_dirty d'.
Proof.
  intros Hok Hdirty Hroom Hrun. unfold add_entry in Hrun.
  destruct (decide _); [discriminate|].
  apply bind_inv in Hrun as (r & d0 & Hfind & Hrun).
  destruct (find_node_tree _ _ _ _ _ _ _ _ Hok Hfind) as [-> Hres].
  unfold room in Hroom.
  destruct Hres as [[Hroot ->]|(Hroot & node & i & b' & xd & -> & Hx & Hleaf & _)].
  - pose proof (to_empty Hok Hroot) as Hempty.
    destruct (allocate_page_ok d fl (to_stream Hok)) as
      (sp & d1 & fl1 & Ha & Hso1 & Hsp_in & Hsp_fl1 & Hblank & Hfl1 & Hsp_new
         & Hpages & Hcache1 & Hroot1); [lia|].
    rewrite (bind_Ok _ _ _ _ _ Ha) in Hrun.
    unfold set_root_page at 1, modify at 1 in Hrun. unfold bind at 1 in Hrun.
    unfold get_root_node, get_root_page in Hrun.
    unfold bind at 1 2 in Hrun. unfold gets in Hrun. simpl in Hrun.
    assert (Hspne : sp ≠ INVALID_PAGE).
    { eapply in_stream_not_invalid; [apply (so_pages Hso1)|exact Hsp_in]. }
    destruct (decide (sp = INVALID_PAGE)); [contradiction|].
    unfold bind at 1 in Hrun.
    rewrite retrieve_node_blank in Hrun.
    2:{ simpl. by rewrite Hcache1, Hempty. }
    2:{ eapply blank_page_stream; [|exact Hblank]. reflexivity. }
    unfold ret in Hrun.
    erewrite bind_Ok in Hrun by (apply mutable_entries_intro; simpl; apply lookup_insert_eq).
    injection Hrun as <- <-.
    unfold all_dirty. simpl.
    (* the node read from the blank page is replaced at once *)
    rewrite insert_insert_eq. apply dirty_cache_insert; [|done].
    rewrite Hcache1. apply Hdirty.
  - destruct b'.
    + by injection Hrun as <- <-.
    + apply bind_inv in Hrun as ([] & d2 & Hins & Hrun).
      injection Hrun as <- <-. unfold insert_and_balance in Hins.
      apply (insert_and_balance_rec_dirty (BTREE_MAX_DEPTH - 0) d fl h H NoFocus
               node xd (mkEntry name eid (wrap32 ty)) INVALID_PAGE d2 Hok Hdirty Hx);
        [|lia|exact Hins].
      left. auto.
Qed.

Lemma replace_with_sub_entry_dirty d fl h H n nd index depth l d' :
  tree_ok d fl h H NoFocus → all_dirty d → m_node_cache d !! n = Some nd →
  replace_with_sub_entry n index depth d = Ok (l, d') → all_dirty d'.
Proof.
  intros Hok Hdirty Hn Hrun. pose proof (to_nodes Hok _ _ Hn) as Hnok.
  pose proof (Hdirty : dirty_cache (m_node_cache d)) as Hdc.
  unfold replace_with_sub_entry in Hrun. rewrite dir_check_bind in Hrun.
  destruct (bool_decide _) in Hrun; [|discriminate].
  rewrite (bind_Ok _ _ _ _ _ (deref_intro _ _ _ Hn)) in Hrun.
  unfold is_leaf in Hrun.
  destruct (bool_decide (m_child_indices nd = [])) eqn:Hleaf;
    [apply bool_decide_eq_true in Hleaf|apply bool_decide_eq_false in Hleaf].
  - destruct (decide (length (m_entries nd) ≤ index)%nat) as [|Hidx];
      [discriminate|].
    rewrite (bind_Ok _ _ _ _ _ (mutable_entries_intro _ _ _ _ Hn)) in Hrun.
    injection Hrun as <- <-. by apply dirty_cache_insert.
  - destruct (m_child_indices nd !! index) as [c|] eqn:Hc; [|discriminate].
    assert (Hcin : c ∈ m_child_indices nd) by by eapply list_elem_of_lookup_2.
    destruct (child_facts _ _ _ _ _ Hok _ _ _ Hn Hcin)
      as (cd & Hcd & Hcp & _ & _ & Hcne).
    rewrite (bind_Ok _ _ _ _ _ (retrieve_node_resident (m_num nd) c d cd Hcd
               (or_intror (eq_trans (ok_num Hnok) (eq_sym Hcp))))) in Hrun.
    unfold gets at 1 in Hrun. unfold bind at 1 in Hrun.
    apply bind_inv in Hrun as (lf & d0 & Hwalk & Hrun).
    destruct (rightmost_leaf_ok _ _ _ _ _ _ _ _ _ _ Hok Hcd Hcne Hwalk)
      as (-> & ld & Hld & Hlleaf & Hlne).
    rewrite (bind_Ok _ _ _ _ _ (deref_intro _ _ _ Hn)) in Hrun.
    destruct (decide (length (m_entries nd) ≤ index)%nat) as [|Hidx];
      [discriminate|].
    rewrite (bind_Ok _ _ _ _ _ (deref_intro _ _ _ Hld)) in Hrun.
    destruct (last (m_entries ld)) as [e'|] eqn:Hlast; [|discriminate].
    rewrite (bind_Ok _ _ _ _ _ (mutable_entries_intro _ _ _ _ Hn)) in Hrun.
    assert (Hln : lf ≠ n) by congruence.
    set (d1 := set_cache (<[n := with_entries (<[index := e']> (m_entries nd)) nd]>
                            (m_node_cache d)) d) in *.
    assert (Hld1 : m_node_cache d1 !! lf = Some ld).
    { simpl. by rewrite lookup_insert_ne by done. }
    rewrite (bind_Ok _ _ _ _ _ (mutable_entries_intro _ _ _ _ Hld1)) in Hrun.
    injection Hrun as <- <-.
    unfold all_dirty. simpl. by repeat (apply dirty_cache_insert; [|done]).
Qed.

(** [merge] and [rotate] *)
Lemma merge_dirty d fl h H n q l r qd ld rd i sep d' :
  tree_ok d fl h H (Deficient n) → all_dirty d →
  m_node_cache d !! q = Some qd → m_node_cache d !! l = Some ld →
  m_node_cache d !! r = Some rd →
  l ∈ m_child_indices qd → r ∈ m_child_indices qd → l ≠ r → n = l ∨ n = r →
  m_entries qd !! i = Some sep →
  merge l r q i d = Ok (tt, d') → all_dirty d'.
Proof.
  intros Hok Hdirty Hq Hl Hr Hlq Hrq Hlr Hn Hsep Hrun.
  pose proof (Hdirty : dirty_cache (m_node_cache d)) as Hdc.
  destruct (sib_left d fl h H n q l r qd ld rd Hok Hq Hl Hr Hlq Hrq Hlr Hn)
    as (Hpl & Hhl & Hlq' & Hnl).
  destruct (sib_right d fl h H n q l r qd ld rd Hok Hq Hl Hr Hlq Hrq Hlr Hn)
    as (Hpr & Hhr & Hrq' & Hnr).
  destruct (index_of_elem r _ Hrq) as [j Hj].
  assert (Hlrcs : l ∉ m_child_indices rd).
  { intros Hin.
    destruct (sib_kid d fl h H n q l r qd ld rd Hok Hq Hl Hr Hlq Hrq Hlr Hn l)
      as (_ & _ & _ & _ & ? & _); [|done].
    apply elem_of_app. by right. }
  rewrite (merge_eq l r q i d ld rd qd sep j) in Hrun by done.
  set (c1 := <[l:=merged ld rd sep]>
               (reparent l (m_child_indices rd)
                  (<[q:=merge_parent qd i j]> (m_node_cache d)))) in Hrun.
  assert (Hr1 : c1 !! r = Some rd).
  { unfold c1. rewrite lookup_insert_ne by done. rewrite lookup_reparent.
    rewrite lookup_insert_ne by done. rewrite Hr.
    destruct (decide (r ∈ m_child_indices rd)) as [Hin|_]; [|done].
    destruct (sib_kid d fl h H n q l r qd ld rd Hok Hq Hl Hr Hlq Hrq Hlr Hn r)
      as (_ & _ & _ & _ & _ & ? & _); [|done].
    apply elem_of_app. by right. }
  destruct (deallocate_page_ok (set_cache c1 d) fl r) as
    (d1 & Hd & Hso1 & Hpages & Hcache1 & Hroot1).
  { apply (stream_ok_frame d); [reflexivity|reflexivity|apply (to_stream Hok)]. }
  { apply (ok_range (to_nodes Hok _ _ Hr)). }
  { apply (free_not_cached _ _ _ _ _ Hok _ _ Hr). }
  rewrite (del_node_eq r rd (set_cache c1 d) d1 Hr1 Hnr Hd) in Hrun.
  injection Hrun as <-. unfold all_dirty. simpl. rewrite Hcache1. simpl.
  apply dirty_cache_delete. unfold c1.
  by repeat first [apply dirty_cache_insert | apply dirty_cache_reparent].
Qed.

Lemma rotate_dirty d fl h H n q l r qd ld rd i sep d' :
  tree_ok d fl h H (Deficient n) → all_dirty d →
  m_node_cache d !! q = Some qd → m_node_cache d !! l = Some ld →
  m_node_cache d !! r = Some rd →
  l ∈ m_child_indices qd → r ∈ m_child_indices qd → l ≠ r → n = l ∨ n = r →
  m_entries qd !! i = Some sep →
  (MAX_NUM_ENTRIES ≤ length (m_entries ld) + length (m_entries rd))%nat →
  rotate l r q i d = Ok (tt, d') → all_dirty d'.
Proof.
  intros Hok Hdirty Hq Hl Hr Hlq Hrq Hlr Hn Hsep Hsum Hrun.
  pose proof (Hdirty : dirty_cache (m_node_cache d)) as Hdc.
  destruct (sib_left d fl h H n q l r qd ld rd Hok Hq Hl Hr Hlq Hrq Hlr Hn)
    as (Hpl & Hhl & Hlq' & Hnl).
  destruct (sib_right d fl h H n q l r qd ld rd Hok Hq Hl Hr Hlq Hrq Hlr Hn)
    as (Hpr & Hhr & Hrq' & Hnr).
  pose proof (sib_sizes d fl h H n q l r qd ld rd Hok Hq Hl Hr Hlq Hrq Hlr Hn)
    as (_ & _ & _ & Hxl & Hxr).
  destruct (rotate_sizes _ _ Hsum Hxl Hxr) as (Hm1 & Hm2 & Hm3).
  fold (rotate_middle ld rd) in Hm1, Hm2, Hm3.
  destruct (lookup_lt_is_Some_2 (rotate_entries ld rd sep)
              (rotate_middle ld rd)) as [sep' Hsep'].
  { unfold rotate_entries. rewrite !length_app. simpl. lia. }
  rewrite (rotate_eq l r q i d ld rd qd sep sep') in Hrun; try done.
  - injection Hrun as <-. by apply dirty_rotate_cache.
  - apply (sib_leaf d fl h H n q l r qd ld rd Hok Hq Hl Hr Hlq Hrq Hlr Hn).
  - intros Hne.
    destruct (sib_shape d fl h H n q l r qd ld rd Hok Hq Hl Hr Hlq Hrq Hlr Hn)
      as [Hnil|Hs].
    + apply app_eq_nil in Hnil as [? _]. done.
    + unfold rotate_children. rewrite Hs. lia.
  - intros Hin.
    by destruct (sib_kid d fl h H n q l r qd ld rd Hok Hq Hl Hr Hlq Hrq Hlr Hn l Hin)
      as (_ & _ & _ & _ & ? & _).
  - intros Hin.
    by destruct (sib_kid d fl h H n q l r qd ld rd Hok Hq Hl Hr Hlq Hrq Hlr Hn r Hin)
      as (_ & _ & _ & _ & _ & ? & _).
Qed.

(** [balance_up] *)
Lemma balance_up_rec_dirty budget :
  ∀ d fl h H n nd d',
    tree_ok d fl h H (Deficient n) → all_dirty d →
    m_node_cache d !! n = Some nd →
    balance_up_rec budget n d = Ok (tt, d') → all_dirty d'.
Proof.
  induction budget as [|budget IH]; intros d fl h H n nd d' Hok Hdirty Hn Hrun;
    [discriminate|].
  pose proof (Hdirty : dirty_cache (m_node_cache d)) as Hdc.
  pose proof (to_nodes Hok _ _ Hn) as Hnok.
  cbn [balance_up_rec] in Hrun.
  rewrite (bind_Ok _ _ _ _ _ (deref_intro _ _ _ Hn)) in Hrun.
  destruct (decide (m_parent_num nd = INVALID_PAGE)) as [Hroot|Hnonroot].
  - rewrite (bool_decide_eq_true_2 _ Hroot) in Hrun. cbn [andb orb] in Hrun.
    destruct (bool_decide (m_entries nd = [])) eqn:Hes; cbn [andb] in Hrun.
    + destruct (bool_decide (m_child_indices nd = [])) eqn:Hcs;
        [apply bool_decide_eq_true in Hcs|apply bool_decide_eq_false in Hcs];
        cbn [negb] in Hrun.
      * by injection Hrun as <-.
      * rewrite dir_check_bind in Hrun.
        destruct (bool_decide _) eqn:Hone in Hrun; [|discriminate].
        apply bool_decide_eq_true in Hone.
        destruct (m_child_indices nd) as [|c [|c' cs]] eqn:Hch; try discriminate.
        rewrite (bind_Ok _ _ _ _ _ (adjust_children_in_cache_eq _ _ _ _ Hn)) in Hrun.
        rewrite Hch in Hrun.
        assert (Hcin : c ∈ m_child_indices nd) by (rewrite Hch; by left).
        destruct (child_facts _ _ _ _ _ Hok _ _ _ Hn Hcin)
          as (cd & Hcd & Hcp & Hhc & Hcn & Hcne).
        assert (Hn' : reparent INVALID_PAGE [c] (m_node_cache d) !! n = Some nd).
        { rewrite lookup_reparent. destruct (decide (n ∈ [c])) as [Hx|_]; [|done].
          apply list_elem_of_singleton in Hx. congruence. }
        erewrite bind_Ok in Hrun by (apply deref_intro; exact Hn').
        rewrite Hch in Hrun. cbn [head] in Hrun.
        unfold set_root_page at 1, modify at 1 in Hrun. unfold bind at 1 in Hrun.
        cbn [m_stream m_root_page m_start_free_page m_num_free_page m_node_cache
               set_cache] in Hrun.
        match type of Hrun with
        | del_node n ?st = _ => set (dm := st) in *
        end.
        destruct (deallocate_page_ok dm fl n) as
          (d1 & Hd & Hso1 & Hpages & Hcache1 & Hroot1).
        { apply (stream_ok_frame d); [reflexivity|reflexivity|apply (to_stream Hok)]. }
        { apply (ok_range Hnok). }
        { apply (free_not_cached _ _ _ _ _ Hok _ _ Hn). }
        rewrite (del_node_eq n nd dm d1 Hn' (ok_num Hnok) Hd) in Hrun.
        injection Hrun as <-. unfold all_dirty. simpl. rewrite Hcache1. simpl.
        apply dirty_cache_delete.
        by apply (dirty_cache_reparent INVALID_PAGE [c]).
    + by injection Hrun as <-.
  - rewrite (bool_decide_eq_false_2 _ Hnonroot) in Hrun. cbn [andb orb] in Hrun.
    destruct (bool_decide (MAX_NUM_ENTRIES / 2 ≤ length (m_entries nd))%nat) eqn:Hfill.
    + by injection Hrun as <-.
    + destruct (parent_facts _ _ _ _ _ Hok _ _ Hn Hnonroot)
        as (Hh & Hqn & qd & Hqd & Hor).
      rewrite (bind_Ok _ _ _ _ _ (retrieve_existing_node_eq _ _)) in Hrun.
      rewrite Hqd in Hrun.
      destruct (find_sibling_ok d fl h H n nd qd Hok Hn Hnonroot Hqd)
        as (ei & s & sd & Hfs & Hsd & Hsq & Hnq & Hsn & [sep Hsep]).
      rewrite (bind_Ok _ _ _ _ _ Hfs) in Hrun. cbn [fst snd] in Hrun.
      rewrite (bind_Ok _ _ _ _ _ (deref_intro _ _ _ Hn)) in Hrun.
      rewrite (bind_Ok _ _ _ _ _ (deref_intro _ _ _ Hsd)) in Hrun.
      apply bind_inv in Hrun as ([] & d2 & Hstep & Hrun).
      destruct (last (m_entries nd)) as [a|]; [|discriminate].
      destruct (head (m_entries sd)) as [b|]; [|discriminate].
      assert (Hnext : ∃ fl2, tree_ok d2 fl2 h H (Deficient (m_parent_num nd))
                             ∧ is_Some (m_node_cache d2 !! m_parent_num nd)
                             ∧ all_dirty d2).
      { destruct (decide (length (m_entries nd) + length (m_entries sd)
                          < MAX_NUM_ENTRIES)%nat) as [Hsum|Hsum].
        - destruct (entry_less a b).
          + exists (s :: fl).
            destruct (merge_ok d fl h H n (m_parent_num nd) n s qd nd sd Hok Hqd Hn
                        Hsd Hnq Hsq (not_eq_sym Hsn) (or_introl eq_refl) ei sep d2
                        Hsep) as [? ?]; [lia|exact Hstep|].
            split; [done|]. split; [done|].
            apply (merge_dirty d fl h H n (m_parent_num nd) n s qd nd sd ei sep d2);
              try done; first [by apply not_eq_sym | by left | by right | lia].
          + exists (n :: fl).
            destruct (merge_ok d fl h H n (m_parent_num nd) s n qd sd nd Hok Hqd Hsd
                        Hn Hsq Hnq Hsn (or_intror eq_refl) ei sep d2 Hsep) as [? ?];
              [lia|exact Hstep|].
            split; [done|]. split; [done|].
            apply (merge_dirty d fl h H n (m_parent_num nd) s n qd sd nd ei sep d2);
              try done; first [by apply not_eq_sym | by left | by right | lia].
        - destruct (entry_less a b).
          + exists fl.
            destruct (rotate_ok d fl h H n (m_parent_num nd) n s qd nd sd Hok Hqd Hn
                        Hsd Hnq Hsq (not_eq_sym Hsn) (or_introl eq_refl) ei sep d2
                        Hsep) as [? ?]; [lia|exact Hstep|].
            split; [done|]. split; [done|].
            apply (rotate_dirty d fl h H n (m_parent_num nd) n s qd nd sd ei sep d2);
              try done; first [by apply not_eq_sym | by left | by right | lia].
          + exists fl.
            destruct (rotate_ok d fl h H n (m_parent_num nd) s n qd sd nd Hok Hqd Hsd
                        Hn Hsq Hnq Hsn (or_intror eq_refl) ei sep d2 Hsep) as [? ?];
              [lia|exact Hstep|].
            split; [done|]. split; [done|].
            apply (rotate_dirty d fl h H n (m_parent_num nd) s n qd sd nd ei sep d2);
              try done; first [by apply not_eq_sym | by left | by right | lia]. }
      destruct Hnext as (fl2 & Hok2 & [qd2 Hqd2] & Hdirty2).
      by apply (IH d2 fl2 h H (m_parent_num nd) qd2 d').
Qed.

Lemma remove_entry_dirty name d fl h H r d' :
  tree_ok d fl h H NoFocus → all_dirty d →
  remove_entry name d = Ok (r, d') → all_dirty d'.
Proof.
  intros Hok Hdirty Hrun. unfold remove_entry in Hrun.
  destruct (decide _); [discriminate|].
  apply bind_inv in Hrun as (res & d0 & Hfind & Hrun).
  destruct (find_node_tree _ _ _ _ _ _ _ _ Hok Hfind) as [-> Hres].
  destruct Hres as [[Hroot ->]|(Hroot & node & i & b & xd & -> & Hx & _ & _)].
  { by injection Hrun as <- <-. }
  destruct b; [|by injection Hrun as <- <-].
  rewrite (bind_Ok _ _ _ _ _ (deref_intro _ _ _ Hx)) in Hrun.
  destruct (m_entries xd !! i) as [e|]; [|discriminate].
  apply bind_inv in Hrun as (lf & d1 & Hrep & Hrun).
  apply bind_inv in Hrun as ([] & d2 & Hbal & Hrun).
  injection Hrun as <- <-.
  destruct (replace_with_sub_entry_ok _ _ _ _ _ _ _ _ _ _ Hok Hx Hrep)
    as (ld & Hld & Hok1).
  pose proof (replace_with_sub_entry_dirty _ _ _ _ _ _ _ _ _ _ Hok Hdirty Hx Hrep)
    as Hdirty1.
  by apply (balance_up_rec_dirty _ d1 fl h H lf ld d2 Hok1 Hdirty1 Hld Hbal).
Qed.

(** Every directory that the operations make of the empty one is well
    formed, with every resident node dirty. *)
Lemma reachable_dirty d :
  reachable d → ∃ fl h H, tree_ok d fl h H NoFocus ∧ all_dirty d.
Proof.
  induction 1 as [|d name eid ty b d' _ (fl & h & H & Hok & Hdirty) Hroom Hrun
                  |d name r d' _ (fl & h & H & Hok & Hdirty) Hrun].
  - exists [], (λ _, 0%nat), 0%nat. split; [apply tree_ok_empty|].
    intros pg nd Hpg. simpl in Hpg. by rewrite lookup_empty in Hpg.
  - destruct (add_entry_ok name eid ty d fl h H b d' Hok Hroom Hrun)
      as (fl' & h' & H' & Hok').
    exists fl', h', H'. split; [done|].
    by apply (add_entry_dirty name eid ty d fl h H b d').
  - destruct (remove_entry_ok name d fl h H r d' Hok Hrun) as (fl' & h' & H' & Hok').
    exists fl', h', H'. split; [done|].
    by apply (remove_entry_dirty name d fl h H r d').
Qed.

End Dirty.


(** ** What is written out is there when the directory is opened again *)

Section Durable.
Context {P : Params} {HP : ParamsOk}.

(** X19. [flush_cache] writes the dirty nodes and nothing else: when a block
    has room for a full node and every resident node can be written out,
    [flush_cache] returns, keeps the header, leaves every resident node
    clean and otherwise as it was, puts every node that was dirty on its
    page, where [read_node] finds its children and its entries, and leaves
    the block of every other page of the stream as it is. *)
Theorem flush_cache_writes_dirty_nodes d :
  node_fits →
  (∀ pg nd, m_node_cache d !! pg = Some nd → savable pg nd) →
  ∃ d', flush_cache d = Ok (tt, d')
    ∧ m_root_page d' = m_root_page d
    ∧ m_start_free_page d' = m_start_free_page d
    ∧ m_num_free_page d' = m_num_free_page d
    ∧ m_node_cache d' = clear_dirty <$> m_node_cache d
    ∧ (∀ pg nd parent, m_node_cache d !! pg = Some nd → m_dirty nd = true →
         read_node pg (new_node parent pg) d'
         = Ok (mkNode parent pg (m_child_indices nd) (m_entries nd) false, d'))
    ∧ (∀ pg, 0 ≤ pg →
         (∀ nd, m_node_cache d !! pg = Some nd → m_dirty nd = false) →
         (Z.to_nat (page_offset pg) + BLOCK_SIZE ≤ length (m_stream d))%nat →
         stream_read (m_stream d') (page_offset pg) BLOCK_SIZE
         = stream_read (m_stream d) (page_offset pg) BLOCK_SIZE).
Proof.
  intros Hfits Hsav.
  destruct (flush_cache_spec d Hfits Hsav)
    as (d' & Hrun & Hr & Hs & Hf & Hc & Hd & Hframe).
  exists d'. do 5 (split; [done|]). split; [|done].
  intros pg nd parent Hpg Hdirty. by apply (Hd pg nd Hpg (or_introl Hdirty)).
Qed.

(** Written out and opened again, the directory has its tree on the stream. *)
Lemma reopen_loaded d :
  reachable d → node_fits →
  (∀ e, stored d e → encodable_entry e) →
  ∃ d', reopen d = Ok (tt, d') ∧ m_node_cache d' = ∅ ∧ loaded d d'.
Proof.
  intros Hreach Hfits Henc.
  destruct (reachable_dirty d Hreach) as (fl & h & H & Hok & Hdirty).
  destruct (flush_cache_spec d Hfits)
    as (d1 & Hrun & Hr & Hs & Hf & Hc & Hd & Hframe).
  { intros pg nd Hpg. apply (resident_savable d fl h H Hok pg nd Hfits Hpg).
    apply Forall_forall. intros e He. apply Henc. by exists pg, nd. }
  exists (set_cache ∅ d1). split; [|split; [done|]].
  { unfold reopen. by rewrite (bind_Ok _ _ _ _ _ Hrun). }
  constructor; simpl.
  - done.
  - intros pg nd Hpg. by rewrite lookup_empty in Hpg.
  - intros pg nd0 Hpg _. apply (on_disk_block d1); [done|].
    apply (Hd pg nd0 Hpg). left. by apply (Hdirty pg).
Qed.

(** X20. Nothing is lost when the directory is closed and opened again: from
    a directory that [add_entry] and [remove_entry] have made of the empty
    one, with entries that the format can represent and blocks that have
    room for a full node, [flush_cache] followed by [clear_cache] returns
    and leaves an empty cache, and [get_entry] then hands back for every
    name what it handed back before, reading the nodes back from the
    stream. *)
Theorem reopen_keeps_every_entry d :
  reachable d → node_fits →
  (∀ e, stored d e → encodable_entry e) →
  ∃ d', reopen d = Ok (tt, d') ∧ m_node_cache d' = ∅
    ∧ ∀ name r d1, get_entry name d = Ok (r, d1) →
        ∃ d2, get_entry name d' = Ok (r, d2).
Proof.
  intros Hreach Hfits Henc.
  destruct (reachable_tree_ok d Hreach) as (fl & h & H & Hok).
  destruct (reopen_loaded d Hreach Hfits Henc) as (d' & Hrun & Hempty & Hro).
  exists d'. split; [done|]. split; [done|].
  intros name r d0' Hget.
  destruct (get_entry_loaded d fl h H Hok name _ r d0' Hro Hget) as (d2 & Hget2 & _).
  by exists d2.
Qed.

End Durable.

Lemma reference_node_fits : @node_fits reference_params.
Proof. split; vm_compute; [lia|discriminate]. Qed.

(** The nodes of a given cache can be written out: the list of the nodes is
    gone through, and each requirement is settled by evaluation. *)
Ltac encodable_goal :=
  lazymatch goal with
  | |- _ ∉ _ =>
      let Hx := fresh in
      intros Hx; apply list_elem_of_In in Hx; simpl in Hx; intuition discriminate
  | |- _ = _ => reflexivity
  | |- _ < INVALID_PAGE => reflexivity
  | |- _ => lia
  end.

Ltac savable_nodes :=
  repeat first
    [ apply Forall_nil
    | apply Forall_cons; split
    | progress (unfold savable, encodable_entry; simpl; repeat split)
    | encodable_goal ].

Lemma flush_cache_writes_dirty_nodes_witness :
  let d := @after reference_params fifteen_then_remove in
  ∃ d', @flush_cache reference_params d = Ok (tt, d')
    ∧ m_root_page d' = m_root_page d
    ∧ m_start_free_page d' = m_start_free_page d
    ∧ m_num_free_page d' = m_num_free_page d
    ∧ m_node_cache d' = clear_dirty <$> m_node_cache d
    ∧ (∀ pg nd parent, m_node_cache d !! pg = Some nd → m_dirty nd = true →
         @read_node reference_params pg (new_node parent pg) d'
         = Ok (mkNode parent pg (m_child_indices nd) (m_entries nd) false, d'))
    ∧ (∀ pg, 0 ≤ pg →
         (∀ nd, m_node_cache d !! pg = Some nd → m_dirty nd = false) →
         (Z.to_nat (@page_offset reference_params pg) + 4096
          ≤ length (m_stream d))%nat →
         stream_read (m_stream d') (@page_offset reference_params pg) 4096
         = stream_read (m_stream d) (@page_offset reference_params pg) 4096).
Proof.
  apply (@flush_cache_writes_dirty_nodes reference_params
           (@after reference_params fifteen_then_remove) reference_node_fits).
  intros pg nd Hpg. apply elem_of_map_to_list in Hpg. revert pg nd Hpg.
  assert (H : Forall (λ kn, @savable reference_params kn.1 kn.2)
                (map_to_list
                   (m_node_cache (@after reference_params fifteen_then_remove)))).
  { let c := eval vm_compute in
        (map_to_list (m_node_cache (@after reference_params fifteen_then_remove)))
    in assert (Hc : map_to_list
                      (m_node_cache (@after reference_params fifteen_then_remove))
                    = c) by (vm_compute; reflexivity);
       rewrite Hc; clear Hc.
    savable_nodes. }
  intros pg nd Hin. rewrite Forall_forall in H. apply (H (pg, nd) Hin).
Defined.

Lemma reopen_keeps_every_entry_witness :
  let d := @after reference_params fifteen_then_remove in
  ∃ d', @reopen reference_params d = Ok (tt, d') ∧ m_node_cache d' = ∅
    ∧ ∀ name r d1, @get_entry reference_params name d = Ok (r, d1) →
        ∃ d2, @get_entry reference_params name d' = Ok (r, d2).
Proof.
  apply (@reopen_keeps_every_entry reference_params reference_params_ok
           (@after reference_params fifteen_then_remove)).
  - apply (run_reachable fifteen_then_remove empty_directory);
      [apply reach_empty | vm_compute; reflexivity].
  - apply reference_node_fits.
  - intros e He. apply stored_contents in He. revert e He. apply Forall_forall.
    let c := eval vm_compute in
        (contents (@after reference_params fifteen_then_remove))
    in assert (Hc : contents (@after reference_params fifteen_then_remove) = c)
         by (vm_compute; reflexivity);
       rewrite Hc; clear Hc.
    savable_nodes.
Defined.


(** ** [validate_btree_structure] on the trees that the operations build *)

Section Validate.
Context {P : Params} {HP : ParamsOk} {HO : NameOrder}.

Lemma is_sorted_sorted es : sorted_entries es → is_sorted es = true.
Proof.
  induction es as [|a [|b es] IH]; intros Hs; [done|done|].
  cbn [is_sorted]. apply andb_true_iff. split.
  - apply negb_true_iff. unfold entry_less. apply name_less_asym.
    apply (Hs 0%nat 1%nat a b); [done|done|lia].
  - apply IH. intros j k x y Hj Hk Hjk. by apply (Hs (S j) (S k) x y); [| |lia].
Qed.

Section Resident.
Variables (d : BtreeDirectory) (fl : list Z) (h : Z → nat) (H : nat).
Variables (lo hi : Z → bound).
Hypothesis Hok : tree_ok d fl h H NoFocus.
Hypothesis Hkeys : keys_ok d lo hi None.
Set Default Proof Using "All".

(** A node that is not the root has an entry. *)
Lemma child_has_entries n nd c :
  m_node_cache d !! n = Some nd → c ∈ m_child_indices nd →
  ∃ cd a b, m_node_cache d !! c = Some cd
    ∧ retrieve_node (m_num nd) c d = Ok (c, d)
    ∧ last (m_entries cd) = Some a ∧ head (m_entries cd) = Some b
    ∧ a ∈ m_entries cd ∧ b ∈ m_entries cd.
Proof.
  intros Hn Hc.
  destruct (child_facts _ _ _ _ _ Hok _ _ c Hn Hc) as (cd & Hcd & Hcp & _ & _ & Hne).
  pose proof (ok_min (to_nodes Hok _ _ Hcd) Hne) as Hmin.
  pose proof low_entries_min as Hlow.
  destruct (decide (NoFocus = Deficient c)); [done|].
  destruct (m_entries cd) as [|b es] eqn:Hes; [simpl in Hmin; lia|].
  destruct (last (b :: es)) as [a|] eqn:Hlast.
  2:{ by apply last_None in Hlast. }
  exists cd, a, b. split; [done|].
  split.
  { apply (retrieve_node_resident _ c d cd Hcd). right.
    by rewrite (ok_num (to_nodes Hok _ _ Hn)). }
  rewrite Hes. split; [done|]. split; [done|]. split; [|by left].
  apply last_Some in Hlast as [l' ->]. apply elem_of_app. right. by left.
Qed.

(** The loop of [validate_node] returns, whatever the calls one level down
    return, and it returns true. *)
Lemma validate_entries_true (rec : Z → op bool) n nd :
  m_node_cache d !! n = Some nd → m_child_indices nd ≠ [] →
  (∀ c, c ∈ m_child_indices nd → ∃ b, rec c d = Ok (b, d)) →
  ∀ count i, (i + count = length (m_entries nd))%nat →
    validate_entries rec n i count d = Ok (true, d).
Proof.
  intros Hn Hnl Hrec.
  pose proof (to_nodes Hok _ _ Hn) as Hnok.
  pose proof (ko_nodes Hkeys _ _ Hn) as K. simpl in K.
  destruct (ok_shape Hnok) as [|Hshape]; [done|].
  induction count as [|count IH]; intros i Hi; [done|].
  cbn [validate_entries].
  rewrite (bind_Ok _ _ _ _ _ (deref_intro _ _ _ Hn)).
  destruct (lookup_lt_is_Some_2 (m_entries nd) i) as [e He]; [lia|].
  destruct (lookup_lt_is_Some_2 (m_child_indices nd) i) as [lc Hlc]; [lia|].
  destruct (lookup_lt_is_Some_2 (m_child_indices nd) (i + 1)) as [rc Hrc]; [lia|].
  rewrite He, Hlc, Hrc.
  assert (Hlin : lc ∈ m_child_indices nd) by by eapply list_elem_of_lookup_2.
  assert (Hrin : rc ∈ m_child_indices nd) by by eapply list_elem_of_lookup_2.
  destruct (child_has_entries n nd lc Hn Hlin)
    as (ld & la & lb & Hld & Hlret & Hllast & _ & Hlain & _).
  destruct (child_has_entries n nd rc Hn Hrin)
    as (rd & ra & rb & Hrd & Hrret & _ & Hrhead & _ & Hrbin).
  rewrite (bind_Ok _ _ _ _ _ Hlret), (bind_Ok _ _ _ _ _ Hrret).
  destruct (Hrec lc Hlin) as [b1 Hb1]. destruct (Hrec rc Hrin) as [b2 Hb2].
  rewrite (bind_Ok _ _ _ _ _ Hb1), (bind_Ok _ _ _ _ _ Hb2).
  rewrite (bind_Ok _ _ _ _ _ (deref_intro _ _ _ Hld)).
  rewrite (bind_Ok _ _ _ _ _ (deref_intro _ _ _ Hrd)).
  rewrite Hllast, Hrhead.
  assert (H1 : entry_less e la = false).
  { pose proof (ka_beneath (ko_nodes Hkeys _ _ Hld) la Hlain) as Hb.
    rewrite (ka_hi K i lc Hlc) in Hb by done. unfold child_hi in Hb.
    rewrite He in Hb. simpl in Hb. unfold entry_less. by apply name_less_asym. }
  assert (H2 : entry_less rb e = false).
  { pose proof (ka_above (ko_nodes Hkeys _ _ Hrd) rb Hrbin) as Ha.
    rewrite (ka_lo K _ rc Hrc) in Ha. rewrite Nat.add_1_r in Ha. simpl in Ha.
    rewrite He in Ha. simpl in Ha. unfold entry_less. by apply name_less_asym. }
  rewrite H1, H2. simpl. apply IH. lia.
Qed.

(** [validate_node] returns for every node of the tree. *)
Lemma validate_node_rec_returns budget :
  ∀ n nd, m_node_cache d !! n = Some nd →
    ∃ b, validate_node_rec budget n d = Ok (b, d).
Proof.
  induction budget as [|budget IH]; intros n nd Hn; [by eexists|].
  cbn [validate_node_rec].
  rewrite (bind_Ok _ _ _ _ _ (deref_intro _ _ _ Hn)).
  destruct (negb (is_sorted (m_entries nd))); [by eexists|].
  destruct (_ && _); [by eexists|].
  unfold is_leaf.
  destruct (bool_decide (m_child_indices nd = [])) eqn:Hleaf; [by eexists|].
  apply bool_decide_eq_false in Hleaf. simpl. exists true.
  apply (validate_entries_true _ n nd Hn Hleaf); [|lia].
  intros c Hc.
  destruct (child_facts _ _ _ _ _ Hok _ _ c Hn Hc) as (cd & Hcd & _).
  by apply (IH c cd).
Qed.

Lemma validate_root_true budget n nd :
  m_node_cache d !! n = Some nd → m_parent_num nd = INVALID_PAGE →
  validate_node_rec (S budget) n d = Ok (true, d).
Proof.
  intros Hn Hpar. cbn [validate_node_rec].
  rewrite (bind_Ok _ _ _ _ _ (deref_intro _ _ _ Hn)).
  rewrite (is_sorted_sorted _ (ka_sorted (ko_nodes Hkeys _ _ Hn))). simpl.
  rewrite (bool_decide_eq_false_2 (m_parent_num nd ≠ INVALID_PAGE)) by auto.
  simpl. unfold is_leaf.
  destruct (bool_decide (m_child_indices nd = [])) eqn:Hleaf; [done|].
  apply bool_decide_eq_false in Hleaf. simpl.
  apply (validate_entries_true _ n nd Hn Hleaf); [|lia].
  intros c Hc.
  destruct (child_facts _ _ _ _ _ Hok _ _ c Hn Hc) as (cd & Hcd & _).
  by apply (validate_node_rec_returns budget c cd).
Qed.

Unset Default Proof Using.
End Resident.

(** X21. [validate_btree_structure] raises no false alarm: on every
    directory that [add_entry] and [remove_entry] make of the empty one it
    returns true and changes nothing. *)
Theorem validate_btree_structure_accepts_built_trees d :
  reachable d → validate_btree_structure d = Ok (true, d).
Proof.
  intros Hreach.
  destruct (reachable_sorted d Hreach) as [(fl & h & H & lo & hi & Hok & Hkeys) _].
  unfold validate_btree_structure.
  destruct (decide (m_root_page d = INVALID_PAGE)) as [Hroot|Hroot].
  - by rewrite (bind_Ok _ _ _ _ _ (get_root_node_none d Hroot)).
  - destruct (to_root Hok Hroot) as (rd & Hrd & Hpar & _).
    rewrite (bind_Ok _ _ _ _ _ (get_root_node_resident d rd Hroot Hrd)).
    unfold validate_node. rewrite Nat.sub_0_r, Nat.add_1_r.
    by apply (validate_root_true d fl h H lo hi Hok Hkeys _ _ rd).
Qed.

End Validate.

Lemma validate_btree_structure_accepts_built_trees_witness :
  @validate_btree_structure reference_params
    (@after reference_params fifteen_then_remove)
  = Ok (true, @after reference_params fifteen_then_remove).
Proof.
  apply (@validate_btree_structure_accepts_built_trees reference_params
           reference_params_ok reference_name_order).
  apply (run_reachable fifteen_then_remove empty_directory);
    [apply reach_empty | vm_compute; reflexivity].
Defined.


(** ** Two spellings of a name *)

Section Spellings.
Context {P : Params}.






End Spellings.

Section TwoSpellings.
Variable less : list byte → list byte → bool.
Let Q : Params := with_order less reference_params.
Let eFoo := Eval vm_compute in mkEntry (name_of "Foo") (@id_for reference_params (name_of "Foo")) 0.
Let efoo := Eval vm_compute in mkEntry (name_of "foo") (@id_for reference_params (name_of "foo")) 0.
Let d1 := Eval vm_compute in
  state_after (@add_entry reference_params (name_of "Foo")
                 (@id_for reference_params (name_of "Foo")) 0) empty_directory.
Let nd1 := mkNode INVALID_PAGE 0 [] [eFoo] true.
Let d2 := set_cache (<[0 := @inserted Q nd1 efoo INVALID_PAGE]> (m_node_cache d1)) d1.






Hypothesis HO : @NameOrder Q.





End TwoSpellings.




(** ** The public operations on a directory that is not all resident *)

Section Lazy.
Context {P : Params} {HP : ParamsOk}.

Section Listing.
Variables (d0 : BtreeDirectory) (fl : list Z) (h : Z → nat) (H : nat).
Hypothesis Hok : tree_ok d0 fl h H NoFocus.
Set Default Proof Using "All".





Unset Default Proof Using.
End Listing.

(** *** An entry added to a leaf with room, and removed again *)

Section Mending.
Variables (d0 : BtreeDirectory) (fl : list Z) (h : Z → nat) (H : nat).
Variables (name eid : list byte) (ty : Z) (lf : Z) (ld : BtreeNode) (j : nat).
Hypothesis Hok : tree_ok d0 fl h H NoFocus.
Hypothesis name_less_irrefl : name_less name name = false.
Hypothesis name_less_trans :
  ∀ a b c, name_less a b = true → name_less b c = true → name_less a c = true.
Hypothesis Hlf : m_node_cache d0 !! lf = Some ld.
Hypothesis Hleaf : m_child_indices ld = [].
Hypothesis Hsorted : sorted_entries (m_entries ld).
Hypothesis Hfits : (length (m_entries ld) < MAX_NUM_ENTRIES)%nat.
Hypothesis Hfill :
  m_parent_num ld ≠ INVALID_PAGE →
  (MAX_NUM_ENTRIES / 2 ≤ length (m_entries ld))%nat.
Hypothesis Hdepth : (0 < BTREE_MAX_DEPTH)%nat.
Hypothesis Hname : (length name ≤ MAX_FILENAME_LENGTH)%nat.
Hypothesis Hfind : find_node name d0 = Ok ((Some lf, j, false), d0).
Set Default Proof Using "All".

Let e := mkEntry name eid (wrap32 ty).
Let i := lower_bound (entry_less_name name) (m_entries ld).
Let d1 := set_cache (<[lf := inserted ld e INVALID_PAGE]> (m_node_cache d0)) d0.



Unset Default Proof Using.
End Mending.

End Lazy.


(** ** Calls that leave the tree as it is *)

Section Unchanged.
Context {P : Params} {HP : ParamsOk}.



End Unchanged.

Section Present.
Context {P : Params} {HP : ParamsOk} {HO : NameOrder}.


End Present.






